(* ===== verification/_CoqProject ===== *)
-Q . S2P
Prelude.v
Effects.v
PyStr.v
Json.v
JsonText.v
Tokens.v
Jid.v
Node.v
Encoder.v
Decoder.v
Codec.v
Sha256.v
Crypto.v
LtHash.v
AppCrypto.v
AppPatches.v
AppStore.v
AppFetch.v
AppSync.v
AppEvents.v
SignalKeys.v
X3dh.v
SignalTypes.v
Ratchet.v
RatchetProofs.v
SenderKey.v
SessionStore.v
LidMap.v
PeerStores.v
Prekey.v
Primes.v
EdwardsGroup.v
Sha512.v
Ed25519.v
Curve25519.v
EdCodec.v
Xeddsa.v
Noise.v
NoiseProofs.v
FrameSocket.v
Outbox.v
Media.v
Stanzas.v
PeerSessions.v
PeerTalk.v
Messages.v
Attachments.v
Sender.v
SenderProofs.v
Receiver.v
ReceiverProofs.v
Delivery.v
DeviceStore.v
Pairing.v
PairingProofs.v
IqLine.v
TaskLog.v
Requests.v
Activator.v
History.v
Client.v
ClientResume.v
ClientCalls.v
