(* ===== verification/Prelude.v ===== *)
(** * pywhats, verified

    pywhats (under [src/src/pywhats/]) is a Python client for the WhatsApp multi-device
    protocol. This library models its protocol core as executable functions and proves
    what the layers of the client rely on. This file is the root: after this header it
    holds the shared prelude (bytes, exceptions, the [result] and [SE] monads, ordered
    dictionaries, little- and big-endian integers, slices).

    ** How the program fits together

    A websocket carries length-prefixed frames ([socket/transport.py]); a Noise XX
    handshake over the frames yields an encrypted, ordered channel ([socket/noise.py]).
    Every message on the channel is a binary stanza, a node with a tag, attributes and
    content ([binary/]). Peer messages inside stanzas are Signal ciphertexts: X3DH
    sessions with a Double Ratchet for each pair of devices, sender keys for groups
    ([signal/experimental/]), set up from pre-key bundles that devices upload and fetch
    ([messaging/prekey.py]); state lives in memory or in SQLite. Independently, the
    server replicates account settings as app-state collections authenticated by an
    LT-hash ([appstate/]). The messaging layer ([messaging/]) builds and parses the
    stanzas of presence, receipts, device discovery and groups, and media files travel
    encrypted over HTTP ([media/]).

    ** Files and sources

    Language and standard library of Python:
    - PyStr: [str], UTF-8, [int(s)], [str(n)], [split]; Json, JsonText: JSON values, their
      text printer and parser, [bytes.hex], [base64]; Sha256, Sha512: [hashlib], [hmac].
    - Crypto: the [cryptography] package as type classes with laws (HKDF, AES-CBC,
      HMAC-SHA512, X25519, the AEADs), each with a toy instance for the witnesses.

    Binary stanzas ([binary/]):
    - Tokens ([tokens.py]), Jid ([jid.py]), Node ([node.py]), Encoder ([encoder.py]),
      Decoder ([decoder.py]); Codec relates encoder and decoder.

    App state ([appstate/]):
    - LtHash ([lthash.py]), AppCrypto ([crypto.py], [keys.py]), AppPatches ([patches.py]),
      AppStore ([store.py] and its SQLite counterpart), AppFetch ([fetch.py]), AppSync (the
      integrity invariant of the two), AppEvents ([events.py]).

    Signal ([signal/experimental/]):
    - SignalKeys ([keys.py]), X3dh ([x3dh.py]), SignalTypes ([types.py]), Ratchet and
      RatchetProofs ([ratchet.py]), SenderKey ([sender_key.py]), SessionStore ([store.py],
      ratchet state as JSON, in memory and in SQLite), LidMap ([lid_map.py]), PeerStores
      ([identity_store.py], [prekey_store.py], sender-key tables, session addressing of
      [messaging/addressing.py]), Prekey ([messaging/prekey.py]).
    - Primes (certificates for the field modulus and the group order), EdwardsGroup (the
      group law of a twisted Edwards curve), Ed25519 ([_ed25519.py], executable),
      Curve25519 and EdCodec (its points form that group; compression is injective),
      Xeddsa (XEdDSA of [keys.py], which instantiates the interface of SignalKeys).

    Transport ([socket/]):
    - Noise ([crypto.py], [noise.py], with the responder of [src/tests/fakeserver/noise.py]),
      NoiseProofs (both ends over a pipe), FrameSocket ([transport.py] as a state machine).

    Messaging and media:
    - Outbox ([padding.py], [ids.py], [router.py]), Stanzas ([presence.py], [group.py],
      [usync.py], [ib.py]), Media ([media/crypto.py], [upload.py], [download.py]).

    Composition:
    - PeerSessions (the Signal sessions of a device with its peers, the part of [sender.py]
      and [receiver.py] that uses the stores, and [SqliteStore.transaction]); PeerTalk (two
      devices, each with its own stores, that exchange what PeerSessions seals).
    - Effects (what a computation of the monad keeps, with its hint database); Messages
      (the message types of [proto/e2e.proto], the payloads of [events.py], building and
      reading messages); Attachments (upload, announcement and download of a file, and the
      download of what an app-state patch refers to).
    - Sender and SenderProofs ([messaging/sender.py]); Receiver and ReceiverProofs
      ([messaging/receiver.py], with [ReceiverProofs.reading] as what the sender waits for).
    - Delivery (from [Sender.send_message] at one device to the event that [Receiver] emits
      at another).

    Device and pairing:
    - DeviceStore ([store.py], the directory it saves into and the calls that may fail);
      Pairing and PairingProofs ([pairing.py] and [version.py]).

    Coroutines and the client:
    - IqLine (any number of coroutines over the shared iq map, message ids and transport, as
      programs [proc] that a step relation interleaves with replies, timeouts, failures and
      cancellations); TaskLog (the log of such a system: what each task drew, changed, sent
      and got, in order); Requests (those of [prekey.py], [usync.py] and [_send_iq] of
      [client.py]); Activator ([messaging/activator.py]); History ([history.py]).
    - Client ([client.py]: [connect] with pairing and login, the background reader and
      the tasks it starts, the keepalive's verdict, the success handler, [disconnect], as steps on the client's
      attributes); ClientResume (the client over DeviceStore and Pairing, to the next start
      of the process); ClientCalls (the public calls against the interface
      [ClientCalls.Wires], which [live_wires] implements with Sender, Attachments and Media).

    State is explicit. A method that mutates an object is a computation of the monad
    [SE S], which keeps the writes made before an exception; a pure fallible function is a
    [result]. A Python dictionary whose order is visible is an association list with
    [dict_get] and [dict_set]; otherwise it is a [gmap]. Random bytes, fresh key pairs and
    clock readings are arguments. Tasks that interleave are step functions over events
    (FrameSocket, Outbox) or processes over a channel (Noise).

    ** What the theorems show

    - Codec: encoding is inverted by decoding, exactly on canonical stanzas and up to the
      wire view on all; decoding is total; the token tables are bijective (Codec, Tokens,
      Jid).
    - App state: the LT-hash is a function of the multiset of items; a well-formed reply keeps
      the stored hash equal to the sum of the stored MACs whatever exception decoding
      raises, and what a write that fails between the cursor and the MACs leaves is
      characterised; accepted patches are authentic and sealed mutations decode; both stores agree
      (LtHash, AppSync, AppPatches, AppStore, AppCrypto, AppEvents).
    - Signal: X3DH agreement, ratchet delivery in any order, conversations, the bound of
      the skipped-key cache, group sessions, envelopes, XEdDSA over a verified curve
      (X3dh, RatchetProofs, SenderKey, SignalTypes, Xeddsa).
    - Persistence: in-memory and SQLite stores are indistinguishable, through JSON text,
      hex and base64 (SessionStore, PeerStores, LidMap, Prekey).
    - Transport: the handshake agrees under every schedule, the channel is two queues,
      frames arrive in order, and a closed socket wakes its reader (NoiseProofs,
      FrameSocket).
    - Messaging: message ids that do not repeat within the ring of the last 4096 or, clock
      permitting, the hour, settle-once acknowledgement futures, verified media,
      well-formed device lists (Outbox, Media, Stanzas).
    - Composition: two devices converse through their stores, a failed decryption is
      harmless (PeerTalk); attachments arrive (Attachments); a send leaves the router
      clean and stays within two stanzas, retry receipts within two more (SenderProofs); a
      message leads to one event, keys come from our own account only, the reader gives
      the sender what it assumes, and where it does not (ReceiverProofs); what one device
      sends, another reports as the event of that message (Delivery).
    - Device and pairing: a save is atomic and what is saved loads, a load accepts only a
      private file of this schema (DeviceStore); credentials are stored only for an identity
      authenticated by the QR secret and by the account key, and a phone that follows the
      protocol is accepted (PairingProofs).
    - Coroutines: an id left in the iq map belongs to a task in flight, a task that ended
      did what its program does alone, and one without a timeout ends by its reply (IqLine);
      the log of the system has its wire and its state (TaskLog), and in it a refill stores a
      batch with fresh ids in the store before it publishes it (Requests); the activation
      does each of its steps past every failure, the keepalive gives up exactly after so many (Activator); a chunk
      of history arrives as one event (History).
    - The client: a connected client has all its calls use, and [disconnect] is final and
      idempotent, but for the history and server-sync tasks that it does not cancel (Client); a client that has paired logs in after a restart
      (ClientResume); a message call makes the recipient's reader report what the caller
      meant (ClientCalls, with Delivery).

    ** Bounds and fuel

    The loops that are not structural carry fuel, and each has a lemma that the fuel its
    caller passes is enough: a string of n code points gives [write_string] fuel n + 1
    ([write_string_eq]); every round of [_read_node] consumes a byte, so the unread bytes
    plus one suffice ([decode_never_out_of_fuel]); [parse_frames] consumes at least three
    bytes a round and gets the message length; the JSON scanner gets the text length
    ([json_roundtrip]); [dec_digits] gets the bit length, no less than the number of digits. A round of collection fetching that
    runs out of replies waits for ever in the code and is [OutOfFuel] in the model.
    Machine integers occur as bytes, 16-bit LT-hash words, SHA words and the [uint32] and
    [uint64] fields of protobuf, whose range checks raise; all other integers are
    Python's. The nonce bound of the Noise transport is that of the rekey interval.

    ** Assumptions

    The Unicode database, zlib, the protobuf codecs, the protobuf messages themselves and
    the [cryptography] primitives are third-party or generated code: they are parameters
    with laws (a parser inverts its serialiser, decryption inverts encryption, Diffie-Hellman
    commutes, digests have their length). No law states secrecy or unforgeability.
    Tables are keyed by their primary key, one SQLite statement is atomic, [TEXT] holds
    valid Unicode, the monotonic clock counts nanoseconds, and task cancellation inside an
    [await] is modelled only where the code handles it. Recursion limits and memory
    exhaustion are not modelled, nor is logging.
    What other tasks do while a send waits for its acknowledgement is an environment
    constrained by [SenderProofs.fair]; while it fetches devices and pre-keys and while the
    transport writes, they are taken to leave the state of the sender alone. Between two
    awaits a task runs alone, as in asyncio.
    The database may fail any write of an app-state cursor or MAC, after any number of rows;
    reads of that store and [delete_version] are taken to succeed. Readings of the clock
    for message ids may be out of the order in which their callers get the lock, by at most
    a lag that is a parameter. The effects
    of the user's event handlers are outside the model: an event is recorded.
    The server hands a participant's node to its device under the attributes that
    [Delivery.relays] lists, and changes nothing else.
    The device store sees its directory as a finite map from paths to files with every state
    kept as history; which of its calls fail is a parameter. The Pairer's transport, clock
    and QR handler are a list of rounds; without another round it still waits.
    The ping loop is given a number of rounds, any number in its theorem. A task of IqLine is a
    program whose reads and writes of the shared state are atomic up to
    its next await. A [connect] of Client is one step: nothing else happens to the client
    while it waits for the network. [disconnect] is one step too. [live_wires] takes the answers to its iqs as a function;
    Requests has the same coroutines as tasks.

    ** Not modelled

    The intervals of the keepalive and the other sleeps are events, not time. Opening the SQLite
    file, the websocket and the default HTTP functions are I/O; logging is left out. The
    modules of [_install_messaging] are wired by the arguments of the definitions of
    their files. [errors.py] declares exceptions, the constructors of [exn] below; the codecs
    in [proto/] are generated. *)

From stdpp Require Export base tactics option list gmap strings.
From Stdlib Require Export ZArith Lia.
From Stdlib Require Strings.Byte.

#[export] Set Default Goal Selector "!".
#[global] Open Scope Z_scope.

(** ** Bytes

    A Python [bytes] value is a list of [Byte.byte]; a byte read as an integer
    is [b2z], and storing an integer into a [bytearray] is the partial [z2b]. *)

Abbreviation byte := Byte.byte.
Abbreviation bytes := (list Byte.byte).

(** ** Python strings: sequences of code points *)

Abbreviation str := (list Z).

#[global] Instance byte_eq_dec : EqDecision byte := Byte.byte_eq_dec.

#[global] Instance byte_inhabited : Inhabited byte := populate Byte.x00.

#[global, program] Instance byte_countable : Countable byte :=
  inj_countable Byte.to_N Byte.of_N _.
Next Obligation. intros b. apply Byte.of_to_N. Qed.

Definition b2z (b : byte) : Z := Z.of_N (Byte.to_N b).

Definition z2b (z : Z) : option byte :=
  if (0 <=? z) && (z <? 256) then Byte.of_N (Z.to_N z) else None.

(** The byte holding the low eight bits of [z]. *)
Definition mkb (z : Z) : byte := default Byte.x00 (Byte.of_N (Z.to_N (z mod 256))).

(** ** Exceptions *)

(** The exception classes the modelled code raises. [UnicodeError] stands for
    [UnicodeDecodeError] and [UnicodeEncodeError], subclasses of [ValueError], as is
    [JSONDecodeError]. *)
Inductive exn : Type :=
  | ValueError
  | UnicodeError
  | JSONDecodeError
  | TypeError
  | AttributeError
  | KeyError
  | IndexError
  | OverflowError
  | AssertionError
  | RuntimeError
  | ZlibError
  | ProtobufError
  | SignalCryptoError
  | SenderKeyError
  | InvalidSenderKeySignature
  | AppStateKeyNotFound
  | ContentMacMismatch
  | IndexMacMismatch
  | SnapshotMacMismatch
  | PatchMacMismatch
  | HandshakeError
  | InvalidTag
  | PairingFailed
  | NotConnected
  | ConnectionClosed
  | StoreError
  | StoreSecurityError
  | StoreCorruptError
  | StoreVersionError
  | MediaEncSha256Mismatch
  | MediaHmacMismatch
  | MediaSha256Mismatch
  | IntegrityError
  | OSError
  | FileNotFoundError
  | TimeoutError
  | CancelledError
  | OutOfFuel.

#[global] Instance exn_eq_dec : EqDecision exn.
Proof. solve_decision. Defined.

(** [except ValueError] also catches its subclasses. *)
Definition is_ValueError (e : exn) : bool :=
  match e with ValueError | UnicodeError | JSONDecodeError => true | _ => false end.

(** [except OSError] *)
Definition is_OSError (e : exn) : bool := match e with OSError | FileNotFoundError | TimeoutError => true | _ => false end.

(** [except Exception] does not catch [asyncio.CancelledError]. *)
Definition is_Exception (e : exn) : bool := match e with CancelledError => false | _ => true end.

(** ** The error monad *)

Inductive result (A : Type) : Type :=
  | Ok (a : A)
  | Raise (e : exn).
Arguments Ok {A} a.
Arguments Raise {A} e.

#[global] Instance result_ret : MRet result := @Ok.
#[global] Instance result_bind : MBind result := λ A B f m,
  match m with Ok a => f a | Raise e => Raise e end.
#[global] Instance result_fmap : FMap result := λ A B f m,
  match m with Ok a => Ok (f a) | Raise e => Raise e end.

#[global] Instance result_eq_dec `{EqDecision A} : EqDecision (result A).
Proof. solve_decision. Defined.

Definition is_ok {A} (r : result A) : bool := match r with Ok _ => true | Raise _ => false end.

Definition ok_or {A} (a : A) (r : result A) : A := match r with Ok a => a | Raise _ => a end.

(** [if not c: raise e] *)
Definition guard_or (c : bool) (e : exn) : result unit := if c then Ok tt else Raise e.

(** [if x is None: raise e] *)
Definition some_or {A} (o : option A) (e : exn) : result A :=
  match o with Some a => Ok a | None => Raise e end.

Fixpoint mapR {A B} (f : A → result B) (l : list A) : result (list B) :=
  match l with
  | [] => Ok []
  | x :: l => y ← f x; ys ← mapR f l; Ok (y :: ys)
  end.

(** ** The state-and-exception monad

    Code that mutates an object and may raise: the mutations made before an
    exception stay. *)

Definition SE (S A : Type) : Type := S → S * result A.

#[global] Instance se_ret {S} : MRet (SE S) := λ A a s, (s, Ok a).
#[global] Instance se_bind {S} : MBind (SE S) := λ A B f m s,
  match m s with
  | (s, Ok a) => f a s
  | (s, Raise e) => (s, Raise e)
  end.

Definition se_raise {S A} (e : exn) : SE S A := λ s, (s, Raise e).
Definition se_lift {S A} (r : result A) : SE S A := λ s, (s, r).
Definition se_get {S} : SE S S := λ s, (s, Ok s).
(** A field of the object. *)
Definition se_asks {S A} (f : S → A) : SE S A := λ s, (s, Ok (f s)).
Definition se_put {S} (s : S) : SE S unit := λ _, (s, Ok tt).

(** [try: m; except e if catches e: h e] *)
Definition se_try {S A} (m : SE S A) (catches : exn → bool) (h : exn → SE S A) : SE S A := λ s,
  match m s with
  | (s, Raise e) => if catches e then h e s else (s, Raise e)
  | r => r
  end.

(** A loop over the elements of a list, threading an accumulator. *)
Fixpoint se_fold {S A B} (f : B → A → SE S B) (acc : B) (l : list A) : SE S B :=
  match l with
  | [] => mret acc
  | x :: l => acc ← f acc x; se_fold f acc l
  end.

(** ** Python slices and truthiness *)

Definition truthy {A} (l : list A) : bool := match l with [] => false | _ => true end.

(** [l[-n:]] and [l[:-n]] for [0 < n]. *)
Definition suffix_from {A} (n : nat) (l : list A) : list A := drop (length l - n) l.
Definition prefix_upto {A} (n : nat) (l : list A) : list A := take (length l - n) l.

(** [l[a:b]] for [0 <= a <= b]. *)
Definition slice {A} (a b : nat) (l : list A) : list A := take (b - a) (drop a l).

(** ** Integers as bytes: [int.to_bytes] and [int.from_bytes] *)

Fixpoint le_bytes (n : nat) (z : Z) : bytes :=
  match n with O => [] | S n => mkb z :: le_bytes n (z / 256) end.

Definition be_bytes (n : nat) (z : Z) : bytes := rev (le_bytes n z).

Fixpoint le_val (bs : bytes) : Z :=
  match bs with [] => 0 | b :: bs => b2z b + 256 * le_val bs end.

Definition be_val (bs : bytes) : Z := le_val (rev bs).

(** [z.to_bytes(n, "big")] and [z.to_bytes(n, "little")]. *)
Definition to_bytes_big (n : nat) (z : Z) : result bytes :=
  if (0 <=? z) && (z <? 256 ^ Z.of_nat n) then Ok (be_bytes n z) else Raise OverflowError.

Definition to_bytes_little (n : nat) (z : Z) : result bytes :=
  if (0 <=? z) && (z <? 256 ^ Z.of_nat n) then Ok (le_bytes n z) else Raise OverflowError.

(** ** Python dictionaries, with their insertion order *)

Section Dict.
Context {K V : Type} `{EqDecision K}.

Fixpoint dict_get (k : K) (d : list (K * V)) : option V :=
  match d with
  | [] => None
  | (k', v) :: d => if decide (k = k') then Some v else dict_get k d
  end.

(** [d[k] = v]: an existing key keeps its place, a new one goes last. *)
Fixpoint dict_set (k : K) (v : V) (d : list (K * V)) : list (K * V) :=
  match d with
  | [] => [(k, v)]
  | (k', v') :: d => if decide (k = k') then (k, v) :: d else (k', v') :: dict_set k v d
  end.

(** [d.pop(k, None)] as the remaining dictionary. *)
Fixpoint dict_del (k : K) (d : list (K * V)) : list (K * V) :=
  match d with
  | [] => []
  | (k', v') :: d => if decide (k = k') then d else (k', v') :: dict_del k d
  end.

Definition dict_keys (d : list (K * V)) : list K := d.*1.

(** A list of pairs is the items view of a dictionary when its keys differ. *)
Definition dict_ok (d : list (K * V)) : Prop := NoDup (dict_keys d).

Lemma dict_get_elem k v d : dict_get k d = Some v → (k, v) ∈ d.
Proof.
  induction d as [|[k' v'] d IH]; simpl; [done|].
  case_decide; [intros; simplify_eq; left|right; auto].
Qed.

Lemma dict_get_None k d : dict_get k d = None ↔ k ∉ dict_keys d.
Proof.
  unfold dict_keys. induction d as [|[k' v'] d IH]; simpl; [by rewrite elem_of_nil; naive_solver|].
  rewrite not_elem_of_cons. case_decide; naive_solver.
Qed.

Lemma elem_dict_get k v d : dict_ok d → (k, v) ∈ d → dict_get k d = Some v.
Proof.
  unfold dict_ok, dict_keys. induction d as [|[k' v'] d IH]; simpl; [set_solver|].
  rewrite NoDup_cons. intros [Hk Hd] [Heq|Hin]%elem_of_cons.
  - simplify_eq. by rewrite decide_True.
  - rewrite decide_False; [auto|]. intros ->. apply Hk.
    change k' with (fst (k', v)). by apply list_elem_of_fmap_2.
Qed.

Lemma dict_get_set_eq k v d : dict_get k (dict_set k v d) = Some v.
Proof.
  induction d as [|[k' v'] d IH]; simpl; [by rewrite decide_True|].
  case_decide; simpl; [by rewrite decide_True|by rewrite decide_False].
Qed.

Lemma dict_get_set_ne k k' v d : k ≠ k' → dict_get k' (dict_set k v d) = dict_get k' d.
Proof.
  intros Hne. induction d as [|[k2 v2] d IH]; simpl; [by rewrite decide_False|].
  repeat (case_decide; simpl; simplify_eq; try done).
Qed.

Lemma dict_keys_set k v d :
  dict_keys (dict_set k v d) = if decide (k ∈ dict_keys d) then dict_keys d
                               else dict_keys d ++ [k].
Proof.
  unfold dict_keys. induction d as [|[k' v'] d IH]; [done|].
  cbn [dict_set]. destruct (decide (k = k')) as [->|Hne]; rewrite !fmap_cons; simpl fst.
  - destruct (decide (k' ∈ k' :: d.*1)); [done|]. exfalso; set_solver.
  - rewrite IH. destruct (decide (k ∈ d.*1)), (decide (k ∈ k' :: d.*1)); set_solver.
Qed.

Lemma dict_set_new k v d : k ∉ dict_keys d → dict_set k v d = d ++ [(k, v)].
Proof.
  unfold dict_keys. induction d as [|[k' v'] d IH]; simpl; [done|].
  intros Hk. rewrite decide_False; [|set_solver]. rewrite IH; [done|set_solver].
Qed.

Lemma dict_set_ok k v d : dict_ok d → dict_ok (dict_set k v d).
Proof.
  unfold dict_ok. rewrite dict_keys_set. case_decide; [done|].
  intros. apply NoDup_app. split_and!; [done|set_solver|apply NoDup_singleton].
Qed.

Lemma dict_keys_del k d : dict_keys (dict_del k d) ⊆ dict_keys d.
Proof.
  unfold dict_keys. induction d as [|[k' v'] d IH]; simpl; [done|].
  case_decide; simpl; set_solver.
Qed.

Lemma dict_del_ok k d : dict_ok d → dict_ok (dict_del k d).
Proof.
  unfold dict_ok. induction d as [|[k' v'] d IH]; simpl; [done|].
  rewrite NoDup_cons. intros [Hk Hd]. case_decide; [done|]. simpl.
  apply NoDup_cons. split; [|auto]. pose proof (dict_keys_del k d). set_solver.
Qed.

Lemma dict_get_del_ne k k' d : k ≠ k' → dict_get k' (dict_del k d) = dict_get k' d.
Proof.
  intros Hne. induction d as [|[k2 v2] d IH]; simpl; [done|].
  repeat (case_decide; simpl; simplify_eq; try done).
Qed.

Lemma dict_get_del_eq k d : dict_ok d → dict_get k (dict_del k d) = None.
Proof.
  unfold dict_ok. induction d as [|[k' v'] d IH]; simpl; [done|].
  rewrite NoDup_cons. intros [Hk Hd].
  destruct (decide (k = k')) as [->|]; [by apply dict_get_None|].
  simpl. rewrite decide_False by done. auto.
Qed.

Lemma length_dict_del k d :
  length (dict_del k d) = if decide (k ∈ dict_keys d) then pred (length d) else length d.
Proof.
  unfold dict_keys. induction d as [|[k' v'] d IH]; [done|].
  cbn [dict_del]. destruct (decide (k = k')) as [->|Hne]; rewrite !fmap_cons; simpl fst.
  - destruct (decide (k' ∈ k' :: d.*1)); [done|]. exfalso; set_solver.
  - cbn [length]. rewrite IH.
    destruct (decide (k ∈ d.*1)), (decide (k ∈ k' :: d.*1)); [|set_solver|set_solver|done].
    destruct d; [set_solver|done].
Qed.
End Dict.

(** ** Lemmas on the error monad *)

Lemma bind_Ok_inv {A B} (m : result A) (f : A → result B) b :
  m ≫= f = Ok b → ∃ a, m = Ok a ∧ f a = Ok b.
Proof. destruct m; naive_solver. Qed.

#[global] Instance Ok_inj {A} : Inj (=) (=) (@Ok A).
Proof. by intros x y [= ->]. Qed.

Lemma bind_Raise_inv {A B} (m : result A) (f : A → result B) e :
  m ≫= f = Raise e → m = Raise e ∨ ∃ a, m = Ok a ∧ f a = Raise e.
Proof. destruct m; naive_solver. Qed.

Lemma guard_or_Ok c e u : guard_or c e = Ok u → c = true.
Proof. by destruct c. Qed.

Lemma some_or_Ok {A} (o : option A) e a : some_or o e = Ok a → o = Some a.
Proof. by destruct o; intros; simplify_eq/=. Qed.

Lemma mapR_length {A B} (f : A → result B) l l' : mapR f l = Ok l' → length l' = length l.
Proof.
  revert l'. induction l as [|x l IH]; intros l' H; simpl in H; [by simplify_eq|].
  apply bind_Ok_inv in H as (y & _ & H). apply bind_Ok_inv in H as (ys & Hys & [= <-]).
  simpl. f_equal. eauto.
Qed.

Lemma mapR_Forall2 {A B} (f : A → result B) l l' :
  mapR f l = Ok l' ↔ Forall2 (λ x y, f x = Ok y) l l'.
Proof.
  split.
  - revert l'. induction l as [|x l IH]; intros l' H; simpl in H; [simplify_eq; constructor|].
    apply bind_Ok_inv in H as (y & ? & H). apply bind_Ok_inv in H as (ys & Hys & [= <-]).
    constructor; auto.
  - induction 1 as [|x y l l' Hxy _ IH]; simpl; [done|]. by rewrite Hxy, IH.
Qed.

Lemma se_bind_Ok_inv {S A B} (m : SE S A) (f : A → SE S B) s s' b :
  (m ≫= f) s = (s', Ok b) → ∃ s1 a, m s = (s1, Ok a) ∧ f a s1 = (s', Ok b).
Proof. unfold mbind, se_bind. destruct (m s) as [s1 [a|e]]; naive_solver. Qed.

(** Run the first step of a bind. *)
Lemma se_bind_eq {S A B} (m : SE S A) (f : A → SE S B) s s' a : m s = (s', Ok a) → (m ≫= f) s = f a s'.
Proof. intros H. unfold mbind, se_bind. by rewrite H. Qed.

Lemma se_bind_raise {S A B} (m : SE S A) (f : A → SE S B) s s' e : m s = (s', Raise e) → (m ≫= f) s = (s', Raise e).
Proof. intros H. unfold mbind, se_bind. by rewrite H. Qed.

Lemma se_bind_assoc {S A B C} (m : SE S A) (f : A → SE S B) (g : B → SE S C) s :
  ((m ≫= f) ≫= g) s = (m ≫= λ a, f a ≫= g) s.
Proof. unfold mbind, se_bind. by destruct (m s) as [? []]. Qed.

Lemma se_bind_ret {S A B} (a : A) (f : A → SE S B) s : (mret a ≫= f) s = f a s.
Proof. done. Qed.

Lemma se_bind_asks {S A B} (g : S → A) (f : A → SE S B) s : (se_asks g ≫= f) s = f (g s) s.
Proof. done. Qed.

Lemma se_bind_lift {S A B} (a : A) (f : A → SE S B) s : (se_lift (Ok a) ≫= f) s = f a s.
Proof. done. Qed.

(** Run the steps of a computation that are known to return; [se_step H] runs a step by its
    equation. *)
Ltac se_run := repeat first [rewrite se_bind_assoc | rewrite se_bind_ret | rewrite se_bind_asks | rewrite se_bind_lift];
  cbn beta iota.
Ltac se_step H := rewrite ?se_bind_assoc; rewrite (se_bind_eq _ _ _ _ _ H); se_run.

(** Split every successful bind, guard and lookup among the hypotheses. *)
Ltac res_inv :=
  repeat match goal with
  | H : _ ≫= _ = Ok _ |- _ =>
      let a := fresh "a" in let H1 := fresh "Hm" in let H2 := fresh "Hk" in
      apply bind_Ok_inv in H as (a & H1 & H2)
  | H : guard_or _ _ = Ok ?u |- _ => apply guard_or_Ok in H
  | H : some_or _ _ = Ok _ |- _ => apply some_or_Ok in H
  | H : Ok _ = Ok _ |- _ => injection H; clear H; intros; subst
  | H : Raise _ = Ok _ |- _ => discriminate H
  | H : Ok _ = Raise _ |- _ => discriminate H
  | H : mret _ = Ok _ |- _ => injection H; clear H; intros; subst
  | p : _ * _ |- _ => destruct p
  | u : unit |- _ => destruct u
  end.

(** Run the monad operations whose first argument is known, and nothing else. *)
Ltac rbind := cbn [mbind result_bind fmap result_fmap guard_or some_or mret result_ret].

(** Evaluate lookups of literal keys in literal dictionaries of atomic values. *)
Ltac dict_lit :=
  repeat match goal with
  | |- context [dict_get ?k ?d] =>
      let v := eval vm_compute in (dict_get k d) in change (dict_get k d) with v
  end.

(** Split a boolean test into its arithmetic content. *)
Ltac zbool :=
  repeat match goal with
  | H : (_ && _)%bool = true |- _ => apply andb_true_iff in H as [? ?]
  | H : (_ && _)%bool = false |- _ => apply andb_false_iff in H
  | H : (_ || _)%bool = true |- _ => apply orb_true_iff in H
  | H : (_ || _)%bool = false |- _ => apply orb_false_iff in H as [? ?]
  | H : negb _ = true |- _ => apply negb_true_iff in H
  | H : negb _ = false |- _ => apply negb_false_iff in H
  | H : (_ <=? _) = true |- _ => apply Z.leb_le in H
  | H : (_ <=? _) = false |- _ => apply Z.leb_gt in H
  | H : (_ <? _) = true |- _ => apply Z.ltb_lt in H
  | H : (_ <? _) = false |- _ => apply Z.ltb_ge in H
  | H : (_ =? _) = true |- _ => apply Z.eqb_eq in H
  | H : (_ =? _) = false |- _ => apply Z.eqb_neq in H
  end.

(** ** Lemmas on bytes *)

Lemma b2z_range b : 0 ≤ b2z b < 256.
Proof. unfold b2z. pose proof (Byte.to_N_bounded b). lia. Qed.

Lemma b2z_inj b1 b2 : b2z b1 = b2z b2 → b1 = b2.
Proof.
  unfold b2z. intros H%N2Z.inj. apply (f_equal Byte.of_N) in H.
  rewrite !Byte.of_to_N in H. congruence.
Qed.

Lemma b2z_mkb z : b2z (mkb z) = z mod 256.
Proof.
  unfold b2z, mkb. pose proof (Z.mod_pos_bound z 256 eq_refl).
  destruct (Byte.of_N (Z.to_N (z mod 256))) as [b|] eqn:E; simpl.
  - apply Byte.to_of_N in E. rewrite E. lia.
  - apply Byte.of_N_None_iff in E. lia.
Qed.

Lemma mkb_b2z b : mkb (b2z b) = b.
Proof. apply b2z_inj. rewrite b2z_mkb. apply Z.mod_small, b2z_range. Qed.

Lemma z2b_Some z b : z2b z = Some b ↔ 0 ≤ z < 256 ∧ b = mkb z.
Proof.
  unfold z2b. pose proof (b2z_range b) as Hb. split.
  - destruct (_ && _)%bool eqn:E; [|done]. zbool. intros Hz. split; [done|].
    apply b2z_inj. rewrite b2z_mkb, Z.mod_small by done. unfold b2z.
    apply Byte.to_of_N in Hz. rewrite Hz. lia.
  - intros [Hz ->]. replace ((0 <=? z) && (z <? 256)) with true by lia.
    unfold mkb. rewrite Z.mod_small by done.
    destruct (Byte.of_N (Z.to_N z)) as [b'|] eqn:E; [done|].
    apply Byte.of_N_None_iff in E. lia.
Qed.

Lemma z2b_b2z b : z2b (b2z b) = Some b.
Proof. apply z2b_Some. split; [apply b2z_range|by rewrite mkb_b2z]. Qed.

Lemma length_le_bytes n z : length (le_bytes n z) = n.
Proof. revert z. induction n; simpl; intros; [done|by rewrite IHn]. Qed.

Lemma length_be_bytes n z : length (be_bytes n z) = n.
Proof. unfold be_bytes. by rewrite length_rev, length_le_bytes. Qed.

Lemma le_val_bytes n z : le_val (le_bytes n z) = z mod 256 ^ Z.of_nat n.
Proof.
  revert z. induction n as [|n IH]; intros z; simpl le_bytes; cbn [le_val]; [by rewrite Z.mod_1_r|].
  rewrite IH, b2z_mkb, Nat2Z.inj_succ, Z.pow_succ_r by lia.
  rewrite Z.rem_mul_r by lia. lia.
Qed.

Lemma le_val_range bs : 0 ≤ le_val bs < 256 ^ Z.of_nat (length bs).
Proof.
  induction bs as [|b bs IH]; [done|]. cbn [le_val length].
  rewrite Nat2Z.inj_succ, Z.pow_succ_r by lia. pose proof (b2z_range b). lia.
Qed.

Lemma le_bytes_val bs : le_bytes (length bs) (le_val bs) = bs.
Proof.
  induction bs as [|b bs IH]; [done|]. cbn [le_val length le_bytes].
  pose proof (b2z_range b). f_equal.
  - apply b2z_inj. rewrite b2z_mkb. rewrite Z.mul_comm, Z_mod_plus_full.
    by apply Z.mod_small.
  - rewrite Z.mul_comm, Z.div_add, Z.div_small by lia. done.
Qed.

Lemma be_val_bytes n z : 0 ≤ z < 256 ^ Z.of_nat n → be_val (be_bytes n z) = z.
Proof.
  intros. unfold be_val, be_bytes. rewrite rev_involutive, le_val_bytes. by apply Z.mod_small.
Qed.

Lemma be_bytes_val bs : be_bytes (length bs) (be_val bs) = bs.
Proof.
  unfold be_val, be_bytes. rewrite <-length_rev, le_bytes_val. apply rev_involutive.
Qed.

Lemma be_val_range bs : 0 ≤ be_val bs < 256 ^ Z.of_nat (length bs).
Proof. unfold be_val. rewrite <-length_rev. apply le_val_range. Qed.

Lemma to_bytes_big_Ok n z bs :
  to_bytes_big n z = Ok bs → length bs = n ∧ be_val bs = z ∧ bs = be_bytes n z.
Proof.
  unfold to_bytes_big. destruct (_ && _)%bool eqn:E; [|done]. intros [= <-]. zbool.
  split_and!; [apply length_be_bytes|by apply be_val_bytes|done].
Qed.

(** ** Bit operations *)

Lemma lor_shiftl_add x y k : 0 ≤ k → 0 ≤ y < 2 ^ k → Z.lor (Z.shiftl x k) y = x * 2 ^ k + y.
Proof.
  intros Hk Hy. rewrite <-Z.shiftl_mul_pow2 by done.
  assert (Z.land (Z.shiftl x k) y = 0) as E.
  { apply Z.bits_inj'. intros i Hi. rewrite Z.land_spec, Z.bits_0.
    destruct (Z.lt_ge_cases i k).
    - by rewrite Z.shiftl_spec_low.
    - replace (Z.testbit y i) with false; [apply andb_false_r|].
      symmetry. rewrite <-(Z.mod_small y (2 ^ k)) by done.
      apply Z.mod_pow2_bits_high. lia. }
  rewrite Z.add_nocarry_lxor by done. by rewrite Z.lxor_lor.
Qed.

(** ** Bit fields *)

Lemma land_0F z : Z.land z 0x0F = z mod 16.
Proof. change 0x0F with (Z.ones 4). by rewrite Z.land_ones. Qed.

Lemma land_FF z : Z.land z 0xFF = z mod 256.
Proof. change 0xFF with (Z.ones 8). by rewrite Z.land_ones. Qed.

Lemma land_7F z : Z.land z 0x7F = z mod 128.
Proof. change 0x7F with (Z.ones 7). by rewrite Z.land_ones. Qed.

Lemma land_1 z : Z.land z 1 = z mod 2.
Proof. change 1 with (Z.ones 1) at 1. by rewrite Z.land_ones. Qed.

Lemma land_80 z : 0 ≤ z < 256 → Z.land z 0x80 = if z <? 128 then 0 else 128.
Proof.
  intros Hz.
  assert (forallb (λ z, Z.land z 0x80 =? if z <? 128 then 0 else 128) (seqZ 0 256) = true) as K
    by (vm_compute; reflexivity).
  rewrite forallb_forall in K. apply Z.eqb_eq, K, list_elem_of_In, elem_of_seqZ. lia.
Qed.

(** ** Slices *)

(** Adjacent slices join. *)
Lemma slice_app {A} (a b c : nat) (l : list A) : (a <= b <= c)%nat → slice a b l ++ slice b c l = slice a c l.
Proof.
  intros H. unfold slice. replace (c - a)%nat with ((b - a) + (c - b))%nat by lia.
  rewrite <-take_take_drop, drop_drop. do 3 f_equal. lia.
Qed.
