(* ===== verification/Effects.v ===== *)
(** * What a computation may change

    [keeps R m]: running [m] relates the state before to the state after by [R], whether it
    returns or raises. For a preorder [R] this is preserved by the operations of [SE]. *)

From S2P Require Import Prelude.

Definition keeps {S A} (R : S → S → Prop) (m : SE S A) : Prop := ∀ s, R s (m s).1.

#[global] Create HintDb keeps.

Section Keeps.
Context {S : Type} (R : S → S → Prop) `{!PreOrder R}.

Lemma keeps_run {A} (m : SE S A) s s' r : keeps R m → m s = (s', r) → R s s'.
Proof. intros Hm H. specialize (Hm s). by rewrite H in Hm. Qed.

Lemma keeps_pure {A} (m : SE S A) : (∀ s, (m s).1 = s) → keeps R m.
Proof. intros H s. rewrite H. reflexivity. Qed.

Lemma keeps_ret {A} (a : A) : keeps R (mret a).
Proof. by apply keeps_pure. Qed.

Lemma keeps_lift {A} (r : result A) : keeps R (se_lift r).
Proof. by apply keeps_pure. Qed.

Lemma keeps_raise {A} e : keeps R (se_raise (A := A) e).
Proof. by apply keeps_pure. Qed.

Lemma keeps_asks {A} (f : S → A) : keeps R (se_asks f).
Proof. by apply keeps_pure. Qed.

Lemma keeps_bind {A B} (m : SE S A) (f : A → SE S B) : keeps R m → (∀ a, keeps R (f a)) → keeps R (m ≫= f).
Proof.
  intros Hm Hf s. unfold mbind, se_bind. specialize (Hm s). destruct (m s) as [s1 [a|e]]; cbn in *; [|done].
  etransitivity; [exact Hm|]. by apply Hf.
Qed.

(** What a pure step returned is known to the rest. *)
Lemma keeps_bind_lift {A B} (r : result A) (f : A → SE S B) : (∀ a, r = Ok a → keeps R (f a)) → keeps R (se_lift r ≫= f).
Proof. intros Hf. destruct r as [a|x]; [exact (Hf a eq_refl)|by apply keeps_pure]. Qed.

Lemma keeps_try {A} (m : SE S A) c h : keeps R m → (∀ e, keeps R (h e)) → keeps R (se_try m c h).
Proof.
  intros Hm Hh s. unfold se_try. specialize (Hm s). destruct (m s) as [s1 [a|e]]; cbn in *; [done|].
  destruct (c e); [|done]. etransitivity; [exact Hm|]. by apply Hh.
Qed.

Lemma keeps_fold {A B} (f : B → A → SE S B) l : (∀ b a, keeps R (f b a)) → ∀ b, keeps R (se_fold f b l).
Proof.
  intros Hf. induction l as [|a l IH]; intros b; [apply keeps_ret|]. cbn [se_fold]. apply keeps_bind; [apply Hf|done].
Qed.

Lemma keeps_if {A} (b : bool) (m1 m2 : SE S A) : keeps R m1 → keeps R m2 → keeps R (if b then m1 else m2).
Proof. by destruct b. Qed.
End Keeps.

#[export] Hint Resolve keeps_ret keeps_lift keeps_raise keeps_asks : keeps.

(** Follow the structure of a computation; [auto with keeps] closes the leaves. *)
Ltac keeps :=
  repeat first
    [ progress intros
    | solve [eauto with keeps typeclass_instances]
    | apply keeps_bind; [typeclasses eauto| |]
    | apply keeps_try; [typeclasses eauto| |]
    | apply keeps_fold; [typeclasses eauto|]
    | apply keeps_if
    | match goal with |- keeps _ (match ?x with _ => _ end) => destruct x end ].
