(* ===== verification/PyStr.v ===== *)
(** * The Python text primitives the sources use

    [str] values are lists of code points.  This file holds literals, UTF-8
    ([str.encode] / [bytes.decode], strict), decimal integers ([str(n)],
    [int(s)]), [str.isdigit], [str.split(sep, 1)] and
    [str.rsplit(sep, 1)].  The Unicode character database is a parameter
    ([UnicodeDB]): its contents depend on the interpreter release; the laws the
    theorems use are those of its ASCII block. *)

From S2P Require Import Prelude.

Ltac Zify.zify_post_hook ::= Z.div_mod_to_equations.

(** ** Literals *)

Definition u (s : string) : str :=
  (λ a, Z.of_N (Ascii.N_of_ascii a)) <$> String.list_ascii_of_string s.

Definition bstr (s : string) : bytes := String.list_byte_of_string s.

(** ** Code points *)

Definition is_surrogate (c : Z) : bool := (0xD800 <=? c) && (c <=? 0xDFFF).

(** What [str.encode("utf-8")] accepts: the Unicode scalar values. *)
Definition is_scalar (c : Z) : bool := (0 <=? c) && (c <=? 0x10FFFF) && negb (is_surrogate c).

Definition scalar_str (s : str) : bool := forallb is_scalar s.

(** ** UTF-8 *)

Definition utf8_encode1 (c : Z) : result bytes :=
  if negb (is_scalar c) then Raise UnicodeError
  else if c <? 0x80 then Ok [mkb c]
  else if c <? 0x800 then Ok [mkb (0xC0 + c / 64); mkb (0x80 + c mod 64)]
  else if c <? 0x10000 then
    Ok [mkb (0xE0 + c / 4096); mkb (0x80 + (c / 64) mod 64); mkb (0x80 + c mod 64)]
  else Ok [mkb (0xF0 + c / 262144); mkb (0x80 + (c / 4096) mod 64);
           mkb (0x80 + (c / 64) mod 64); mkb (0x80 + c mod 64)].

(** [s.encode("utf-8")] *)
Fixpoint utf8_encode (s : str) : result bytes :=
  match s with
  | [] => Ok []
  | c :: s => x ← utf8_encode1 c; y ← utf8_encode s; Ok (x ++ y)
  end.

Definition is_cont (z : Z) : bool := (0x80 <=? z) && (z <? 0xC0).

(** [bs.decode("utf-8")]: overlong forms, surrogates and truncated sequences
    are errors. *)
Fixpoint utf8_decode (bs : bytes) : result str :=
  match bs with
  | [] => Ok []
  | b0 :: r0 =>
    if b2z b0 <? 0x80 then s ← utf8_decode r0; Ok (b2z b0 :: s)
    else match r0 with
    | [] => Raise UnicodeError
    | b1 :: r1 =>
      if negb (is_cont (b2z b1)) then Raise UnicodeError
      else if (0xC2 <=? b2z b0) && (b2z b0 <? 0xE0) then
        s ← utf8_decode r1; Ok ((b2z b0 - 0xC0) * 64 + (b2z b1 - 0x80) :: s)
      else match r1 with
      | [] => Raise UnicodeError
      | b2 :: r2 =>
        if negb (is_cont (b2z b2)) then Raise UnicodeError
        else if (0xE0 <=? b2z b0) && (b2z b0 <? 0xF0) then
          let c := (b2z b0 - 0xE0) * 4096 + (b2z b1 - 0x80) * 64 + (b2z b2 - 0x80) in
          if (c <? 0x800) || is_surrogate c then Raise UnicodeError
          else s ← utf8_decode r2; Ok (c :: s)
        else match r2 with
        | [] => Raise UnicodeError
        | b3 :: r3 =>
          if negb (is_cont (b2z b3)) then Raise UnicodeError
          else if (0xF0 <=? b2z b0) && (b2z b0 <? 0xF5) then
            let c := (b2z b0 - 0xF0) * 262144 + (b2z b1 - 0x80) * 4096
                     + (b2z b2 - 0x80) * 64 + (b2z b3 - 0x80) in
            if (c <? 0x10000) || (0x10FFFF <? c) then Raise UnicodeError
            else s ← utf8_decode r3; Ok (c :: s)
          else Raise UnicodeError
        end
      end
    end
  end.

(** ** The Unicode character database *)

Class UnicodeDB := {
  uni_isdigit : Z → bool;
  uni_decimal : Z → option Z;
  uni_isspace : Z → bool;
}.

Definition ascii_digit (c : Z) : bool := (48 <=? c) && (c <=? 57).

(** The ASCII block of the database, and what its [Decimal] property means. *)
Class UnicodeDBLaws (U : UnicodeDB) : Prop := {
  ascii_isdigit c : 0 ≤ c < 128 → uni_isdigit c = ascii_digit c;
  ascii_decimal c : 0 ≤ c < 128 → uni_decimal c = if ascii_digit c then Some (c - 48) else None;
  ascii_isspace c : 0 ≤ c < 128 →
    uni_isspace c = ((9 <=? c) && (c <=? 13)) || ((28 <=? c) && (c <=? 32));
}.

(** The Latin-1 part of the database, complete for texts below U+0100:
    [isdigit] holds of the superscripts U+00B2, U+00B3 and U+00B9, which have
    no decimal value. *)
Definition latin1_ucd : UnicodeDB := {|
  uni_isdigit c := ascii_digit c || (c =? 0xB2) || (c =? 0xB3) || (c =? 0xB9);
  uni_decimal c := if ascii_digit c then Some (c - 48) else None;
  uni_isspace c := ((9 <=? c) && (c <=? 13)) || ((28 <=? c) && (c <=? 32))
                   || (c =? 0x85) || (c =? 0xA0);
|}.

Section Numbers.
Context {U : UnicodeDB}.

(** [s.isdigit()] *)
Definition isdigit (s : str) : bool := truthy s && forallb uni_isdigit s.

(** [s.strip()] *)
Fixpoint lstrip (s : str) : str :=
  match s with
  | [] => []
  | c :: r => if uni_isspace c then lstrip r else s
  end.

Definition strip (s : str) : str := rev (lstrip (rev (lstrip s))).

(** The digit values of an [int()] literal; single underscores may separate
    digits. *)
Fixpoint int_digits (after_digit : bool) (s : str) : option (list Z) :=
  match s with
  | [] => if after_digit then Some [] else None
  | c :: r =>
    if c =? 95 then (if after_digit then int_digits false r else None)
    else match uni_decimal c with
         | Some d => cons d <$> int_digits true r
         | None => None
         end
  end.

Definition digits_val (ds : list Z) : Z := foldl (λ a d, 10 * a + d) 0 ds.

(** CPython's default limit on decimal conversions. *)
Definition INT_MAX_STR_DIGITS : Z := 4300.

Definition int_unsigned (s : str) : result Z :=
  ds ← some_or (int_digits false s) ValueError;
  if INT_MAX_STR_DIGITS <? Z.of_nat (length ds) then Raise ValueError else Ok (digits_val ds).

(** [int(s)] *)
Definition py_int (s : str) : result Z :=
  match strip s with
  | 43 :: r => int_unsigned r
  | 45 :: r => Z.opp <$> int_unsigned r
  | r => int_unsigned r
  end.
End Numbers.

(** [str(n)] *)
Fixpoint dec_digits (fuel : nat) (n : Z) : str :=
  match fuel with
  | O => []
  | S fuel => if n <? 10 then [48 + n] else dec_digits fuel (n / 10) ++ [48 + n mod 10]
  end.

Definition nat_str (n : Z) : str := dec_digits (S (Z.to_nat (Z.log2 n))) n.

Definition py_str_int (n : Z) : result str :=
  let s := nat_str (Z.abs n) in
  if INT_MAX_STR_DIGITS <? Z.of_nat (length s) then Raise ValueError
  else Ok (if n <? 0 then 45 :: s else s).

(** ** Splitting *)

(** [s.split(sep, 1)] for a one-character [sep] that occurs in [s]: the parts
    around its first occurrence. *)
Fixpoint split_first (c : Z) (s : str) : option (str * str) :=
  match s with
  | [] => None
  | x :: r => if x =? c then Some ([], r)
              else '(p, q) ← split_first c r; Some (x :: p, q)
  end.

(** [s.rsplit(sep, 1)]: the parts around the last occurrence. *)
Definition split_last (c : Z) (s : str) : option (str * str) :=
  '(p, q) ← split_first c (rev s); Some (rev q, rev p).

(** [sep in s] *)
Definition contains (c : Z) (s : str) : bool := existsb (Z.eqb c) s.

(** ** UTF-8: lemmas *)

Ltac bz := rewrite ?b2z_mkb, ?Z.mod_small by lia.
Ltac bool_lia := repeat match goal with
  | |- context [if ?c then _ else _] => first
      [ replace c with true by (unfold is_scalar, is_surrogate, is_cont in *; lia)
      | replace c with false by (unfold is_scalar, is_surrogate, is_cont in *; lia) ]
  end.

Lemma is_scalar_spec c : is_scalar c = true ↔ 0 ≤ c ≤ 0x10FFFF ∧ ¬ (0xD800 ≤ c ≤ 0xDFFF).
Proof. unfold is_scalar, is_surrogate. lia. Qed.

Lemma utf8_decode_encode1 c x r :
  utf8_encode1 c = Ok x → utf8_decode (x ++ r) = cons c <$> utf8_decode r.
Proof.
  unfold utf8_encode1. destruct (is_scalar c) eqn:Hc; [simpl|done].
  apply is_scalar_spec in Hc.
  destruct (c <? 0x80) eqn:H1; [|destruct (c <? 0x800) eqn:H2; [|destruct (c <? 0x10000) eqn:H3]];
    intros [= <-]; zbool; cbn [app utf8_decode]; bz.
  - bool_lia. by destruct (utf8_decode r).
  - bool_lia. destruct (utf8_decode r); simpl; [|done]. do 2 f_equal. lia.
  - unfold is_surrogate. set (e := _ + _ + _).
    assert (e = c) as -> by (subst e; lia). cbv zeta. bool_lia.
    by destruct (utf8_decode r).
  - set (e := _ + _ + _ + _). assert (e = c) as -> by (subst e; lia). cbv zeta. bool_lia.
    by destruct (utf8_decode r).
Qed.

Lemma utf8_decode_encode_app s bs r :
  utf8_encode s = Ok bs → utf8_decode (bs ++ r) = app s <$> utf8_decode r.
Proof.
  revert bs. induction s as [|c s IH]; intros bs H; simpl in H.
  - simplify_eq/=. by destruct (utf8_decode r).
  - res_inv. rewrite <-app_assoc, (utf8_decode_encode1 c) by done.
    rewrite (IH _ Hm0). by destruct (utf8_decode r).
Qed.

(** Decoding what [encode] produced gives the string back. *)
Lemma utf8_decode_encode s bs : utf8_encode s = Ok bs → utf8_decode bs = Ok s.
Proof.
  intros H. rewrite <-(app_nil_r bs), (utf8_decode_encode_app _ _ _ H). simpl.
  by rewrite app_nil_r.
Qed.

Lemma utf8_encode1_ok c : is_ok (utf8_encode1 c) = is_scalar c.
Proof. unfold utf8_encode1. destruct (is_scalar c); [simpl|done]. by repeat case_match. Qed.

(** Encoding fails exactly on a string with a lone surrogate. *)
Lemma utf8_encode_ok s : is_ok (utf8_encode s) = scalar_str s.
Proof.
  induction s as [|c s IH]; [done|]. simpl. rewrite <-IH, <-utf8_encode1_ok.
  destruct (utf8_encode1 c), (utf8_encode s); done.
Qed.

Lemma utf8_encode_error s e : utf8_encode s = Raise e → e = UnicodeError.
Proof.
  induction s as [|c s IH]; simpl; [done|]. unfold utf8_encode1.
  destruct (is_scalar c); simpl; [|congruence].
  repeat (case_match; simpl; try (destruct (utf8_encode s); naive_solver)).
Qed.

Lemma utf8_decode_error bs e : utf8_decode bs = Raise e → e = UnicodeError.
Proof.
  remember (length bs) as n eqn:Hn. revert bs Hn.
  induction n as [n IH] using lt_wf_ind. intros bs -> H.
  assert (∀ r (f : Z), (length r < length bs)%nat →
    (s ← utf8_decode r; Ok (f :: s)) = Raise e → e = UnicodeError) as K.
  { intros r f Hr [?|(?&?&?)]%bind_Raise_inv; [by eapply IH|done]. }
  destruct bs as [|b0 r0]; [done|]. cbn [utf8_decode] in H.
  repeat (case_match; try congruence); simplify_eq/=;
    (eapply K; [|exact H]; simpl; lia).
Qed.

Lemma utf8_encode_ascii s :
  Forall (λ c, 0 ≤ c < 128) s → utf8_encode s = Ok (mkb <$> s).
Proof.
  induction 1 as [|c s Hc Hs IH]; [done|]. simpl. rewrite IH.
  unfold utf8_encode1. bool_lia. done.
Qed.

Lemma utf8_decode_scalar bs s : utf8_decode bs = Ok s → scalar_str s = true.
Proof.
  remember (length bs) as n eqn:Hn. revert bs s Hn.
  induction n as [n IH] using lt_wf_ind. intros bs s -> H.
  assert (∀ r (f : Z) s, (length r < length bs)%nat → is_scalar f = true →
    (s ← utf8_decode r; Ok (f :: s)) = Ok s → scalar_str s = true) as K.
  { intros r f s' Hr Hf H'. res_inv. simpl. rewrite Hf. by eapply IH. }
  destruct bs as [|b0 r0]; [by simplify_eq/=|]. cbn [utf8_decode] in H.
  pose proof (b2z_range b0).
  repeat (case_match; try congruence); simplify_eq/=;
    unfold is_cont, is_surrogate in *; zbool;
    (eapply K; [| |exact H]; [simpl; lia|apply is_scalar_spec; lia]).
Qed.

(** ** Decimal numbers: lemmas *)

Lemma elem_of_rev (c : Z) s : c ∈ rev s ↔ c ∈ s.
Proof. by rewrite !list_elem_of_In, <-in_rev. Qed.

Lemma digits_val_snoc ds d : digits_val (ds ++ [d]) = 10 * digits_val ds + d.
Proof. unfold digits_val. by rewrite foldl_app. Qed.

Lemma length_dec_digits f n : (length (dec_digits f n) ≤ f)%nat.
Proof.
  revert n. induction f as [|f IH]; intros n; cbn [dec_digits]; [done|].
  case_match; rewrite ?length_app; cbn; [|specialize (IH (n / 10))]; lia.
Qed.

(** 32-bit numbers print within the interpreter's limit. *)
Lemma py_str_int_32 z : 0 ≤ z < 2 ^ 32 → is_ok (py_str_int z) = true.
Proof.
  intros Hz. unfold py_str_int, nat_str. rewrite (proj2 (Z.ltb_ge _ _)); [done|].
  pose proof (length_dec_digits (S (Z.to_nat (Z.log2 (Z.abs z)))) (Z.abs z)).
  assert (Z.log2 (Z.abs z) ≤ Z.log2 (2 ^ 32)) as Hl by (apply Z.log2_le_mono; lia).
  change (Z.log2 (2 ^ 32)) with 32 in Hl. unfold INT_MAX_STR_DIGITS. lia.
Qed.

Lemma dec_digits_ascii fuel n :
  0 ≤ n → Forall (λ c, ascii_digit c = true) (dec_digits fuel n).
Proof.
  revert n. induction fuel as [|fuel IH]; intros n Hn; simpl; [done|].
  unfold ascii_digit. destruct (n <? 10) eqn:E; zbool.
  - repeat constructor. lia.
  - apply Forall_app. split; [apply IH; lia|repeat constructor; lia].
Qed.

Lemma dec_digits_val fuel n :
  0 ≤ n < 2 ^ Z.of_nat fuel → digits_val ((λ c, c - 48) <$> dec_digits fuel n) = n.
Proof.
  revert n. induction fuel as [|fuel IH]; intros n Hn; simpl dec_digits; [by change (2 ^ Z.of_nat 0) with 1 in Hn; assert (n = 0) as -> by lia|].
  rewrite Nat2Z.inj_succ, Z.pow_succ_r in Hn by lia.
  destruct (n <? 10) eqn:E; zbool; [unfold digits_val; simpl; lia|].
  rewrite fmap_app. simpl. rewrite digits_val_snoc, IH by lia. lia.
Qed.

Lemma nat_str_ascii n : 0 ≤ n → Forall (λ c, ascii_digit c = true) (nat_str n).
Proof. apply dec_digits_ascii. Qed.

Lemma nat_str_val n : 0 ≤ n → digits_val ((λ c, c - 48) <$> nat_str n) = n.
Proof.
  intros. unfold nat_str. apply dec_digits_val.
  rewrite Nat2Z.inj_succ, Z2Nat.id by apply Z.log2_nonneg.
  destruct (decide (n = 0)) as [->|]; [done|]. split; [done|]. apply Z.log2_spec. lia.
Qed.

Lemma nat_str_nonempty n : truthy (nat_str n) = true.
Proof.
  unfold nat_str. cbn [dec_digits]. destruct (n <? 10); [done|]. by destruct (dec_digits _ _).
Qed.

Section NumberLemmas.
Context {U : UnicodeDB} {UL : UnicodeDBLaws U}.

Lemma ascii_digit_spec c : ascii_digit c = true ↔ 48 ≤ c ≤ 57.
Proof. unfold ascii_digit. lia. Qed.

Lemma isdigit_ascii s :
  truthy s = true → Forall (λ c, ascii_digit c = true) s → isdigit s = true.
Proof.
  intros Hs H. unfold isdigit. rewrite Hs. simpl. clear Hs.
  induction H as [|c s Hd _ IH]; [done|]. simpl. rewrite IH, andb_true_r.
  apply ascii_digit_spec in Hd as ?. by rewrite ascii_isdigit by lia.
Qed.

Lemma lstrip_id s : Forall (λ c, ascii_digit c = true) s → lstrip s = s.
Proof.
  destruct 1 as [|c s Hc Hs]; simpl; [done|]. apply ascii_digit_spec in Hc.
  rewrite ascii_isspace by lia. by bool_lia.
Qed.

Lemma strip_ascii_digits s : Forall (λ c, ascii_digit c = true) s → strip s = s.
Proof.
  intros H. unfold strip. rewrite (lstrip_id s H), lstrip_id; [apply rev_involutive|].
  rewrite Forall_forall in *. intros c Hc. apply H. by apply elem_of_rev.
Qed.

Lemma int_digits_ascii bd s :
  Forall (λ c, ascii_digit c = true) s → truthy s || bd = true →
  int_digits bd s = Some ((λ c, c - 48) <$> s).
Proof.
  intros H. revert bd. induction H as [|c s Hc Hs IH]; intros bd Hbd; simpl in *; [by subst|].
  apply ascii_digit_spec in Hc as ?. replace (c =? 95) with false by lia.
  rewrite ascii_decimal, Hc by lia. rewrite IH; [done|]. by rewrite orb_true_r.
Qed.

(** [int] of a string of ASCII digits within CPython's digit limit. *)
Lemma py_int_ascii s :
  truthy s = true → Forall (λ c, ascii_digit c = true) s →
  Z.of_nat (length s) ≤ INT_MAX_STR_DIGITS →
  py_int s = Ok (digits_val ((λ c, c - 48) <$> s)).
Proof.
  intros Hs H Hlen. unfold py_int. rewrite strip_ascii_digits by done.
  assert (int_unsigned s = Ok (digits_val ((λ c, c - 48) <$> s))) as E.
  { unfold int_unsigned. rewrite int_digits_ascii; [|done|by rewrite Hs]. simpl.
    rewrite length_fmap. by replace (_ <? _) with false by lia. }
  destruct s as [|c s]; [done|]. apply Forall_cons in H as [Hc _].
  apply ascii_digit_spec in Hc. destruct c as [|c|c]; [lia| |lia].
  repeat (destruct c as [c|c|]; try lia; try exact E).
Qed.

(** [int(str(n)) == n]. *)
Lemma py_int_str n s : 0 ≤ n → py_str_int n = Ok s → py_int s = Ok n ∧ isdigit s = true.
Proof.
  intros Hn. unfold py_str_int. rewrite Z.abs_eq by done.
  destruct (_ <? _) eqn:Hl; [done|]. replace (n <? 0) with false by lia.
  intros [= <-]. zbool. split.
  - rewrite py_int_ascii; [by rewrite nat_str_val|apply nat_str_nonempty|by apply nat_str_ascii|lia].
  - apply isdigit_ascii; [apply nat_str_nonempty|by apply nat_str_ascii].
Qed.
End NumberLemmas.

(** ** Splitting: lemmas *)

Lemma py_str_int_chars n s : py_str_int n = Ok s → Forall (λ c, ascii_digit c = true ∨ c = 45) s.
Proof.
  unfold py_str_int. destruct (_ <? Z.of_nat _); [done|]. intros [= <-].
  pose proof (nat_str_ascii (Z.abs n) (Z.abs_nonneg n)) as Hf.
  destruct (n <? 0); [constructor; [by right|]|]; (eapply Forall_impl; [done|]; auto).
Qed.

Lemma py_str_int_no_char c n s : py_str_int n = Ok s → ascii_digit c = false → c ≠ 45 → c ∉ s.
Proof. intros H%py_str_int_chars. rewrite Forall_forall in H. intros Hc Hm Hin%H. destruct Hin; congruence. Qed.

Lemma py_str_int_inj n1 n2 s : py_str_int n1 = Ok s → py_str_int n2 = Ok s → n1 = n2.
Proof.
  unfold py_str_int. destruct (_ <? Z.of_nat (length (nat_str (Z.abs n1)))); [done|].
  destruct (_ <? Z.of_nat _); [done|]. intros [= <-] [= E].
  pose proof (nat_str_val (Z.abs n1) ltac:(lia)) as V1. pose proof (nat_str_val (Z.abs n2) ltac:(lia)) as V2.
  pose proof (nat_str_ascii (Z.abs n1) ltac:(lia)) as F1. pose proof (nat_str_ascii (Z.abs n2) ltac:(lia)) as F2.
  destruct (Z.ltb_spec n1 0), (Z.ltb_spec n2 0); simplify_eq.
  - rewrite E in V2. lia.
  - rewrite E in F2. apply Forall_cons in F2 as [F2 _]. done.
  - rewrite <-E in F1. apply Forall_cons in F1 as [F1 _]. done.
  - rewrite E in V2. lia.
Qed.

Lemma contains_spec c s : contains c s = true ↔ c ∈ s.
Proof.
  unfold contains. rewrite existsb_exists, list_elem_of_In. split.
  - intros (x & Hx & E). by apply Z.eqb_eq in E as ->.
  - intros. exists c. split; [done|apply Z.eqb_refl].
Qed.

Lemma contains_false c s : contains c s = false ↔ c ∉ s.
Proof. rewrite <-contains_spec. destruct (contains c s); naive_solver. Qed.

Lemma split_first_Some c s p q :
  split_first c s = Some (p, q) ↔ s = p ++ c :: q ∧ c ∉ p.
Proof.
  split.
  - revert p. induction s as [|x s IH]; intros p H; simpl in H; [done|].
    destruct (x =? c) eqn:E; zbool; [simplify_eq; split; [done|set_solver]|].
    destruct (split_first c s) as [[p' q']|] eqn:Es; simplify_eq/=.
    destruct (IH p' eq_refl) as [-> ?]. split; [done|set_solver].
  - intros [-> Hc]. induction p as [|x p IH]; simpl; [by rewrite Z.eqb_refl|].
    replace (x =? c) with false by (symmetry; apply Z.eqb_neq; set_solver).
    rewrite IH by set_solver. done.
Qed.

Lemma split_first_None c s : split_first c s = None ↔ c ∉ s.
Proof.
  induction s as [|x s IH]; simpl; [set_solver|].
  destruct (x =? c) eqn:E; zbool; [subst; set_solver|].
  destruct (split_first c s) as [[p q]|] eqn:Es; simpl.
  - apply split_first_Some in Es as [-> ?]. set_solver.
  - set_solver.
Qed.

Lemma split_last_Some c s p q :
  split_last c s = Some (p, q) ↔ s = p ++ c :: q ∧ c ∉ q.
Proof.
  unfold split_last. destruct (split_first c (rev s)) as [[p' q']|] eqn:E; simpl.
  - apply split_first_Some in E as [E Hc]. apply (f_equal (@rev Z)) in E.
    rewrite rev_involutive in E. rewrite rev_app_distr in E. simpl in E.
    rewrite <-app_assoc in E. simpl in E. split.
    + intros [= <- <-]. split; [done|]. by rewrite elem_of_rev.
    + intros [Hs Hq].
      assert (split_first c (rev s) = Some (rev q, rev p)) as K1.
      { apply split_first_Some. rewrite Hs, rev_app_distr. simpl. rewrite <-app_assoc.
        split; [done|]. by rewrite elem_of_rev. }
      assert (split_first c (rev s) = Some (p', q')) as K2.
      { apply split_first_Some. split; [|done]. rewrite E, rev_app_distr. simpl.
        by rewrite !rev_involutive, <-app_assoc. }
      rewrite K1 in K2. injection K2 as <- <-. by rewrite !rev_involutive.
  - apply split_first_None in E. split; [done|]. intros [-> _]. exfalso. apply E.
    rewrite elem_of_rev. set_solver.
Qed.

Lemma split_last_None c s : split_last c s = None ↔ c ∉ s.
Proof.
  unfold split_last. destruct (split_first c (rev s)) as [[p q]|] eqn:E; simpl.
  - apply split_first_Some in E as [E _]. split; [done|]. intros H. exfalso. apply H.
    rewrite <-elem_of_rev, E. set_solver.
  - apply split_first_None in E. rewrite elem_of_rev in E. naive_solver.
Qed.
