(* ===== verification/Json.v ===== *)
(** * JSON, [bytes.hex], and base64

    JSON values as [json.loads] builds them and [json.dumps] accepts them, with the
    printer and the parser (file [JsonText]). [bytes.hex]/[bytes.fromhex]
    and the strict base64 of the [base64] module are executable. *)

From S2P Require Import Prelude PyStr.

Inductive json :=
  | JNull
  | JBool (x : bool)
  | JInt (n : Z)
  | JFloat (literal : str)
  | JStr (s : str)
  | JArr (l : list json)
  | JObj (l : list (str * json)).

(** The float operations the callers need, on literals: [int(x)], [x == n], and [float(v)]
    of an integer and of a string. *)
Class FloatOps := {
  float_to_int : str → result Z;
  float_is : str → Z → bool;
  float_of_int : Z → result str;
  float_of_str : str → result str
}.

(** [int(v)] and [str(v)] of a JSON value; the latter where its text can matter
    to a base64 decoder: no container, and no [repr] of a float, is base64. *)
Definition py_int_json `{UnicodeDB, FloatOps} (v : json) : result Z :=
  match v with
  | JInt n => Ok n
  | JBool x => Ok (if x then 1 else 0)
  | JStr s => py_int s
  | JFloat lit => float_to_int lit
  | _ => Raise TypeError
  end.

Definition py_str_json (v : json) : result str :=
  match v with
  | JStr s => Ok s
  | JNull => Ok (u "None")
  | JBool x => Ok (u (if x then "True" else "False"))
  | JInt n => py_str_int n
  | JFloat _ | JArr _ | JObj _ => Ok (u "<>")
  end.

(** ** Hexadecimal *)

Definition hexd (z : Z) : Z := if z <? 10 then 48 + z else 87 + z.

Definition hex_encode (d : bytes) : str := d ≫= λ x, [hexd (b2z x / 16); hexd (b2z x mod 16)].

Definition unhexd (c : Z) : option Z :=
  if (48 <=? c) && (c <=? 57) then Some (c - 48)
  else if (97 <=? c) && (c <=? 102) then Some (c - 87)
  else if (65 <=? c) && (c <=? 70) then Some (c - 55)
  else None.

Definition is_ascii_space (c : Z) : bool := (c =? 32) || ((9 <=? c) && (c <=? 13)).

(** [bytes.fromhex(s)]: white space is skipped between bytes. *)
Fixpoint bytes_fromhex (s : str) : result bytes :=
  match s with
  | [] => Ok []
  | c :: s' =>
      if is_ascii_space c then bytes_fromhex s'
      else match s' with
           | [] => Raise ValueError
           | c2 :: s'' =>
               h ← some_or (unhexd c) ValueError;
               l ← some_or (unhexd c2) ValueError;
               r ← bytes_fromhex s'';
               Ok (mkb (16 * h + l) :: r)
           end
  end.

Lemma hexd_spec z : 0 ≤ z < 16 → is_ascii_space (hexd z) = false ∧ unhexd (hexd z) = Some z.
Proof.
  intros Hz. assert (z ∈ Z.of_nat <$> seq 0 16) as Hin.
  { apply list_elem_of_fmap. exists (Z.to_nat z). split; [lia|]. apply elem_of_seq. lia. }
  assert (Forall (λ z, is_ascii_space (hexd z) = false ∧ unhexd (hexd z) = Some z)
    (Z.of_nat <$> seq 0 16)) as HF by (repeat constructor).
  rewrite Forall_forall in HF. auto.
Qed.

Lemma fromhex_hex d : bytes_fromhex (hex_encode d) = Ok d.
Proof.
  induction d as [|x d IH]; [done|]. unfold hex_encode in *. rewrite bind_cons. cbn [app].
  pose proof (b2z_range x).
  destruct (hexd_spec (b2z x / 16)) as [Hs1 Hu1].
  { split; [apply Z.div_pos; lia|apply Z.div_lt_upper_bound; lia]. }
  destruct (hexd_spec (b2z x mod 16)) as [Hs2 Hu2]; [apply Z.mod_pos_bound; lia|].
  cbn [bytes_fromhex]. rewrite Hs1, Hu1, Hu2. rbind. rewrite IH. rbind.
  rewrite <-(Z.div_mod (b2z x) 16) by lia. by rewrite mkb_b2z.
Qed.

(** ** Base64 *)

Definition b64_char (n : Z) : Z :=
  if n <? 26 then 65 + n else if n <? 52 then 71 + n else if n <? 62 then n - 4
  else if n =? 62 then 43 else 47.

Definition b64_val (c : Z) : option Z :=
  if (65 <=? c) && (c <=? 90) then Some (c - 65)
  else if (97 <=? c) && (c <=? 122) then Some (c - 71)
  else if (48 <=? c) && (c <=? 57) then Some (c + 4)
  else if c =? 43 then Some 62
  else if c =? 47 then Some 63
  else None.

Definition EQ : Z := 61.

Fixpoint b64encode (d : bytes) : str :=
  match d with
  | x :: y :: z :: d =>
      let n := (b2z x * 256 + b2z y) * 256 + b2z z in
      b64_char (n / 262144) :: b64_char (n / 4096 mod 64) :: b64_char (n / 64 mod 64)
        :: b64_char (n mod 64) :: b64encode d
  | [x; y] =>
      let n := b2z x * 256 + b2z y in
      [b64_char (n / 1024); b64_char (n / 16 mod 64); b64_char (n mod 16 * 4); EQ]
  | [x] => [b64_char (b2z x / 4); b64_char (b2z x mod 4 * 16); EQ; EQ]
  | [] => []
  end.

(** [b64decode(s, validate=True)]; padding ends the input. *)
Fixpoint b64decode (s : str) : option bytes :=
  match s with
  | [] => Some []
  | a :: b :: c :: e :: s' =>
      va ← b64_val a; vb ← b64_val b;
      if c =? EQ then
        (if (e =? EQ) && negb (truthy s') then Some [mkb (va * 4 + vb / 16)] else None)
      else
        vc ← b64_val c;
        if e =? EQ then
          (if truthy s' then None
           else Some [mkb (va * 4 + vb / 16); mkb (vb * 16 + vc / 4)])
        else
          ve ← b64_val e; r ← b64decode s';
          Some (mkb (va * 4 + vb / 16) :: mkb (vb * 16 + vc / 4) :: mkb (vc * 64 + ve) :: r)
  | _ => None
  end.

Lemma b64_char_val n : 0 ≤ n < 64 → b64_val (b64_char n) = Some n ∧ (b64_char n =? EQ) = false.
Proof.
  intros Hn. assert (n ∈ Z.of_nat <$> seq 0 64) as Hin.
  { apply list_elem_of_fmap. exists (Z.to_nat n). split; [lia|]. apply elem_of_seq. lia. }
  assert (forallb (λ n, bool_decide (b64_val (b64_char n) = Some n) && negb (b64_char n =? EQ))
    (Z.of_nat <$> seq 0 64) = true) as HF by (vm_compute; reflexivity).
  rewrite forallb_forall in HF. specialize (HF n). rewrite <-list_elem_of_In in HF.
  specialize (HF Hin). apply andb_true_iff in HF as [H1%bool_decide_eq_true H2%negb_true_iff]. done.
Qed.

Ltac Zify.zify_post_hook ::= Z.div_mod_to_equations.

Lemma mkb_eq z x : z mod 256 = b2z x → mkb z = x.
Proof. intros H. apply b2z_inj. by rewrite b2z_mkb. Qed.

Lemma b64_roundtrip d : b64decode (b64encode d) = Some d.
Proof.
  enough (∀ n d, (length d ≤ n)%nat → b64decode (b64encode d) = Some d) as K by (by eapply K).
  clear d. induction n as [|n IH]; intros d Hn.
  { by destruct d; cbn in Hn; [|lia]. }
  destruct d as [|x [|y [|z d]]]; [done| | |]; cbn [b64encode b64decode length] in *;
    pose proof (b2z_range x) as Hx.
  - destruct (b64_char_val (b2z x / 4)) as [-> _]; [lia|].
    destruct (b64_char_val (b2z x mod 4 * 16)) as [-> _]; [lia|]. cbn.
    do 2 f_equal. apply mkb_eq. lia.
  - pose proof (b2z_range y) as Hy. set (m := b2z x * 256 + b2z y).
    destruct (b64_char_val (m / 1024)) as [-> _]; [lia|].
    destruct (b64_char_val (m / 16 mod 64)) as [-> _]; [lia|].
    destruct (b64_char_val (m mod 16 * 4)) as [-> ->]; [lia|]. cbn.
    do 2 f_equal; [apply mkb_eq; lia|]. f_equal. apply mkb_eq. lia.
  - pose proof (b2z_range y) as Hy. pose proof (b2z_range z) as Hz.
    set (m := (b2z x * 256 + b2z y) * 256 + b2z z).
    destruct (b64_char_val (m / 262144)) as [-> _]; [lia|].
    destruct (b64_char_val (m / 4096 mod 64)) as [-> _]; [lia|].
    destruct (b64_char_val (m / 64 mod 64)) as [-> ->]; [lia|].
    destruct (b64_char_val (m mod 64)) as [-> ->]; [lia|]. cbn.
    rewrite IH by lia. cbn. f_equal.
    f_equal; [apply mkb_eq; lia|]. f_equal; [apply mkb_eq; lia|]. f_equal. apply mkb_eq. lia.
Qed.

Ltac Zify.zify_post_hook ::= idtac.
