(* ===== verification/JsonText.v ===== *)
(** * The text of JSON: [json.dumps] and [json.loads]

    [json.dumps] with ASCII output, on one line or indented, and the parser of
    [json.loads] on a [str]: the parser inverts every text of the grammar [jtext], and
    both printers stay within it. A syntax error is a [JSONDecodeError], an integer with
    too many digits a [ValueError]; the recursion limit of the interpreter is not
    modelled. A float is kept as its literal, which is also its [repr]. *)

From S2P Require Import Prelude PyStr Json.

Definition QUOTE : Z := 34.
Definition BSL : Z := 92.
Definition COMMA : Z := 44.
Definition LBRACKET : Z := 91.
Definition RBRACKET : Z := 93.
Definition LBRACE : Z := 123.
Definition RBRACE : Z := 125.
Definition JCOLON : Z := 58.
Definition JSP : Z := 32.

(** ** Printing *)

Definition hex4 (n : Z) : str :=
  [hexd (n / 4096 mod 16); hexd (n / 256 mod 16); hexd (n / 16 mod 16); hexd (n mod 16)].

Definition esc_u (n : Z) : str := BSL :: 117 :: hex4 n.

Definition esc_char (c : Z) : str :=
  if c =? QUOTE then [BSL; QUOTE]
  else if c =? BSL then [BSL; BSL]
  else if c =? 10 then [BSL; 110]
  else if c =? 13 then [BSL; 114]
  else if c =? 9 then [BSL; 116]
  else if c =? 12 then [BSL; 102]
  else if c =? 8 then [BSL; 98]
  else if (32 <=? c) && (c <=? 126) then [c]
  else if c <? 0x10000 then esc_u c
  else let v := c - 0x10000 in
       esc_u (Z.lor 0xD800 (Z.land (Z.shiftr v 10) 0x3FF)) ++ esc_u (Z.lor 0xDC00 (Z.land v 0x3FF)).

Definition dump_str (s : str) : str := QUOTE :: (s ≫= esc_char) ++ [QUOTE].

Fixpoint join (sep : str) (l : list str) : str :=
  match l with
  | [] => []
  | [x] => x
  | x :: l => x ++ sep ++ join sep l
  end.

(** A new line at a nesting level, when there is an indent. *)
Definition newline (indent : option nat) (lvl : nat) : str :=
  match indent with Some n => 10 :: replicate (n * lvl) 32 | None => [] end.

(** What separates two items: [", "], or [","] and a new line. *)
Definition item_sep (indent : option nat) (lvl : nat) : str :=
  COMMA :: match indent with Some _ => newline indent lvl | None => [JSP] end.

Definition brackets (indent : option nat) (lvl : nat) (l r : Z) (items : list str) : str :=
  match items with
  | [] => [l; r]
  | _ => l :: newline indent (S lvl) ++ join (item_sep indent (S lvl)) items ++ newline indent lvl ++ [r]
  end.

(** [json.dumps(v, indent=indent)] of a value at a nesting level. *)
Fixpoint dumps_at (indent : option nat) (lvl : nat) (v : json) : result str :=
  match v with
  | JNull => Ok (u "null")
  | JBool true => Ok (u "true")
  | JBool false => Ok (u "false")
  | JInt n => py_str_int n
  | JFloat lit => Ok lit
  | JStr s => Ok (dump_str s)
  | JArr l => items ← mapR (dumps_at indent (S lvl)) l; Ok (brackets indent lvl LBRACKET RBRACKET items)
  | JObj l =>
      items ← mapR (λ kv, t ← dumps_at indent (S lvl) kv.2; Ok (dump_str kv.1 ++ u ": " ++ t)) l;
      Ok (brackets indent lvl LBRACE RBRACE items)
  end.

Definition json_dumps : json → result str := dumps_at None 0.

(** [sort_keys=True] *)
Fixpoint str_leb (s t : str) : bool :=
  match s, t with
  | [], _ => true
  | _ :: _, [] => false
  | c :: s, d :: t => if c <? d then true else if d <? c then false else str_leb s t
  end.

Fixpoint insert_item {V} (kv : str * V) (l : list (str * V)) : list (str * V) :=
  match l with
  | [] => [kv]
  | kv' :: l' => if str_leb kv.1 kv'.1 then kv :: l else kv' :: insert_item kv l'
  end.

Fixpoint sort_keys (v : json) : json :=
  match v with
  | JArr l => JArr (sort_keys <$> l)
  | JObj l => JObj (foldr insert_item [] ((λ kv, (kv.1, sort_keys kv.2)) <$> l))
  | v => v
  end.

(** ** Parsing *)

Definition is_ws (c : Z) : bool := (c =? 32) || (c =? 9) || (c =? 10) || (c =? 13).

Fixpoint skip_ws (s : str) : str :=
  match s with
  | c :: s' => if is_ws c then skip_ws s' else s
  | [] => []
  end.

Definition unhex4 (a b c d : Z) : option Z :=
  a ← unhexd a; b ← unhexd b; c ← unhexd c; d ← unhexd d; Some (((a * 16 + b) * 16 + c) * 16 + d).

Definition unesc (c : Z) : option Z :=
  if c =? QUOTE then Some QUOTE else if c =? BSL then Some BSL else if c =? 47 then Some 47
  else if c =? 98 then Some 8 else if c =? 102 then Some 12 else if c =? 110 then Some 10
  else if c =? 114 then Some 13 else if c =? 116 then Some 9 else None.

Definition hi_surrogate (n : Z) : bool := (0xD800 <=? n) && (n <=? 0xDBFF).
Definition lo_surrogate (n : Z) : bool := (0xDC00 <=? n) && (n <=? 0xDFFF).

(** [py_scanstring] after the opening quote: the string and what follows it. *)
Fixpoint scanstring (s : str) : option (str * str) :=
  match s with
  | [] => None
  | c :: s1 =>
      if c =? QUOTE then Some ([], s1)
      else if c =? BSL then
        match s1 with
        | x :: s1' =>
            if x =? 117 then
              match s1' with
              | a :: b :: d :: e :: s2 =>
                  n ← unhex4 a b d e;
                  let single := '(r, rest) ← scanstring s2; Some (n :: r, rest) in
                  if hi_surrogate n then
                    match s2 with
                    | y :: z :: a' :: b' :: d' :: e' :: s3 =>
                        if (y =? BSL) && (z =? 117) then
                          match unhex4 a' b' d' e' with
                          | Some n2 =>
                              if lo_surrogate n2 then
                                '(r, rest) ← scanstring s3;
                                Some (0x10000 + Z.lor (Z.shiftl (n - 0xD800) 10) (n2 - 0xDC00) :: r, rest)
                              else single
                          | None => single
                          end
                        else single
                    | _ => single
                    end
                  else single
              | _ => None
              end
            else x ← unesc x; '(r, rest) ← scanstring s1'; Some (x :: r, rest)
        | [] => None
        end
      else if c <? 32 then None
      else '(r, rest) ← scanstring s1; Some (c :: r, rest)
  end.

(** The longest prefix of ASCII digits. *)
Fixpoint span_digits (s : str) : str * str :=
  match s with
  | c :: s' => if ascii_digit c then let '(d, r) := span_digits s' in (c :: d, r) else ([], s)
  | [] => ([], [])
  end.

(** The integer part: an optional sign, then [0] or a non-zero digit and more. *)
Definition scan_int (s : str) : option (str * str) :=
  let '(sign, s1) := match s with
                     | c :: s1 => if c =? 45 then ([c], s1) else ([], s)
                     | [] => ([], s)
                     end in
  match s1 with
  | c :: s2 =>
      if c =? 48 then Some (sign ++ [c], s2)
      else if ascii_digit c then let '(d, r) := span_digits s1 in Some (sign ++ d, r)
      else None
  | [] => None
  end.

(** The optional fraction and exponent. *)
Definition scan_frac (s : str) : str * str :=
  match s with
  | c :: s1 => if c =? 46 then
                 let '(d, r) := span_digits s1 in if truthy d then (c :: d, r) else ([], s)
               else ([], s)
  | [] => ([], s)
  end.

Definition scan_exp (s : str) : str * str :=
  match s with
  | c :: s1 =>
      if (c =? 101) || (c =? 69) then
        let '(sg, s2) := match s1 with
                         | x :: s2 => if (x =? 45) || (x =? 43) then ([x], s2) else ([], s1)
                         | [] => ([], s1)
                         end in
        let '(d, r) := span_digits s2 in
        if truthy d then (c :: sg ++ d, r) else ([], s)
      else ([], s)
  | [] => ([], s)
  end.

(** The next character, if it is the one asked for. *)
Definition expect (c : Z) (s : str) : option str :=
  match s with x :: s' => if x =? c then Some s' else None | [] => None end.

(** A number with a fraction or an exponent. *)
Definition is_float_literal (s : str) : bool :=
  match scan_int s with
  | Some (_, s1) =>
      let '(f, s2) := scan_frac s1 in let '(e, s3) := scan_exp s2 in truthy (f ++ e) && negb (truthy s3)
  | None => false
  end.

Section Parse.
Context {U : UnicodeDB}.

Definition scan_number (s : str) : result (json * str) :=
  '(i, s1) ← some_or (scan_int s) JSONDecodeError;
  let '(f, s2) := scan_frac s1 in
  let '(e, s3) := scan_exp s2 in
  if truthy (f ++ e) then Ok (JFloat (i ++ f ++ e), s3)
  else n ← py_int i; Ok (JInt n, s1).

Fixpoint prefix_of (p s : str) : option str :=
  match p, s with
  | [], _ => Some s
  | x :: p, y :: s => if x =? y then prefix_of p s else None
  | _ :: _, [] => None
  end.

Definition literals : list (str * json) :=
  [(u "null", JNull); (u "true", JBool true); (u "false", JBool false);
   (u "NaN", JFloat (u "NaN")); (u "Infinity", JFloat (u "Infinity"));
   (u "-Infinity", JFloat (u "-Infinity"))].

Fixpoint scan_literal (lits : list (str * json)) (s : str) : option (json * str) :=
  match lits with
  | [] => None
  | (p, v) :: lits => match prefix_of p s with Some r => Some (v, r) | None => scan_literal lits s end
  end.

(** [scan_once]: one value at the head of the text. *)
Fixpoint scan_once (fuel : nat) (s : str) : result (json * str) :=
  match fuel with
  | O => Raise OutOfFuel
  | S fuel =>
      match s with
      | [] => Raise JSONDecodeError
      | c :: s1 =>
          if c =? QUOTE then '(r, rest) ← some_or (scanstring s1) JSONDecodeError; Ok (JStr r, rest)
          else if c =? LBRACE then
            match expect RBRACE (skip_ws s1) with
            | Some rest => Ok (JObj [], rest)
            | None => '(l, rest) ← scan_members fuel (skip_ws s1) []; Ok (JObj l, rest)
            end
          else if c =? LBRACKET then
            match expect RBRACKET (skip_ws s1) with
            | Some rest => Ok (JArr [], rest)
            | None => '(l, rest) ← scan_elements fuel (skip_ws s1); Ok (JArr l, rest)
            end
          else match scan_literal literals s with
               | Some r => Ok r
               | None => scan_number s
               end
      end
  end
with scan_elements (fuel : nat) (s : str) : result (list json * str) :=
  match fuel with
  | O => Raise OutOfFuel
  | S fuel =>
      '(v, s1) ← scan_once fuel s;
      match expect RBRACKET (skip_ws s1) with
      | Some rest => Ok ([v], rest)
      | None =>
          s2 ← some_or (expect COMMA (skip_ws s1)) JSONDecodeError;
          '(l, rest) ← scan_elements fuel (skip_ws s2);
          Ok (v :: l, rest)
      end
  end
with scan_members (fuel : nat) (s : str) (acc : list (str * json)) : result (list (str * json) * str) :=
  match fuel with
  | O => Raise OutOfFuel
  | S fuel =>
      s1 ← some_or (expect QUOTE s) JSONDecodeError;
      '(k, s2) ← some_or (scanstring s1) JSONDecodeError;
      s3 ← some_or (expect JCOLON (skip_ws s2)) JSONDecodeError;
      '(v, s4) ← scan_once fuel (skip_ws s3);
      match expect RBRACE (skip_ws s4) with
      | Some rest => Ok (dict_set k v acc, rest)
      | None =>
          s5 ← some_or (expect COMMA (skip_ws s4)) JSONDecodeError;
          scan_members fuel (skip_ws s5) (dict_set k v acc)
      end
  end.

Definition json_loads_str (s : str) : result json :=
  '(v, rest) ← scan_once (S (2 * length s)) (skip_ws s);
  if truthy (skip_ws rest) then Raise JSONDecodeError else Ok v.
End Parse.

(** ** Round trip *)

(** Values made of scalar strings, natural numbers, finite floats and dictionaries with
    distinct keys. *)
Inductive json_wf : json → Prop :=
  | wf_null : json_wf JNull
  | wf_bool x : json_wf (JBool x)
  | wf_int n : 0 ≤ n → json_wf (JInt n)
  | wf_float lit : is_float_literal lit = true → json_wf (JFloat lit)
  | wf_str s : scalar_str s = true → json_wf (JStr s)
  | wf_arr l : Forall json_wf l → json_wf (JArr l)
  | wf_obj l : dict_ok l → Forall (λ kv, scalar_str kv.1 = true ∧ json_wf kv.2) l → json_wf (JObj l).

Lemma unhex4_hex4 n : 0 ≤ n < 65536 → ∃ a b c d, hex4 n = [a; b; c; d] ∧ unhex4 a b c d = Some n.
Proof.
  intros Hn. unfold hex4. eexists _, _, _, _. split; [done|]. unfold unhex4.
  rewrite !(proj2 (hexd_spec _ ltac:(apply Z.mod_pos_bound; lia))). cbn. f_equal.
  pose proof (Z.div_mod n 16). pose proof (Z.div_mod (n / 16) 16). pose proof (Z.div_mod (n / 16 / 16) 16).
  replace (n / 256) with (n / 16 / 16) by (by rewrite Z.div_div by lia).
  replace (n / 4096) with (n / 16 / 16 / 16) by (by rewrite !Z.div_div by lia).
  rewrite (Z.mod_small (n / 16 / 16 / 16)); [lia|].
  rewrite !Z.div_div by lia. split; [apply Z.div_pos; lia|apply Z.div_lt_upper_bound; lia].
Qed.

Lemma scan_single n s r rest : 0 ≤ n < 65536 → hi_surrogate n = false →
  scanstring s = Some (r, rest) → scanstring (esc_u n ++ s) = Some (n :: r, rest).
Proof.
  intros Hn Hhi Hs. destruct (unhex4_hex4 n Hn) as (a & b & c & d & E & Eu).
  unfold esc_u. rewrite E. cbn [app scanstring]. cbn. rewrite Eu. cbn. rewrite Hhi, Hs. done.
Qed.

(** A character outside the basic plane is printed as two escapes and read as one. *)
Lemma scan_pair c s r rest : 0x10000 ≤ c ≤ 0x10FFFF → scanstring s = Some (r, rest) →
  let v := c - 0x10000 in
  scanstring (esc_u (Z.lor 0xD800 (Z.land (Z.shiftr v 10) 0x3FF)) ++
              esc_u (Z.lor 0xDC00 (Z.land v 0x3FF)) ++ s) = Some (c :: r, rest).
Proof.
  intros Hc Hs. cbn zeta. set (v := c - 0x10000). assert (0 ≤ v < 2 ^ 20) as Hv by (unfold v; lia).
  change 0x3FF with (Z.ones 10). rewrite !Z.land_ones, Z.shiftr_div_pow2 by lia.
  change 0xD800 with (Z.shiftl 54 10). change 0xDC00 with (Z.shiftl 55 10).
  pose proof (Z.mod_pos_bound v (2 ^ 10) eq_refl) as Hlo.
  assert (0 ≤ v / 2 ^ 10 < 2 ^ 10) as Hhi
    by (split; [apply Z.div_pos; lia|apply Z.div_lt_upper_bound; lia]).
  rewrite (Z.mod_small (v / 2 ^ 10)), !lor_shiftl_add by lia.
  pose proof (Z.div_mod v (2 ^ 10) ltac:(lia)) as Hdm.
  set (h := v / 2 ^ 10) in *. set (l := v mod 2 ^ 10) in *. change (2 ^ 10) with 1024 in *. clearbody h l.
  destruct (unhex4_hex4 (54 * 1024 + h)) as (a & b & d & e & E & Eu); [lia|].
  destruct (unhex4_hex4 (55 * 1024 + l)) as (a' & b' & d' & e' & E' & Eu'); [lia|].
  unfold esc_u. rewrite E, E'. cbn [app scanstring].
  change (BSL =? QUOTE) with false. change (BSL =? BSL) with true. change (117 =? 117) with true. cbn iota.
  rewrite Eu, Eu'. cbn [mbind option_bind andb].
  assert (hi_surrogate (54 * 1024 + h) = true) as -> by (unfold hi_surrogate; lia).
  assert (lo_surrogate (55 * 1024 + l) = true) as -> by (unfold lo_surrogate; lia).
  rewrite Hs. replace (54 * 1024 + h - 0xD800) with h by lia.
  replace (55 * 1024 + l - 0xDC00) with l by lia. rewrite lor_shiftl_add by lia.
  change (2 ^ 10) with 1024. rewrite Z.mul_comm, <-Hdm. unfold v.
  cbn [mbind option_bind]. do 3 f_equal. lia.
Qed.

Lemma scan_esc c s r rest : is_scalar c = true → scanstring s = Some (r, rest) →
  scanstring (esc_char c ++ s) = Some (c :: r, rest).
Proof.
  intros Hc Hs. apply is_scalar_spec in Hc. unfold esc_char.
  repeat match goal with
  | |- context [if c =? ?k then _ else _] =>
      destruct (c =? k) eqn:?; [zbool; subst c; cbn; rewrite Hs; done|zbool]
  end.
  destruct ((32 <=? c) && (c <=? 126)) eqn:E; zbool.
  - cbn [app scanstring]. unfold QUOTE, BSL in *.
    rewrite !(proj2 (Z.eqb_neq _ _)), (proj2 (Z.ltb_ge _ _)) by lia. by rewrite Hs.
  - destruct (c <? 0x10000) eqn:E2; zbool.
    + apply scan_single; [lia| |done]. unfold hi_surrogate. lia.
    + rewrite <-app_assoc. exact (scan_pair c s r rest ltac:(lia) Hs).
Qed.

Lemma scan_dump_str s rest : scalar_str s = true →
  scanstring ((s ≫= esc_char) ++ QUOTE :: rest) = Some (s, rest).
Proof.
  induction s as [|c s IH]; intros Hs; [done|]. cbn [scalar_str forallb] in Hs.
  apply andb_true_iff in Hs as [Hc Hs]. rewrite bind_cons, <-app_assoc. apply scan_esc; [done|]. by apply IH.
Qed.

(** *** Numbers *)

(** What may follow a number. *)
Definition delim (rest : str) : Prop :=
  match rest with [] => True | c :: _ => c = COMMA ∨ c = RBRACKET ∨ c = RBRACE ∨ is_ws c = true end.

Lemma delim_char c rest : delim (c :: rest) →
  ascii_digit c = false ∧ (c =? 46) = false ∧ (c =? 101) = false ∧ (c =? 69) = false ∧ (c =? 45) = false ∧ (c =? 43) = false.
Proof.
  intros [->|[->|[->|H]]]; [done..|]. unfold is_ws in H. rewrite !orb_true_iff, !Z.eqb_eq in H.
  by destruct H as [[[->| ->]| ->]| ->].
Qed.

Lemma span_digits_app ds rest : Forall (λ c, ascii_digit c = true) ds → delim rest →
  span_digits (ds ++ rest) = (ds, rest).
Proof.
  intros Hds Hr. induction Hds as [|c ds Hc _ IH]; cbn [app span_digits].
  - destruct rest as [|c rest]; [done|]. cbn [span_digits]. by rewrite (proj1 (delim_char _ _ Hr)).
  - by rewrite Hc, IH.
Qed.

Lemma dec_digits_head fuel n : 1 ≤ n < 2 ^ Z.of_nat fuel →
  ∃ c s, dec_digits fuel n = c :: s ∧ 49 ≤ c ≤ 57.
Proof.
  revert n. induction fuel as [|fuel IH]; intros n Hn; [change (2 ^ Z.of_nat 0) with 1 in Hn; lia|].
  cbn [dec_digits]. destruct (n <? 10) eqn:E; zbool; [eexists _, _; split; [done|lia]|].
  rewrite Nat2Z.inj_succ, Z.pow_succ_r in Hn by lia.
  destruct (IH (n / 10)) as (c & s & -> & Hc).
  { split; [apply Z.div_le_lower_bound; lia|apply Z.div_lt_upper_bound; lia]. }
  exists c, (s ++ [48 + n mod 10]). done.
Qed.

Lemma nat_str_head n : 0 ≤ n → nat_str n = [48] ∨ ∃ c s, nat_str n = c :: s ∧ 49 ≤ c ≤ 57.
Proof.
  intros Hn. destruct (decide (n = 0)) as [->|]; [by left|]. right. apply dec_digits_head.
  rewrite Nat2Z.inj_succ, Z2Nat.id by apply Z.log2_nonneg. split; [lia|]. apply Z.log2_spec. lia.
Qed.

Lemma scan_int_nat n rest : 0 ≤ n → delim rest → scan_int (nat_str n ++ rest) = Some (nat_str n, rest).
Proof.
  intros Hn Hr. pose proof (nat_str_ascii n Hn) as Hd. destruct (nat_str_head n Hn) as [E|(c & s & E & Hc)];
    rewrite E in *; [done|]. unfold scan_int. cbn [app].
  rewrite !(proj2 (Z.eqb_neq _ _)) by lia. cbn iota beta zeta.
  apply Forall_cons in Hd as Hd'. destruct Hd' as [-> _].
  change (c :: s ++ rest) with ((c :: s) ++ rest). by rewrite span_digits_app.
Qed.

Lemma delim_no_float rest : delim rest → scan_frac rest = ([], rest) ∧ scan_exp rest = ([], rest).
Proof. destruct rest as [|c rest]; [done|]. intros (_ & H1 & H2 & H3 & _)%delim_char. unfold scan_frac, scan_exp. by rewrite H1, H2, H3. Qed.

Lemma scan_literal_digit c s : 48 ≤ c ≤ 57 → scan_literal literals (c :: s) = None.
Proof.
  intros Hc. unfold literals. cbn [scan_literal].
  repeat match goal with |- context [prefix_of (u ?l) (c :: s)] =>
    let p := eval vm_compute in (u l) in change (u l) with p; cbn [prefix_of];
    rewrite (proj2 (Z.eqb_neq _ c)) by lia
  end. done.
Qed.

(** *** Values *)

Section RoundTrip.
Context {U : UnicodeDB} {UL : UnicodeDBLaws U}.

Lemma scan_number_nat n rest t : 0 ≤ n → py_str_int n = Ok t → delim rest →
  scan_number (t ++ rest) = Ok (JInt n, rest) ∧ ∃ c t', t = c :: t' ∧ 48 ≤ c ≤ 57.
Proof.
  intros Hn Ht Hr. destruct (py_int_str n t Hn Ht) as [Hi _].
  assert (t = nat_str n) as ->.
  { unfold py_str_int in Ht. rewrite Z.abs_eq, (proj2 (Z.ltb_ge n 0)) in Ht by lia.
    destruct (_ <? _); congruence. }
  split.
  - unfold scan_number. rewrite scan_int_nat by done. rbind.
    destruct (delim_no_float rest Hr) as [-> ->]. cbn [app truthy]. rewrite Hi. done.
  - destruct (nat_str_head n Hn) as [->|(c & s & -> & Hc)]; eexists _, _; (split; [done|lia]).
Qed.

Lemma span_digits_delim rest : delim rest → span_digits rest = ([], rest).
Proof. intros Hr. apply (span_digits_app [] rest); [constructor|done]. Qed.

(** A literal read whole is read the same in front of a delimiter. *)
Lemma span_digits_rest s rest : delim rest →
  span_digits (s ++ rest) = ((span_digits s).1, (span_digits s).2 ++ rest) ∧ s = (span_digits s).1 ++ (span_digits s).2.
Proof.
  intros Hr. induction s as [|c s [IH1 IH2]]; cbn [app span_digits].
  - by rewrite span_digits_delim.
  - destruct (ascii_digit c); [|done]. rewrite IH1. destruct (span_digits s) as [d r]. cbn in *. by rewrite <-IH2.
Qed.

Lemma scan_frac_rest s rest : delim rest →
  scan_frac (s ++ rest) = ((scan_frac s).1, (scan_frac s).2 ++ rest) ∧ s = (scan_frac s).1 ++ (scan_frac s).2.
Proof.
  intros Hr. destruct s as [|c s]; [by rewrite app_nil_l, (proj1 (delim_no_float rest Hr))|].
  cbn [app scan_frac]. destruct (c =? 46); [|done].
  destruct (span_digits_rest s rest Hr) as [-> Hs]. destruct (span_digits s) as [d r]. cbn [fst snd] in *.
  destruct (truthy d); cbn; [by rewrite <-Hs|done].
Qed.

Lemma scan_exp_rest s rest : delim rest →
  scan_exp (s ++ rest) = ((scan_exp s).1, (scan_exp s).2 ++ rest) ∧ s = (scan_exp s).1 ++ (scan_exp s).2.
Proof.
  intros Hr. destruct s as [|c s]; [by rewrite app_nil_l, (proj2 (delim_no_float rest Hr))|].
  cbn [app scan_exp]. destruct (_ || _)%bool; [|done]. destruct s as [|x s]; cbn [app].
  - assert (match rest with [] => ([], rest) | x :: s2 => if (x =? 45) || (x =? 43) then ([x], s2) else ([], rest) end = ([], rest)) as ->.
    { destruct rest as [|x rest]; [done|]. destruct (delim_char _ _ Hr) as (_ & _ & _ & _ & -> & ->). done. }
    by rewrite span_digits_delim.
  - destruct (_ || _)%bool.
    + destruct (span_digits_rest s rest Hr) as [-> Hs]. destruct (span_digits s) as [d r]. cbn [fst snd] in *.
      destruct (truthy d); cbn; [by rewrite <-Hs|done].
    + change (x :: s ++ rest) with ((x :: s) ++ rest).
      destruct (span_digits_rest (x :: s) rest Hr) as [-> Hs]. destruct (span_digits (x :: s)) as [d r]. cbn [fst snd] in *.
      destruct (truthy d); cbn; [by rewrite <-Hs|done].
Qed.

Lemma scan_int_rest s i r rest : delim rest → scan_int s = Some (i, r) →
  scan_int (s ++ rest) = Some (i, r ++ rest) ∧ s = i ++ r ∧
  ∃ c s', (s = c :: s' ∨ s = 45 :: c :: s') ∧ 48 ≤ c ≤ 57.
Proof.
  intros Hr. assert (∀ c, ascii_digit c = true → 48 ≤ c ≤ 57) as Hd by (intros c; unfold ascii_digit; intros; zbool; lia).
  assert (∀ sg c s1, (if c =? 48 then Some (sg ++ [c], s1)
      else if ascii_digit c then let '(d, r) := span_digits (c :: s1) in Some (sg ++ d, r) else None) = Some (i, r) →
    (if c =? 48 then Some (sg ++ [c], s1 ++ rest)
      else if ascii_digit c then let '(d, r) := span_digits (c :: s1 ++ rest) in Some (sg ++ d, r) else None) = Some (i, r ++ rest) ∧
    sg ++ c :: s1 = i ++ r ∧ 48 ≤ c ≤ 57) as K.
  { intros sg c s1. destruct (Z.eqb_spec c 48) as [->|]; [intros [= <- <-]; by rewrite <-app_assoc|].
    destruct (ascii_digit c) eqn:Ec; [|done]. change (c :: s1 ++ rest) with ((c :: s1) ++ rest).
    destruct (span_digits_rest (c :: s1) rest Hr) as [-> Hs]. destruct (span_digits (c :: s1)) as [d x]. cbn [fst snd] in *.
    intros [= <- <-]. split_and!; [done|by rewrite Hs, app_assoc|apply Hd; done..]. }
  destruct s as [|c s]; [done|]. unfold scan_int. cbn [app]. destruct (Z.eqb_spec c 45) as [->|].
  - destruct s as [|c s]; [done|]. cbn [app]. intros [H1 [H2 H3]]%(K [45]). split_and!; [done|done|]. exists c, s. auto.
  - intros [H1 [H2 H3]]%(K []). split_and!; [done|done|]. exists c, s. auto.
Qed.

Lemma scan_number_float lit rest : is_float_literal lit = true → delim rest →
  scan_number (lit ++ rest) = Ok (JFloat lit, rest).
Proof.
  unfold is_float_literal, scan_number. destruct (scan_int lit) as [[i s1]|] eqn:Ei; [|done]. intros Hf Hr.
  destruct (scan_int_rest _ _ _ rest Hr Ei) as (-> & Hl & _). rbind.
  destruct (scan_frac_rest s1 rest Hr) as [-> H1]. destruct (scan_frac s1) as [f s2]. cbn [fst snd] in *.
  destruct (scan_exp_rest s2 rest Hr) as [-> H2]. destruct (scan_exp s2) as [e s3]. cbn [fst snd] in *.
  apply andb_true_iff in Hf as [-> Hs3]. destruct s3; [|done]. rewrite app_nil_r in H2. subst. done.
Qed.

Lemma scan_literal_minus c s : 48 ≤ c ≤ 57 → scan_literal literals (45 :: c :: s) = None.
Proof.
  intros Hc. unfold literals. cbn [scan_literal].
  repeat match goal with |- context [prefix_of (u ?l) (45 :: c :: s)] =>
    let p := eval vm_compute in (u l) in change (u l) with p; cbn [prefix_of];
    first [change (45 =? 45) with true; cbn iota; rewrite (proj2 (Z.eqb_neq _ c)) by lia
          | rewrite (proj2 (Z.eqb_neq _ 45)) by lia]
  end. done.
Qed.

(** *** The grammar of JSON texts, with white space between tokens *)

Definition blank (w : str) : Prop := Forall (λ c, is_ws c = true) w.

Inductive jtext : json → str → Prop :=
  | text_null : jtext JNull (u "null")
  | text_true : jtext (JBool true) (u "true")
  | text_false : jtext (JBool false) (u "false")
  | text_int n t : 0 ≤ n → py_str_int n = Ok t → jtext (JInt n) t
  | text_float lit : is_float_literal lit = true → jtext (JFloat lit) lit
  | text_str s : scalar_str s = true → jtext (JStr s) (dump_str s)
  | text_arr0 w : blank w → jtext (JArr []) (LBRACKET :: w ++ [RBRACKET])
  | text_arr l w t : blank w → jelems l t → jtext (JArr l) (LBRACKET :: w ++ t ++ [RBRACKET])
  | text_obj0 w : blank w → jtext (JObj []) (LBRACE :: w ++ [RBRACE])
  | text_obj l w t : blank w → dict_ok l → jmembers l t → jtext (JObj l) (LBRACE :: w ++ t ++ [RBRACE])
with jelems : list json → str → Prop :=
  | elem_last v t w : jtext v t → blank w → jelems [v] (t ++ w)
  | elem_cons v t w1 w2 l t' : jtext v t → blank w1 → blank w2 → jelems l t' →
      jelems (v :: l) (t ++ w1 ++ COMMA :: w2 ++ t')
with jmembers : list (str * json) → str → Prop :=
  | member_last k v t w1 w2 w3 : scalar_str k = true → jtext v t → blank w1 → blank w2 → blank w3 →
      jmembers [(k, v)] (dump_str k ++ w1 ++ JCOLON :: w2 ++ t ++ w3)
  | member_cons k v t w1 w2 w3 w4 l t' : scalar_str k = true → jtext v t → blank w1 → blank w2 → blank w3 → blank w4 →
      jmembers l t' → jmembers ((k, v) :: l) (dump_str k ++ w1 ++ JCOLON :: w2 ++ t ++ w3 ++ COMMA :: w4 ++ t').

Scheme jtext_mut := Minimality for jtext Sort Prop
  with jelems_mut := Minimality for jelems Sort Prop
  with jmembers_mut := Minimality for jmembers Sort Prop.
Combined Scheme json_grammar_ind from jtext_mut, jelems_mut, jmembers_mut.

(** A text that starts with a character that is neither white space nor a closing bracket. *)
Definition opens (t : str) : Prop := ∃ c t', t = c :: t' ∧ is_ws c = false ∧ c ≠ RBRACKET ∧ c ≠ RBRACE.

Lemma opens_app t s : opens t → opens (t ++ s).
Proof. intros (c & t' & -> & H). by exists c, (t' ++ s). Qed.

Lemma dump_str_opens s : opens (dump_str s).
Proof. eexists _, _. split; [reflexivity|by vm_compute]. Qed.

Lemma digit_opens c s : 48 ≤ c ≤ 57 → opens (c :: s).
Proof.
  intros Hc. exists c, s. split; [done|]. unfold is_ws, RBRACKET, RBRACE. split_and!; [|lia|lia].
  rewrite !orb_false_iff, !Z.eqb_neq. lia.
Qed.

Lemma text_opens v t : jtext v t → opens t.
Proof.
  intros H. destruct H as [| | |n t Hn Ht|lit Hf|s Hs|w Hw|l w t Hw _|w Hw|l w t Hw _ _];
    try (eexists _, _; split; [reflexivity|]; by vm_compute).
  - destruct (scan_number_nat n [] t Hn Ht I) as [_ (c & t' & -> & Hc)]. by apply digit_opens.
  - unfold is_float_literal in Hf. destruct (scan_int lit) as [[i r]|] eqn:Ei; [|done].
    destruct (scan_int_rest _ _ _ [] I Ei) as (_ & _ & c & s' & [->| ->] & Hc); [by apply digit_opens|].
    eexists _, _. split; [reflexivity|by vm_compute].
Qed.

Lemma elems_open l t : jelems l t → opens t.
Proof. destruct 1; by eapply opens_app, text_opens. Qed.

Lemma members_open l t : jmembers l t → ∃ t', t = QUOTE :: t'.
Proof. destruct 1; unfold dump_str; cbn [app]; eauto. Qed.

Lemma skip_ws_opens t s : opens t → skip_ws (t ++ s) = t ++ s.
Proof. intros (c & t' & -> & H & _). cbn. by rewrite H. Qed.

Lemma skip_blank w s : blank w → skip_ws (w ++ s) = skip_ws s.
Proof. induction 1 as [|c w Hc _ IH]; [done|]. cbn. by rewrite Hc. Qed.

Lemma skip_blank_char w c s : blank w → is_ws c = false → skip_ws (w ++ c :: s) = c :: s.
Proof. intros Hw Hc. rewrite skip_blank by done. cbn. by rewrite Hc. Qed.

Lemma skip_blank_opens w t s : blank w → opens t → skip_ws (w ++ t ++ s) = t ++ s.
Proof. intros Hw Ht. rewrite skip_blank by done. by apply skip_ws_opens. Qed.

Lemma expect_ne c x s : x ≠ c → expect c (x :: s) = None.
Proof. intros H. cbn. by rewrite (proj2 (Z.eqb_neq _ _)). Qed.

Lemma expect_opens c t s : opens t → c = RBRACKET ∨ c = RBRACE → expect c (t ++ s) = None.
Proof. intros (x & t' & -> & _ & H1 & H2) [->| ->]; by apply expect_ne. Qed.

Lemma delim_blank w c s : blank w → delim (c :: s) → delim (w ++ c :: s).
Proof. intros [|x w' Hx _] Hd; [done|]. cbn. auto. Qed.

(** *** The parser on the texts of the grammar *)

Definition text_scans (v : json) (t : str) : Prop := ∀ fuel rest, delim rest → (length t < fuel)%nat →
  scan_once fuel (t ++ rest) = Ok (v, rest).
Definition elems_scan (l : list json) (t : str) : Prop := ∀ fuel rest, (length t + 1 < fuel)%nat →
  scan_elements fuel (t ++ RBRACKET :: rest) = Ok (l, rest).
Definition members_scan (l : list (str * json)) (t : str) : Prop := ∀ acc fuel rest, dict_ok (acc ++ l) →
  (length t + 1 < fuel)%nat → scan_members fuel (t ++ RBRACE :: rest) acc = Ok (acc ++ l, rest).

Lemma scans_number v t : (∃ c s, (t = c :: s ∨ t = 45 :: c :: s) ∧ 48 ≤ c ≤ 57) →
  (∀ rest, delim rest → scan_number (t ++ rest) = Ok (v, rest)) → text_scans v t.
Proof.
  intros (c & s & [->| ->] & Hc) H [|fuel] rest Hr Hf; [lia| |lia|]; specialize (H rest Hr); cbn [app scan_once] in *.
  - unfold QUOTE, LBRACE, LBRACKET. rewrite !(proj2 (Z.eqb_neq _ _)) by lia. by rewrite scan_literal_digit by lia.
  - by rewrite scan_literal_minus by lia.
Qed.

Lemma scans_arr l w t : blank w → opens t → elems_scan l t → text_scans (JArr l) (LBRACKET :: w ++ t ++ [RBRACKET]).
Proof.
  intros Hw Ho H [|fuel] rest Hr Hf; [lia|]. cbn [app scan_once] in *. change (LBRACKET =? QUOTE) with false.
  change (LBRACKET =? LBRACE) with false. change (LBRACKET =? LBRACKET) with true. cbn iota.
  cbn [length] in Hf. rewrite !length_app in Hf. cbn [length] in Hf.
  rewrite <-!app_assoc. cbn [app]. rewrite skip_blank_opens by done. rewrite expect_opens by auto.
  rewrite H by lia. done.
Qed.

Lemma scans_obj l w t : blank w → (∃ t', t = QUOTE :: t') → members_scan l t → dict_ok l →
  text_scans (JObj l) (LBRACE :: w ++ t ++ [RBRACE]).
Proof.
  intros Hw [t' Ht] H Hd [|fuel] rest Hr Hf; [lia|]. cbn [app scan_once] in *. change (LBRACE =? QUOTE) with false.
  change (LBRACE =? LBRACE) with true. cbn iota.
  cbn [length] in Hf. rewrite !length_app in Hf. cbn [length] in Hf.
  assert (opens t) as Ho by (subst t; by eexists _, _; split; [reflexivity|vm_compute]).
  rewrite <-!app_assoc. cbn [app]. rewrite skip_blank_opens by done. rewrite expect_opens by auto.
  rewrite (H []) by first [done|lia]. done.
Qed.

Lemma scans_empty l r w : blank w → (l = LBRACKET ∧ r = RBRACKET ∨ l = LBRACE ∧ r = RBRACE) →
  text_scans (if l =? LBRACKET then JArr [] else JObj []) (l :: w ++ [r]).
Proof.
  intros Hw Hlr [|fuel] rest Hr Hf; [lia|]. cbn [app scan_once]. rewrite <-app_assoc. cbn [app].
  destruct Hlr as [[-> ->]|[-> ->]]; rewrite skip_blank_char by done; reflexivity.
Qed.

Lemma member_step k v t w1 w2 w3 c s acc fuel : scalar_str k = true → text_scans v t → opens t → blank w1 → blank w2 →
  blank w3 → is_ws c = false → delim (c :: s) → (length t < fuel)%nat →
  scan_members (S fuel) (dump_str k ++ w1 ++ JCOLON :: w2 ++ t ++ w3 ++ c :: s) acc =
    match expect RBRACE (c :: s) with
    | Some rest => Ok (dict_set k v acc, rest)
    | None => s5 ← some_or (expect COMMA (c :: s)) JSONDecodeError; scan_members fuel (skip_ws s5) (dict_set k v acc)
    end.
Proof.
  intros Hk Hv Ho H1 H2 H3 Hc Hd Hf. unfold dump_str. cbn [app scan_members expect]. rewrite Z.eqb_refl. rbind.
  rewrite <-app_assoc. cbn [app]. rewrite scan_dump_str by done. rbind.
  rewrite skip_blank_char by done. cbn [expect]. rewrite Z.eqb_refl. rbind.
  rewrite skip_blank_opens by done. rewrite Hv by first [lia|by apply delim_blank]. rbind.
  by rewrite skip_blank_char by done.
Qed.

Lemma dict_snoc {V} (acc : list (str * V)) k v l : dict_ok (acc ++ (k, v) :: l) →
  dict_set k v acc = acc ++ [(k, v)] ∧ dict_ok ((acc ++ [(k, v)]) ++ l).
Proof.
  intros Hok. split; [|by rewrite <-app_assoc]. apply dict_set_new. unfold dict_ok, dict_keys in *.
  rewrite fmap_app, fmap_cons in Hok. apply NoDup_app in Hok as (_ & Hdis & _). intros Hin. apply (Hdis k Hin). left.
Qed.

Lemma grammar_scans :
  (∀ v t, jtext v t → text_scans v t) ∧ (∀ l t, jelems l t → elems_scan l t) ∧ (∀ l t, jmembers l t → members_scan l t).
Proof.
  apply json_grammar_ind.
  1-3: intros [|fuel] rest Hr Hf; [lia|reflexivity].
  - intros n t Hn Ht. destruct (scan_number_nat n [] t Hn Ht I) as [_ (c & s & Es & Hc)].
    apply scans_number; [by exists c, s; auto|]. intros rest Hr. by apply scan_number_nat.
  - intros lit Hl. apply scans_number; [|by intros; apply scan_number_float].
    unfold is_float_literal in Hl. destruct (scan_int lit) as [[i r]|] eqn:Ei; [|done].
    by destruct (scan_int_rest _ _ _ [] I Ei) as (_ & _ & H).
  - intros s Hs [|fuel] rest Hr Hf; [lia|]. unfold dump_str. cbn [app scan_once]. rewrite Z.eqb_refl, <-app_assoc. cbn [app].
    by rewrite scan_dump_str.
  - intros w Hw. apply (scans_empty LBRACKET RBRACKET); auto.
  - intros l w t Hw Ht IH. apply scans_arr; [done|by eapply elems_open|done].
  - intros w Hw. apply (scans_empty LBRACE RBRACE); auto.
  - intros l w t Hw Hd Ht IH. apply scans_obj; [done|by eapply members_open|done..].
  - intros v t w Ht IH Hw [|fuel] rest Hf; [lia|]. cbn [scan_elements]. rewrite length_app in Hf. rewrite <-app_assoc.
    rewrite IH by first [lia|apply delim_blank; [done|right; left; done]]. rbind.
    by rewrite skip_blank_char.
  - intros v t w1 w2 l t' Ht IH H1 H2 Ht' IH' [|fuel] rest Hf; [lia|]. cbn [scan_elements].
    rewrite !length_app in Hf. cbn [length] in Hf. rewrite length_app in Hf. rewrite <-!app_assoc. cbn [app]. rewrite <-app_assoc.
    rewrite IH by first [lia|apply delim_blank; [done|left; done]]. rbind.
    rewrite skip_blank_char by done. rewrite expect_ne by done. cbn [expect]. rewrite Z.eqb_refl. rbind.
    rewrite skip_blank_opens by first [done|by eapply elems_open]. by rewrite IH' by lia.
  - intros k v t w1 w2 w3 Hk Ht IH H1 H2 H3 acc [|fuel] rest Hd Hf; [lia|].
    rewrite !length_app in Hf. cbn [length] in Hf. rewrite !length_app in Hf. rewrite <-!app_assoc. cbn [app]. rewrite <-!app_assoc.
    rewrite (member_step k v t) by first [done|by eapply text_opens|by right; right; left|lia].
    cbn [expect]. rewrite Z.eqb_refl. by rewrite (proj1 (dict_snoc acc k v [] Hd)).
  - intros k v t w1 w2 w3 w4 l t' Hk Ht IH H1 H2 H3 H4 Ht' IH' acc [|fuel] rest Hd Hf; [lia|].
    destruct (dict_snoc _ _ _ _ Hd) as [Hs Hd'].
    repeat (rewrite length_app in Hf || cbn [length] in Hf). repeat (rewrite <-app_assoc || cbn [app]).
    rewrite (member_step k v t) by first [done|by eapply text_opens|by left|lia].
    rewrite expect_ne by done. cbn [expect]. rewrite Z.eqb_refl. rbind.
    destruct (members_open _ _ Ht') as [t2 ->]. rewrite Hs, skip_blank by done. change (skip_ws ((QUOTE :: t2) ++ RBRACE :: rest)) with ((QUOTE :: t2) ++ RBRACE :: rest).
    rewrite IH' by first [done|cbn [length] in *; lia]. by rewrite <-app_assoc.
Qed.

(** *** The text is ASCII *)

Definition plain_text (s : str) : Prop := Forall (λ c, 0 ≤ c < 128) s.

Lemma plain_app s t : plain_text s → plain_text t → plain_text (s ++ t).
Proof. by apply Forall_app_2. Qed.

Lemma plain_cons c s : 0 ≤ c < 128 → plain_text s → plain_text (c :: s).
Proof. by constructor. Qed.

Lemma plain_scalar s : plain_text s → scalar_str s = true.
Proof.
  intros H. apply forallb_forall. intros c Hc%list_elem_of_In. unfold plain_text in H. rewrite Forall_forall in H.
  apply is_scalar_spec. specialize (H c Hc). lia.
Qed.

Lemma hex4_plain n : plain_text (hex4 n).
Proof.
  assert (∀ z, 0 ≤ hexd (z mod 16) < 128) as H.
  { intros z. pose proof (Z.mod_pos_bound z 16 eq_refl). unfold hexd. case_match; zbool; lia. }
  repeat constructor; apply H.
Qed.

Lemma dump_str_plain s : plain_text (dump_str s).
Proof.
  constructor; [by vm_compute|]. apply Forall_app. split; [|by repeat constructor]. apply Forall_bind, Forall_forall.
  intros c _. unfold esc_char, compose. repeat (case_match; [by repeat constructor|]).
  destruct (_ && _)%bool eqn:E; [zbool; constructor; [lia|constructor]|].
  destruct (c <? 0x10000); [|apply Forall_app; split]; (constructor; [by vm_compute|]; constructor; [by vm_compute|]; apply hex4_plain).
Qed.

Lemma span_digits_plain s : plain_text (span_digits s).1.
Proof.
  induction s as [|c s IH]; cbn [span_digits]; [constructor|]. destruct (ascii_digit c) eqn:E; [|constructor].
  destruct (span_digits s). constructor; [|done]. unfold ascii_digit in E. zbool. lia.
Qed.

Lemma float_literal_plain lit : is_float_literal lit = true → plain_text lit.
Proof.
  unfold is_float_literal. destruct (scan_int lit) as [[i s1]|] eqn:Ei; [|done]. intros Hf.
  destruct (scan_int_rest _ _ _ [] I Ei) as (_ & -> & _). destruct (scan_frac_rest s1 [] I) as [_ H1].
  destruct (scan_exp_rest (scan_frac s1).2 [] I) as [_ H2].
  assert (plain_text i) as Hi.
  { revert Ei. generalize (i ++ s1). intros s. unfold scan_int.
    assert (∀ sg s, plain_text sg → match s with
        | c :: s2 => if c =? 48 then Some (sg ++ [c], s2)
                     else if ascii_digit c then let '(d, r) := span_digits s in Some (sg ++ d, r) else None
        | [] => None end = Some (i, s1) → plain_text i) as K.
    { intros sg [|c s'] Hsg; [done|]. destruct (Z.eqb_spec c 48) as [->|].
      - intros [= <- _]. apply Forall_app. split; [done|by repeat constructor].
      - destruct (ascii_digit c); [|done]. pose proof (span_digits_plain (c :: s')) as Hd. destruct (span_digits _). intros [= <- _].
        by apply Forall_app. }
    destruct s as [|c s]; [done|]. destruct (Z.eqb_spec c 45) as [->|]; [apply (K [45])|apply (K [] (c :: s))]; by repeat constructor. }
  assert (plain_text (scan_frac s1).1) as Hfr.
  { destruct s1 as [|c s1']; [constructor|]. unfold scan_frac. destruct (Z.eqb_spec c 46) as [->|]; [|constructor].
    pose proof (span_digits_plain s1'). destruct (span_digits s1'). cbn. destruct (truthy _); constructor; [lia|done]. }
  destruct (scan_frac s1) as [f s2]. cbn [fst snd] in *.
  assert (plain_text (scan_exp s2).1) as He.
  { destruct s2 as [|c s2']; [constructor|]. unfold scan_exp. destruct (_ || _)%bool eqn:Ec; [|constructor].
    assert (0 ≤ c < 128) as Hc by (zbool; destruct Ec as [Ec|Ec]; zbool; lia).
    assert (∀ sg s, plain_text sg → plain_text (let '(d, r) := span_digits s in if truthy d then (c :: sg ++ d, r) else ([], c :: s2')).1) as K.
    { intros sg s Hsg. pose proof (span_digits_plain s). destruct (span_digits s). cbn. destruct (truthy _); constructor; [done|].
      by apply Forall_app. }
    destruct s2' as [|x s2']; [apply K; constructor|]. destruct ((x =? 45) || (x =? 43))%bool eqn:Ex; apply K; [|constructor].
    constructor; [|constructor]. zbool. destruct Ex; zbool; lia. }
  destruct (scan_exp s2) as [e s3]. cbn [fst snd] in *. apply andb_true_iff in Hf as [_ Hs3]. destruct s3; [|done].
  rewrite app_nil_r in H2. subst. apply Forall_app. split; [done|]. by apply Forall_app.
Qed.

Lemma blank_plain w : blank w → plain_text w.
Proof.
  intros H. eapply Forall_impl; [exact H|]. intros c. cbn. unfold is_ws. rewrite !orb_true_iff, !Z.eqb_eq. lia.
Qed.

Lemma grammar_plain : (∀ v t, jtext v t → plain_text t) ∧ (∀ l t, jelems l t → plain_text t) ∧ (∀ l t, jmembers l t → plain_text t).
Proof.
  apply json_grammar_ind; intros;
    repeat match goal with
    | |- plain_text (dump_str _) => apply dump_str_plain
    | |- plain_text (_ ++ _) => apply plain_app
    | |- plain_text (?c :: _) => apply plain_cons; [by vm_compute|]
    | |- plain_text [] => constructor
    | |- plain_text (u _) => by repeat constructor
    | H : blank ?w |- plain_text ?w => by apply blank_plain
    end; try done; [|by apply float_literal_plain].
  eapply Forall_impl; [by eapply py_str_int_chars|]. cbn. unfold ascii_digit. intros c [Hc|Hc]; zbool; lia.
Qed.

Lemma text_loads v t w1 w2 : jtext v t → blank w1 → blank w2 → json_loads_str (w1 ++ t ++ w2) = Ok v.
Proof.
  intros Ht H1 H2. unfold json_loads_str. rewrite skip_blank_opens by first [done|by eapply text_opens].
  rewrite (proj1 grammar_scans _ _ Ht) by first [rewrite !length_app; lia|destruct w2 as [|c w2]; [done|apply Forall_cons in H2 as [H2 _]; cbn; auto]].
  rbind. rewrite <-(app_nil_r w2), skip_blank by done. done.
Qed.

(** *** The printers stay within the grammar *)

Lemma json_ind' (P : json → Prop) : P JNull → (∀ x, P (JBool x)) → (∀ n, P (JInt n)) → (∀ l, P (JFloat l)) →
  (∀ s, P (JStr s)) → (∀ l, Forall P l → P (JArr l)) → (∀ l, Forall (λ kv, P kv.2) l → P (JObj l)) → ∀ v, P v.
Proof.
  intros H1 H2 H3 H4 H5 H6 H7. fix IH 1. intros [| | | | |l|l]; [done..| |].
  - apply H6. induction l as [|v l IHl]; constructor; [apply IH|done].
  - apply H7. induction l as [|kv l IHl]; constructor; [apply IH|done].
Qed.

Lemma blank_newline indent lvl : blank (newline indent lvl).
Proof. destruct indent as [n|]; constructor; [done|]. by apply Forall_replicate. Qed.

Lemma blank_sep indent lvl : ∃ w, item_sep indent lvl = COMMA :: w ∧ blank w.
Proof.
  unfold item_sep. destruct indent as [n|]; eexists; (split; [reflexivity|]); [apply blank_newline|by constructor].
Qed.

Lemma join_elems sep w l ts : (∃ w', sep = COMMA :: w' ∧ blank w') → blank w → l ≠ [] → Forall2 jtext l ts →
  jelems l (join sep ts ++ w).
Proof.
  intros (w' & -> & Hw') Hw Hne H. induction H as [|v t l ts Ht H IH]; [done|]. destruct H as [|v2 t2 l ts Ht2 H]; [by constructor|].
  change (join (COMMA :: w') (t :: t2 :: ts)) with (t ++ (COMMA :: w') ++ join (COMMA :: w') (t2 :: ts)).
  rewrite <-!app_assoc. apply (elem_cons v t [] w'); [done|constructor|done|]. by apply IH.
Qed.

Lemma join_members sep w l ts : (∃ w', sep = COMMA :: w' ∧ blank w') → blank w → l ≠ [] →
  Forall2 (λ kv t, ∃ t', t = dump_str kv.1 ++ u ": " ++ t' ∧ scalar_str kv.1 = true ∧ jtext kv.2 t') l ts →
  jmembers l (join sep ts ++ w).
Proof.
  intros (w' & -> & Hw') Hw Hne H. assert (blank [JSP]) as Hsp by by constructor.
  induction H as [|[k v] t l ts (t' & -> & Hk & Ht) H IH]; [done|]. cbn [fst snd] in *.
  destruct H as [|v2 t2 l ts Ht2 H].
  - cbn [join]. rewrite <-!app_assoc. apply (member_last k v t' [] [JSP] w); try done. constructor.
  - change (join (COMMA :: w') (?t :: t2 :: ts)) with (t ++ (COMMA :: w') ++ join (COMMA :: w') (t2 :: ts)).
    cbn [join]. rewrite <-!app_assoc. apply (member_cons k v t' [] [JSP] [] w'); try done; [constructor..|]. by apply IH.
Qed.

Lemma dumps_text indent v : json_wf v → ∀ lvl t, dumps_at indent lvl v = Ok t → jtext v t.
Proof.
  intros Hv. induction v as [|[]|n|lit|s|l IH|l IH] using json_ind'; inversion_clear Hv; intros lvl t Ht; cbn [dumps_at] in Ht.
  1-3: injection Ht as <-; constructor.
  1: by constructor.
  1-2: injection Ht as <-; by constructor.
  - apply bind_Ok_inv in Ht as (ts & Hts & [= <-]). apply mapR_Forall2 in Hts.
    assert (Forall2 jtext l ts) as H2.
    { revert H IH. induction Hts as [|v t l ts Ht _ IHl]; intros Hw IH; constructor;
        apply Forall_cons in Hw as [? ?], IH as [? ?]; eauto. }
    destruct l as [|v l]; [apply Forall2_nil_inv_l in H2 as ->; apply (text_arr0 []); constructor|].
    destruct ts as [|t ts]; [by apply Forall2_nil_inv_r in H2|]. unfold brackets. rewrite (app_assoc (join _ _)).
    apply text_arr; [apply blank_newline|]. apply join_elems; [apply blank_sep|apply blank_newline|done|done].
  - apply bind_Ok_inv in Ht as (ts & Hts & [= <-]). apply mapR_Forall2 in Hts.
    assert (Forall2 (λ kv t, ∃ t', t = dump_str kv.1 ++ u ": " ++ t' ∧ scalar_str kv.1 = true ∧ jtext kv.2 t') l ts) as H2.
    { clear H. revert H0 IH. induction Hts as [|v t l ts Ht _ IHl]; intros Hw IH; constructor;
        apply Forall_cons in Hw as [[? ?] ?], IH as [? ?]; [|by apply IHl]. apply bind_Ok_inv in Ht as (t' & Ht & [= <-]). eauto. }
    destruct l as [|kv l]; [apply Forall2_nil_inv_l in H2 as ->; apply (text_obj0 []); constructor|].
    destruct ts as [|t ts]; [by apply Forall2_nil_inv_r in H2|]. unfold brackets. rewrite (app_assoc (join _ _)).
    apply text_obj; [apply blank_newline|done|]. apply join_members; [apply blank_sep|apply blank_newline|done|done].
Qed.

Lemma dumps_plain indent v t : json_wf v → dumps_at indent 0 v = Ok t → plain_text t.
Proof. intros Hv Ht. apply (proj1 grammar_plain v), (dumps_text indent v Hv 0 t Ht). Qed.

(** [json.loads(json.dumps(v, indent=indent)) == v]. *)
Lemma loads_dumps indent v t : json_wf v → dumps_at indent 0 v = Ok t → json_loads_str t = Ok v.
Proof.
  intros Hv Ht. rewrite <-(app_nil_r t). apply (text_loads v t [] []); [by eapply dumps_text|constructor..].
Qed.

Lemma json_roundtrip v t : json_wf v → json_dumps v = Ok t → json_loads_str t = Ok v.
Proof. apply loads_dumps. Qed.
End RoundTrip.

(** *** The parser ends *)

Section Total.
Context {U : UnicodeDB}.

Lemma skip_ws_length s : (length (skip_ws s) <= length s)%nat.
Proof. induction s as [|c s IH]; cbn; [lia|]. destruct (is_ws c); cbn; lia. Qed.

Lemma expect_length c s r : expect c s = Some r → (length r < length s)%nat.
Proof. destruct s as [|x s]; [done|]. cbn. destruct (x =? c); [|done]. intros [= <-]. lia. Qed.

Lemma scanstring_length s : ∀ r rest, scanstring s = Some (r, rest) → (length rest < length s)%nat.
Proof.
  enough (∀ n s r rest, (length s <= n)%nat → scanstring s = Some (r, rest) → (length rest < length s)%nat) as K by eauto.
  clear s. induction n as [|n IH]; intros s r rest Hn H; [destruct s; cbn in *; [done|lia]|].
  destruct s as [|c s1]; [done|]. cbn [scanstring length] in *.
  assert (∀ s2 f, (length s2 <= length s1)%nat → ('(x, y) ← scanstring s2; Some (f x, y)) = Some (r, rest) →
    (length rest < S (length s1))%nat) as K.
  { intros s2 f Hs2 H2. destruct (scanstring s2) as [[x y]|] eqn:E; [|done]. cbn in H2. simplify_eq.
    apply IH in E; lia. }
  destruct (c =? QUOTE); [injection H as _ <-; lia|]. destruct (c =? BSL); [|destruct (c <? 32); [done|by apply (K s1 (cons c))]].
  destruct s1 as [|x s1']; [done|]. destruct (x =? 117).
  - destruct s1' as [|a [|b [|d [|e s2]]]]; try done. destruct (unhex4 a b d e) as [m|]; [|done]. cbn in H.
    destruct (hi_surrogate m); [|apply (K s2 (cons m)); [cbn; lia|done]].
    destruct s2 as [|y [|z [|a' [|b' [|d' [|e' s3]]]]]]; try (apply (K _ (cons m)) in H; [done|cbn; lia]).
    destruct (_ && _)%bool; [|apply (K _ (cons m)) in H; [done|cbn; lia]].
    destruct (unhex4 a' b' d' e') as [m2|]; [|apply (K _ (cons m)) in H; [done|cbn; lia]].
    destruct (lo_surrogate m2); [|apply (K _ (cons m)) in H; [done|cbn; lia]].
    apply (K s3 (cons (0x10000 + Z.lor (Z.shiftl (m - 0xD800) 10) (m2 - 0xDC00)))) in H; [done|cbn; lia].
  - destruct (unesc x) as [y|]; [|done]. cbn in H. apply (K s1' (cons y)) in H; [done|cbn; lia].
Qed.

Lemma scan_literal_length lits : Forall (λ p : str * json, p.1 ≠ []) lits →
  ∀ s v r, scan_literal lits s = Some (v, r) → (length r < length s)%nat.
Proof.
  assert (∀ p s r, prefix_of p s = Some r → length s = (length p + length r)%nat) as Hp.
  { induction p as [|x p IH]; intros s r H; cbn in H; [by injection H as ->|]. destruct s as [|y s]; [done|].
    destruct (x =? y); [|done]. apply IH in H. cbn. lia. }
  induction 1 as [|[p v'] lits Hne _ IH]; intros s v r H; [done|]. cbn in *.
  destruct (prefix_of p s) eqn:E; [|by eapply IH]. injection H as -> ->. apply Hp in E. destruct p; [done|]. cbn in E. lia.
Qed.

Lemma scan_int_length s i r : scan_int s = Some (i, r) → (length r < length s)%nat.
Proof.
  intros H. destruct (scan_int_rest _ _ _ [] I H) as (_ & -> & c & s' & Hs & _). rewrite length_app.
  destruct i; [|cbn; lia]. exfalso. cbn [app] in *. unfold scan_int in H.
  destruct r as [|x r]; [done|]. destruct (x =? 45); [destruct r as [|y r]; [done|]|].
  - destruct (y =? 48); [done|]. destruct (ascii_digit y); [|done]. by destruct (span_digits (y :: r)).
  - destruct (x =? 48); [done|]. destruct (ascii_digit x) eqn:E; [|done]. cbn [span_digits] in H. rewrite E in H.
    by destruct (span_digits r).
Qed.

Lemma scan_tail_length s : (length (scan_exp (scan_frac s).2).2 <= length s)%nat.
Proof.
  destruct (scan_frac_rest s [] I) as [_ H1]. destruct (scan_exp_rest (scan_frac s).2 [] I) as [_ H2].
  apply (f_equal length) in H1, H2. rewrite length_app in H1, H2. lia.
Qed.

(** What a scanner with enough fuel does: it returns with less text left, or raises one of
    the two errors. *)
Definition scans_well {A} (s : str) (r : result (A * str)) : Prop :=
  match r with
  | Ok (_, rest) => (length rest < length s)%nat
  | Raise e => e = JSONDecodeError ∨ e = ValueError
  end.

Lemma scans_well_map {A B} s s' (f : A → B) (r : result (A * str)) : (length s' <= length s)%nat → scans_well s' r →
  scans_well s ('(x, rest) ← r; Ok (f x, rest)).
Proof. intros Hs. destruct r as [[x rest]|e]; cbn; [lia|done]. Qed.

Lemma scan_number_well s : (∀ i e, py_int i = Raise e → e = ValueError) → scans_well s (scan_number s).
Proof.
  intros Hi. unfold scan_number. destruct (scan_int s) as [[i s1]|] eqn:E; [|by left]. rbind.
  apply scan_int_length in E. pose proof (scan_tail_length s1) as Ht. destruct (scan_frac s1) as [f s2]. cbn [snd] in *.
  destruct (scan_exp s2) as [e s3]. cbn [snd] in *. destruct (truthy _); [cbn; lia|].
  destruct (py_int i) as [n|x] eqn:Ei; cbn; [lia|]. right. by eapply Hi.
Qed.

Lemma py_int_error s e : py_int s = Raise e → e = ValueError.
Proof.
  assert (∀ r, int_unsigned r = Raise e → e = ValueError) as K.
  { intros r. unfold int_unsigned. destruct (int_digits false r); rbind; [case_match|]; congruence. }
  assert (∀ r, Z.opp <$> int_unsigned r = Raise e → e = ValueError) as K'.
  { intros r H. destruct (int_unsigned r) eqn:E; [done|]. apply (K r). by rewrite E. }
  unfold py_int. repeat case_match; eauto.
Qed.

Lemma scanners_well fuel :
  (∀ s, (2 * length s < fuel)%nat → scans_well s (scan_once fuel s)) ∧
  (∀ s, (2 * length s + 1 < fuel)%nat → scans_well s (scan_elements fuel s)) ∧
  (∀ s acc, (2 * length s < fuel)%nat → scans_well s (scan_members fuel s acc)).
Proof.
  induction fuel as [|fuel (IH1 & IH2 & IH3)]; [split_and!; intros; lia|]. split_and!.
  - intros [|c s1] Hf; [by left|]. cbn [scan_once]. cbn [length] in Hf. pose proof (skip_ws_length s1) as Hw.
    destruct (c =? QUOTE).
    { destruct (scanstring s1) as [[r rest]|] eqn:E; [|by left]. apply scanstring_length in E. cbn. lia. }
    destruct (c =? LBRACE); [|destruct (c =? LBRACKET)].
    + destruct (expect RBRACE _) as [rest|] eqn:E; [apply expect_length in E; cbn; lia|].
      apply (scans_well_map _ (skip_ws s1)); [cbn; lia|]. apply IH3. lia.
    + destruct (expect RBRACKET _) as [rest|] eqn:E; [apply expect_length in E; cbn; lia|].
      apply (scans_well_map _ (skip_ws s1)); [cbn; lia|]. apply IH2. lia.
    + destruct (scan_literal _ _) as [[v rest]|] eqn:E; [|apply scan_number_well, py_int_error].
      apply scan_literal_length in E; [done|]. by repeat constructor.
  - intros s Hf. cbn [scan_elements]. specialize (IH1 s ltac:(lia)). destruct (scan_once fuel s) as [[v s1]|e]; [|done]. cbn in IH1. rbind.
    pose proof (skip_ws_length s1). destruct (expect RBRACKET _) as [rest|] eqn:E; [apply expect_length in E; cbn; lia|].
    destruct (expect COMMA _) as [s2|] eqn:E2; [|by left]. apply expect_length in E2. rbind. pose proof (skip_ws_length s2).
    apply (scans_well_map _ (skip_ws s2) (cons v)); [lia|]. apply IH2. lia.
  - intros s acc Hf. cbn [scan_members]. destruct (expect QUOTE s) as [s1|] eqn:E1; [|by left]. rbind.
    destruct (scanstring s1) as [[k s2]|] eqn:E2; [|by left]. rbind. pose proof (skip_ws_length s2).
    destruct (expect JCOLON _) as [s3|] eqn:E3; [|by left]. rbind. pose proof (skip_ws_length s3).
    apply expect_length in E1, E3. apply scanstring_length in E2.
    specialize (IH1 (skip_ws s3) ltac:(lia)). destruct (scan_once fuel _) as [[v s4]|e]; [|done]. cbn in IH1. rbind.
    pose proof (skip_ws_length s4). destruct (expect RBRACE _) as [rest|] eqn:E; [apply expect_length in E; cbn; lia|].
    destruct (expect COMMA _) as [s5|] eqn:E5; [|by left]. apply expect_length in E5. rbind. pose proof (skip_ws_length s5).
    specialize (IH3 (skip_ws s5) (dict_set k v acc) ltac:(lia)). destruct (scan_members _ _ _) as [[l rest]|e]; [|done]. cbn in *. lia.
Qed.

(** [json.loads] ends on every text; the errors it raises are the two it documents. *)
Lemma json_loads_error s e : json_loads_str s = Raise e → e = JSONDecodeError ∨ e = ValueError.
Proof.
  unfold json_loads_str. pose proof (skip_ws_length s). pose proof (proj1 (scanners_well (S (2 * length s))) (skip_ws s) ltac:(lia)) as Hw.
  destruct (scan_once _ _) as [[v rest]|x]; rbind; [case_match|]; intros [= <-]; auto.
Qed.
End Total.

(** *** What can be printed *)

Definition printable (v : json) : Prop := ∀ indent lvl, is_ok (dumps_at indent lvl v) = true.

Lemma printable_null : printable JNull.
Proof. by intros indent lvl. Qed.
Lemma printable_str s : printable (JStr s).
Proof. by intros indent lvl. Qed.
Lemma printable_float lit : printable (JFloat lit).
Proof. by intros indent lvl. Qed.
Lemma printable_int n : is_ok (py_str_int n) = true → printable (JInt n).
Proof. by intros H indent lvl. Qed.

#[global] Create HintDb json.
#[export] Hint Resolve printable_null printable_str printable_float printable_int : json.
#[export] Hint Constructors json_wf : json.

Lemma printable_obj l : Forall (λ kv : str * json, printable kv.2) l → printable (JObj l).
Proof.
  intros Hf indent lvl. cbn [dumps_at].
  assert (∃ items, mapR (λ kv : str * json, t ← dumps_at indent (S lvl) kv.2; Ok (dump_str kv.1 ++ u ": " ++ t)) l = Ok items)
    as [items ->]; [|done].
  induction Hf as [|[k v] l Hv _ [items IH]]; [by exists []|]. cbn [mapR fst snd] in *. rewrite IH.
  specialize (Hv indent (S lvl)). destruct (dumps_at indent (S lvl) v); [|done]. by eexists.
Qed.

Lemma printable_arr l : Forall printable l → printable (JArr l).
Proof.
  intros Hf indent lvl. cbn [dumps_at].
  assert (∃ items, mapR (dumps_at indent (S lvl)) l = Ok items) as [items ->]; [|done].
  induction Hf as [|v l Hv _ [items IH]]; [by exists []|]. cbn [mapR]. rewrite IH.
  specialize (Hv indent (S lvl)). destruct (dumps_at indent (S lvl) v); [|done]. by eexists.
Qed.

(** *** Sorted keys *)

Definition sort_items (l : list (str * json)) : list (str * json) :=
  foldr insert_item [] ((λ kv, (kv.1, sort_keys kv.2)) <$> l).

Lemma insert_item_perm {V} (kv : str * V) l : insert_item kv l ≡ₚ kv :: l.
Proof.
  induction l as [|kv' l IH]; [done|]. cbn [insert_item]. destruct (str_leb _ _); [done|]. rewrite IH. constructor.
Qed.

Lemma sort_items_perm l : sort_items l ≡ₚ (λ kv, (kv.1, sort_keys kv.2)) <$> l.
Proof.
  unfold sort_items. induction (_ <$> l) as [|kv l' IH]; [done|]. cbn [foldr]. by rewrite insert_item_perm, IH.
Qed.

Lemma sort_items_keys l : dict_keys (sort_items l) ≡ₚ dict_keys l.
Proof. unfold dict_keys. rewrite sort_items_perm, <-list_fmap_compose. done. Qed.

Lemma sort_items_ok l : dict_ok l → dict_ok (sort_items l).
Proof. unfold dict_ok. by rewrite sort_items_keys. Qed.

Lemma dict_get_sorted k l : dict_ok l → dict_get k (sort_items l) = sort_keys <$> dict_get k l.
Proof.
  intros Hok. destruct (dict_get k l) as [v|] eqn:E; cbn.
  - apply elem_dict_get; [by apply sort_items_ok|]. rewrite sort_items_perm.
    apply (list_elem_of_fmap_2 (λ kv : str * json, (kv.1, sort_keys kv.2)) l (k, v)). by apply dict_get_elem.
  - apply dict_get_None. rewrite sort_items_keys. by apply dict_get_None.
Qed.

Lemma sort_keys_wf v : json_wf v → json_wf (sort_keys v).
Proof.
  intros Hv. induction v as [|x|n|lit|s|l IH|l IH] using json_ind'; inversion_clear Hv; cbn [sort_keys]; try by constructor.
  - constructor. apply Forall_fmap. rewrite Forall_forall in *. intros v Hin. apply IH; auto.
  - change (json_wf (JObj (sort_items l))). constructor; [by apply sort_items_ok|]. rewrite sort_items_perm. apply Forall_fmap.
    rewrite Forall_forall in *. intros kv Hin. cbn. split; [by apply H0|]. apply IH; [done|]. by apply H0.
Qed.

Lemma printable_sorted l : Forall (λ kv : str * json, printable (sort_keys kv.2)) l → printable (sort_keys (JObj l)).
Proof. intros Hl. change (printable (JObj (sort_items l))). apply printable_obj. rewrite sort_items_perm. by apply Forall_fmap. Qed.
