(* ===== verification/Jid.v ===== *)
(** * JIDs ([src/src/pywhats/binary/jid.py], [JID] of [src/src/pywhats/events.py]) *)

From S2P Require Import Prelude PyStr.

(** [events.JID] *)
Record JID := mkJID { user : str; server : str; device : Z }.

#[global] Instance JID_eq_dec : EqDecision JID.
Proof. solve_decision. Defined.

Definition AT : Z := 64.      (* "@" *)
Definition COLON : Z := 58.   (* ":" *)
Definition DOT : Z := 46.     (* "." *)

(** [JID.__str__] *)
Definition JID_str (j : JID) : result str :=
  if negb (device j =? 0) then
    d ← py_str_int (device j); Ok (user j ++ [DOT] ++ d ++ [AT] ++ server j)
  else Ok (user j ++ [AT] ++ server j).

Section ParseJid.
Context {U : UnicodeDB}.

(** The loop over the two separators; the first one whose suffix is a digit
    string is taken, and [int] of that suffix may still raise. *)
Fixpoint device_suffix (seps : list Z) (user_part : str) : result (str * Z) :=
  match seps with
  | [] => Ok (user_part, 0)
  | sep :: seps =>
    if contains sep user_part then
      match split_last sep user_part with
      | Some (p, d) =>
        if isdigit d then n ← py_int d; Ok (p, n)
        else device_suffix seps user_part
      | None => device_suffix seps user_part
      end
    else device_suffix seps user_part
  end.

Definition parse_jid (text : str) : result JID :=
  if negb (contains AT text) then Ok (mkJID [] text 0)
  else match split_first AT text with
       | None => Ok (mkJID [] text 0)
       | Some (user_part, server) =>
         '(p, device) ← device_suffix [COLON; DOT] user_part;
         Ok (mkJID p server device)
       end.
End ParseJid.

Definition jid_to_str (j : JID) : result str :=
  if negb (truthy (user j)) then Ok (server j)
  else if negb (device j =? 0) then
    d ← py_str_int (device j); Ok (user j ++ [DOT] ++ d ++ [AT] ++ server j)
  else Ok (user j ++ [AT] ++ server j).

Definition is_ad_jid (j : JID) : bool := 0 <? device j.

(** ** Parsing *)

Section ParseLemmas.
Context {U : UnicodeDB} {UL : UnicodeDBLaws U}.

Lemma parse_jid_at p s : AT ∉ p →
  parse_jid (p ++ AT :: s) = '(p', d) ← device_suffix [COLON; DOT] p; Ok (mkJID p' s d).
Proof.
  intros Hp. unfold parse_jid.
  replace (contains AT (p ++ AT :: s)) with true by (symmetry; apply contains_spec; set_solver).
  simpl. by rewrite (proj2 (split_first_Some AT _ p s)).
Qed.

Lemma parse_jid_plain s : AT ∉ s → parse_jid s = Ok (mkJID [] s 0).
Proof. intros H. unfold parse_jid. by rewrite (proj2 (contains_false AT s)). Qed.

(** The user part has no trailing [:digits] or [.digits]. *)
Definition no_device_suffix (p : str) : Prop :=
  ∀ sep q d, sep ∈ [COLON; DOT] → p = q ++ sep :: d → sep ∉ d → isdigit d = false.

Lemma device_suffix_none p : no_device_suffix p → device_suffix [COLON; DOT] p = Ok (p, 0).
Proof.
  intros H. simpl.
  assert (∀ sep, sep ∈ [COLON; DOT] → ∀ k,
    (if contains sep p then match split_last sep p with
       | Some (p', d) => if isdigit d then n ← py_int d; Ok (p', n) else k
       | None => k end else k) = k) as K.
  { intros sep Hsep k. destruct (contains sep p); [|done].
    destruct (split_last sep p) as [[q d]|] eqn:E; [|done].
    apply split_last_Some in E as [E Hd]. by rewrite (H sep q d). }
  rewrite !K by set_solver. done.
Qed.

Lemma isdigit_not_elem c d : 0 ≤ c < 128 → ascii_digit c = false → isdigit d = true → c ∉ d.
Proof.
  unfold isdigit. intros Hc Hd [_ H]%andb_true_iff Hin.
  rewrite forallb_forall in H. specialize (H c). rewrite <-list_elem_of_In in H.
  specialize (H Hin). rewrite ascii_isdigit in H by done. congruence.
Qed.

Lemma device_suffix_dot p d n : isdigit d = true → py_int d = Ok n →
  device_suffix [COLON; DOT] (p ++ DOT :: d) = Ok (p, n).
Proof.
  intros Hd Hn. assert (DOT ∉ d) as Hdot by (by apply isdigit_not_elem).
  assert (COLON ∉ d) as Hcol by (by apply isdigit_not_elem).
  assert (split_last DOT (p ++ DOT :: d) = Some (p, d)) as E by (by apply split_last_Some).
  assert (device_suffix [DOT] (p ++ DOT :: d) = Ok (p, n)) as K.
  { simpl. replace (contains DOT _) with true by (symmetry; apply contains_spec; set_solver).
    rewrite E, Hd, Hn. done. }
  change (device_suffix [COLON; DOT] (p ++ DOT :: d))
    with (if contains COLON (p ++ DOT :: d) then
            match split_last COLON (p ++ DOT :: d) with
            | Some (p', d') => if isdigit d' then n ← py_int d'; Ok (p', n)
                               else device_suffix [DOT] (p ++ DOT :: d)
            | None => device_suffix [DOT] (p ++ DOT :: d) end
          else device_suffix [DOT] (p ++ DOT :: d)).
  destruct (contains COLON _); [|done].
  destruct (split_last COLON _) as [[q r]|] eqn:Ec; [|done].
  apply split_last_Some in Ec as [Ec Hr].
  assert (isdigit r = false) as ->; [|done].
  apply not_true_iff_false. intros Hr'.
  assert (DOT ∉ r) as Hrd by (by apply isdigit_not_elem).
  (* the dot of the suffix lies after the last colon *)
  assert (DOT ∈ r); [|done].
  assert (∀ (l1 l2 l3 l4 : str), l1 ++ DOT :: l2 = l3 ++ COLON :: l4 → COLON ∉ l2 → DOT ∈ l4) as M.
  { induction l1 as [|x l1 IH]; intros l2 [|y l3] l4 Heq Hnin; simplify_eq/=.
    - set_solver.
    - set_solver.
    - by eapply IH. }
  by eapply M.
Qed.
End ParseLemmas.

(** ** Textual round trip *)

(** The JIDs whose text form determines them. *)
Definition jid_textual `{UnicodeDB} (j : JID) : Prop :=
  if truthy (user j) then
    ((AT ∉ user j) ∧ 0 ≤ device j ∧ (device j = 0 → no_device_suffix (user j)))
  else ((AT ∉ server j) ∧ device j = 0).

(** Printing a JID with [jid_to_str] and parsing the text with [parse_jid] gives the JID
    back, for every JID whose user part holds no ["@"] and, when it has no
    device, no trailing [:digits] or [.digits]; a server-only JID needs a server
    without ["@"]. *)
Theorem jid_text_roundtrip `{U : UnicodeDB, !UnicodeDBLaws U} (j : JID) (s : str) :
  jid_textual j → jid_to_str j = Ok s → parse_jid s = Ok j.
Proof.
  destruct j as [us srv dev]. unfold jid_textual, jid_to_str; simpl.
  destruct (truthy us) eqn:Hu; simpl.
  - intros (Hat & Hd & Hsuf) E. destruct (dev =? 0) eqn:E0; zbool; simpl in E.
    + simplify_eq/=. rewrite parse_jid_at, device_suffix_none by auto. done.
    + res_inv. destruct (py_int_str dev _ ltac:(lia) Hm) as [Hi Hdig].
      replace (us ++ DOT :: a ++ AT :: srv) with ((us ++ DOT :: a) ++ AT :: srv)
        by by rewrite <-app_assoc.
      assert (AT ∉ a) by (by apply isdigit_not_elem).
      assert (AT ∉ us ++ DOT :: a) by (rewrite elem_of_app, elem_of_cons; naive_solver).
      by rewrite parse_jid_at, (device_suffix_dot _ _ dev).
  - intros [Hs ->] [= <-]. destruct us; [|done]. by apply parse_jid_plain.
Qed.

#[global] Instance latin1_laws : UnicodeDBLaws latin1_ucd.
Proof.
  split; intros c Hc; cbn; [|done|];
    replace (c =? _) with false by lia; replace (c =? _) with false by lia;
    rewrite ?orb_false_r; [|done]. by replace (c =? 185) with false by lia; rewrite orb_false_r.
Qed.

Lemma jid_text_roundtrip_witness :
  let j := mkJID (u "15551234567") (u "s.whatsapp.net") 12 in
  jid_to_str j = Ok (u "15551234567.12@s.whatsapp.net") ∧
  parse_jid (U := latin1_ucd) (u "15551234567.12@s.whatsapp.net") = Ok j.
Proof.
  split; [vm_compute; reflexivity|].
  apply (jid_text_roundtrip (U := latin1_ucd)); [|vm_compute; reflexivity].
  unfold jid_textual. simpl. split; [|split; [lia|discriminate]].
  apply contains_false. vm_compute. reflexivity.
Defined.
