(* ===== verification/Node.v ===== *)
(** * Stanza nodes ([src/src/pywhats/binary/node.py])

    A node has a tag, an ordered attribute dictionary and an optional content.
    Attribute values and contents are those [encoder.py] accepts; any other
    Python object (its [TypeError] branches) has no counterpart here. *)

From S2P Require Import Prelude PyStr Jid.

Inductive AttrValue :=
  | AStr (s : str)
  | AInt (n : Z)
  | AJid (j : JID)
  | ABool (x : bool)
  | ABytes (d : bytes).

#[global] Instance AttrValue_eq_dec : EqDecision AttrValue.
Proof. solve_decision. Defined.

Inductive Node :=
  | mkNode (tag : str) (attrs : list (str * AttrValue)) (content : NodeContent)
with NodeContent : Type :=
  | CNone
  | CBytes (d : bytes)
  | CStr (s : str)
  | CList (l : list Node).

Definition tag (n : Node) : str := let 'mkNode t _ _ := n in t.
Definition attrs (n : Node) : list (str * AttrValue) := let 'mkNode _ a _ := n in a.
Definition content (n : Node) : NodeContent := let 'mkNode _ _ c := n in c.

(** Induction over a node, its content and the children below it. *)
Section NodeInd.
Variable P : Node → Prop.
Variable Q : NodeContent → Prop.
Hypothesis HN : ∀ t a c, Q c → P (mkNode t a c).
Hypothesis HNone : Q CNone.
Hypothesis HBytes : ∀ d, Q (CBytes d).
Hypothesis HStr : ∀ s, Q (CStr s).
Hypothesis HList : ∀ l, Forall P l → Q (CList l).

Fixpoint Node_rect' (n : Node) : P n :=
  match n with mkNode t a c => HN t a c (NodeContent_rect' c) end
with NodeContent_rect' (c : NodeContent) : Q c :=
  match c with
  | CNone => HNone
  | CBytes d => HBytes d
  | CStr s => HStr s
  | CList l => HList l ((fix go (l : list Node) : Forall P l :=
      match l with
      | [] => Forall_nil_2 P
      | n :: l => Forall_cons_2 P n l (Node_rect' n) (go l)
      end) l)
  end.
End NodeInd.

(** ** Accessors *)

(** [Node.get_attr(name)], with [None] for an absent attribute. *)
Definition get_attr (n : Node) (name : str) : option AttrValue := dict_get name (attrs n).

(** [repr] of a byte inside a bytes literal, [q] being the quote in use. *)
Definition hex_digit (z : Z) : Z := if z <? 10 then 48 + z else 87 + z.

Definition repr_byte (q : Z) (x : byte) : str :=
  let c := b2z x in
  if (c =? q) || (c =? 92) then [92; c]
  else if c =? 9 then u "\t"
  else if c =? 10 then u "\n"
  else if c =? 13 then u "\r"
  else if (c <? 32) || (127 <=? c) then [92; 120; hex_digit (c / 16); hex_digit (c mod 16)]
  else [c].

(** [str(d)] of a bytes object. *)
Definition py_repr_bytes (d : bytes) : str :=
  let has c := existsb (λ x, b2z x =? c) d in
  let q := if has 39 && negb (has 34) then 34 else 39 in
  98 :: q :: (d ≫= repr_byte q) ++ [q].

(** [str(v)] of an attribute value. *)
Definition py_str_attr (v : AttrValue) : result str :=
  match v with
  | AStr s => Ok s
  | AInt n => py_str_int n
  | AJid j => JID_str j
  | ABool x => Ok (u (if x then "True" else "False"))
  | ABytes d => Ok (py_repr_bytes d)
  end.

(** [Node.get_str(name)], the default being [""]. *)
Definition get_str (n : Node) (name : str) : result str :=
  match dict_get name (attrs n) with
  | None => Ok []
  | Some v => py_str_attr v
  end.

(** [Node.get_children(tag)]; [None] asks for every child. *)
Definition get_children (n : Node) (t : option str) : list Node :=
  match content n with
  | CList l => match t with
               | None => l
               | Some t => filter (λ c, tag c = t) l
               end
  | _ => []
  end.

Definition get_child (n : Node) (t : str) : option Node := head (get_children n (Some t)).

Definition content_bytes (n : Node) : bytes :=
  match content n with CBytes d => d | _ => [] end.

Lemma get_child_Some n t c :
  get_child n t = Some c → c ∈ get_children n None ∧ tag c = t.
Proof.
  unfold get_child, get_children. destruct (content n); try done.
  intros H%head_Some_elem_of. apply list_elem_of_filter in H. naive_solver.
Qed.

Lemma get_child_cons t a c l k :
  get_child (mkNode t a (CList (c :: l))) k =
    if decide (tag c = k) then Some c else get_child (mkNode t a (CList l)) k.
Proof. unfold get_child, get_children. cbn [content]. rewrite filter_cons. by case_decide. Qed.

(** Look up the children of a literal node. *)
Ltac node_lit :=
  repeat (rewrite get_child_cons; cbn [tag];
    first [rewrite decide_True by reflexivity | rewrite decide_False by (vm_compute; discriminate)]).
