(* ===== verification/Encoder.v ===== *)
(** * The stanza encoder ([src/src/pywhats/binary/encoder.py])

    The code appends to one [bytearray]; a writer here returns the bytes it
    appends, and running two writers one after the other concatenates them.
    [_write_string] and [_write_jid] call each other on shorter strings: the
    fuel of [write_string_f] is the length of the string plus one, which
    [write_string_eq] shows to be enough.  zlib is a parameter. *)

From S2P Require Import Prelude PyStr Tokens Jid Node.

(** [zlib.compress] and [zlib.decompress], and the law the codec relies on. *)
Class Zlib := { zlib_compress : bytes → bytes; zlib_decompress : bytes → result bytes }.

Class ZlibLaws (Zl : Zlib) : Prop := {
  zlib_roundtrip d : zlib_decompress (zlib_compress d) = Ok d;
}.

(** [buf.append(v)] *)
Definition append (v : Z) : result bytes := x ← some_or (z2b v) ValueError; Ok [x].

(** Two writers in sequence. *)
Definition seqw (m1 m2 : result bytes) : result bytes := x ← m1; y ← m2; Ok (x ++ y).

Notation "m1 ;+ m2" := (seqw m1 m2) (at level 60, right associativity).

Definition write_list_header (count : Z) : result bytes :=
  if count =? 0 then append LIST_EMPTY
  else if count <? 256 then append LIST_8 ;+ append count
  else if count <? Z.shiftl 1 16 then append LIST_16 ;+ to_bytes_big 2 count
  else Raise ValueError.

Definition write_bytes (data : bytes) : result bytes :=
  let n := Z.of_nat (length data) in
  (if n <? Z.shiftl 1 8 then append BINARY_8 ;+ append n
   else if n <? Z.shiftl 1 20 then
     append BINARY_20 ;+ append (Z.land (Z.shiftr n 16) 0x0F)
       ;+ append (Z.land (Z.shiftr n 8) 0xFF) ;+ append (Z.land n 0xFF)
   else if n <? Z.shiftl 1 32 then append BINARY_32 ;+ to_bytes_big 4 n
   else Raise ValueError)
  ;+ Ok data.

(** [_all_in]: non-empty, and every character is a non-filler letter of the
    alphabet. *)
Definition all_in (s alphabet : str) : bool :=
  truthy s && forallb (λ c, contains c alphabet && negb (c =? 0)) s.

(** [alphabet.index(c)] *)
Fixpoint str_index (c : Z) (alphabet : str) : result Z :=
  match alphabet with
  | [] => Raise ValueError
  | x :: r => if x =? c then Ok 0 else Z.succ <$> str_index c r
  end.

(** The [while i < n] loop of [_write_packed]. *)
Fixpoint pack_pairs (s alphabet : str) : result bytes :=
  match s with
  | [] => Ok []
  | [c] => hi ← str_index c alphabet; append (Z.lor (Z.shiftl hi 4) 0x0F)
  | c :: c' :: r =>
    hi ← str_index c alphabet; lo ← str_index c' alphabet;
    append (Z.lor (Z.shiftl hi 4) lo) ;+ pack_pairs r alphabet
  end.

Definition write_packed (s : str) (tag : Z) (alphabet : str) : result bytes :=
  let n := Z.of_nat (length s) in
  let odd := Z.land n 1 in
  let header_len := (n + 1) / 2 in
  if 0x80 <=? header_len then Raise ValueError
  else append tag ;+ append (Z.lor (Z.shiftl odd 7) header_len) ;+ pack_pairs s alphabet.

Definition _SERVER_TO_AGENT : list (str * Z) :=
  [(u "s.whatsapp.net", 0); (u "lid", 1); (u "hosted", 128); (u "hosted.lid", 129)].

Section Encoder.
Context {U : UnicodeDB} {T : TokenTable}.

(** [_write_jid], over the string writer it calls. *)
Definition write_jid_with (ws : str → result bytes) (j : JID) : result bytes :=
  if negb (device j =? 0) then
    append AD_JID ;+ append (default 0 (dict_get (server j) _SERVER_TO_AGENT))
      ;+ append (Z.land (device j) 0xFF) ;+ ws (user j)
  else
    append JID_PAIR ;+ (if truthy (user j) then ws (user j) else append LIST_EMPTY)
      ;+ ws (server j).

(** The body of [_write_string], over the JID writer it calls. *)
Definition write_string_with (wj : JID → result bytes) (s : str) : result bytes :=
  if negb (truthy s) then append BINARY_8 ;+ append 0
  else match tok_single s with
  | Some i => append i
  | None =>
    match tok_double s with
    | Some (dict_no, idx) => append (DICTIONARY_0 + dict_no) ;+ append idx
    | None =>
      if contains AT s then j ← parse_jid s; wj j
      else if all_in s NIBBLE_ALPHABET then write_packed s NIBBLE_8 NIBBLE_ALPHABET
      else if all_in s HEX_ALPHABET then write_packed s HEX_8 HEX_ALPHABET
      else d ← utf8_encode s; write_bytes d
    end
  end.

Fixpoint write_string_f (fuel : nat) (s : str) : result bytes :=
  match fuel with
  | O => Raise OutOfFuel
  | S fuel => write_string_with (write_jid_with (write_string_f fuel)) s
  end.

Definition write_string (s : str) : result bytes := write_string_f (S (length s)) s.

Definition write_jid (j : JID) : result bytes := write_jid_with write_string j.

Definition write_attr_value (v : AttrValue) : result bytes :=
  match v with
  | AJid j => write_jid j
  | ABool x => write_string (u (if x then "true" else "false"))
  | AInt n => s ← py_str_int n; write_string s
  | ABytes d => write_bytes d
  | AStr s => write_string s
  end.

(** The loop over [node.attrs.items()]. *)
Fixpoint write_attrs (l : list (str * AttrValue)) : result bytes :=
  match l with
  | [] => Ok []
  | (k, v) :: l => (write_string k ;+ write_attr_value v) ;+ write_attrs l
  end.

Definition has_content (c : NodeContent) : bool := match c with CNone => false | _ => true end.

(** The number of items of the node's list: tag, attributes, content. *)
Definition item_count (n : Node) : Z :=
  1 + 2 * Z.of_nat (length (attrs n)) + (if has_content (content n) then 1 else 0).

Fixpoint write_node (n : Node) : result bytes :=
  match n with
  | mkNode t a c =>
    write_list_header (item_count n) ;+ write_string t ;+ write_attrs a ;+ write_content c
  end
with write_content (c : NodeContent) : result bytes :=
  match c with
  | CNone => Ok []
  | CBytes d => write_bytes d
  | CStr s => write_string s
  | CList l =>
    write_list_header (Z.of_nat (length l)) ;+
    (fix write_children (l : list Node) : result bytes :=
       match l with
       | [] => Ok []
       | n :: l => write_node n ;+ write_children l
       end) l
  end.

Fixpoint write_children (l : list Node) : result bytes :=
  match l with
  | [] => Ok []
  | n :: l => write_node n ;+ write_children l
  end.

Definition encode {Zl : Zlib} (n : Node) (compress : bool) : result bytes :=
  payload ← write_node n;
  let flags := if compress then Z.lor 0 0x02 else 0 in
  append flags ;+ Ok (if compress then zlib_compress payload else payload).
End Encoder.

(** ** Writer lemmas *)

Lemma seqw_Ok m1 m2 o : m1 ;+ m2 = Ok o → ∃ x y, m1 = Ok x ∧ m2 = Ok y ∧ o = x ++ y.
Proof. unfold seqw. intros. res_inv. eauto. Qed.

Lemma append_Ok v o : append v = Ok o → 0 ≤ v < 256 ∧ o = [mkb v].
Proof. unfold append. intros. res_inv. apply z2b_Some in Hm as [? ->]. done. Qed.

Lemma append_in_range v : 0 ≤ v < 256 → append v = Ok [mkb v].
Proof. intros. unfold append. by rewrite (proj2 (z2b_Some v (mkb v))). Qed.

(** Split every successful writer among the hypotheses into the bytes it wrote. *)
Ltac write_inv :=
  repeat (res_inv; match goal with
  | H : _ ;+ _ = Ok _ |- _ =>
      let x := fresh "x" in let y := fresh "y" in let H1 := fresh "Hw" in let H2 := fresh "Hw" in
      apply seqw_Ok in H as (x & y & H1 & H2 & ->)
  | H : append _ = Ok _ |- _ => apply append_Ok in H as [? ->]
  end); res_inv.

Section WriterLemmas.
Context {U : UnicodeDB} {T : TokenTable}.

Lemma write_content_list l :
  write_content (CList l) = write_list_header (Z.of_nat (length l)) ;+ write_children l.
Proof. simpl. f_equal. Qed.

Lemma device_suffix_length seps p q d :
  device_suffix seps p = Ok (q, d) → (length q ≤ length p)%nat.
Proof.
  induction seps as [|sep seps IH]; simpl; [intros [= <- <-]; done|].
  destruct (contains sep p); [|done].
  destruct (split_last sep p) as [[q' d']|] eqn:E; [|done].
  destruct (isdigit d'); [|done]. intros. res_inv.
  apply split_last_Some in E as [-> _]. rewrite length_app. lia.
Qed.

(** The two parts of a textual JID are shorter than the text. *)
Lemma parse_jid_shorter s j : contains AT s = true → parse_jid s = Ok j →
  (length (user j) < length s)%nat ∧ (length (server j) < length s)%nat.
Proof.
  intros Hc. unfold parse_jid. rewrite Hc. cbn [negb].
  destruct (split_first AT s) as [[p q]|] eqn:E.
  - apply split_first_Some in E as [-> _]. intros. res_inv. cbn [user server].
    apply device_suffix_length in Hm. rewrite length_app. simpl length. lia.
  - apply split_first_None in E. by apply contains_spec in Hc.
Qed.

Lemma write_string_f_irrel f1 : ∀ f2 s,
  (length s < f1)%nat → (length s < f2)%nat → write_string_f f1 s = write_string_f f2 s.
Proof.
  induction f1 as [|f1 IH]; intros [|f2] s H1 H2; [lia..|]. cbn [write_string_f].
  unfold write_string_with. destruct (negb _); [done|].
  destruct (tok_single s); [done|]. destruct (tok_double s) as [[]|]; [done|].
  destruct (contains AT s) eqn:Hc; [|done].
  destruct (parse_jid s) as [j|e] eqn:Hj; [simpl|done].
  destruct (parse_jid_shorter s j Hc Hj) as [Hu Hs].
  unfold write_jid_with. rewrite (IH f2 (user j)), (IH f2 (server j)) by lia. done.
Qed.

(** [_write_string] and [_write_jid] as the code writes them: the fuel is
    enough. *)
Lemma write_string_eq s : write_string s = write_string_with write_jid s.
Proof.
  unfold write_string. cbn [write_string_f]. unfold write_string_with.
  destruct (negb _); [done|].
  destruct (tok_single s); [done|]. destruct (tok_double s) as [[]|]; [done|].
  destruct (contains AT s) eqn:Hc; [|done].
  destruct (parse_jid s) as [j|e] eqn:Hj; [simpl|done].
  destruct (parse_jid_shorter s j Hc Hj) as [Hu Hs].
  unfold write_jid, write_jid_with, write_string.
  rewrite (write_string_f_irrel (length s) (S (length (user j))) (user j)),
    (write_string_f_irrel (length s) (S (length (server j))) (server j)) by lia. done.
Qed.
End WriterLemmas.
