(* ===== verification/Decoder.v ===== *)
(** * The stanza decoder ([src/src/pywhats/binary/decoder.py])

    [_Reader] is a buffer with a cursor; the [_read_*] functions are state-passing
    computations [D] over it.  [_read_node] recurses through [_read_content]; every
    call first consumes the list tag, so a fuel above the number of unread bytes is
    enough ([decode_never_out_of_fuel] in [Codec.v]). *)

From S2P Require Import Prelude PyStr Tokens Jid Node Encoder.

Record Reader := mkReader { buf : bytes; pos : Z }.

Definition D (A : Type) : Type := Reader → result (A * Reader).

#[global] Instance D_ret : MRet D := λ A a r, Ok (a, r).
#[global] Instance D_bind : MBind D := λ A B f m r,
  match m r with Ok (a, r') => f a r' | Raise e => Raise e end.

Definition draise {A} (e : exn) : D A := λ _, Raise e.
Definition dlift {A} (m : result A) : D A := λ r, a ← m; Ok (a, r).

Definition u8 : D Z := λ r,
  if Z.of_nat (length (buf r)) <=? pos r then Raise ValueError
  else match buf r !! Z.to_nat (pos r) with
       | Some x => Ok (b2z x, mkReader (buf r) (pos r + 1))
       | None => Raise IndexError
       end.

Definition read (n : Z) : D bytes := λ r,
  if Z.of_nat (length (buf r)) <? pos r + n then Raise ValueError
  else Ok (slice (Z.to_nat (pos r)) (Z.to_nat (pos r + n)) (buf r),
           mkReader (buf r) (pos r + n)).

Definition at_end (r : Reader) : bool := Z.of_nat (length (buf r)) <=? pos r.

Definition read_list_size (tag : Z) : D Z :=
  if tag =? LIST_EMPTY then mret 0
  else if tag =? LIST_8 then u8
  else if tag =? LIST_16 then hi ← u8; lo ← u8; mret (Z.lor (Z.shiftl hi 8) lo)
  else draise ValueError.

(** The loop of [_read_packed]; the low nibble of the last byte is dropped when
    the header says the string is odd. *)
Fixpoint read_packed_loop (todo : nat) (odd : bool) (alphabet : str) : D str :=
  match todo with
  | O => mret []
  | S todo =>
    x ← u8;
    let hi := Z.land (Z.shiftr x 4) 0x0F in
    let lo := Z.land x 0x0F in
    c ← dlift (some_or (alphabet !! Z.to_nat hi) IndexError);
    cs ← (if odd && (todo =? 0)%nat then mret []
          else c' ← dlift (some_or (alphabet !! Z.to_nat lo) IndexError); mret [c']);
    rest ← read_packed_loop todo odd alphabet;
    mret (c :: cs ++ rest)
  end.

Definition read_packed (alphabet : str) : D str :=
  header ← u8;
  let odd := negb (Z.land header 0x80 =? 0) in
  let n_bytes := Z.land header 0x7F in
  read_packed_loop (Z.to_nat n_bytes) odd alphabet.

Definition read_byte_payload (tag : Z) : D bytes :=
  if tag =? BINARY_8 then n ← u8; read n
  else if tag =? BINARY_20 then
    b0 ← u8; b1 ← u8; b2 ← u8;
    read (Z.lor (Z.lor (Z.shiftl (Z.land b0 0x0F) 16) (Z.shiftl b1 8)) b2)
  else if tag =? BINARY_32 then d ← read 4; read (be_val d)
  else if tag =? NIBBLE_8 then s ← read_packed NIBBLE_ALPHABET; dlift (utf8_encode s)
  else if tag =? HEX_8 then s ← read_packed HEX_ALPHABET; dlift (utf8_encode s)
  else draise ValueError.

(** What [_read_string_or_bytes] returns. *)
Inductive StrOrBytes := SStr (s : str) | SBytes (d : bytes).

Section Decoder.
Context {T : TokenTable}.

Definition read_string_or_bytes (tag : Z) : D StrOrBytes :=
  if tag =? 0 then mret (SStr [])
  else if (1 <=? tag) && (tag <=? 235) then s ← dlift (tok_single_at tag); mret (SStr s)
  else if (DICTIONARY_0 <=? tag) && (tag <=? DICTIONARY_3) then
    idx ← u8; s ← dlift (tok_double_at (tag - DICTIONARY_0) idx); mret (SStr s)
  else d ← read_byte_payload tag; mret (SBytes d).

(** [v.decode("utf-8")] when the value is bytes. *)
Definition sob_str (v : StrOrBytes) : result str :=
  match v with SStr s => Ok s | SBytes d => utf8_decode d end.

Definition read_string : D str :=
  tag ← u8; v ← read_string_or_bytes tag; dlift (sob_str v).

Definition read_jid_pair : D JID :=
  peek ← u8;
  user ← (if peek =? LIST_EMPTY then mret []
          else v ← read_string_or_bytes peek; dlift (sob_str v));
  server ← read_string;
  mret (mkJID user server 0).

Definition _AGENT_TO_SERVER : list (Z * str) :=
  [(0, u "s.whatsapp.net"); (1, u "lid"); (128, u "hosted"); (129, u "hosted.lid")].

Definition read_ad_jid : D JID :=
  agent ← u8;
  device ← u8;
  user ← read_string;
  mret (mkJID user (default (u "s.whatsapp.net") (dict_get agent _AGENT_TO_SERVER)) device).

Definition read_attr_value : D AttrValue :=
  tag ← u8;
  if tag =? JID_PAIR then j ← read_jid_pair; mret (AJid j)
  else if tag =? AD_JID then j ← read_ad_jid; mret (AJid j)
  else v ← read_string_or_bytes tag; s ← dlift (sob_str v); mret (AStr s).

(** The attribute loop: [attrs[k] = v]. *)
Fixpoint read_attrs (n : nat) (acc : list (str * AttrValue)) : D (list (str * AttrValue)) :=
  match n with
  | O => mret acc
  | S n => k ← read_string; v ← read_attr_value; read_attrs n (dict_set k v acc)
  end.

(** [[m() for _ in range(n)]] *)
Fixpoint dtimes {A} (n : nat) (m : D A) : D (list A) :=
  match n with
  | O => mret []
  | S n => x ← m; l ← dtimes n m; mret (x :: l)
  end.

Definition read_content_with (rn : D Node) : D NodeContent :=
  tag ← u8;
  if (tag =? LIST_EMPTY) || (tag =? LIST_8) || (tag =? LIST_16) then
    n ← read_list_size tag; l ← dtimes (Z.to_nat n) rn; mret (CList l)
  else d ← read_byte_payload tag; mret (CBytes d).

Definition read_node_with (rn : D Node) : D Node :=
  list_tag ← u8;
  count ← read_list_size list_tag;
  if count =? 0 then draise ValueError
  else
    t ← read_string;
    let n_attrs := Z.shiftr (count - 1) 1 in
    let has_content := Z.land (count - 1) 1 =? 1 in
    a ← read_attrs (Z.to_nat n_attrs) [];
    c ← (if has_content then read_content_with rn else mret CNone);
    mret (mkNode t a c).

Fixpoint read_node (fuel : nat) : D Node :=
  match fuel with
  | O => draise OutOfFuel
  | S fuel => read_node_with (read_node fuel)
  end.

Definition decode {Zl : Zlib} (buf : bytes) : result Node :=
  match buf with
  | [] => Raise ValueError
  | flags :: payload =>
    payload ← (if negb (Z.land (b2z flags) 0x02 =? 0) then zlib_decompress payload
               else Ok payload);
    fst <$> read_node (S (length payload)) (mkReader payload 0)
  end.

End Decoder.

(** ** Reading back a prefix of the unread bytes *)

Definition rest (r : Reader) : bytes := drop (Z.to_nat (pos r)) (buf r).
Definition adv (r : Reader) (n : nat) : Reader := mkReader (buf r) (pos r + Z.of_nat n).

(** The cursor lies within the buffer. *)
Definition rok (r : Reader) : Prop := 0 ≤ pos r ≤ Z.of_nat (length (buf r)).

(** [reads m e v]: from any reader whose unread bytes start with [e], [m] returns
    [v] and leaves the cursor just after [e]. *)
Definition reads {A} (m : D A) (e : bytes) (v : A) : Prop :=
  ∀ r t, rok r → rest r = e ++ t → m r = Ok (v, adv r (length e)).

Lemma rest_adv r e t : rok r → rest r = e ++ t →
  rok (adv r (length e)) ∧ rest (adv r (length e)) = t.
Proof.
  unfold rest, adv, rok. simpl. intros Hp H.
  apply (f_equal length) in H as Hlen. rewrite length_drop, length_app in Hlen.
  split; [lia|].
  replace (Z.to_nat (pos r + Z.of_nat (length e))) with (Z.to_nat (pos r) + length e)%nat by lia.
  by rewrite <-drop_drop, H, drop_app_length.
Qed.

Lemma adv_adv r n m : adv (adv r n) m = adv r (n + m).
Proof. unfold adv. simpl. f_equal. lia. Qed.

Lemma reads_ret {A} (v : A) : reads (mret v) [] v.
Proof. intros r t _ _. unfold mret, D_ret, adv. simpl. rewrite Z.add_0_r. by destruct r. Qed.

Lemma reads_lift {A} (m : result A) v : m = Ok v → reads (dlift m) [] v.
Proof. intros -> . apply reads_ret. Qed.

Lemma reads_bind {A B} (m : D A) (k : A → D B) e1 e2 v1 v2 :
  reads m e1 v1 → reads (k v1) e2 v2 → reads (m ≫= k) (e1 ++ e2) v2.
Proof.
  intros H1 H2 r t Hp Hr. rewrite <-app_assoc in Hr. unfold mbind, D_bind.
  rewrite (H1 r (e2 ++ t)) by done. destruct (rest_adv r e1 (e2 ++ t)) as [Hp' Hr']; [done..|].
  rewrite (H2 _ t) by done. by rewrite adv_adv, length_app.
Qed.

Lemma reads_bind_pure {A B} (m : D A) (k : A → D B) e v1 v2 :
  reads m e v1 → reads (k v1) [] v2 → reads (m ≫= k) e v2.
Proof. intros H1 H2. rewrite <-(app_nil_r e). by eapply reads_bind. Qed.

Lemma reads_bind_nil {A B} (m : D A) (k : A → D B) e v1 v2 :
  reads m [] v1 → reads (k v1) e v2 → reads (m ≫= k) e v2.
Proof. intros H1 H2. change e with ([] ++ e). by eapply reads_bind. Qed.

Lemma reads_u8 v : 0 ≤ v < 256 → reads u8 [mkb v] v.
Proof.
  intros Hv r t Hp Hr. unfold u8. unfold rest in Hr.
  assert (buf r !! Z.to_nat (pos r) = Some (mkb v)) as Hl.
  { replace (Z.to_nat (pos r)) with (Z.to_nat (pos r) + 0)%nat by lia.
    rewrite <-lookup_drop, Hr. done. }
  apply lookup_lt_Some in Hl as Hlt. unfold rok in Hp. replace (_ <=? _) with false by lia.
  rewrite Hl, b2z_mkb, Z.mod_small by done. done.
Qed.

Lemma reads_u8_cons {B} v (k : Z → D B) e w :
  0 ≤ v < 256 → reads (k v) e w → reads (u8 ≫= k) (mkb v :: e) w.
Proof.
  intros Hv H. change (mkb v :: e) with ([mkb v] ++ e). eapply reads_bind; [by apply reads_u8|done].
Qed.

Lemma reads_read n d : Z.of_nat (length d) = n → reads (read n) d d.
Proof.
  intros <- r t Hp Hr. unfold read. unfold rest in Hr. unfold rok in Hp.
  apply (f_equal length) in Hr as Hlen. rewrite length_drop, length_app in Hlen.
  replace (_ <? _) with false by lia. unfold adv, slice.
  replace (Z.to_nat (pos r + Z.of_nat (length d)) - Z.to_nat (pos r))%nat
    with (length d) by lia.
  by rewrite Hr, take_app_length.
Qed.
