(* ===== verification/Codec.v ===== *)
(** * The codec end to end: encoding and decoding agree

    [wire_node n] is the node a peer reads when [n] is sent, when it can read one:
    numbers, booleans and byte attributes arrive as strings, textual JIDs as
    structured JIDs, and a JID with a device arrives with the server its agent
    byte stands for and the low eight bits of the device. *)

From S2P Require Import Prelude PyStr Tokens Jid Node Encoder Decoder.

Definition wire_jid (j : JID) : option JID :=
  if contains AT (user j) then None
  else if negb (device j =? 0) then
    Some (mkJID (user j)
      (default (u "s.whatsapp.net")
        (dict_get (default 0 (dict_get (server j) _SERVER_TO_AGENT)) _AGENT_TO_SERVER))
      (Z.land (device j) 0xFF))
  else if contains AT (server j) then None else Some j.

Definition to_option {A} (r : result A) : option A :=
  match r with Ok a => Some a | Raise _ => None end.

Section WireView.
Context {U : UnicodeDB} {T : TokenTable}.

Definition wire_attr (v : AttrValue) : option AttrValue :=
  match v with
  | AStr s =>
    if contains AT s then j ← to_option (parse_jid s); AJid <$> wire_jid j else Some (AStr s)
  | AInt n => AStr <$> to_option (py_str_int n)
  | AJid j => AJid <$> wire_jid j
  | ABool x => Some (AStr (u (if x then "true" else "false")))
  | ABytes d => AStr <$> to_option (utf8_decode d)
  end.

Fixpoint wire_attrs (l : list (str * AttrValue)) : option (list (str * AttrValue)) :=
  match l with
  | [] => Some []
  | (k, v) :: l =>
    if contains AT k then None
    else v' ← wire_attr v; l' ← wire_attrs l; Some ((k, v') :: l')
  end.

(** A string content is read back as bytes, unless it is a token or a JID. *)
Definition wire_str_content (s : str) : option NodeContent :=
  match tok_single s, tok_double s with
  | None, None => if contains AT s then None else CBytes <$> to_option (utf8_encode s)
  | _, _ => None
  end.

Fixpoint wire_node (n : Node) : option Node :=
  match n with
  | mkNode t a c =>
    if contains AT t then None
    else a' ← wire_attrs a; c' ← wire_content c; Some (mkNode t a' c')
  end
with wire_content (c : NodeContent) : option NodeContent :=
  match c with
  | CNone => Some CNone
  | CBytes d => Some (CBytes d)
  | CStr s => wire_str_content s
  | CList l =>
    CList <$> (fix wire_children (l : list Node) : option (list Node) :=
      match l with
      | [] => Some []
      | n :: l => n' ← wire_node n; l' ← wire_children l; Some (n' :: l')
      end) l
  end.

Fixpoint wire_children (l : list Node) : option (list Node) :=
  match l with
  | [] => Some []
  | n :: l => n' ← wire_node n; l' ← wire_children l; Some (n' :: l')
  end.
End WireView.

(** Every attribute dictionary in the node has distinct keys, as Python
    dictionaries do. *)
Fixpoint node_ok (n : Node) : Prop :=
  match n with
  | mkNode _ a c => dict_ok a ∧
    match c with
    | CList l => (fix children_ok (l : list Node) : Prop :=
        match l with [] => True | n :: l => node_ok n ∧ children_ok l end) l
    | _ => True
    end
  end.

Definition node_ok_content (c : NodeContent) : Prop :=
  match c with CList l => Forall node_ok l | _ => True end.

#[local] Ltac Zify.zify_post_hook ::= Z.div_mod_to_equations.

(** Turn the shifts and masks of the goal into arithmetic. *)
Ltac bits :=
  rewrite ?land_0F, ?land_FF, ?land_7F, ?land_1, ?Z.shiftr_div_pow2 by lia;
  change (2 ^ 4) with 16 in *; change (2 ^ 7) with 128 in *; change (2 ^ 8) with 256 in *;
  change (2 ^ 16) with 65536 in *; change (2 ^ 1) with 2 in *.

(** ** List headers and byte strings *)

Definition is_list_tag (tg : Z) : bool := (tg =? LIST_EMPTY) || (tg =? LIST_8) || (tg =? LIST_16).
Definition is_binary_tag (tg : Z) : bool :=
  (tg =? HEX_8) || (tg =? BINARY_8) || (tg =? BINARY_20) || (tg =? BINARY_32) || (tg =? NIBBLE_8).

Lemma list_header_reads c e : 0 ≤ c → write_list_header c = Ok e →
  ∃ tg e', e = mkb tg :: e' ∧ 0 ≤ tg < 256 ∧ is_list_tag tg = true ∧
           reads (read_list_size tg) e' c.
Proof.
  intros Hc. unfold write_list_header. change (Z.shiftl 1 16) with 65536.
  destruct (c =? 0) eqn:E0; [|destruct (c <? 256) eqn:E1; [|destruct (c <? 65536) eqn:E2]];
    intros; write_inv; zbool.
  - exists 0, []. split_and!; [done..|]. subst c. apply reads_ret.
  - exists LIST_8, [mkb c]. split_and!; [done..|]. by apply reads_u8.
  - apply to_bytes_big_Ok in Hw0 as (_ & _ & ->).
    exists LIST_16, (be_bytes 2 c). split_and!; [done..|]. cbn -[Z.div Z.shiftl].
    replace (mkb c) with (mkb (c mod 256)) by (apply b2z_inj; rewrite !b2z_mkb; lia).
    apply reads_u8_cons; [lia|]. apply reads_u8_cons; [lia|].
    rewrite lor_shiftl_add by lia. replace (_ * _ + _) with c by lia. apply reads_ret.
Qed.

Lemma write_bytes_reads d e : write_bytes d = Ok e →
  ∃ tg e', e = mkb tg :: e' ∧ 0 ≤ tg < 256 ∧ is_binary_tag tg = true ∧
           reads (read_byte_payload tg) e' d.
Proof.
  unfold write_bytes. cbv zeta. set (n := Z.of_nat (length d)).
  change (Z.shiftl 1 8) with 256. change (Z.shiftl 1 20) with 1048576.
  change (Z.shiftl 1 32) with 4294967296.
  intros (hd & d' & Hh & [= <-] & ->)%seqw_Ok.
  destruct (n <? 256) eqn:E0; [|destruct (n <? 1048576) eqn:E1;
    [|destruct (n <? 4294967296) eqn:E2]]; write_inv; zbool.
  - exists BINARY_8, (mkb n :: d). split_and!; [done..|].
    apply reads_u8_cons; [lia|]. by apply reads_read.
  - exists BINARY_20. eexists. split_and!; [done..|]. cbn [app].
    repeat (apply reads_u8_cons; [done|]). apply reads_read. fold n. bits.
    rewrite Z.mod_mod by lia. rewrite <-Z.lor_assoc.
    rewrite (lor_shiftl_add (n / 256 mod 256) (n mod 256) 8) by lia.
    rewrite lor_shiftl_add by lia. lia.
  - apply to_bytes_big_Ok in Hw0 as (Hl & Hv & ->).
    exists BINARY_32. eexists. split_and!; [done..|]. cbn [app].
    eapply reads_bind; [apply reads_read; by rewrite length_be_bytes|].
    apply reads_read. by rewrite Hv.
Qed.

(** ** Packed strings *)

Lemma str_index_Ok c alphabet i :
  str_index c alphabet = Ok i →
  0 ≤ i < Z.of_nat (length alphabet) ∧ alphabet !! Z.to_nat i = Some c.
Proof.
  revert i. induction alphabet as [|x l IH]; intros i; simpl; [done|].
  destruct (x =? c) eqn:E; zbool; [intros [= <-]; subst; split; [lia|done]|].
  destruct (str_index c l) as [k|]; simpl; [|done]. intros [= <-].
  destruct (IH k eq_refl) as [Hk Hl]. split; [lia|].
  by replace (Z.to_nat (Z.succ k)) with (S (Z.to_nat k)) by lia.
Qed.

(** A letter other than the filler has an index that fits a nibble. *)
Definition nibble_alphabet (alphabet : str) : Prop :=
  ∀ c i, c ≠ 0 → str_index c alphabet = Ok i → 0 ≤ i < 16 ∧ alphabet !! Z.to_nat i = Some c.

Lemma HEX_nibbles : nibble_alphabet HEX_ALPHABET.
Proof. intros c i _ H%str_index_Ok. done. Qed.

Lemma NIBBLE_nibbles : nibble_alphabet NIBBLE_ALPHABET.
Proof.
  intros c i Hc [Hi Hl]%str_index_Ok. split; [|done].
  change (Z.of_nat (length NIBBLE_ALPHABET)) with 17 in Hi.
  destruct (decide (i = 16)) as [->|]; [|lia]. vm_compute in Hl. congruence.
Qed.

Lemma pack_pairs_reads alphabet s e odd :
  nibble_alphabet alphabet → Forall (λ c, c ≠ 0) s → pack_pairs s alphabet = Ok e →
  odd = Z.odd (Z.of_nat (length s)) →
  reads (read_packed_loop (Z.to_nat ((Z.of_nat (length s) + 1) / 2)) odd alphabet) e s.
Proof.
  intros Ha Hs He ->. remember (length s) as n eqn:Hn. revert s e Hn Hs He.
  induction n as [n IH] using lt_wf_ind. intros s e -> Hs He.
  destruct s as [|c [|c' s]]; cbn [pack_pairs] in He.
  - res_inv. apply reads_ret.
  - write_inv. apply Forall_cons in Hs as [Hc _].
    destruct (Ha c a Hc Hm) as [Hi Hl]. rewrite lor_shiftl_add in * by lia.
    change (2 ^ 4) with 16 in *. cbn [length].
    change (Z.to_nat ((Z.of_nat 1 + 1) / 2)) with 1%nat. cbn [read_packed_loop].
    apply reads_u8_cons; [lia|]. cbv zeta. bits.
    replace ((a * 16 + 15) / 16 mod 16) with a by lia.
    eapply reads_bind_nil; [by apply reads_lift; rewrite Hl|].
    eapply reads_bind_nil; [apply reads_ret|]. apply reads_ret.
  - write_inv. apply Forall_cons in Hs as [Hc [Hc' Hs]%Forall_cons].
    destruct (Ha c a Hc Hm) as [Hi Hl]. destruct (Ha c' a0 Hc' Hm0) as [Hi' Hl'].
    rewrite lor_shiftl_add in * by lia. change (2 ^ 4) with 16 in *. cbn [length app].
    replace (Z.to_nat ((Z.of_nat (S (S (length s))) + 1) / 2))
      with (S (Z.to_nat ((Z.of_nat (length s) + 1) / 2))) by lia.
    cbn [read_packed_loop]. apply reads_u8_cons; [lia|]. cbv zeta. bits.
    replace ((a * 16 + a0) / 16 mod 16) with a by lia.
    replace ((a * 16 + a0) mod 16) with a0 by lia.
    assert (Z.odd (Z.of_nat (S (S (length s)))) = Z.odd (Z.of_nat (length s))) as Hodd.
    { replace (Z.of_nat (S (S (length s)))) with (Z.of_nat (length s) + 2 * 1) by lia.
      by rewrite Z.odd_add_mul_2. }
    rewrite Hodd.
    eapply reads_bind_nil; [by apply reads_lift; rewrite Hl|].
    eapply reads_bind_nil with (v1 := [c']).
    { replace (_ && _) with false.
      - eapply reads_bind_nil; [by apply reads_lift; rewrite Hl'|]. apply reads_ret.
      - symmetry. destruct (Nat.eqb_spec (Z.to_nat ((Z.of_nat (length s) + 1) / 2)) 0);
          [|by rewrite andb_false_r].
        replace (length s) with 0%nat by lia. done. }
    eapply reads_bind_pure; [eapply IH; [|done..]; simpl; lia|]. apply reads_ret.
Qed.

Lemma all_in_spec s alphabet : all_in s alphabet = true →
  truthy s = true ∧ Forall (λ c, c ≠ 0 ∧ c ∈ alphabet) s.
Proof.
  unfold all_in. intros [Hs H]%andb_true_iff. split; [done|].
  rewrite forallb_forall in H. apply Forall_forall. intros c Hc%list_elem_of_In.
  specialize (H c Hc). zbool. by rewrite <-contains_spec.
Qed.

Lemma write_packed_reads s tg alphabet e :
  nibble_alphabet alphabet → all_in s alphabet = true → write_packed s tg alphabet = Ok e →
  ∃ e', e = mkb tg :: e' ∧ reads (read_packed alphabet) e' s.
Proof.
  intros Ha [_ Hs]%all_in_spec. unfold write_packed. cbv zeta.
  destruct (0x80 <=? _) eqn:E; [done|]. intros. write_inv. zbool.
  eexists. split; [done|]. cbn [app]. unfold read_packed. rewrite land_1 in *.
  set (n := Z.of_nat (length s)) in *.
  rewrite lor_shiftl_add in * by lia. change (2 ^ 7) with 128 in *.
  apply reads_u8_cons; [done|]. cbv zeta. rewrite land_80 by done. bits.
  replace ((n mod 2 * 128 + (n + 1) / 2) mod 128) with ((n + 1) / 2) by lia.
  apply pack_pairs_reads; [done| |done|].
  - eapply Forall_impl; [done|]. by intros c [? _].
  - fold n. rewrite Zodd_mod. destruct (Z.eqb_spec (n mod 2) 1);
      destruct (_ <? 128) eqn:E1; zbool; simpl; try done; lia.
Qed.

Lemma alphabets_ascii :
  Forall (λ c, 0 ≤ c < 128) NIBBLE_ALPHABET ∧ Forall (λ c, 0 ≤ c < 128) HEX_ALPHABET.
Proof. split; apply (bool_decide_eq_true_1 _); vm_compute; reflexivity. Qed.

Lemma all_in_encodes s alphabet :
  Forall (λ c, 0 ≤ c < 128) alphabet → all_in s alphabet = true →
  ∃ d, utf8_encode s = Ok d.
Proof.
  intros Ha [_ Hs]%all_in_spec. eexists. apply utf8_encode_ascii.
  eapply Forall_impl; [done|]. intros c [_ Hc]. simpl. rewrite Forall_forall in Ha. auto.
Qed.

(** ** Strings *)

(** What the tag of an encoded string may be: never a JID or list tag. *)
Definition is_string_tag (tg : Z) : bool :=
  ((1 <=? tg) && (tg <=? 239)) || is_binary_tag tg.

Lemma read_payload_branch {T : TokenTable} tg e d :
  is_binary_tag tg = true → reads (read_byte_payload tg) e d →
  reads (read_string_or_bytes tg) e (SBytes d).
Proof.
  intros Ht H. unfold read_string_or_bytes, is_binary_tag in *.
  unfold HEX_8, BINARY_8, BINARY_20, BINARY_32, NIBBLE_8, DICTIONARY_0, DICTIONARY_3 in *.
  replace (tg =? 0) with false by lia.
  replace ((1 <=? tg) && (tg <=? 235)) with false by lia.
  replace ((236 <=? tg) && (tg <=? 239)) with false by lia.
  eapply reads_bind_pure; [done|apply reads_ret].
Qed.

Lemma packed_payload_reads tg alphabet e s d :
  (tg = NIBBLE_8 ∧ alphabet = NIBBLE_ALPHABET) ∨ (tg = HEX_8 ∧ alphabet = HEX_ALPHABET) →
  reads (read_packed alphabet) e s → utf8_encode s = Ok d →
  reads (read_byte_payload tg) e d.
Proof.
  intros [[-> ->]|[-> ->]] H Hd; (eapply reads_bind_pure; [done|]); by apply reads_lift.
Qed.

Section Strings.
Context {U : UnicodeDB} {T : TokenTable} {TL : TokenLaws T}.

Lemma at_not_token s : contains AT s = true → tok_single s = None ∧ tok_double s = None.
Proof.
  intros Hat.
  destruct (tok_single s) eqn:E1; [apply tok_single_text in E1 as [_ E1]; unfold AT in *; congruence|].
  destruct (tok_double s) eqn:E2; [apply tok_double_text in E2 as [_ E2]; unfold AT in *; congruence|].
  done.
Qed.

(** A string that is neither a token nor a JID is written as a byte payload. *)
Lemma write_string_payload s e :
  contains AT s = false → tok_single s = None → tok_double s = None →
  write_string s = Ok e →
  ∃ tg e' d, e = mkb tg :: e' ∧ 0 ≤ tg < 256 ∧ is_binary_tag tg = true ∧
             reads (read_byte_payload tg) e' d ∧ utf8_encode s = Ok d.
Proof.
  intros Hat H1 H2. rewrite write_string_eq. unfold write_string_with. rewrite Hat, H1, H2.
  destruct (truthy s) eqn:Hs; cbn [negb].
  2: { intros. write_inv. destruct s; [|done]. exists BINARY_8, [mkb 0], [].
       split_and!; [done..| |done]. apply reads_u8_cons; [lia|]. by apply reads_read. }
  destruct (all_in s NIBBLE_ALPHABET) eqn:Hn; [|destruct (all_in s HEX_ALPHABET) eqn:Hh].
  - destruct (all_in_encodes s _ (proj1 alphabets_ascii) Hn) as [d Hd'].
    intros (e' & -> & Hrd)%write_packed_reads; [|apply NIBBLE_nibbles|done].
    exists NIBBLE_8, e', d. split_and!; [done..| |done].
    eapply packed_payload_reads; [left; split; reflexivity|exact Hrd|exact Hd'].
  - destruct (all_in_encodes s _ (proj2 alphabets_ascii) Hh) as [d Hd'].
    intros (e' & -> & Hrd)%write_packed_reads; [|apply HEX_nibbles|done].
    exists HEX_8, e', d. split_and!; [done..| |done].
    eapply packed_payload_reads; [right; split; reflexivity|exact Hrd|exact Hd'].
  - intros. res_inv. apply write_bytes_reads in Hk as (tg & e' & -> & Htg & Hb & Hrd).
    exists tg, e', a. split_and!; [reflexivity|lia|lia|exact Hb|exact Hrd|exact Hm].
Qed.

Lemma write_string_reads_tag s e :
  contains AT s = false → write_string s = Ok e →
  ∃ tg e' v, e = mkb tg :: e' ∧ 0 ≤ tg < 256 ∧ is_string_tag tg = true ∧
             reads (read_string_or_bytes tg) e' v ∧ sob_str v = Ok s.
Proof.
  intros Hat He. destruct (tok_single s) as [i|] eqn:Hi.
  { rewrite write_string_eq in He. unfold write_string_with in He. rewrite Hi in He.
    rewrite (proj1 (tok_single_text s i Hi)) in He. cbn [negb] in He.
    apply tok_single_Some in Hi as [Hr Ht]. write_inv. exists i, [], (SStr s).
    split_and!; [done|lia|lia|unfold is_string_tag; lia| |done].
    unfold read_string_or_bytes. replace (i =? 0) with false by lia.
    replace ((1 <=? i) && (i <=? 235)) with true by lia.
    eapply reads_bind_nil; [by apply reads_lift|apply reads_ret]. }
  destruct (tok_double s) as [[dn idx]|] eqn:Hd.
  { rewrite write_string_eq in He. unfold write_string_with in He. rewrite Hi, Hd in He.
    rewrite (proj1 (tok_double_text s _ Hd)) in He. cbn [negb] in He.
    apply tok_double_Some in Hd as (Hr & Hr' & Ht). unfold DICTIONARY_0 in *. write_inv. exists (236 + dn), [mkb idx], (SStr s).
    split_and!; [done|lia|lia|unfold is_string_tag; lia| |done].
    unfold read_string_or_bytes, DICTIONARY_0, DICTIONARY_3.
    replace (236 + dn =? 0) with false by lia.
    replace ((1 <=? 236 + dn) && (236 + dn <=? 235)) with false by lia.
    replace ((236 <=? 236 + dn) && (236 + dn <=? 239)) with true by lia.
    apply reads_u8_cons; [done|]. replace (236 + dn - 236) with dn by lia.
    eapply reads_bind_nil; [by apply reads_lift|apply reads_ret]. }
  destruct (write_string_payload s e Hat Hi Hd He) as (tg & e' & d & -> & Htg & Hb & Hrd & Hd').
  exists tg, e', (SBytes d). split_and!; [done|lia|lia| | |by apply utf8_decode_encode].
  - unfold is_string_tag. by rewrite Hb, orb_true_r.
  - by apply read_payload_branch.
Qed.

Lemma write_string_reads s e :
  contains AT s = false → write_string s = Ok e → reads read_string e s.
Proof.
  intros Hat (tg & e' & v & -> & Htg & _ & Hrd & Hv)%write_string_reads_tag; [|done].
  unfold read_string. apply reads_u8_cons; [done|].
  eapply reads_bind_pure; [done|]. by apply reads_lift.
Qed.
End Strings.

(** ** JIDs and attribute values *)

Section Nodes.
Context {U : UnicodeDB} {T : TokenTable} {TL : TokenLaws T}.

Lemma string_tag_not_special tg : is_string_tag tg = true →
  (tg =? JID_PAIR) = false ∧ (tg =? AD_JID) = false ∧ (tg =? LIST_EMPTY) = false.
Proof.
  unfold is_string_tag, is_binary_tag, JID_PAIR, AD_JID, LIST_EMPTY,
    HEX_8, BINARY_8, BINARY_20, BINARY_32, NIBBLE_8. lia.
Qed.

Lemma write_jid_reads j j' e :
  wire_jid j = Some j' → write_jid j = Ok e → reads read_attr_value e (AJid j').
Proof.
  unfold wire_jid, write_jid, write_jid_with.
  destruct (contains AT (user j)) eqn:Hu; [done|].
  destruct (device j =? 0) eqn:Hd; cbn [negb]; zbool.
  - destruct (contains AT (server j)) eqn:Hs; [done|]. intros [= <-] H. write_inv.
    apply reads_u8_cons; [done|]. change (JID_PAIR =? JID_PAIR) with true. cbv iota.
    eapply reads_bind_pure; [|apply reads_ret]. unfold read_jid_pair.
    destruct (truthy (user j)) eqn:Ht.
    + match goal with H : write_string (user j) = Ok _ |- _ =>
        apply write_string_reads_tag in H as (tg & e' & v & -> & Htg & Hst & Hrd & Hv); [|done]
      end.
      apply reads_u8_cons; [done|].
      destruct (string_tag_not_special tg Hst) as (_ & _ & ->).
      eapply reads_bind; [eapply reads_bind_pure; [exact Hrd|by apply reads_lift]|].
      eapply reads_bind_pure; [by apply write_string_reads|].
      destruct j as [us sv dv]; simpl in *; subst. apply reads_ret.
    + write_inv. apply reads_u8_cons; [done|]. change (LIST_EMPTY =? LIST_EMPTY) with true.
      cbv iota. eapply reads_bind_nil; [apply reads_ret|].
      eapply reads_bind_pure; [by apply write_string_reads|].
      destruct j as [[|??] sv dv]; simpl in *; subst; [apply reads_ret|done].
  - intros [= <-] H. write_inv.
    apply reads_u8_cons; [done|]. change (AD_JID =? JID_PAIR) with false.
    change (AD_JID =? AD_JID) with true. cbv iota.
    eapply reads_bind_pure; [|apply reads_ret]. unfold read_ad_jid.
    apply reads_u8_cons; [done|]. apply reads_u8_cons; [done|].
    eapply reads_bind_pure; [by apply write_string_reads|]. apply reads_ret.
Qed.

Lemma write_string_reads_attr s e :
  contains AT s = false → write_string s = Ok e → reads read_attr_value e (AStr s).
Proof.
  intros Hat (tg & e' & v & -> & Htg & Hst & Hrd & Hv)%write_string_reads_tag; [|done].
  unfold read_attr_value. apply reads_u8_cons; [done|].
  destruct (string_tag_not_special tg Hst) as (-> & -> & _).
  eapply reads_bind_pure; [exact Hrd|].
  eapply reads_bind_nil; [by apply reads_lift|apply reads_ret].
Qed.

Lemma py_str_int_no_at n s : py_str_int n = Ok s → contains AT s = false.
Proof.
  unfold py_str_int. destruct (_ <? _); [done|]. intros [= <-]. apply contains_false.
  pose proof (nat_str_ascii (Z.abs n) ltac:(lia)) as H. rewrite Forall_forall in H.
  assert (AT ∉ nat_str (Z.abs n)) by (intros K%H; done).
  destruct (n <? 0); [|done]. rewrite elem_of_cons. unfold AT. naive_solver.
Qed.

Lemma write_attr_reads v v' e :
  wire_attr v = Some v' → write_attr_value v = Ok e → reads read_attr_value e v'.
Proof.
  intros Hw He. destruct v as [s|n|j|x|d]; cbn [wire_attr write_attr_value] in *.
  - destruct (contains AT s) eqn:Hat.
    + destruct (parse_jid s) as [j|] eqn:Hj; cbn in Hw; [|done].
      destruct (wire_jid j) as [j'|] eqn:Hwj; cbn in Hw; [|done]. injection Hw as <-.
      rewrite write_string_eq in He. unfold write_string_with in He.
      destruct (truthy s) eqn:Ht; [cbn [negb] in He|by destruct s].
      destruct (at_not_token s Hat) as [E1 E2]. rewrite E1, E2 in He.
      rewrite Hat, Hj in He. by eapply write_jid_reads.
    + injection Hw as <-. by apply write_string_reads_attr.
  - destruct (py_str_int n) as [s|] eqn:Hs; cbn in Hw; [|done]. injection Hw as <-.
    apply write_string_reads_attr; [by eapply py_str_int_no_at|done].
  - destruct (wire_jid j) as [j'|] eqn:Hwj; cbn in Hw; [|done]. injection Hw as <-.
    by eapply write_jid_reads.
  - injection Hw as <-. apply write_string_reads_attr; [by destruct x|done].
  - destruct (utf8_decode d) as [s|] eqn:Hs; cbn in Hw; [|done]. injection Hw as <-.
    apply write_bytes_reads in He as (tg & e' & -> & Htg & Hb & Hrd).
    unfold read_attr_value. apply reads_u8_cons; [done|].
    destruct (string_tag_not_special tg) as (-> & -> & _).
    { unfold is_string_tag. by rewrite Hb, orb_true_r. }
    eapply reads_bind_pure; [by apply read_payload_branch|].
    eapply reads_bind_nil; [by apply reads_lift|apply reads_ret].
Qed.

Lemma write_attrs_reads l : ∀ l' e acc,
  dict_ok (acc ++ l) → wire_attrs l = Some l' → write_attrs l = Ok e →
  reads (read_attrs (length l) acc) e (acc ++ l').
Proof.
  induction l as [|[k v] l IH]; intros l' e acc Hok Hw He; cbn [wire_attrs write_attrs] in *.
  - simplify_eq. rewrite app_nil_r. res_inv. apply reads_ret.
  - destruct (contains AT k) eqn:Hk; [done|].
    destruct (wire_attr v) as [v'|] eqn:Hv; cbn in Hw; [|done].
    destruct (wire_attrs l) as [l2|] eqn:Hl; cbn in Hw; [|done]. simplify_eq.
    write_inv. cbn [length read_attrs]. rewrite <-app_assoc.
    eapply reads_bind; [by apply write_string_reads|].
    eapply reads_bind; [by eapply write_attr_reads|].
    assert (k ∉ dict_keys acc) as Hfresh.
    { unfold dict_ok, dict_keys in Hok. rewrite fmap_app in Hok. simpl in Hok.
      apply NoDup_app in Hok as (_ & H & _). intros Hin. apply (H k Hin). left. }
    rewrite dict_set_new by done.
    replace (acc ++ (k, v') :: l2) with ((acc ++ [(k, v')]) ++ l2) by by rewrite <-app_assoc.
    apply IH; [|done..]. unfold dict_ok, dict_keys in *. rewrite !fmap_app in *. simpl in *.
    by rewrite <-app_assoc.
Qed.

(** ** Nodes *)

Lemma node_ok_unfold t a c : node_ok (mkNode t a c) ↔ dict_ok a ∧ node_ok_content c.
Proof.
  simpl. apply and_iff_compat_l. destruct c as [| | |l]; try done. simpl.
  induction l as [|n l IH]; [by rewrite Forall_nil|]. by rewrite Forall_cons, IH.
Qed.

Lemma wire_node_eq t a c : wire_node (mkNode t a c) =
  if contains AT t then None
  else a' ← wire_attrs a; c' ← wire_content c; Some (mkNode t a' c').
Proof. reflexivity. Qed.

Lemma write_node_eq t a c : write_node (mkNode t a c) =
  write_list_header (item_count (mkNode t a c)) ;+ write_string t ;+ write_attrs a
    ;+ write_content c.
Proof. reflexivity. Qed.

Lemma wire_content_list l : wire_content (CList l) = CList <$> wire_children l.
Proof. simpl. f_equal. Qed.

Lemma binary_not_list tg : is_binary_tag tg = true → is_list_tag tg = false.
Proof.
  unfold is_binary_tag, is_list_tag, LIST_EMPTY, LIST_8, LIST_16,
    HEX_8, BINARY_8, BINARY_20, BINARY_32, NIBBLE_8. lia.
Qed.

Lemma read_content_payload rn tg e d : 0 ≤ tg < 256 → is_binary_tag tg = true →
  reads (read_byte_payload tg) e d → reads (read_content_with rn) (mkb tg :: e) (CBytes d).
Proof.
  intros Htg Hb Hrd. unfold read_content_with. apply reads_u8_cons; [done|].
  fold (is_list_tag tg). rewrite (binary_not_list tg Hb).
  eapply reads_bind_pure; [done|apply reads_ret].
Qed.

Definition node_reads (n : Node) : Prop := ∀ n' e fuel,
  node_ok n → wire_node n = Some n' → write_node n = Ok e → (length e ≤ fuel)%nat →
  reads (read_node fuel) e n'.

Definition content_reads (c : NodeContent) : Prop := ∀ c' e fuel,
  has_content c = true → node_ok_content c → wire_content c = Some c' →
  write_content c = Ok e → (length e ≤ fuel)%nat →
  reads (read_content_with (read_node fuel)) e c'.

Lemma children_reads l : Forall node_reads l → ∀ l' e fuel,
  Forall node_ok l → wire_children l = Some l' → write_children l = Ok e →
  (length e ≤ fuel)%nat → reads (dtimes (length l) (read_node fuel)) e l'.
Proof.
  induction 1 as [|n l Hn Hl IH]; intros l' e fuel Hok Hw He Hf; cbn [wire_children write_children] in *.
  - simplify_eq. res_inv. apply reads_ret.
  - apply Forall_cons in Hok as [Hok1 Hok2].
    destruct (wire_node n) as [n'|] eqn:Hn'; cbn in Hw; [|done].
    destruct (wire_children l) as [l2|] eqn:Hl'; cbn in Hw; [|done]. simplify_eq.
    write_inv. rewrite length_app in Hf. cbn [length dtimes].
    eapply reads_bind; [by eapply Hn; try done; lia|].
    eapply reads_bind_pure; [by apply IH; try done; lia|]. apply reads_ret.
Qed.

Lemma content_reads_list l : Forall node_reads l → content_reads (CList l).
Proof.
  intros Hl c' e fuel _ Hok Hw He Hf. rewrite wire_content_list in Hw.
  destruct (wire_children l) as [l'|] eqn:Hl'; cbn in Hw; [|done]. injection Hw as <-.
  rewrite write_content_list in He. write_inv.
  apply list_header_reads in Hw as (tg & e' & -> & Htg & Hlt & Hrd); [|lia].
  rewrite length_app in Hf. simpl length in Hf.
  unfold read_content_with. apply reads_u8_cons; [done|].
  fold (is_list_tag tg). rewrite Hlt.
  eapply reads_bind; [done|]. rewrite Nat2Z.id.
  eapply reads_bind_pure; [|apply reads_ret]. apply children_reads; try done. lia.
Qed.

Lemma content_reads_str s : content_reads (CStr s).
Proof.
  intros c' e fuel _ _ Hw He Hf. cbn [wire_content write_content] in *.
  unfold wire_str_content in Hw.
  destruct (tok_single s) eqn:H1; [done|]. destruct (tok_double s) eqn:H2; [done|].
  destruct (contains AT s) eqn:Hat; [done|].
  destruct (write_string_payload s e Hat H1 H2 He) as (tg & e' & d & -> & Htg & Hb & Hrd & Hd).
  rewrite Hd in Hw. cbn in Hw. injection Hw as <-. by apply read_content_payload.
Qed.

Lemma node_reads_step t a c : content_reads c → node_reads (mkNode t a c).
Proof.
  intros Hc n' e fuel [Hok Hokc]%node_ok_unfold Hw He Hf.
  rewrite wire_node_eq in Hw. rewrite write_node_eq in He.
  destruct (contains AT t) eqn:Ht; [done|].
  destruct (wire_attrs a) as [a'|] eqn:Ha; [|done].
  destruct (wire_content c) as [c'|] eqn:Hc'; [|done]. injection Hw as <-.
  apply seqw_Ok in He as (e1 & ey & H1 & He & ->).
  apply seqw_Ok in He as (e2 & ez & H2 & He & ->).
  apply seqw_Ok in He as (e3 & e4 & H3 & H4 & ->).
  unfold item_count in H1. cbn [attrs content] in H1.
  set (k := Z.of_nat (length a)) in *.
  apply list_header_reads in H1 as (tg & e' & -> & Htg & Hlt & Hrd); [|case_match; lia].
  rewrite !length_app in Hf. simpl length in Hf. destruct fuel as [|fuel]; [lia|].
  cbn [read_node]. unfold read_node_with. cbn [app]. apply reads_u8_cons; [done|].
  eapply reads_bind; [done|].
  replace (_ =? 0) with false by (case_match; lia).
  eapply reads_bind; [by apply write_string_reads|]. cbv zeta.
  replace (Z.shiftr _ 1) with k by (rewrite Z.shiftr_div_pow2 by lia; change (2 ^ 1) with 2; case_match; lia).
  replace (Z.land _ 1 =? 1) with (has_content c) by (rewrite land_1; case_match; lia).
  unfold k. rewrite Nat2Z.id.
  eapply reads_bind; [by apply (write_attrs_reads a a' e3 [])|].
  destruct (has_content c) eqn:Hh.
  - eapply reads_bind_pure; [apply Hc; try done; lia|apply reads_ret].
  - destruct c; simplify_eq/=. eapply reads_bind_nil; apply reads_ret.
Qed.

Lemma write_node_reads n : node_reads n.
Proof.
  apply (Node_rect' node_reads content_reads).
  - apply node_reads_step.
  - done.
  - intros d c' e fuel _ _ [= <-] (tg & e' & -> & Htg & Hb & Hrd)%write_bytes_reads _.
    by apply read_content_payload.
  - apply content_reads_str.
  - apply content_reads_list.
Qed.
End Nodes.

(** ** Nodes as the decoder produces them *)

Definition known_server (s : str) : bool := bool_decide (s ∈ dict_keys _SERVER_TO_AGENT).

Definition canonical_jid (j : JID) : bool :=
  negb (contains AT (user j)) &&
  (if device j =? 0 then negb (contains AT (server j))
   else (0 <? device j) && (device j <? 256) && known_server (server j)).

Definition canonical_attr (v : AttrValue) : bool :=
  match v with
  | AStr s => negb (contains AT s)
  | AJid j => canonical_jid j
  | _ => false
  end.

(** No ["@"] in tags, keys and string values, structured JIDs that fit their wire
    form, and no string content. *)
Fixpoint canonical (n : Node) : bool :=
  match n with
  | mkNode t a c =>
    negb (contains AT t) &&
    forallb (λ '(k, v), negb (contains AT k) && canonical_attr v) a &&
    match c with
    | CNone | CBytes _ => true
    | CStr _ => false
    | CList l => forallb canonical l
    end
  end.

Section Fits.
Context {T : TokenTable}.

(** The strings [_write_string] can write, among those without ["@"]. *)
Definition string_fits (s : str) : bool :=
  match tok_single s, tok_double s with
  | None, None =>
    if all_in s NIBBLE_ALPHABET || all_in s HEX_ALPHABET then Z.of_nat (length s) <? 255
    else match utf8_encode s with
         | Ok d => Z.of_nat (length d) <? 2 ^ 32
         | Raise _ => false
         end
  | _, _ => true
  end.

Definition attr_fits (v : AttrValue) : bool :=
  match v with
  | AStr s => string_fits s
  | AJid j => string_fits (user j) && ((negb (device j =? 0)) || string_fits (server j))
  | _ => false
  end.

(** The size limits of the wire format. *)
Fixpoint node_fits (n : Node) : bool :=
  match n with
  | mkNode t a c =>
    (item_count n <? 65536) && string_fits t &&
    forallb (λ '(k, v), string_fits k && attr_fits v) a &&
    match c with
    | CNone | CStr _ => true
    | CBytes d => Z.of_nat (length d) <? 2 ^ 32
    | CList l => (Z.of_nat (length l) <? 65536) && forallb node_fits l
    end
  end.

End Fits.

Lemma canonical_wire_jid j : canonical_jid j = true → wire_jid j = Some j.
Proof.
  destruct j as [us sv dv]. unfold canonical_jid, wire_jid; cbn [user server device].
  intros [Hu H]%andb_true_iff. zbool. rewrite Hu.
  destruct (dv =? 0) eqn:Hd; cbn [negb]; zbool; [by rewrite H|].
  unfold known_server in *. apply bool_decide_eq_true in H0. rewrite land_FF, Z.mod_small by lia.
  do 2 f_equal. cbn in H0. repeat (apply elem_of_cons in H0 as [->|H0]; [done|]).
  by apply elem_of_nil in H0.
Qed.

Section Canonical.
Context {U : UnicodeDB} {T : TokenTable} {TL : TokenLaws T}.

Lemma canonical_wire_attrs a :
  forallb (λ '(k, v), negb (contains AT k) && canonical_attr v) a = true →
  wire_attrs a = Some a.
Proof.
  induction a as [|[k v] a IH]; [done|]. cbn [forallb wire_attrs]. intros H. zbool.
  rewrite H, IH by done.
  destruct v as [s|n|j|x|d]; cbn [canonical_attr wire_attr] in *; try done.
  - zbool. by rewrite H1.
  - by rewrite canonical_wire_jid.
Qed.

Lemma canonical_wire n : canonical n = true → wire_node n = Some n.
Proof.
  apply (Node_rect' (λ n, canonical n = true → wire_node n = Some n)
    (λ c, match c with
          | CNone | CBytes _ => true
          | CStr _ => false
          | CList l => forallb canonical l
          end = true → wire_content c = Some c)); try done.
  - intros t a c Hc H. cbn [canonical] in H. zbool. rewrite wire_node_eq.
    rewrite H, canonical_wire_attrs, Hc by done. done.
  - intros l Hl Hcan. rewrite wire_content_list.
    assert (wire_children l = Some l) as ->; [|done].
    induction Hl as [|m l Hm Hl IH]; [done|]. cbn [forallb wire_children] in *. zbool.
    by rewrite Hm, IH.
Qed.

Lemma str_index_elem c alphabet : c ∈ alphabet → ∃ i, str_index c alphabet = Ok i.
Proof.
  induction alphabet as [|x l IH]; [by intros ?%elem_of_nil|].
  intros H. simpl. destruct (x =? c) eqn:E; [by eexists|]. zbool.
  apply elem_of_cons in H as [->|H]; [done|]. destruct (IH H) as [i ->]. by eexists.
Qed.

Lemma append_nibbles hi lo : 0 ≤ hi < 16 → 0 ≤ lo < 16 →
  ∃ o, append (Z.lor (Z.shiftl hi 4) lo) = Ok o.
Proof.
  intros. rewrite lor_shiftl_add by lia. change (2 ^ 4) with 16.
  eexists. apply append_in_range. lia.
Qed.

Lemma pack_pairs_ok alphabet s : nibble_alphabet alphabet →
  Forall (λ c, c ≠ 0 ∧ c ∈ alphabet) s → ∃ e, pack_pairs s alphabet = Ok e.
Proof.
  intros Ha. remember (length s) as n eqn:Hn. revert s Hn.
  induction n as [n IH] using lt_wf_ind. intros s -> Hs.
  assert (∀ c, c ≠ 0 ∧ c ∈ alphabet → ∃ i, str_index c alphabet = Ok i ∧ 0 ≤ i < 16) as K.
  { intros c [Hc [i Hi]%str_index_elem]. exists i. split; [done|]. by apply (Ha c). }
  destruct s as [|c [|c' s]]; cbn [pack_pairs]; [by eexists|..].
  - apply Forall_cons in Hs as [Hc _]. destruct (K c Hc) as (i & -> & Hi). cbn -[Z.lor Z.shiftl].
    by apply append_nibbles.
  - apply Forall_cons in Hs as [Hc [Hc' Hs]%Forall_cons].
    destruct (K c Hc) as (i & -> & Hi), (K c' Hc') as (i' & -> & Hi'). cbn -[Z.lor Z.shiftl].
    destruct (append_nibbles i i' Hi Hi') as [o ->].
    destruct (IH (length s) ltac:(simpl; lia) s eq_refl Hs) as [e ->]. by eexists.
Qed.

Lemma write_packed_ok s tg alphabet : nibble_alphabet alphabet →
  all_in s alphabet = true → 0 ≤ tg < 256 → Z.of_nat (length s) < 255 →
  ∃ e, write_packed s tg alphabet = Ok e.
Proof.
  intros Ha [_ Hs]%all_in_spec Htg Hlen. unfold write_packed. cbv zeta.
  replace (0x80 <=? _) with false by lia. rewrite land_1, lor_shiftl_add by lia.
  destruct (pack_pairs_ok alphabet s Ha Hs) as [e ->].
  rewrite !append_in_range by (change (2 ^ 7) with 128; lia). by eexists.
Qed.

Lemma write_bytes_ok d : Z.of_nat (length d) < 2 ^ 32 → ∃ e, write_bytes d = Ok e.
Proof.
  intros H. change (2 ^ 32) with 4294967296 in H. unfold write_bytes. cbv zeta.
  set (n := Z.of_nat (length d)) in *.
  change (Z.shiftl 1 8) with 256. change (Z.shiftl 1 20) with 1048576.
  change (Z.shiftl 1 32) with 4294967296.
  destruct (n <? 256) eqn:E0; zbool; [|destruct (n <? 1048576) eqn:E1; zbool].
  - rewrite !append_in_range by (done || lia). by eexists.
  - rewrite ?land_0F, ?land_FF, ?Z.shiftr_div_pow2 by lia.
    rewrite !append_in_range by (done || lia). by eexists.
  - replace (n <? 4294967296) with true by lia. rewrite append_in_range by done.
    unfold to_bytes_big. change (256 ^ Z.of_nat 4) with 4294967296.
    replace (_ && _) with true by lia. by eexists.
Qed.

Lemma write_string_ok s : contains AT s = false → string_fits s = true →
  ∃ e, write_string s = Ok e.
Proof.
  intros Hat. rewrite write_string_eq. unfold string_fits, write_string_with.
  destruct (tok_single s) as [i|] eqn:H1.
  { intros _. rewrite (proj1 (tok_single_text s i H1)). cbn [negb].
    apply tok_single_Some in H1 as [? _]. rewrite append_in_range by lia. by eexists. }
  destruct (tok_double s) as [[d i]|] eqn:H2.
  { intros _. rewrite (proj1 (tok_double_text s _ H2)). cbn [negb].
    apply tok_double_Some in H2 as (? & ? & _). unfold DICTIONARY_0.
    rewrite !append_in_range by lia. by eexists. }
  rewrite Hat. clear H1 H2. destruct (truthy s) eqn:Hs; cbn [negb].
  2: { intros _. rewrite !append_in_range by (unfold BINARY_8; lia). by eexists. }
  destruct (all_in s NIBBLE_ALPHABET) eqn:Hn; [|destruct (all_in s HEX_ALPHABET) eqn:Hh];
    cbn [orb]; intros H.
  - zbool. by apply write_packed_ok; [apply NIBBLE_nibbles|..].
  - zbool. by apply write_packed_ok; [apply HEX_nibbles|..].
  - destruct (utf8_encode s) as [d|] eqn:Hd; [|done]. zbool. by apply write_bytes_ok.
Qed.

Lemma write_list_header_ok c : 0 ≤ c < 65536 → ∃ e, write_list_header c = Ok e.
Proof.
  intros. unfold write_list_header. change (Z.shiftl 1 16) with 65536.
  destruct (c =? 0) eqn:E0; zbool; [rewrite append_in_range by done; by eexists|].
  destruct (c <? 256) eqn:E1; zbool; [rewrite !append_in_range by (done || lia); by eexists|].
  replace (c <? 65536) with true by lia. rewrite append_in_range by done. unfold to_bytes_big.
  change (256 ^ Z.of_nat 2) with 65536. replace (_ && _) with true by lia. by eexists.
Qed.

Lemma write_attrs_ok a :
  forallb (λ '(k, v), negb (contains AT k) && canonical_attr v) a = true →
  forallb (λ '(k, v), string_fits k && attr_fits v) a = true →
  ∃ e, write_attrs a = Ok e.
Proof.
  induction a as [|[k v] a IH]; [by eexists|]. cbn [forallb]. intros H1 H2. zbool.
  destruct IH as [e3 He3]; [done..|].
  destruct (write_string_ok k) as [e1 He1]; [done..|].
  assert (∃ e2, write_attr_value v = Ok e2) as [e2 He2].
  { destruct v as [s|n|j|x|d]; cbn [canonical_attr attr_fits write_attr_value] in *; try done.
    - zbool. by apply write_string_ok.
    - unfold canonical_jid in *. unfold write_jid, write_jid_with.
      zbool. destruct (write_string_ok (user j)) as [eu Heu]; [done..|].
      destruct (device j =? 0) eqn:Hd; cbn [negb orb] in *; zbool.
      + destruct (write_string_ok (server j)) as [es Hes]; [done|naive_solver|].
        rewrite Heu, Hes, !append_in_range by done.
        destruct (truthy (user j)); by eexists.
      + rewrite Heu, land_FF. unfold known_server in *.
        rewrite !append_in_range; [by eexists|lia| |done].
        assert (Forall (λ '(_, z), 0 ≤ z < 256) _SERVER_TO_AGENT) as F
          by (repeat constructor; lia).
        destruct (dict_get (server j) _SERVER_TO_AGENT) as [z|] eqn:Ez; [|done].
        apply dict_get_elem in Ez. rewrite Forall_forall in F. by apply (F _ Ez). }
  cbn [write_attrs]. rewrite He1, He2, He3. by eexists.
Qed.

Lemma write_node_ok n : canonical n = true → node_fits n = true → ∃ e, write_node n = Ok e.
Proof.
  apply (Node_rect' (λ n, canonical n = true → node_fits n = true → ∃ e, write_node n = Ok e)
    (λ c, match c with
          | CNone | CBytes _ => true
          | CStr _ => false
          | CList l => forallb canonical l
          end = true →
          match c with
          | CNone | CStr _ => true
          | CBytes d => Z.of_nat (length d) <? 2 ^ 32
          | CList l => (Z.of_nat (length l) <? 65536) && forallb node_fits l
          end = true → ∃ e, write_content c = Ok e)).
  - intros t a c Hc Hcan Hfit. cbn [canonical node_fits] in *. zbool.
    destruct (write_list_header_ok (item_count (mkNode t a c))) as [e1 H1'].
    { split; [|done]. unfold item_count. cbn [attrs content]. destruct (has_content c); lia. }
    destruct (write_string_ok t) as [e2 H2']; [done..|].
    destruct (write_attrs_ok a) as [e3 H3']; [done..|].
    destruct Hc as [e4 H4']; [done..|].
    rewrite write_node_eq, H1', H2', H3', H4'. by eexists.
  - by eexists.
  - intros d _ H. zbool. by apply write_bytes_ok.
  - done.
  - intros l Hl Hcan Hfit. rewrite write_content_list. zbool.
    destruct (write_list_header_ok (Z.of_nat (length l))) as [e1 ->]; [lia|].
    assert (∃ e, write_children l = Ok e) as [e2 ->]; [|by eexists].
    clear H. induction Hl as [|m l Hm Hl IH]; [by eexists|]. cbn [forallb write_children] in *. zbool.
    destruct Hm as [em ->]; [done..|]. destruct IH as [el ->]; [done..|]. by eexists.
Qed.
End Canonical.

(** ** The decoder on arbitrary input *)

Definition unread (r : Reader) : nat := length (buf r) - Z.to_nat (pos r).

(** With at most [k] unread bytes, [m] returns a value in [P] and never moves the
    cursor back or out of the buffer, or raises a [ValueError]. *)
Definition safe {A} (k : nat) (m : D A) (P : A → Prop) : Prop :=
  ∀ r, rok r → (unread r ≤ k)%nat →
  match m r with
  | Ok (a, r') => P a ∧ rok r' ∧ (unread r' ≤ unread r)%nat
  | Raise e => is_ValueError e = true
  end.

Lemma safe_ret {A} k (a : A) (P : A → Prop) : P a → safe k (mret a) P.
Proof. intros Ha r Hr Hk. cbn. done. Qed.

Lemma safe_lift {A} k (m : result A) (P : A → Prop) :
  (∀ a, m = Ok a → P a) → (∀ e, m = Raise e → is_ValueError e = true) → safe k (dlift m) P.
Proof. intros Ha He r Hr Hk. unfold dlift. destruct m; cbn; [split_and!; auto|auto]. Qed.

Lemma safe_bind {A B} k (m : D A) (f : A → D B) P Q :
  safe k m P → (∀ a, P a → safe k (f a) Q) → safe k (m ≫= f) Q.
Proof.
  intros Hm Hf r Hr Hk. unfold mbind, D_bind. specialize (Hm r Hr Hk).
  destruct (m r) as [[a r']|e]; [|done]. destruct Hm as (Ha & Hr' & Hle).
  specialize (Hf a Ha r' Hr' ltac:(lia)). destruct (f a r') as [[b r2]|e]; [|done].
  destruct Hf as (? & ? & ?). split_and!; [done..|lia].
Qed.

Lemma safe_raise {A} k (P : A → Prop) : safe k (draise ValueError) P.
Proof. by intros r _ _. Qed.

Lemma safe_weaken {A} k k' (m : D A) (P Q : A → Prop) :
  (k' ≤ k)%nat → safe k m P → (∀ a, P a → Q a) → safe k' m Q.
Proof.
  intros Hk Hm HPQ r Hr Hu. specialize (Hm r Hr ltac:(lia)).
  destruct (m r) as [[a r']|e]; [|done]. naive_solver.
Qed.

(** Reading a byte leaves fewer unread bytes to what follows. *)
Lemma safe_u8_bind {B} k (f : Z → D B) Q :
  (∀ v, 0 ≤ v < 256 → (0 < k)%nat → safe (pred k) (f v) Q) → safe k (u8 ≫= f) Q.
Proof.
  intros Hf r Hr Hk. unfold mbind, D_bind, u8. destruct (_ <=? _) eqn:E; [done|]. zbool.
  destruct (buf r !! Z.to_nat (pos r)) as [x|] eqn:Hx.
  - unfold rok, unread in *.
    specialize (Hf (b2z x) (b2z_range x) ltac:(lia) (mkReader (buf r) (pos r + 1))).
    cbn [buf pos] in Hf. specialize (Hf ltac:(unfold rok; cbn; lia) ltac:(unfold unread; cbn; lia)).
    destruct (f _ _) as [[b r2]|e]; [|done]. destruct Hf as (? & ? & Hle).
    unfold unread in Hle. cbn [buf pos] in Hle.
    split_and!; [done|unfold rok in *; lia|unfold rok in *; lia|lia].
  - apply lookup_ge_None in Hx. unfold rok in Hr. lia.
Qed.

Lemma safe_u8 k : safe k u8 (λ v, 0 ≤ v < 256).
Proof.
  intros r Hr Hk. assert (safe k (u8 ≫= λ v, mret v) (λ v, 0 ≤ v < 256)) as H.
  { apply safe_u8_bind. intros. by apply safe_ret. }
  specialize (H r Hr Hk). unfold mbind, D_bind, mret, D_ret in H.
  by destruct (u8 r) as [[v r']|e].
Qed.

Lemma safe_read k n : 0 ≤ n → safe k (read n) (λ _, True).
Proof.
  intros Hn r Hr Hk. unfold read, rok, unread in *. destruct (_ <? _) eqn:E; [done|]. zbool.
  cbn. split_and!; [done|lia|lia|lia].
Qed.

Lemma safe_list_size k tg : safe k (read_list_size tg) (λ n, 0 ≤ n).
Proof.
  unfold read_list_size. destruct (tg =? LIST_EMPTY); [by apply safe_ret|].
  destruct (tg =? LIST_8); [eapply safe_weaken; [done|apply safe_u8|intros a Ha; simpl in Ha; lia]|].
  destruct (tg =? LIST_16); [|apply safe_raise].
  eapply safe_bind; [apply safe_u8|]. intros hi Hhi. eapply safe_bind; [apply safe_u8|].
  intros lo Hlo. cbn beta in *. apply safe_ret. apply Z.lor_nonneg.
  rewrite Z.shiftl_nonneg. lia.
Qed.

Lemma safe_packed_loop k n odd alphabet : (16 ≤ length alphabet)%nat →
  safe k (read_packed_loop n odd alphabet) (λ _, True).
Proof.
  intros Hal. induction n as [|n IH]; cbn [read_packed_loop]; [by apply safe_ret|].
  assert (∀ z, safe k (dlift (some_or (alphabet !! Z.to_nat (Z.land z 0x0F)) IndexError))
    (λ _, True)) as K.
  { intros z. apply safe_lift; [done|]. intros e. rewrite land_0F.
    destruct (lookup_lt_is_Some_2 alphabet (Z.to_nat (z mod 16))) as [c ->]; [lia|done]. }
  eapply safe_bind; [apply safe_u8|]. intros x _. cbv zeta.
  eapply safe_bind; [apply K|]. intros c _. eapply (safe_bind _ _ _ (λ _, True)).
  { destruct (_ && _); [by apply safe_ret|]. eapply safe_bind; [apply K|].
    intros. by apply safe_ret. }
  intros cs _. eapply safe_bind; [apply IH|]. intros. by apply safe_ret.
Qed.

Lemma safe_byte_payload k tg : safe k (read_byte_payload tg) (λ _, True).
Proof.
  assert (∀ alphabet, (16 ≤ length alphabet)%nat →
    safe k (s ← read_packed alphabet; dlift (utf8_encode s)) (λ _, True)) as K.
  { intros al Hal. eapply (safe_bind _ _ _ (λ _, True)).
    - unfold read_packed. eapply safe_bind; [apply safe_u8|]. intros h _. by apply safe_packed_loop.
    - intros s _. apply safe_lift; [done|]. by intros e ->%utf8_encode_error. }
  unfold read_byte_payload. repeat case_match.
  - eapply safe_bind; [apply safe_u8|]. intros n Hn. cbn beta in *. apply safe_read. lia.
  - do 3 (eapply safe_bind; [apply safe_u8|]; intros ? ?; cbn beta in *). apply safe_read.
    apply Z.lor_nonneg. split; [|lia]. apply Z.lor_nonneg. rewrite !Z.shiftl_nonneg.
    split; [|lia]. apply Z.land_nonneg. lia.
  - eapply safe_bind; [by apply safe_read|]. intros d _. apply safe_read. apply be_val_range.
  - apply K. vm_compute. lia.
  - apply K. vm_compute. lia.
  - apply safe_raise.
Qed.

Section SafeNodes.
Context {T : TokenTable} {TL : TokenLaws T}.

Lemma safe_string_or_bytes k tg : safe k (read_string_or_bytes tg) (λ _, True).
Proof.
  unfold read_string_or_bytes. destruct (tg =? 0); [by apply safe_ret|].
  destruct (_ && _).
  { eapply (safe_bind _ _ _ (λ _, True)); [|intros; by apply safe_ret].
    apply safe_lift; [done|]. by intros e ->%tok_single_at_error. }
  destruct (_ && _).
  { eapply safe_bind; [apply safe_u8|]. intros idx _.
    eapply (safe_bind _ _ _ (λ _, True)); [|intros; by apply safe_ret].
    apply safe_lift; [done|]. by intros e ->%tok_double_at_error. }
  eapply safe_bind; [apply safe_byte_payload|]. intros. by apply safe_ret.
Qed.

Lemma safe_sob k v : safe k (dlift (sob_str v)) (λ _, True).
Proof.
  apply safe_lift; [done|]. intros e. destruct v; [done|]. by intros ->%utf8_decode_error.
Qed.

Lemma safe_string k : safe k read_string (λ _, True).
Proof.
  eapply safe_bind; [apply safe_u8|]. intros tg _.
  eapply safe_bind; [apply safe_string_or_bytes|]. intros. apply safe_sob.
Qed.

Lemma safe_attr_value k : safe k read_attr_value (λ _, True).
Proof.
  eapply safe_bind; [apply safe_u8|]. intros tg _. destruct (tg =? JID_PAIR).
  { eapply (safe_bind _ _ _ (λ _, True)); [|intros; by apply safe_ret].
    eapply safe_bind; [apply safe_u8|]. intros p _. eapply (safe_bind _ _ _ (λ _, True)).
    - destruct (_ =? _); [by apply safe_ret|].
      eapply safe_bind; [apply safe_string_or_bytes|]. intros. apply safe_sob.
    - intros us _. eapply safe_bind; [apply safe_string|]. intros. by apply safe_ret. }
  destruct (tg =? AD_JID).
  { eapply (safe_bind _ _ _ (λ _, True)); [|intros; by apply safe_ret].
    do 2 (eapply safe_bind; [apply safe_u8|]; intros ? _).
    eapply safe_bind; [apply safe_string|]. intros. by apply safe_ret. }
  eapply safe_bind; [apply safe_string_or_bytes|]. intros v _.
  eapply safe_bind; [apply safe_sob|]. intros. by apply safe_ret.
Qed.

Lemma safe_attrs k n acc : dict_ok acc → safe k (read_attrs n acc) dict_ok.
Proof.
  revert acc. induction n as [|n IH]; intros acc Hacc; cbn [read_attrs]; [by apply safe_ret|].
  eapply safe_bind; [apply safe_string|]. intros s _.
  eapply safe_bind; [apply safe_attr_value|]. intros v _. apply IH. by apply dict_set_ok.
Qed.

Lemma safe_times {A} k n (m : D A) (P : A → Prop) : safe k m P → safe k (dtimes n m) (Forall P).
Proof.
  intros Hm. induction n as [|n IH]; cbn [dtimes]; [by apply safe_ret|].
  eapply safe_bind; [done|]. intros x Hx. eapply safe_bind; [done|]. intros l Hl.
  apply safe_ret. by constructor.
Qed.

Lemma safe_content k rn : safe k rn node_ok → safe k (read_content_with rn) node_ok_content.
Proof.
  intros Hrn. eapply safe_bind; [apply safe_u8|]. intros tg _.
  destruct (_ || _).
  - eapply safe_bind; [apply safe_list_size|]. intros n _.
    eapply safe_bind; [by apply safe_times|]. intros l Hl. by apply safe_ret.
  - eapply safe_bind; [apply safe_byte_payload|]. intros. by apply safe_ret.
Qed.

(** Every call of [_read_node] consumes the list tag first, so a fuel above the
    number of unread bytes is never exhausted. *)
Lemma safe_node fuel : ∀ k, (k < fuel)%nat → safe k (read_node fuel) node_ok.
Proof.
  induction fuel as [|fuel IH]; intros k Hk; [lia|]. cbn [read_node].
  unfold read_node_with. apply safe_u8_bind. intros tg _ Hpos.
  eapply safe_bind; [apply safe_list_size|]. intros count _.
  destruct (count =? 0); [apply safe_raise|].
  eapply safe_bind; [apply safe_string|]. intros t _. cbv zeta.
  eapply safe_bind; [apply safe_attrs; constructor|]. intros a Ha.
  eapply (safe_bind _ _ _ node_ok_content).
  { destruct (_ =? 1); [|by apply safe_ret]. apply safe_content, IH. lia. }
  intros c Hc. apply safe_ret. by apply node_ok_unfold.
Qed.
End SafeNodes.

(** ** The codec's contract *)

Section Contract.
Context {U : UnicodeDB} {T : TokenTable} {TL : TokenLaws T} {Zl : Zlib} {ZL : ZlibLaws Zl}.

Lemma decode_payload n n' (compress : bool) payload :
  node_ok n → wire_node n = Some n' → write_node n = Ok payload →
  ∃ bs, encode n compress = Ok bs ∧ decode bs = Ok n'.
Proof.
  intros Hok Hw Hp. unfold encode. rewrite Hp. cbv zeta.
  assert (∀ k, (length payload ≤ k)%nat →
    fst <$> read_node (S k) (mkReader payload 0) = Ok n') as K.
  { intros k Hk.
    rewrite (write_node_reads n n' payload (S k) Hok Hw Hp ltac:(lia) _ []); [done| |].
    - unfold rok. cbn. lia.
    - unfold rest. cbn. by rewrite app_nil_r. }
  exists ([mkb (if compress then Z.lor 0 2 else 0)] ++
          (if compress then zlib_compress payload else payload)).
  split; [cbn -[append]; rewrite append_in_range by (destruct compress; done); done|].
  cbn [app decode]. rewrite b2z_mkb. destruct compress; cbn -[read_node length].
  - rewrite zlib_roundtrip. cbn -[read_node length]. by apply K.
  - by apply K.
Qed.

Lemma encode_Ok_payload n c bs : encode n c = Ok bs → ∃ payload, write_node n = Ok payload.
Proof. unfold encode. intros. res_inv. by eexists. Qed.
End Contract.

(** C4: every canonical stanza within the size limits of the wire format is encoded by [encode],
    with or without compression, and [decode] returns the very same stanza: the
    tag, the attributes in their order and the whole tree of children.  Canonical
    stanzas have no ["@"] in tags, keys and plain string values, and structured JIDs
    whose device, if any, is between 1 and 255 on one of the four known servers. *)
Theorem codec_canonical_roundtrip `{U : UnicodeDB} `{Zl : Zlib} `{!ZlibLaws Zl}
    (n : Node) (compress : bool) :
  node_ok n → canonical n = true → node_fits n = true →
  ∃ bs, encode n compress = Ok bs ∧ decode bs = Ok n.
Proof.
  intros Hok Hc Hf. destruct (write_node_ok n Hc Hf) as [p Hp].
  eapply decode_payload; [done|by apply canonical_wire|done].
Qed.

(** zlib as the identity, for evaluation. *)
Definition stored_zlib : Zlib := {| zlib_compress d := d; zlib_decompress d := Ok d |}.

#[global] Instance stored_zlib_laws : ZlibLaws stored_zlib.
Proof. by split. Qed.

(** The read receipt of a group message, as a canonical stanza. *)
Definition sample_receipt : Node :=
  mkNode (u "receipt")
    [(u "id", AStr (u "3EB0A9F2C1")); (u "type", AStr (u "read"));
     (u "to", AJid (mkJID (u "120363041234") (u "g.us") 0));
     (u "participant", AJid (mkJID (u "15551234567") (u "lid") 7));
     (u "t", AStr (u "1700000000"))]
    (CList [mkNode (u "list") [] (CList [mkNode (u "item") [(u "id", AStr (u "x-1"))] CNone]);
            mkNode (u "enc") [] (CBytes (bstr "payload"))]).

Lemma sample_receipt_ok : node_ok sample_receipt.
Proof. repeat split; apply (bool_decide_eq_true_1 (NoDup _)); vm_compute; reflexivity. Qed.

Lemma codec_canonical_roundtrip_witness :
  ∃ bs, @encode latin1_ucd wa_tokens stored_zlib sample_receipt true = Ok bs ∧
        @decode wa_tokens stored_zlib bs = Ok sample_receipt.
Proof.
  apply (codec_canonical_roundtrip (U := latin1_ucd) (Zl := stored_zlib));
    [exact sample_receipt_ok|vm_compute; reflexivity|vm_compute; reflexivity].
Defined.

Lemma decode_wire `{U : UnicodeDB} `{Zl : Zlib} `{!ZlibLaws Zl} (n n' : Node) (compress : bool) (bs : bytes) :
  node_ok n → encode n compress = Ok bs → wire_node n = Some n' → decode bs = Ok n'.
Proof.
  intros Hok He Hw. destruct (encode_Ok_payload n compress bs He) as [p Hp].
  destruct (decode_payload n n' compress p Hok Hw Hp) as (bs' & He' & Hd). congruence.
Qed.

(** Whatever stanza [encode] accepts, a peer running [decode] reads [wire_node] of it when
    that is defined: integers and booleans as their text, byte attributes as the text
    they encode, strings with ["@"] as structured JIDs, and a device JID with the
    server of its agent byte and the low eight bits of its device. *)
Theorem codec_wire_view `{U : UnicodeDB} `{Zl : Zlib} `{!ZlibLaws Zl}
    (n n' : Node) (compress : bool) (bs : bytes) :
  node_ok n → encode n compress = Ok bs → wire_node n = Some n' → decode bs = Ok n'.
Proof. apply decode_wire. Qed.

(** A presence stanza with a number, a boolean and a textual device JID. *)
Definition sample_loose : Node :=
  mkNode (u "presence")
    [(u "last", AInt 1700000000); (u "from", AStr (u "15551234567:12@s.whatsapp.net"));
     (u "ok", ABool true)] CNone.

Lemma codec_wire_view_witness :
  ∃ bs, @encode latin1_ucd wa_tokens stored_zlib sample_loose false = Ok bs ∧
        @decode wa_tokens stored_zlib bs = Ok (mkNode (u "presence")
          [(u "last", AStr (u "1700000000"));
           (u "from", AJid (mkJID (u "15551234567") (u "s.whatsapp.net") 12));
           (u "ok", AStr (u "true"))] CNone).
Proof.
  eexists. split; [vm_compute; reflexivity|].
  eapply (codec_wire_view (U := latin1_ucd) (Zl := stored_zlib) sample_loose _ false);
    [|vm_compute; reflexivity|vm_compute; reflexivity].
  repeat split. apply (bool_decide_eq_true_1 (NoDup _)). vm_compute. reflexivity.
Defined.

(** C24: on every byte string [decode] terminates: it returns a stanza whose attribute dictionaries
    are well formed, or raises a [ValueError] (Unicode errors included), or passes on
    what zlib raised on a frame flagged as compressed.  No [IndexError] escapes and
    the recursion depth is bounded by the payload. *)
Theorem decode_total `{Zl : Zlib} (bs : bytes) :
  match decode bs with
  | Ok n => node_ok n
  | Raise e => is_ValueError e = true ∨
      ∃ flags p, bs = flags :: p ∧ Z.land (b2z flags) 2 ≠ 0 ∧ zlib_decompress p = Raise e
  end.
Proof.
  destruct bs as [|flags p]; [by left|]. cbn [decode].
  destruct (negb _) eqn:Hf; zbool.
  - destruct (zlib_decompress p) as [d|e] eqn:Hd; cbn -[read_node length]; [|right; eauto].
    pose proof (safe_node (S (length d)) (length d) ltac:(lia) (mkReader d 0)) as K.
    specialize (K ltac:(unfold rok; cbn; lia) ltac:(unfold unread; cbn; lia)).
    destruct (read_node _ _) as [[n r]|e]; cbn; [tauto|by left].
  - cbn -[read_node length].
    pose proof (safe_node (S (length p)) (length p) ltac:(lia) (mkReader p 0)) as K.
    specialize (K ltac:(unfold rok; cbn; lia) ltac:(unfold unread; cbn; lia)).
    destruct (read_node _ _) as [[n r]|e]; cbn; [tauto|by left].
Qed.

(** A string of 255 or more digits, dashes and dots that is not a token cannot be encoded:
    [_write_string] chooses the packed form for it and the packed form raises, although the
    length-prefixed form would hold it. *)
Theorem long_digit_string_rejected `{U : UnicodeDB} (s : str) :
  all_in s NIBBLE_ALPHABET = true → lookup_single s = None → lookup_double s = None →
  255 ≤ Z.of_nat (length s) →
  write_string s = Raise ValueError.
Proof.
  intros Hall H1 H2 Hlen. rewrite write_string_eq. unfold write_string_with.
  cbn [tok_single tok_double wa_tokens]. rewrite H1, H2. clear H1 H2.
  apply all_in_spec in Hall as [Ht Hs]. rewrite Ht. cbn [negb].
  assert (contains AT s = false) as ->.
  { apply contains_false. intros Hin. rewrite Forall_forall in Hs.
    destruct (Hs AT Hin) as [_ Ha]. revert Ha. apply contains_false. vm_compute. reflexivity. }
  assert (all_in s NIBBLE_ALPHABET = true) as ->.
  { unfold all_in. rewrite Ht. cbn [andb]. apply forallb_forall. intros c Hc%list_elem_of_In.
    rewrite Forall_forall in Hs. destruct (Hs c Hc) as [Hc0 Hca]. apply contains_spec in Hca.
    rewrite Hca. cbn [andb]. apply negb_true_iff. by apply Z.eqb_neq. }
  unfold write_packed. cbv zeta. by replace (0x80 <=? _) with true by lia.
Qed.

Lemma long_digit_string_rejected_witness :
  @write_string latin1_ucd wa_tokens (replicate 255 49) = Raise ValueError.
Proof.
  apply (long_digit_string_rejected (U := latin1_ucd));
    [vm_compute; reflexivity|vm_compute; reflexivity|vm_compute; reflexivity|vm_compute; discriminate].
Defined.
