(* ===== verification/Sha256.v ===== *)
(** * [hashlib.sha256] and [hmac] of the Python standard library

    SHA-256 (FIPS 180-4) and HMAC-SHA256 (RFC 2104) on byte strings, executable.
    The modelled code computes every MAC of the app-state, sender-key and media
    layers with them; [hmac.compare_digest] on two digests is equality of bytes.
    Only the digest length is used by the theorems. *)

From S2P Require Import Prelude.

Definition w32 (z : Z) : Z := Z.land z 0xFFFFFFFF.
Definition rotr (n x : Z) : Z := Z.lor (Z.shiftr x n) (w32 (Z.shiftl x (32 - n))).

(** The constants: fractional bits of the cube and square roots of the first primes. *)

Definition is_prime (n : nat) : bool :=
  forallb (λ d, negb (n mod d =? 0)%nat) (seq 2 (n - 2)).

Definition primes64 : list Z := Z.of_nat <$> take 64 (filter (λ n, is_prime n = true) (seq 2 310)).

(** Integer cube root by bisection: the greatest [r] below [2 ^ bits] with [r ^ 3 <= n]. *)
Fixpoint cbrt (bits : nat) (r n : Z) : Z :=
  match bits with
  | O => r
  | S bits => let r' := r + 2 ^ Z.of_nat bits in
              cbrt bits (if r' * r' * r' <=? n then r' else r) n
  end.

Definition sha_k : list Z :=
  Eval vm_compute in (λ p, w32 (cbrt 36 0 (p * 2 ^ 96))) <$> primes64.

Definition sha_iv : list Z :=
  Eval vm_compute in (λ p, w32 (Z.sqrt (p * 2 ^ 64))) <$> take 8 primes64.

(** The message schedule: a sliding window of the last sixteen words. *)
Definition sched_next (w : list Z) : Z :=
  match w with
  | [w0; w1; _; _; _; _; _; _; _; w9; _; _; _; _; w14; _] =>
      let s0 := Z.lxor (Z.lxor (rotr 7 w1) (rotr 18 w1)) (Z.shiftr w1 3) in
      let s1 := Z.lxor (Z.lxor (rotr 17 w14) (rotr 19 w14)) (Z.shiftr w14 10) in
      w32 (w0 + s0 + w9 + s1)
  | _ => 0
  end.

Definition sha_round (st : list Z) (k w : Z) : list Z :=
  match st with
  | [a; b; c; d; e; f; g; h] =>
      let s1 := Z.lxor (Z.lxor (rotr 6 e) (rotr 11 e)) (rotr 25 e) in
      let ch := Z.lxor (Z.land e f) (Z.land (Z.lxor e 0xFFFFFFFF) g) in
      let t1 := h + s1 + ch + k + w in
      let s0 := Z.lxor (Z.lxor (rotr 2 a) (rotr 13 a)) (rotr 22 a) in
      let maj := Z.lxor (Z.lxor (Z.land a b) (Z.land a c)) (Z.land b c) in
      [w32 (t1 + s0 + maj); a; b; c; w32 (d + t1); e; f; g]
  | _ => st
  end.

Fixpoint sha_rounds (ks : list Z) (w st : list Z) : list Z :=
  match ks, w with
  | k :: ks, w0 :: w' => sha_rounds ks (w' ++ [sched_next w]) (sha_round st k w0)
  | _, _ => st
  end.

(** Consecutive blocks of [n] elements. *)
Fixpoint chunks_f {A} (fuel n : nat) (l : list A) : list (list A) :=
  match fuel, l with
  | S fuel, _ :: _ => take n l :: chunks_f fuel n (drop n l)
  | _, _ => []
  end.
Definition chunks {A} (n : nat) (l : list A) : list (list A) := chunks_f (length l) n l.

Definition compress (st : list Z) (block : bytes) : list Z :=
  zip_with (λ a b, w32 (a + b)) st (sha_rounds sha_k (be_val <$> chunks 4 block) st).

Definition sha_pad (m : bytes) : bytes :=
  let n := Z.of_nat (length m) in
  m ++ mkb 0x80 :: replicate (Z.to_nat ((55 - n) mod 64)) (mkb 0) ++ be_bytes 8 (8 * n).

Definition sha256 (m : bytes) : bytes :=
  take 32 (foldl compress sha_iv (chunks 64 (sha_pad m)) ≫= be_bytes 4).

(** [hmac.new(key, msg, sha256).digest()] *)
Definition hmac_sha256 (key msg : bytes) : bytes :=
  let k := if (64 <? Z.of_nat (length key)) then sha256 key else key in
  let k := k ++ replicate (64 - length k) (mkb 0) in
  let pad c := (λ b, mkb (Z.lxor (b2z b) c)) <$> k in
  sha256 (pad 0x5c ++ sha256 (pad 0x36 ++ msg)).

(** ** Digest length *)

Lemma length_sha_round st k w : length (sha_round st k w) = length st.
Proof. do 8 (destruct st as [|? st]; [reflexivity|]). destruct st; reflexivity. Qed.

Lemma length_sha_rounds ks : ∀ w st, length (sha_rounds ks w st) = length st.
Proof.
  induction ks as [|k ks IH]; intros [|w0 w] st; cbn [sha_rounds]; try reflexivity.
  rewrite IH. apply length_sha_round.
Qed.

Lemma length_compress st b : length (compress st b) = length st.
Proof. unfold compress. rewrite length_zip_with, length_sha_rounds. lia. Qed.

Lemma length_words (l : list Z) : length (l ≫= be_bytes 4) = (4 * length l)%nat.
Proof. induction l as [|x l IH]; [done|]. rewrite bind_cons, length_app, length_be_bytes, IH. cbn [length]. lia. Qed.

Lemma length_sha256 m : length (sha256 m) = 32%nat.
Proof.
  unfold sha256. rewrite length_take, length_words.
  assert (∀ bs st, length (foldl compress st bs) = length st) as ->; [|reflexivity].
  induction bs as [|b bs IH]; intros st; cbn [foldl]; [reflexivity|]. by rewrite IH, length_compress.
Qed.

Lemma length_hmac_sha256 k m : length (hmac_sha256 k m) = 32%nat.
Proof. apply length_sha256. Qed.

(** The published digest of ["abc"]. *)
Example sha256_abc : be_val (sha256 (mkb <$> [97; 98; 99])) =
  0xBA7816BF8F01CFEA414140DE5DAE2223B00361A396177A9CB410FF61F20015AD.
Proof. vm_compute. reflexivity. Qed.

#[global] Opaque sha256 hmac_sha256.
