(* ===== verification/Crypto.v ===== *)
(** * The primitives of the [cryptography] package, as parameters

    The package is third-party, so each primitive the code calls is an operation
    of a class, and what the code relies on is the class of its laws: lengths,
    accepted sizes, and that decryption inverts encryption. No law speaks of
    secrecy or unforgeability. A toy instance of each class satisfies the laws
    and lets the witnesses run. *)

From S2P Require Import Prelude.

(** ** [HKDF(SHA256, length, salt, info).derive(ikm)]; [None] is the empty salt *)
Class Hkdf := hkdf_sha256 : ∀ (salt : option bytes) (ikm info : bytes) (len : nat), bytes.

Class HkdfLaws (H : Hkdf) : Prop :=
  length_hkdf salt ikm info len : (len ≤ 255 * 32)%nat →
    length (hkdf_sha256 salt ikm info len) = len.

(** ** [hmac.HMAC(key, algorithm)] *)
Class Hmac := {
  c_hmac_sha256 : bytes → bytes → bytes;
  c_hmac_sha512 : bytes → bytes → bytes
}.

Class HmacLaws (H : Hmac) : Prop := {
  length_c_hmac_sha256 k m : length (c_hmac_sha256 k m) = 32%nat;
  length_c_hmac_sha512 k m : length (c_hmac_sha512 k m) = 64%nat
}.

(** ** [Cipher(AES(key), CBC(iv))]: [update] of the whole input, then [finalize] *)
Class AesCbc := {
  aes_cbc_enc : bytes → bytes → bytes → result bytes;
  aes_cbc_dec : bytes → bytes → bytes → result bytes
}.

(** Key and IV sizes the constructor accepts. *)
Definition aes_sizes (key iv : bytes) : bool :=
  bool_decide (length key ∈ [16; 24; 32]%nat) && bool_decide (length iv = 16%nat).

Definition whole_blocks (d : bytes) : bool := bool_decide (length d mod 16 = 0)%nat.

Class AesCbcLaws (A : AesCbc) : Prop := {
  aes_enc_cases k iv p :
    if aes_sizes k iv && whole_blocks p then
      ∃ c, aes_cbc_enc k iv p = Ok c ∧ length c = length p ∧ aes_cbc_dec k iv c = Ok p
    else aes_cbc_enc k iv p = Raise ValueError;
  aes_dec_cases k iv c :
    if aes_sizes k iv && whole_blocks c then
      ∃ p, aes_cbc_dec k iv c = Ok p ∧ length p = length c
    else aes_cbc_dec k iv c = Raise ValueError
}.

(** ** [PKCS7(128)]: [update] of the whole input, then [finalize] *)
Class Pkcs7 := {
  pkcs7_padder : bytes → bytes;
  pkcs7_unpadder : bytes → result bytes
}.

Class Pkcs7Laws (P : Pkcs7) : Prop := {
  pkcs7_unpad_pad d : pkcs7_unpadder (pkcs7_padder d) = Ok d;
  pkcs7_pad_whole d : whole_blocks (pkcs7_padder d) = true;
  pkcs7_unpad_error d e : pkcs7_unpadder d = Raise e → e = ValueError
}.

(** ** X25519: [from_private_bytes(a).exchange(from_public_bytes(P))] and the
    public key of a private key *)
Class X25519 := {
  x25519_public : bytes → bytes;
  x25519_exchange : bytes → bytes → result bytes
}.

Class X25519Laws (X : X25519) : Prop := {
  length_x25519_public a : length (x25519_public a) = 32%nat;
  length_x25519_exchange a P s : x25519_exchange a P = Ok s → length s = 32%nat;
  (* both sides of an honest exchange obtain the same secret *)
  x25519_comm a b : length a = 32%nat → length b = 32%nat →
    ∃ s, x25519_exchange a (x25519_public b) = Ok s ∧ x25519_exchange b (x25519_public a) = Ok s;
  x25519_error a P e : x25519_exchange a P = Raise e → e = ValueError;
  x25519_lengths a P : ¬ (length a = 32%nat ∧ length P = 32%nat) →
    x25519_exchange a P = Raise ValueError
}.

(** ** [ChaCha20Poly1305(key)] and [AESGCM(key)]: arguments nonce, data, associated data *)
Class Aead := {
  chachapoly_encrypt : bytes → bytes → bytes → bytes → result bytes;
  chachapoly_decrypt : bytes → bytes → bytes → bytes → result bytes;
  aesgcm_encrypt : bytes → bytes → bytes → bytes → result bytes;
  aesgcm_decrypt : bytes → bytes → bytes → bytes → result bytes
}.

(** The largest plaintext and associated data the package accepts. *)
Definition aead_fits (ad p : bytes) : Prop :=
  Z.of_nat (length ad) < 2 ^ 31 ∧ Z.of_nat (length p) < 2 ^ 31 - 16.

(** With a 32-byte key and a 12-byte nonce: a tag of 16 bytes is appended, and
    decryption undoes encryption or raises [InvalidTag]. *)
Class AeadOk (enc dec : bytes → bytes → bytes → bytes → result bytes) : Prop := {
  aead_enc_dec k n ad p : length k = 32%nat → length n = 12%nat → aead_fits ad p →
    ∃ c, enc k n p ad = Ok c ∧ length c = (length p + 16)%nat ∧ dec k n c ad = Ok p;
  aead_dec_error k n ad c e : length k = 32%nat → length n = 12%nat →
    Z.of_nat (length ad) < 2 ^ 31 → Z.of_nat (length c) < 2 ^ 31 → dec k n c ad = Raise e → e = InvalidTag
}.

Class AeadLaws (A : Aead) : Prop := {
  chachapoly_ok :: AeadOk chachapoly_encrypt chachapoly_decrypt;
  aesgcm_ok :: AeadOk aesgcm_encrypt aesgcm_decrypt
}.

(** ** Toy instances *)

(** The input repeated up to the length asked for. *)
Fixpoint cycle_take {A} (l cur : list A) (n : nat) : list A :=
  match n with
  | O => []
  | S n => match cur with
           | x :: cur => x :: cycle_take l cur n
           | [] => match l with [] => [] | x :: l' => x :: cycle_take l l' n end
           end
  end.

Lemma length_cycle_take {A} (l : list A) n : truthy l = true →
  ∀ cur, length (cycle_take l cur n) = n.
Proof.
  intros Hl. induction n as [|n IH]; intros cur; [done|].
  destruct cur as [|x cur]; simpl; [destruct l; [done|]; simpl|]; by rewrite IH.
Qed.

(** Distinct inputs are told apart by their bytes, and labels by their length. *)
Definition toy_mix (k m : bytes) (n : nat) : bytes :=
  let l := k ++ m ++ [mkb (le_val k + 3 * le_val m + Z.of_nat (length k))] in
  cycle_take l l n.

Lemma length_toy_mix k m n : length (toy_mix k m n) = n.
Proof. unfold toy_mix. apply length_cycle_take. by destruct k; [destruct m|]. Qed.

Definition toy_hkdf : Hkdf := λ salt ikm info len, toy_mix ikm (default [] salt ++ info) len.

#[global] Instance toy_hkdf_laws : HkdfLaws toy_hkdf.
Proof. intros salt ikm info len _. apply length_toy_mix. Qed.

Definition toy_hmac : Hmac := {|
  c_hmac_sha256 := λ k m, toy_mix m k 32;
  c_hmac_sha512 := λ k m, toy_mix m k 64
|}.

#[global] Instance toy_hmac_laws : HmacLaws toy_hmac.
Proof. split; intros; apply length_toy_mix. Qed.

(** A shift of every byte by the first key byte. *)
Definition toy_shift (sgn : Z) (key d : bytes) : bytes :=
  (λ x, mkb (b2z x + sgn * le_val (take 1 key))) <$> d.

Definition toy_aes : AesCbc :=
  let run sgn k iv d :=
    if aes_sizes k iv && whole_blocks d then Ok (toy_shift sgn k d) else Raise ValueError in
  {| aes_cbc_enc := run 1; aes_cbc_dec := run (-1) |}.

Lemma toy_shift_inv k d : toy_shift (-1) k (toy_shift 1 k d) = d.
Proof.
  unfold toy_shift. rewrite <-list_fmap_compose. apply list_eq_same_length with (length d);
    [done|by rewrite length_fmap|].
  intros i x y Hi Hx Hy. rewrite list_lookup_fmap, Hy in Hx. simplify_eq/=.
  apply b2z_inj. rewrite !b2z_mkb, Z.add_mod_idemp_l by lia.
  pose proof (b2z_range y). rewrite <-(Z.mod_small (b2z y) 256) at 2 by done. f_equal. lia.
Qed.

#[global] Instance toy_aes_laws : AesCbcLaws toy_aes.
Proof.
  assert (∀ sgn k d, length (toy_shift sgn k d) = length d) as L
    by (intros; unfold toy_shift; apply length_fmap).
  split; intros k iv d; cbn; destruct (_ && _) eqn:E; try done.
  - eexists; split; [done|]. split; [apply L|].
    unfold whole_blocks in *. rewrite L, E. by rewrite toy_shift_inv.
  - eexists; split; [done|]. apply L.
Qed.

Definition toy_x25519 : X25519 := {|
  x25519_public := λ a, le_bytes 32 (le_val a);
  x25519_exchange := λ a P,
    if bool_decide (length a = 32%nat ∧ length P = 32%nat)
    then Ok (le_bytes 32 (le_val a * le_val P)) else Raise ValueError
|}.

#[local] Opaque le_bytes toy_mix.

#[global] Instance toy_x25519_laws : X25519Laws toy_x25519.
Proof.
  split; cbn -[le_bytes].
  - intros. apply length_le_bytes.
  - intros a P s. case_bool_decide; [|done]. intros [= <-]. apply length_le_bytes.
  - intros a b Ha Hb.
    assert (∀ k, length k = 32%nat → le_bytes 32 (le_val k) = k) as R
      by (intros k <-; apply le_bytes_val).
    rewrite !R by done. rewrite !bool_decide_true by done. eexists. split; [done|].
    by rewrite Z.mul_comm.
  - intros a P e. case_bool_decide; congruence.
  - intros a P H. by rewrite bool_decide_false.
Qed.

(** The plaintext with a tag over the nonce and the associated data. *)
Definition toy_aead : Aead :=
  let enc k n p ad := Ok (p ++ toy_mix (k ++ n) (ad ++ p) 16) in
  let dec k n c ad :=
    let p := take (length c - 16) c in
    if bool_decide (drop (length c - 16) c = toy_mix (k ++ n) (ad ++ p) 16) then Ok p else Raise InvalidTag in
  {| chachapoly_encrypt := enc; chachapoly_decrypt := dec; aesgcm_encrypt := enc; aesgcm_decrypt := dec |}.

#[global] Instance toy_aead_laws : AeadLaws toy_aead.
Proof.
  assert (∀ (k n ad p : bytes), let c := p ++ toy_mix (k ++ n) (ad ++ p) 16 in
    take (length c - 16) c = p ∧ drop (length c - 16) c = toy_mix (k ++ n) (ad ++ p) 16 ∧ length c = (length p + 16)%nat) as K.
  { intros k n ad p. cbn zeta. rewrite length_app, length_toy_mix, Nat.add_sub.
    by rewrite take_app_length, drop_app_length. }
  split; split; cbn -[toy_mix]; intros;
    try (destruct (K k n ad p) as (Ht & Hd & Hl); eexists; split_and!; [done|exact Hl|]; by rewrite Ht, Hd, bool_decide_true);
    case_bool_decide; congruence.
Qed.

#[local] Transparent le_bytes toy_mix.
