(* ===== verification/LtHash.v ===== *)
(** * The LT-hash ([src/src/pywhats/appstate/lthash.py])

    A 128-byte digest read as 64 little-endian 16-bit words; adding or removing
    an item adds or subtracts the words of its HKDF expansion, with wraparound. *)

From S2P Require Import Prelude PyStr Crypto.

(** [crypto.hkdf_expand]: HKDF-SHA256 with no salt. *)
Definition hkdf_expand `{Hkdf} (input_key_material info : bytes) (length : nat) : bytes :=
  hkdf_sha256 None input_key_material info length.

Definition _INFO : bytes := bstr "WhatsApp Patch Integrity".
Definition _SIZE : nat := 128.

Section LtHash.
Context {HK : Hkdf}.

(** One iteration of the loop: [base[i:i+2]] replaced by the new word. *)
Definition pointwise_at (subtract : bool) (comp base : bytes) (i : nat) : bytes :=
  let x := le_val (slice i (i + 2) base) in
  let y := le_val (slice i (i + 2) comp) in
  let r := Z.land (if subtract then x - y else x + y) 0xFFFF in
  take i base ++ le_bytes 2 r ++ drop (i + 2) base.

(** [range(0, _SIZE, 2)] *)
Definition word_offsets : list nat := (λ k, (2 * k)%nat) <$> seq 0 (_SIZE / 2).

Definition _pointwise (base item : bytes) (subtract : bool) : bytes :=
  let comp := hkdf_expand item _INFO _SIZE in
  foldl (pointwise_at subtract comp) base word_offsets.

Definition subtract_then_add (base : bytes) (added removed : list bytes) : bytes :=
  let out := foldl (λ out item, _pointwise out item true) base removed in
  foldl (λ out item, _pointwise out item false) out added.

(** ** The words of a digest *)

Definition word (h : bytes) (k : nat) : Z := le_val (slice (2 * k) (2 * k + 2) h).

(** The contribution of one item to word [k]. *)
Definition lt_word (item : bytes) (k : nat) : Z := word (hkdf_expand item _INFO _SIZE) k.

Definition lt_sum (items : list bytes) (k : nat) : Z :=
  foldr (λ item acc, lt_word item k + acc) 0 items.

Lemma word_lookup h k : (2 * k + 1 < length h)%nat →
  word h k = b2z (h !!! (2 * k)%nat) + 256 * b2z (h !!! (2 * k + 1)%nat).
Proof.
  intros Hk. unfold word, slice.
  rewrite (drop_S h (h !!! (2 * k)%nat) (2 * k)) by (apply list_lookup_lookup_total_lt; lia).
  rewrite (drop_S h (h !!! (2 * k + 1)%nat) (S (2 * k)))
    by (replace (S (2 * k)) with (2 * k + 1)%nat by lia; apply list_lookup_lookup_total_lt; lia).
  replace (2 * k + 2 - 2 * k)%nat with 2%nat by lia. cbn [take le_val]. rewrite take_0. cbn [le_val]. lia.
Qed.

Lemma word_range h k : 0 ≤ word h k < 65536.
Proof.
  unfold word. pose proof (le_val_range (slice (2 * k) (2 * k + 2) h)) as H.
  assert (length (slice (2 * k) (2 * k + 2) h) ≤ 2)%nat.
  { unfold slice. rewrite length_take. lia. }
  assert (256 ^ Z.of_nat (length (slice (2 * k) (2 * k + 2) h)) ≤ 256 ^ 2)
    by (apply Z.pow_le_mono_r; lia). lia.
Qed.

Lemma words_ext h1 h2 : length h1 = _SIZE → length h2 = _SIZE →
  (∀ k, (k < 64)%nat → word h1 k = word h2 k) → h1 = h2.
Proof.
  unfold _SIZE. intros H1 H2 Hw. apply list_eq_same_length with 128%nat; [done..|].
  intros i x y Hi Hx Hy. destruct (Nat.Even_or_Odd i) as [[k ->]|[k ->]];
    specialize (Hw k ltac:(lia)); rewrite !word_lookup in Hw by lia;
    apply list_lookup_total_correct in Hx, Hy; rewrite ?Hx, ?Hy in Hw;
    apply b2z_inj; pose proof (b2z_range x); pose proof (b2z_range y);
    pose proof (b2z_range (h1 !!! (2 * k)%nat)); pose proof (b2z_range (h2 !!! (2 * k)%nat)); lia.
Qed.

Lemma pointwise_at_insert subtract comp base k : (2 * k + 1 < length base)%nat →
  pointwise_at subtract comp base (2 * k) =
    let r := (if subtract then word base k - word comp k else word base k + word comp k)
               mod 65536 in
    <[(2 * k)%nat := mkb r]> (<[(2 * k + 1)%nat := mkb (r / 256)]> base).
Proof.
  intros Hk. unfold pointwise_at. fold (word base k) (word comp k). cbn zeta.
  change 0xFFFF with (Z.ones 16). rewrite Z.land_ones by lia. change (2 ^ 16) with 65536.
  set (r := _ mod 65536). cbn [le_bytes app].
  rewrite (insert_take_drop _ (2 * k)) by (rewrite length_insert; lia).
  f_equal; [by rewrite take_insert_ge by lia|]. f_equal.
  rewrite drop_insert_ge by lia. replace (2 * k + 1 - S (2 * k))%nat with 0%nat by lia.
  rewrite (drop_S base (base !!! S (2 * k)) (S (2 * k)))
    by (apply list_lookup_lookup_total_lt; lia).
  cbn. do 2 f_equal. lia.
Qed.

Lemma pointwise_at_spec subtract comp base k : (2 * k + 1 < length base)%nat →
  length (pointwise_at subtract comp base (2 * k)) = length base ∧
  ∀ k', (2 * k' + 1 < length base)%nat →
    word (pointwise_at subtract comp base (2 * k)) k' =
      if decide (k = k')
      then (if subtract then word base k - word comp k else word base k + word comp k) mod 65536
      else word base k'.
Proof.
  intros Hk. rewrite pointwise_at_insert by done. cbn zeta. set (r := _ mod 65536).
  assert (0 ≤ r < 65536) by (apply Z.mod_pos_bound; lia).
  split; [by rewrite !length_insert|]. intros k' Hk'.
  rewrite !word_lookup by (rewrite ?length_insert; lia).
  destruct (decide (k = k')) as [->|Hne].
  - rewrite list_lookup_total_insert_eq by (rewrite length_insert; lia).
    rewrite list_lookup_total_insert_ne, list_lookup_total_insert_eq by lia.
    rewrite !b2z_mkb, (Z.mod_small (r / 256)) by (split; [apply Z.div_pos|apply Z.div_lt_upper_bound]; lia).
    pose proof (Z.div_mod r 256). lia.
  - rewrite !list_lookup_total_insert_ne by lia. done.
Qed.

Lemma pointwise_spec base item subtract : length base = _SIZE →
  length (_pointwise base item subtract) = _SIZE ∧
  ∀ k, (k < 64)%nat → word (_pointwise base item subtract) k =
    (if subtract then word base k - lt_word item k else word base k + lt_word item k) mod 65536.
Proof.
  unfold _pointwise, lt_word. set (comp := hkdf_expand _ _ _). intros Hb.
  assert (∀ n, (n ≤ 64)%nat →
    let out := foldl (pointwise_at subtract comp) base ((λ k, (2 * k)%nat) <$> seq 0 n) in
    length out = _SIZE ∧ ∀ k, (k < 64)%nat → word out k = if decide (k < n)%nat
      then (if subtract then word base k - word comp k else word base k + word comp k) mod 65536
      else word base k) as K.
  { induction n as [|n IH]; intros Hn; [done|].
    destruct (IH ltac:(lia)) as [IHl IHw]. clear IH. cbn zeta.
    rewrite seq_S, fmap_app, foldl_app. cbn [fmap list_fmap foldl Nat.add]. fold (2 * n)%nat.
    set (out := foldl _ _ _) in *. unfold _SIZE in *.
    destruct (pointwise_at_spec subtract comp out n ltac:(lia)) as [Hl Hw].
    split; [by rewrite Hl|]. intros k Hk. rewrite Hw by lia.
    destruct (decide (n = k)) as [<-|Hne].
    - rewrite IHw, decide_False by lia. by rewrite decide_True by lia.
    - rewrite IHw by lia. destruct (decide (k < n)%nat), (decide (k < S n)%nat); auto; lia. }
  destruct (K 64%nat ltac:(lia)) as [Kl Kw]. split; [exact Kl|]. intros k Hk.
  specialize (Kw k Hk). by rewrite decide_True in Kw by lia.
Qed.

Lemma foldl_pointwise_spec items subtract : ∀ base, length base = _SIZE →
  let out := foldl (λ out item, _pointwise out item subtract) base items in
  length out = _SIZE ∧
  ∀ k, (k < 64)%nat → word out k =
    (if subtract then word base k - lt_sum items k else word base k + lt_sum items k) mod 65536.
Proof.
  induction items as [|x items IH]; intros base Hb; cbn [foldl lt_sum foldr].
  - split; [done|]. intros k Hk. pose proof (word_range base k).
    destruct subtract; rewrite ?Z.sub_0_r, ?Z.add_0_r; symmetry; by apply Z.mod_small.
  - destruct (pointwise_spec base x subtract Hb) as [Hl Hw].
    destruct (IH _ Hl) as [IHl IHw]. split; [done|]. intros k Hk.
    rewrite IHw, Hw by done. fold (lt_sum items k).
    destruct subtract; [rewrite Zminus_mod_idemp_l|rewrite Z.add_mod_idemp_l by lia]; f_equal; lia.
Qed.

Lemma subtract_then_add_spec base added removed : length base = _SIZE →
  length (subtract_then_add base added removed) = _SIZE ∧
  ∀ k, (k < 64)%nat → word (subtract_then_add base added removed) k =
    (word base k - lt_sum removed k + lt_sum added k) mod 65536.
Proof.
  intros Hb. unfold subtract_then_add.
  destruct (foldl_pointwise_spec removed true base Hb) as [H1l H1w].
  destruct (foldl_pointwise_spec added false _ H1l) as [H2l H2w].
  split; [done|]. intros k Hk. rewrite H2w, H1w by done. by rewrite Z.add_mod_idemp_l by lia.
Qed.

Lemma lt_sum_app l1 l2 k : lt_sum (l1 ++ l2) k = lt_sum l1 k + lt_sum l2 k.
Proof. induction l1 as [|x l1 IH]; simpl; [done|]. rewrite IH. lia. Qed.

#[global] Instance lt_sum_perm : Proper ((≡ₚ) ==> (=) ==> (=)) lt_sum.
Proof. intros l1 l2 Hl k ? <-. induction Hl; simpl; lia. Qed.
End LtHash.

#[global] Arguments lt_word : simpl never.
#[global] Arguments word : simpl never.
#[global] Arguments hkdf_expand : simpl never.

(** C25: the LT-hash is a function of the multisets of items added and removed:
    reordering either list, and cancelling a common item, gives the same digest.
    In particular adding items and removing them again restores the digest. *)
Theorem lthash_multiset `{Hkdf} base common a1 r1 a2 r2 :
  length base = _SIZE →
  a2 ≡ₚ a1 ++ common → r2 ≡ₚ r1 ++ common →
  subtract_then_add base a2 r2 = subtract_then_add base a1 r1.
Proof.
  intros Hb Ha Hr.
  destruct (subtract_then_add_spec base a1 r1 Hb) as [L1 W1].
  destruct (subtract_then_add_spec base a2 r2 Hb) as [L2 W2].
  apply words_ext; [done..|]. intros k Hk. rewrite W1, W2 by done.
  rewrite Ha, Hr, !lt_sum_app. f_equal. lia.
Qed.

Lemma lthash_multiset_witness :
  let x := bstr "value-mac-one" in let y := bstr "value-mac-two" in
  let base := replicate 128 (mkb 0) in
  subtract_then_add (HK := toy_hkdf) base [x; y] [y] = subtract_then_add (HK := toy_hkdf) base [x] [].
Proof.
  apply (lthash_multiset (H := toy_hkdf) _ [bstr "value-mac-two"]); reflexivity.
Defined.
