(* ===== verification/AppCrypto.v ===== *)
(** * App-state key expansion, content MAC and value decryption
      ([src/src/pywhats/appstate/crypto.py]) and the sync-key store
      ([appstate/keys.py], [SqliteAppStateKeyStore]) *)

From S2P Require Import Prelude PyStr Crypto LtHash.

Definition _MUTATION_KEYS_INFO : bytes := bstr "WhatsApp Mutation Keys".

Record ExpandedAppStateKeys := mkKeys {
  k_index : bytes;
  k_value_encryption : bytes;
  k_value_mac : bytes;
  k_snapshot_mac : bytes;
  k_patch_mac : bytes
}.

Definition expand_app_state_keys `{Hkdf} (key_data : bytes) : ExpandedAppStateKeys :=
  let okm := hkdf_expand key_data _MUTATION_KEYS_INFO 160 in
  mkKeys (slice 0 32 okm) (slice 32 64 okm) (slice 64 96 okm) (slice 96 128 okm)
    (slice 128 160 okm).

Definition generate_content_mac `{Hmac} (operation : Z) (data key_id value_mac_key : bytes)
    : result bytes :=
  op ← some_or (z2b (operation + 1)) ValueError;
  n ← to_bytes_big 8 (Z.of_nat (length key_id) + 1);
  Ok (take 32 (c_hmac_sha512 value_mac_key ([op] ++ key_id ++ data ++ n))).

(** [padded[:-pad]] once the PKCS#7 padding of the last block is checked. *)
Definition pkcs7_strip (padded : bytes) : result bytes :=
  pad ← some_or (b2z <$> last padded) IndexError;
  if (pad <? 1) || (16 <? pad) || (Z.of_nat (length padded) <? pad) then Raise ValueError
  else if bool_decide (suffix_from (Z.to_nat pad) padded = replicate (Z.to_nat pad) (mkb pad))
  then Ok (prefix_upto (Z.to_nat pad) padded)
  else Raise ValueError.

Definition aes_cbc_decrypt `{AesCbc} (key iv_and_ciphertext : bytes) : result bytes :=
  let iv := take 16 iv_and_ciphertext in
  let ciphertext := drop 16 iv_and_ciphertext in
  if negb (truthy ciphertext) || negb (Z.of_nat (length ciphertext) mod 16 =? 0)
  then Raise ValueError
  else
    padded ← aes_cbc_dec key iv ciphertext;
    pkcs7_strip padded.

(** ** Padding and decryption *)

(** The PKCS#7 padding a sender applies. *)
Definition pkcs7_pad (d : bytes) : bytes :=
  let n := (16 - length d mod 16)%nat in d ++ replicate n (mkb (Z.of_nat n)).

Lemma pkcs7_pad_blocks d : (length (pkcs7_pad d) mod 16 = 0)%nat ∧ (length d < length (pkcs7_pad d))%nat.
Proof.
  unfold pkcs7_pad. rewrite length_app, length_replicate.
  pose proof (Nat.mod_upper_bound (length d) 16 ltac:(lia)).
  pose proof (Nat.div_mod_eq (length d) 16) as E. split; [|lia].
  rewrite E at 1. replace (16 * (length d / 16) + length d mod 16 + (16 - length d mod 16))%nat
    with ((length d / 16 + 1) * 16)%nat by lia. apply Nat.Div0.mod_mul.
Qed.

Lemma pkcs7_strip_pad d : pkcs7_strip (pkcs7_pad d) = Ok d.
Proof.
  unfold pkcs7_strip, pkcs7_pad.
  pose proof (Nat.mod_upper_bound (length d) 16 ltac:(lia)).
  set (n := (16 - length d mod 16)%nat). assert (1 ≤ n ≤ 16)%nat as Hn by lia. clearbody n.
  assert (last (d ++ replicate n (mkb (Z.of_nat n))) = Some (mkb (Z.of_nat n))) as ->.
  { destruct n as [|m]; [lia|]. rewrite replicate_S_end, app_assoc. apply last_snoc. }
  cbn [fmap option_fmap option_map some_or]. cbn [mbind result_bind].
  rewrite b2z_mkb, Z.mod_small by lia. rewrite length_app, length_replicate.
  assert ((Z.of_nat n <? 1) || (16 <? Z.of_nat n)
    || (Z.of_nat (length d + n) <? Z.of_nat n) = false) as ->
    by (rewrite !orb_false_iff, !Z.ltb_ge; lia).
  unfold suffix_from, prefix_upto. rewrite Nat2Z.id, length_app, length_replicate.
  replace (length d + n - n)%nat with (length d) by lia.
  rewrite drop_app_length, take_app_length. by rewrite bool_decide_true.
Qed.

(** What the padding check accepts is exactly a padded text. *)
Lemma pkcs7_strip_Ok padded p : (length padded mod 16 = 0)%nat →
  pkcs7_strip padded = Ok p → padded = pkcs7_pad p.
Proof.
  unfold pkcs7_strip. intros Hl H. res_inv. destruct (_ || _ || _) eqn:E; [done|]. zbool.
  case_bool_decide as Hs; [|done]. res_inv.
  assert (∃ n, a = Z.of_nat n ∧ (1 ≤ n ≤ 16)%nat) as (n & -> & Hn).
  { exists (Z.to_nat a). lia. }
  rewrite Nat2Z.id in *. unfold suffix_from, prefix_upto in *. unfold pkcs7_pad.
  assert (n ≤ length padded)%nat by lia.
  assert ((16 - length (take (length padded - n) padded) mod 16)%nat = n) as ->.
  { rewrite length_take, Nat.min_l by lia.
    pose proof (Nat.div_mod_eq (length padded) 16). rewrite Hl in *.
    replace (length padded - n)%nat with ((16 - n) + (length padded / 16 - 1) * 16)%nat by lia.
    rewrite Nat.Div0.mod_add. destruct (decide (n = 16%nat)) as [->|]; [done|].
    rewrite Nat.mod_small; lia. }
  by rewrite <-Hs, take_drop.
Qed.

Section Decrypt.
Context {A : AesCbc} {AL : AesCbcLaws A}.

Lemma aes_cbc_decrypt_ok key iv p c : length iv = 16%nat →
  aes_cbc_enc key iv (pkcs7_pad p) = Ok c → aes_cbc_decrypt key (iv ++ c) = Ok p.
Proof.
  intros Hiv Hc. unfold aes_cbc_decrypt.
  rewrite take_app_length', drop_app_length' by done.
  pose proof (aes_enc_cases key iv (pkcs7_pad p)) as Hcase.
  destruct (_ && _); [|congruence]. destruct Hcase as (c' & E & Hl & Hd).
  rewrite Hc in E. simplify_eq. destruct (pkcs7_pad_blocks p) as [Hb Hlt].
  replace (truthy c') with true by (destruct c'; [simpl in Hl; lia|done]).
  replace (Z.of_nat (length c') mod 16) with 0
    by (rewrite Hl; change 16 with (Z.of_nat 16); by rewrite <-Nat2Z.inj_mod, Hb).
  simpl. rewrite Hd. cbn. apply pkcs7_strip_pad.
Qed.

Lemma aes_cbc_decrypt_error key d e : aes_cbc_decrypt key d = Raise e → e = ValueError.
Proof.
  unfold aes_cbc_decrypt. destruct (_ || _) eqn:E; [by intros [= <-]|]. zbool.
  pose proof (aes_dec_cases key (take 16 d) (drop 16 d)) as Hcase.
  destruct (_ && _); [|rewrite Hcase; cbn; congruence].
  destruct Hcase as (p & -> & Hl). cbn. unfold pkcs7_strip.
  destruct (last p) as [x|] eqn:Hp; cbn.
  - destruct (_ || _ || _); [congruence|]. case_bool_decide; congruence.
  - apply last_None in Hp as ->. destruct (drop 16 d); simpl in *; [done|lia].
Qed.
End Decrypt.

Lemma expand_keys_lengths {H : Hkdf} {HL : HkdfLaws H} kd :
  let k := expand_app_state_keys kd in
  length (k_index k) = 32%nat ∧ length (k_value_encryption k) = 32%nat ∧
  length (k_value_mac k) = 32%nat ∧ length (k_snapshot_mac k) = 32%nat ∧
  length (k_patch_mac k) = 32%nat.
Proof.
  cbn. unfold hkdf_expand, slice.
  rewrite !length_take, !length_drop, length_hkdf by lia. lia.
Qed.

Lemma generate_content_mac_length {H : Hmac} {HL : HmacLaws H} op d ki k m :
  generate_content_mac op d ki k = Ok m → length m = 32%nat.
Proof.
  unfold generate_content_mac. intros E. res_inv. rewrite length_take, length_c_hmac_sha512. lia.
Qed.

(** ** The sync-key stores *)

Record AppStateSyncKey := mkSyncKey {
  sk_key_id : bytes;
  sk_key_data : bytes;
  sk_fingerprint : bytes;
  sk_timestamp : Z
}.

#[global] Instance AppStateSyncKey_eq_dec : EqDecision AppStateSyncKey.
Proof. solve_decision. Defined.

(** The [AppStateKeyStore] protocol. *)
Class AppStateKeyStore (KS : Type) := {
  ks_get : KS → bytes → option AppStateSyncKey;
  ks_put : KS → AppStateSyncKey → result KS
}.

Definition InMemoryAppStateKeyStore : Type := gmap bytes AppStateSyncKey.

Definition mem_key_put (s : InMemoryAppStateKeyStore) (key : AppStateSyncKey)
    : InMemoryAppStateKeyStore :=
  match s !! sk_key_id key with
  | Some existing => if sk_timestamp key <=? sk_timestamp existing then s
                     else <[sk_key_id key := key]> s
  | None => <[sk_key_id key := key]> s
  end.

#[global] Instance mem_key_store : AppStateKeyStore InMemoryAppStateKeyStore := {
  ks_get s key_id := s !! key_id;
  ks_put s key := Ok (mem_key_put s key)
}.

(** An [INTEGER] column holds a signed 64-bit number; binding a larger Python
    integer raises [OverflowError]. *)
Definition sql_int (z : Z) : bool := (- 2 ^ 63 <=? z) && (z <? 2 ^ 63).

(** The [app_state_sync_keys] table: key_id -> (key_data, fingerprint, timestamp). *)
Definition SqliteAppStateKeyStore : Type := gmap bytes (bytes * bytes * Z).

Definition sql_key_get (s : SqliteAppStateKeyStore) (key_id : bytes) : option AppStateSyncKey :=
  match s !! key_id with
  | None => None
  | Some (kd, fp, ts) => Some (mkSyncKey key_id kd fp ts)
  end.

Definition sql_key_put (s : SqliteAppStateKeyStore) (key : AppStateSyncKey)
    : result SqliteAppStateKeyStore :=
  if sql_int (sk_timestamp key) then
    let row := (sk_key_data key, sk_fingerprint key, sk_timestamp key) in
    match s !! sk_key_id key with
    | None => Ok (<[sk_key_id key := row]> s)
    | Some (_, _, ts) => Ok (if ts <? sk_timestamp key then <[sk_key_id key := row]> s else s)
    end
  else Raise OverflowError.

#[global] Instance sql_key_store : AppStateKeyStore SqliteAppStateKeyStore := {
  ks_get := sql_key_get;
  ks_put := sql_key_put
}.

(** ** What both stores promise: after any sequence of puts, [get] returns the
    first of the keys with the greatest timestamp put under that id *)

Fixpoint best_key (key_id : bytes) (best : option AppStateSyncKey) (puts : list AppStateSyncKey)
    : option AppStateSyncKey :=
  match puts with
  | [] => best
  | k :: puts =>
      let best' := if decide (sk_key_id k = key_id) then
                     match best with
                     | Some b => if sk_timestamp b <? sk_timestamp k then Some k else best
                     | None => Some k
                     end
                   else best in
      best_key key_id best' puts
  end.

Definition run_puts {KS} `{AppStateKeyStore KS} (s : KS) (puts : list AppStateSyncKey) : result KS :=
  foldl (λ r k, s ← r; ks_put s k) (Ok s) puts.

Lemma run_puts_cons {KS} `{AppStateKeyStore KS} (s s' : KS) k puts :
  ks_put s k = Ok s' → run_puts s (k :: puts) = run_puts s' puts.
Proof. intros E. unfold run_puts. cbn [foldl]. cbn. by rewrite E. Qed.

Lemma mem_run_puts puts : ∀ s : InMemoryAppStateKeyStore, ∃ s' : InMemoryAppStateKeyStore,
  run_puts s puts = Ok s' ∧ ∀ key_id, ks_get s' key_id = best_key key_id (ks_get s key_id) puts.
Proof.
  induction puts as [|k puts IH]; intros s; [by exists s|].
  destruct (IH (mem_key_put s k)) as (s' & Hr & Hg). exists s'.
  split; [by rewrite (run_puts_cons _ (mem_key_put s k))|]. intros key_id. rewrite Hg. cbn.
  f_equal. unfold mem_key_put, InMemoryAppStateKeyStore in *.
  destruct (s !! sk_key_id k) as [b|] eqn:Eb; [destruct (_ <=? _) eqn:El; zbool|];
    destruct (decide (sk_key_id k = key_id)) as [<-|]; rewrite ?Eb, ?lookup_insert_eq;
    first [reflexivity | by rewrite lookup_insert_ne | idtac].
  - by rewrite (proj2 (Z.ltb_ge _ _)) by lia.
  - by rewrite (proj2 (Z.ltb_lt _ _)) by lia.
Qed.

Lemma sql_run_puts puts : ∀ s : SqliteAppStateKeyStore,
  Forall (λ k, sql_int (sk_timestamp k) = true) puts → ∃ s' : SqliteAppStateKeyStore,
  run_puts s puts = Ok s' ∧ ∀ key_id, ks_get s' key_id = best_key key_id (ks_get s key_id) puts.
Proof.
  induction puts as [|k puts IH]; intros s Hf; [by exists s|].
  apply Forall_cons in Hf as [Hk Hf].
  assert (∃ s1, sql_key_put s k = Ok s1 ∧ ∀ key_id, sql_key_get s1 key_id =
    best_key key_id (sql_key_get s key_id) [k]) as (s1 & Hput & Hget).
  { unfold sql_key_put. rewrite Hk. cbn. unfold sql_key_get, SqliteAppStateKeyStore in *.
    destruct (s !! sk_key_id k) as [[[kd fp] ts]|] eqn:Eb; eexists; (split; [done|]);
      intros key_id; destruct (decide (sk_key_id k = key_id)) as [<-|]; rewrite ?Eb; cbn.
    - destruct (ts <? sk_timestamp k) eqn:El; rewrite ?lookup_insert_eq, ?Eb; by destruct k.
    - destruct (ts <? sk_timestamp k); rewrite ?lookup_insert_ne by done; done.
    - rewrite lookup_insert_eq. by destruct k.
    - by rewrite lookup_insert_ne. }
  destruct (IH s1 Hf) as (s' & Hr & Hg). exists s'.
  split; [by rewrite (run_puts_cons _ s1)|]. intros key_id. rewrite Hg. cbn. by rewrite Hget.
Qed.

(** After any sequence of puts, the in-memory and the SQLite key store answer [get]
    alike, with the first key of greatest timestamp put under that id, so a
    re-delivered older share never replaces a newer key. *)
Theorem key_stores_agree (puts : list AppStateSyncKey) :
  Forall (λ k, sql_int (sk_timestamp k) = true) puts →
  ∃ (m : InMemoryAppStateKeyStore) (q : SqliteAppStateKeyStore),
    run_puts ∅ puts = Ok m ∧ run_puts ∅ puts = Ok q ∧
    ∀ key_id, ks_get m key_id = best_key key_id None puts ∧ ks_get q key_id = ks_get m key_id.
Proof.
  intros Hf. destruct (mem_run_puts puts ∅) as (m & Hm & Gm).
  destruct (sql_run_puts puts ∅ Hf) as (q & Hq & Gq). exists m, q.
  split; [done|]. split; [done|]. intros key_id. rewrite Gm, Gq. done.
Qed.

Lemma key_stores_agree_witness :
  let old := mkSyncKey (bstr "id") (bstr "old") [] 10 in
  let new := mkSyncKey (bstr "id") (bstr "new") [] 20 in
  ∃ (m : InMemoryAppStateKeyStore) (q : SqliteAppStateKeyStore),
    run_puts ∅ [new; old] = Ok m ∧ run_puts ∅ [new; old] = Ok q ∧
    ∀ key_id, ks_get m key_id = best_key key_id None [new; old] ∧ ks_get q key_id = ks_get m key_id.
Proof. apply key_stores_agree. repeat constructor. Defined.
