(* ===== verification/AppPatches.v ===== *)
(** * Decoding app-state patches and snapshots ([src/src/pywhats/appstate/patches.py])

    Protobuf messages are records with the fields the code reads; an absent
    sub-message reads as its default. The protobuf parser and the JSON parser are
    parameters. [operation] is an open proto3 enum, hence any integer. *)

From S2P Require Import Prelude PyStr Json Sha256 Crypto LtHash AppCrypto.

Definition _SET : Z := 0.
Definition _REMOVE : Z := 1.

(** ** Messages *)

Record SyncdRecord := mkRecord { r_index_blob : bytes; r_value_blob : bytes; r_key_id : bytes }.
Record SyncdMutation := mkSyncdMutation { m_operation : Z; m_record : SyncdRecord }.

Record ExternalBlobReference := mkExternal {
  x_media_key : bytes; x_direct_path : str; x_file_enc_sha256 : bytes; x_file_sha256 : bytes }.

Record SyncdPatch := mkPatch {
  p_version : Z;
  p_mutations : list SyncdMutation;
  p_external_mutations : option ExternalBlobReference;
  p_snapshot_mac : bytes;
  p_patch_mac : bytes;
  p_key_id : bytes
}.

Record SyncdSnapshot := mkSnapshot {
  s_version : Z; s_records : list SyncdRecord; s_mac : bytes; s_key_id : bytes }.

Record SyncActionValue := mkAction {
  av_timestamp : Z;
  av_mute : bool * Z;              (* muted, mute_end_timestamp *)
  av_pinned : bool;
  av_archived : bool;
  av_contact : str * str;          (* first_name, full_name *)
  av_push_name : str
}.

Record SyncActionData := mkActionData { ad_index : bytes; ad_value : SyncActionValue; ad_version : Z }.

(** ** The parsers *)

Class AppProto := {
  parse_SyncActionData : bytes → result SyncActionData;
  parse_SyncdPatch : bytes → result SyncdPatch;
  parse_SyncdSnapshot : bytes → result SyncdSnapshot;
  parse_SyncdMutations : bytes → result (list SyncdMutation);
  parse_ExternalBlobReference : bytes → result ExternalBlobReference
}.

(** [json.loads] of a byte string. *)
Class JsonLoads := json_loads : bytes → result json.

(** ** Decoded values *)

Record HashState := mkHashState { version : Z; hash : bytes }.

Definition _EMPTY_STATE : HashState := mkHashState 0 (replicate 128 (mkb 0)).

#[global] Instance HashState_eq_dec : EqDecision HashState.
Proof. solve_decision. Defined.

Record Mutation := mkMutation {
  mu_operation : Z;
  mu_index : json;
  mu_action : SyncActionValue;
  mu_index_mac : bytes;
  mu_value_mac : bytes;
  mu_key_id : bytes;
  mu_version : Z
}.

Record PatchDecodeResult := mkDecoded { pd_state : HashState; pd_mutations : list Mutation }.

Definition last32 (blob : bytes) : bytes := suffix_from 32 blob.

Section Patches.
Context {HK : Hkdf} {HM : Hmac} {AES : AesCbc} {PB : AppProto} {JS : JsonLoads}.
Context {KS : Type} {KSI : AppStateKeyStore KS}.

Definition _resolve_keys (store : KS) (key_id : bytes) : result ExpandedAppStateKeys :=
  match ks_get store key_id with
  | None => Raise AppStateKeyNotFound
  | Some key => Ok (expand_app_state_keys (sk_key_data key))
  end.

(** The loop from [max_index - 1] down to 0, on the reversed prefix. *)
Fixpoint prev_in_patch (earlier : list SyncdMutation) (index_mac : bytes)
    : option (option bytes) :=
  match earlier with
  | [] => None
  | m :: earlier =>
      if decide (r_index_blob (m_record m) = index_mac) then
        Some (if m_operation m =? _SET then Some (last32 (r_value_blob (m_record m))) else None)
      else prev_in_patch earlier index_mac
  end.

Definition _prev_set_value_mac (mutations : list SyncdMutation) (max_index : nat)
    (index_mac : bytes) (get_prev_value_mac : option (bytes → option bytes)) : option bytes :=
  match prev_in_patch (rev (take max_index mutations)) index_mac with
  | Some r => r
  | None => match get_prev_value_mac with
            | Some f => f index_mac
            | None => None
            end
  end.

(** The lists [added] and [removed] after the loop over [enumerate(mutations)]. *)
Fixpoint hash_deltas (mutations : list SyncdMutation) (get_prev : option (bytes → option bytes))
    (i : nat) (todo : list SyncdMutation) : list bytes * list bytes :=
  match todo with
  | [] => ([], [])
  | m :: todo =>
      let '(added, removed) := hash_deltas mutations get_prev (S i) todo in
      let added := if m_operation m =? _SET then last32 (r_value_blob (m_record m)) :: added
                   else added in
      match _prev_set_value_mac mutations i (r_index_blob (m_record m)) get_prev with
      | Some prev => (added, prev :: removed)
      | None => (added, removed)
      end
  end.

Definition _update_hash (prev_hash : bytes) (mutations : list SyncdMutation)
    (get_prev_value_mac : option (bytes → option bytes)) : bytes :=
  let '(added, removed) := hash_deltas mutations get_prev_value_mac 0 mutations in
  subtract_then_add prev_hash added removed.

Definition _verify_snapshot_mac (state : HashState) (name : str) (snapshot_mac_key expected : bytes)
    : result unit :=
  v ← to_bytes_big 8 (version state);
  n ← utf8_encode name;
  let mac := hmac_sha256 snapshot_mac_key (hash state ++ v ++ n) in
  guard_or (bool_decide (mac = expected)) SnapshotMacMismatch.

Definition _verify_patch_mac (patch : SyncdPatch) (name : str) (patch_mac_key : bytes) (version : Z)
    : result unit :=
  v ← to_bytes_big 8 version;
  n ← utf8_encode name;
  let macs := p_mutations patch ≫= λ m, last32 (r_value_blob (m_record m)) in
  let mac := hmac_sha256 patch_mac_key (p_snapshot_mac patch ++ macs ++ v ++ n) in
  guard_or (bool_decide (mac = p_patch_mac patch)) PatchMacMismatch.

Definition _decode_mutation (key_store : KS) (validate_macs : bool) (mutation : SyncdMutation)
    : result Mutation :=
  let key_id := r_key_id (m_record mutation) in
  keys ← _resolve_keys key_store key_id;
  let blob := r_value_blob (m_record mutation) in
  let content := prefix_upto 32 blob in
  let value_mac := suffix_from 32 blob in
  let operation := m_operation mutation in
  _ ← (if validate_macs then
         expected ← generate_content_mac operation content key_id (k_value_mac keys);
         guard_or (bool_decide (expected = value_mac)) ContentMacMismatch
       else Ok tt);
  plaintext ← aes_cbc_decrypt (k_value_encryption keys) content;
  action_data ← parse_SyncActionData plaintext;
  let index_mac := r_index_blob (m_record mutation) in
  _ ← (if validate_macs then
         guard_or (bool_decide (hmac_sha256 (k_index keys) (ad_index action_data) = index_mac))
           IndexMacMismatch
       else Ok tt);
  index_list ← json_loads (ad_index action_data);
  Ok (mkMutation operation index_list (ad_value action_data) index_mac value_mac key_id
        (ad_version action_data)).

Definition decode_patch (patch : SyncdPatch) (key_store : KS) (name : str) (prev_state : HashState)
    (get_prev_value_mac : option (bytes → option bytes)) (validate_macs : bool)
    : result PatchDecodeResult :=
  let mutations := p_mutations patch in
  let version := p_version patch in
  keys ← _resolve_keys key_store (p_key_id patch);
  let new_hash := _update_hash (hash prev_state) mutations get_prev_value_mac in
  let new_state := mkHashState version new_hash in
  _ ← (if validate_macs then
         _ ← _verify_snapshot_mac new_state name (k_snapshot_mac keys) (p_snapshot_mac patch);
         _verify_patch_mac patch name (k_patch_mac keys) version
       else Ok tt);
  decoded ← mapR (_decode_mutation key_store validate_macs) mutations;
  Ok (mkDecoded new_state decoded).

Definition decode_snapshot (snapshot : SyncdSnapshot) (key_store : KS) (name : str)
    (initial_state : HashState) (validate_macs : bool) : result PatchDecodeResult :=
  let mutations := mkSyncdMutation _SET <$> s_records snapshot in
  let added := (λ m, last32 (r_value_blob (m_record m))) <$> mutations in
  let new_hash := subtract_then_add (hash initial_state) added [] in
  let new_state := mkHashState (s_version snapshot) new_hash in
  _ ← (if validate_macs then
         keys ← _resolve_keys key_store (s_key_id snapshot);
         _verify_snapshot_mac new_state name (k_snapshot_mac keys) (s_mac snapshot)
       else Ok tt);
  decoded ← mapR (_decode_mutation key_store validate_macs) mutations;
  Ok (mkDecoded new_state decoded).

(** ** The collection a digest stands for

    A collection is a finite map from index MACs to value MACs; a digest matches
    it when every word is the sum of the words of the values, modulo 2^16. *)

Definition macs_sum (M : gmap bytes bytes) (k : nat) : Z :=
  map_fold (λ _ v acc, lt_word v k + acc) 0 M.

Definition hash_matches (h : bytes) (M : gmap bytes bytes) : Prop :=
  length h = _SIZE ∧ ∀ k, (k < 64)%nat → word h k = macs_sum M k mod 65536.

(** The effect a mutation is meant to have on the collection. *)
Definition apply_mutation (M : gmap bytes bytes) (m : SyncdMutation) : gmap bytes bytes :=
  let i := r_index_blob (m_record m) in
  if m_operation m =? _SET then <[i := last32 (r_value_blob (m_record m))]> M
  else delete i M.

Definition replay (M : gmap bytes bytes) (ms : list SyncdMutation) : gmap bytes bytes :=
  foldl apply_mutation M ms.

Definition known_op (m : SyncdMutation) : bool :=
  (m_operation m =? _SET) || (m_operation m =? _REMOVE).

Lemma macs_sum_insert M i v k : M !! i = None → macs_sum (<[i := v]> M) k = lt_word v k + macs_sum M k.
Proof. intros Hi. unfold macs_sum. rewrite map_fold_insert_L; [done| |done]. intros; lia. Qed.

Lemma macs_sum_delete M i k :
  macs_sum (delete i M) k = macs_sum M k - from_option (λ v, lt_word v k) 0 (M !! i).
Proof.
  destruct (M !! i) as [v|] eqn:E; cbn.
  - rewrite <-(insert_delete_id M i v E) at 2. rewrite macs_sum_insert by apply lookup_delete_eq. lia.
  - rewrite delete_id by done. lia.
Qed.

Lemma macs_sum_apply M m k :
  macs_sum (apply_mutation M m) k = macs_sum M k
    - from_option (λ v, lt_word v k) 0 (M !! r_index_blob (m_record m))
    + (if m_operation m =? _SET then lt_word (last32 (r_value_blob (m_record m))) k else 0).
Proof.
  unfold apply_mutation. destruct (m_operation m =? _SET).
  - rewrite <-insert_delete_eq, macs_sum_insert by apply lookup_delete_eq.
    rewrite macs_sum_delete. lia.
  - rewrite macs_sum_delete. lia.
Qed.

(** Searching the earlier mutations, newest first, and then the stored map, is a
    lookup in the collection as it stands before the mutation. *)
Lemma prev_in_patch_replay M ms i :
  match prev_in_patch (rev ms) i with Some r => r | None => M !! i end = replay M ms !! i.
Proof.
  induction ms as [|m ms IH] using rev_ind; [done|].
  unfold replay in *. rewrite foldl_app, rev_app_distr. cbn [rev app foldl prev_in_patch].
  unfold apply_mutation at 1. destruct (decide (_ = i)) as [<-|Hne].
  - destruct (m_operation m =? _SET); [by rewrite lookup_insert_eq|by rewrite lookup_delete_eq].
  - rewrite IH. destruct (m_operation m =? _SET);
      [by rewrite lookup_insert_ne|by rewrite lookup_delete_ne].
Qed.

Lemma hash_deltas_spec M all k : ∀ todo done, all = done ++ todo →
  let '(added, removed) := hash_deltas all (Some (λ i, M !! i)) (length done) todo in
  lt_sum added k - lt_sum removed k = macs_sum (replay M all) k - macs_sum (replay M done) k.
Proof.
  induction todo as [|m todo IH]; intros dn ->; cbn [hash_deltas].
  { rewrite app_nil_r. cbn. lia. }
  specialize (IH (dn ++ [m])). rewrite <-app_assoc in IH. specialize (IH eq_refl).
  rewrite length_app, Nat.add_1_r in IH.
  destruct (hash_deltas _ _ _ _) as [added removed].
  unfold _prev_set_value_mac. rewrite take_app_length, prev_in_patch_replay.
  assert (macs_sum (replay M (dn ++ [m])) k = macs_sum (apply_mutation (replay M dn) m) k) as E
    by (unfold replay; by rewrite foldl_app).
  rewrite E, macs_sum_apply in IH.
  destruct (replay M dn !! r_index_blob (m_record m)) as [v|], (m_operation m =? _SET);
    cbn [from_option lt_sum foldr] in *; fold (lt_sum added k) (lt_sum removed k) in *; lia.
Qed.

Lemma update_hash_matches h M ms :
  hash_matches h M → hash_matches (_update_hash h ms (Some (λ i, M !! i))) (replay M ms).
Proof.
  intros [Hl Hw]. unfold _update_hash.
  destruct (hash_deltas _ _ _ _) as [added removed] eqn:E.
  destruct (subtract_then_add_spec h added removed Hl) as [Sl Sw]. split; [done|].
  intros k Hk. rewrite Sw, Hw by done.
  pose proof (hash_deltas_spec M ms k ms [] eq_refl) as D. cbn [length] in D. rewrite E in D.
  change (replay M []) with M in D.
  rewrite <-Z.add_sub_swap, <-Z.add_sub_assoc, D, Z.add_mod_idemp_l by lia. f_equal. lia.
Qed.

Lemma update_hash_ext h ms f g : (∀ i, f i = g i) →
  _update_hash h ms (Some f) = _update_hash h ms (Some g).
Proof.
  intros Hfg. unfold _update_hash.
  assert (∀ l i, hash_deltas ms (Some f) i l = hash_deltas ms (Some g) i l) as ->; [|done].
  induction l as [|x l IH]; intros i; cbn [hash_deltas]; [done|].
  unfold _prev_set_value_mac. by rewrite IH, Hfg.
Qed.

(** What a successful decode tells of each mutation. *)
Definition decodes (m : SyncdMutation) (d : Mutation) : Prop :=
  mu_operation d = m_operation m ∧ mu_index_mac d = r_index_blob (m_record m) ∧
  mu_value_mac d = last32 (r_value_blob (m_record m)) ∧ mu_key_id d = r_key_id (m_record m).

Lemma decode_mutation_inv key_store vm m d :
  _decode_mutation key_store vm m = Ok d → decodes m d.
Proof. unfold _decode_mutation. intros E. res_inv. done. Qed.

Lemma decode_patch_inv patch key_store name st gp vm r :
  decode_patch patch key_store name st gp vm = Ok r →
  pd_state r = mkHashState (p_version patch) (_update_hash (hash st) (p_mutations patch) gp) ∧
  Forall2 decodes (p_mutations patch) (pd_mutations r).
Proof.
  unfold decode_patch. intros E. res_inv. split; [done|]. cbn.
  match goal with H : mapR _ _ = Ok _ |- _ => apply mapR_Forall2 in H as F end.
  eapply Forall2_impl; [exact F|]. intros m d Hd. exact (decode_mutation_inv _ _ _ _ Hd).
Qed.

Lemma decode_snapshot_inv snap key_store name st vm r :
  decode_snapshot snap key_store name st vm = Ok r →
  let ms := mkSyncdMutation _SET <$> s_records snap in
  pd_state r = mkHashState (s_version snap)
    (subtract_then_add (hash st) ((λ m, last32 (r_value_blob (m_record m))) <$> ms) []) ∧
  Forall2 decodes ms (pd_mutations r).
Proof.
  unfold decode_snapshot. intros E. res_inv. split; [done|]. cbn.
  match goal with H : mapR _ _ = Ok _ |- _ => apply mapR_Forall2 in H as F end.
  eapply Forall2_impl; [exact F|]. intros m d Hd. exact (decode_mutation_inv _ _ _ _ Hd).
Qed.

(** A snapshot of distinct indexes, none of them in the collection, adds them all. *)
Lemma snapshot_hash_matches h M rs : hash_matches h M →
  NoDup (r_index_blob <$> rs) → (∀ r, r ∈ rs → M !! r_index_blob r = None) →
  let ms := mkSyncdMutation _SET <$> rs in
  hash_matches (subtract_then_add h ((λ m, last32 (r_value_blob (m_record m))) <$> ms) [])
    (replay M ms).
Proof.
  intros [Hl Hw] Hnd Hfresh ms.
  assert (∀ k rs M, NoDup (r_index_blob <$> rs) → (∀ r, r ∈ rs → M !! r_index_blob r = None) →
    macs_sum (replay M (mkSyncdMutation _SET <$> rs)) k = macs_sum M k +
      lt_sum ((λ m, last32 (r_value_blob (m_record m))) <$> (mkSyncdMutation _SET <$> rs)) k) as K.
  { intros k. clear. induction rs as [|r rs IH]; intros M Hnd Hf; cbn; [lia|].
    rewrite fmap_cons in Hnd. apply NoDup_cons in Hnd as [Hr Hnd].
    unfold replay in IH. rewrite IH; [|done|].
    - unfold apply_mutation. cbn. rewrite macs_sum_insert by (apply Hf; left). unfold lt_sum. lia.
    - intros r' Hr'. unfold apply_mutation. cbn. rewrite lookup_insert_ne; [apply Hf; by right|].
      intros Heq. apply Hr. rewrite Heq. by apply list_elem_of_fmap_2. }
  destruct (subtract_then_add_spec h ((λ m, last32 (r_value_blob (m_record m))) <$> ms) [] Hl)
    as [Sl Sw].
  split; [done|]. intros k Hk. unfold ms in *. rewrite Sw, Hw, K by done. cbn [lt_sum foldr].
  rewrite Z.sub_0_r, Z.add_mod_idemp_l by lia. done.
Qed.
End Patches.

(** ** Authentication *)

Section Sealing.
Context {HK : Hkdf} {HM : Hmac} {AES : AesCbc} {PB : AppProto} {JS : JsonLoads}.
Context {KS : Type} {KSI : AppStateKeyStore KS}.

(** What the sender of a mutation does: encrypt the padded action, MAC the
    ciphertext, MAC the index. *)
Definition seal_mutation (operation : Z) (key_id key_data iv plaintext index : bytes)
    : result SyncdMutation :=
  let k := expand_app_state_keys key_data in
  c ← aes_cbc_enc (k_value_encryption k) iv (pkcs7_pad plaintext);
  mac ← generate_content_mac operation (iv ++ c) key_id (k_value_mac k);
  Ok (mkSyncdMutation operation (mkRecord (hmac_sha256 (k_index k) index) ((iv ++ c) ++ mac) key_id)).

Lemma split_last32 (l mac : bytes) : length mac = 32%nat →
  prefix_upto 32 (l ++ mac) = l ∧ suffix_from 32 (l ++ mac) = mac.
Proof.
  intros Hm. unfold prefix_upto, suffix_from. rewrite length_app, Hm.
  replace (length l + 32 - 32)%nat with (length l) by lia.
  by rewrite take_app_length, drop_app_length.
Qed.

(** The checks a mutation accepted with [validate_macs] has passed. *)
Definition authentic (key_store : KS) (m : SyncdMutation) : Prop :=
  let rec := m_record m in
  let blob := r_value_blob rec in
  ∃ key plaintext ad, ks_get key_store (r_key_id rec) = Some key ∧
    let k := expand_app_state_keys (sk_key_data key) in
    generate_content_mac (m_operation m) (prefix_upto 32 blob) (r_key_id rec) (k_value_mac k)
      = Ok (suffix_from 32 blob) ∧
    aes_cbc_decrypt (k_value_encryption k) (prefix_upto 32 blob) = Ok plaintext ∧
    parse_SyncActionData plaintext = Ok ad ∧
    hmac_sha256 (k_index k) (ad_index ad) = r_index_blob rec.

Lemma decode_mutation_authentic key_store m d :
  _decode_mutation key_store true m = Ok d → authentic key_store m.
Proof.
  unfold _decode_mutation, _resolve_keys. intros E. res_inv.
  destruct (ks_get key_store (r_key_id (m_record m))) as [key|] eqn:Ek; [|done]. res_inv.
  repeat match goal with H : bool_decide _ = true |- _ => apply bool_decide_eq_true in H end.
  subst. exists key, a1, a2. split; [done|]. cbn zeta. split_and!; done.
Qed.
End Sealing.

(** C27: a mutation sealed under a stored key is decoded, with all MACs validated, to the
    action, the index and the MACs the sender put in. *)
Theorem sealed_mutation_decodes {HK : Hkdf} {HM : Hmac} {HML : HmacLaws HM} {AES : AesCbc}
    {AL : AesCbcLaws AES} {PB : AppProto} {JS : JsonLoads} {KS : Type} {KSI : AppStateKeyStore KS}
    (key_store : KS) (key : AppStateSyncKey) op key_id iv plaintext ad idx m :
  ks_get key_store key_id = Some key → length iv = 16%nat →
  parse_SyncActionData plaintext = Ok ad → json_loads (ad_index ad) = Ok idx →
  seal_mutation op key_id (sk_key_data key) iv plaintext (ad_index ad) = Ok m →
  _decode_mutation key_store true m =
    Ok (mkMutation op idx (ad_value ad) (r_index_blob (m_record m))
          (last32 (r_value_blob (m_record m))) key_id (ad_version ad)).
Proof.
  intros Hk Hiv Hp Hj Hs. unfold seal_mutation in Hs. res_inv.
  apply generate_content_mac_length in Hm0 as Hl.
  destruct (split_last32 (iv ++ a) a0 Hl) as [Hpre Hsuf].
  unfold _decode_mutation, _resolve_keys, last32. cbn [m_record r_key_id r_value_blob r_index_blob m_operation].
  rewrite Hk, Hpre, Hsuf. rbind. rewrite Hm0. rbind. rewrite bool_decide_true by done. rbind.
  rewrite (aes_cbc_decrypt_ok _ _ plaintext) by done. rbind. rewrite Hp. rbind.
  rewrite bool_decide_true by done. rbind. by rewrite Hj.
Qed.

(** C13: a patch decoded with validation is authentic: its key is stored, its snapshot
    MAC is the HMAC of the new LT-hash, version and collection name, its patch
    MAC covers the snapshot MAC and every value MAC, and each mutation's content
    and index MACs verify under the mutation's own key. *)
Theorem decoded_patch_authentic {HK : Hkdf} {HM : Hmac} {AES : AesCbc} {PB : AppProto}
    {JS : JsonLoads} {KS : Type} {KSI : AppStateKeyStore KS}
    (patch : SyncdPatch) (key_store : KS) name st gp r :
  decode_patch patch key_store name st gp true = Ok r →
  ∃ key v n, ks_get key_store (p_key_id patch) = Some key ∧
    to_bytes_big 8 (p_version patch) = Ok v ∧ utf8_encode name = Ok n ∧
    let k := expand_app_state_keys (sk_key_data key) in
    let macs := p_mutations patch ≫= λ m, last32 (r_value_blob (m_record m)) in
    version (pd_state r) = p_version patch ∧
    p_snapshot_mac patch = hmac_sha256 (k_snapshot_mac k) (hash (pd_state r) ++ v ++ n) ∧
    p_patch_mac patch = hmac_sha256 (k_patch_mac k) (p_snapshot_mac patch ++ macs ++ v ++ n) ∧
    Forall (authentic key_store) (p_mutations patch).
Proof.
  intros E. destruct (decode_patch_inv _ _ _ _ _ _ _ E) as [Est _].
  unfold decode_patch, _verify_snapshot_mac, _verify_patch_mac, _resolve_keys in E.
  destruct (ks_get key_store (p_key_id patch)) as [key|]; [|done].
  destruct (to_bytes_big 8 (p_version patch)) as [v|] eqn:Ev; [|res_inv; cbn in *; congruence].
  destruct (utf8_encode name) as [n|] eqn:En; [|res_inv; cbn in *; congruence].
  res_inv. cbn [version hash] in *.
  match goal with H : to_bytes_big 8 (p_version patch) = Ok ?x |- _ => rewrite H in Ev; simplify_eq end.
  repeat match goal with H : bool_decide _ = true |- _ => apply bool_decide_eq_true in H end.
  match goal with H : mapR _ _ = Ok _ |- _ => apply mapR_Forall2 in H as F end.
  eexists _, _, _. split; [done|]. split; [done|]. split; [done|]. cbn zeta. split; [done|].
  split; [done|]. split; [done|].
  eapply Forall2_Forall_l; [exact F|]. apply Forall_forall. intros d _ m Hd.
  by eapply decode_mutation_authentic.
Qed.
