(* ===== verification/AppStore.v ===== *)
(** * The app-state store ([src/src/pywhats/appstate/store.py] and
      [SqliteAppStateStore] of [signal/experimental/sqlite_store.py])

    The [AppStateStore] protocol is a class; what it promises its clients is a
    simulation of the in-memory store, which both implementations satisfy: the
    in-memory store trivially, the SQLite tables by a refinement proof. *)

From S2P Require Import Prelude PyStr Crypto LtHash AppCrypto AppPatches.

Record MutationMac := mkMutationMac { mm_index_mac : bytes; mm_value_mac : bytes }.

(** The protocol; writes may raise. *)
Class AppStateStore (S : Type) := {
  get_version : S → str → HashState;
  put_version : S → str → HashState → result S;
  delete_version : S → str → S;
  get_mutation_mac : S → str → bytes → option bytes;
  put_mutation_macs : S → str → Z → list MutationMac → result S;
  delete_mutation_macs : S → str → list bytes → S
}.

(** ** [InMemoryAppStateStore] *)

Record InMemoryAppStateStore := mkMemStore {
  _versions : gmap str HashState;
  _macs : gmap (str * bytes) (Z * bytes)
}.

Definition mem_get_version (s : InMemoryAppStateStore) (name : str) : HashState :=
  default _EMPTY_STATE (_versions s !! name).

Definition mem_put_version (s : InMemoryAppStateStore) (name : str) (state : HashState)
    : InMemoryAppStateStore := mkMemStore (<[name := state]> (_versions s)) (_macs s).

Definition mem_delete_version (s : InMemoryAppStateStore) (name : str) : InMemoryAppStateStore :=
  mkMemStore (delete name (_versions s)) (filter (λ kv, kv.1.1 ≠ name) (_macs s)).

Definition mem_get_mutation_mac (s : InMemoryAppStateStore) (name : str) (index_mac : bytes)
    : option bytes :=
  match _macs s !! (name, index_mac) with None => None | Some entry => Some (entry.2) end.

Definition mem_put_mac (name : str) (version : Z) (s : InMemoryAppStateStore) (mac : MutationMac)
    : InMemoryAppStateStore :=
  let key := (name, mm_index_mac mac) in
  let put := mkMemStore (_versions s) (<[key := (version, mm_value_mac mac)]> (_macs s)) in
  match _macs s !! key with
  | None => put
  | Some existing => if existing.1 <=? version then put else s
  end.

Definition mem_put_mutation_macs (s : InMemoryAppStateStore) (name : str) (version : Z)
    (macs : list MutationMac) : InMemoryAppStateStore := foldl (mem_put_mac name version) s macs.

Definition mem_delete_mac (name : str) (s : InMemoryAppStateStore) (index_mac : bytes)
    : InMemoryAppStateStore := mkMemStore (_versions s) (delete (name, index_mac) (_macs s)).

Definition mem_delete_mutation_macs (s : InMemoryAppStateStore) (name : str)
    (index_macs : list bytes) : InMemoryAppStateStore := foldl (mem_delete_mac name) s index_macs.

#[global] Instance mem_app_store : AppStateStore InMemoryAppStateStore := {
  get_version := mem_get_version;
  put_version s name st := Ok (mem_put_version s name st);
  delete_version := mem_delete_version;
  get_mutation_mac := mem_get_mutation_mac;
  put_mutation_macs s name v macs := Ok (mem_put_mutation_macs s name v macs);
  delete_mutation_macs := mem_delete_mutation_macs
}.

(** ** [SqliteAppStateStore]: the two tables, by primary key *)

Record SqliteAppStateStore := mkSqlStore {
  app_state_version : gmap str (Z * bytes);
  app_state_mutation_macs : gmap (str * Z * bytes) bytes
}.

Definition sql_get_version (s : SqliteAppStateStore) (name : str) : HashState :=
  match app_state_version s !! name with
  | None => _EMPTY_STATE
  | Some (v, h) => mkHashState v h
  end.

Definition sql_put_version (s : SqliteAppStateStore) (name : str) (state : HashState)
    : result SqliteAppStateStore :=
  if negb (Z.of_nat (length (hash state)) =? 128) then Raise ValueError
  else if negb (sql_int (version state)) then Raise OverflowError
  else Ok (mkSqlStore (<[name := (version state, hash state)]> (app_state_version s))
             (app_state_mutation_macs s)).

Definition sql_delete_version (s : SqliteAppStateStore) (name : str) : SqliteAppStateStore :=
  mkSqlStore (delete name (app_state_version s))
    (filter (λ kv, kv.1.1.1 ≠ name) (app_state_mutation_macs s)).

(** [ORDER BY version DESC LIMIT 1] *)
Definition newest (rows : list (Z * bytes)) : option (Z * bytes) :=
  foldr (λ row best, match best with
                     | None => Some row
                     | Some b => if b.1 <=? row.1 then Some row else best
                     end) None rows.

Definition sql_rows (s : SqliteAppStateStore) (name : str) (index_mac : bytes) : list (Z * bytes) :=
  (λ kv, (kv.1.1.2, kv.2)) <$>
    map_to_list (filter (λ kv, kv.1.1.1 = name ∧ kv.1.2 = index_mac) (app_state_mutation_macs s)).

Definition sql_get_mutation_mac (s : SqliteAppStateStore) (name : str) (index_mac : bytes)
    : option bytes := snd <$> newest (sql_rows s name index_mac).

Definition sql_put_mac (name : str) (version : Z) (s : SqliteAppStateStore) (m : MutationMac)
    : SqliteAppStateStore :=
  mkSqlStore (app_state_version s)
    (<[(name, version, mm_index_mac m) := mm_value_mac m]> (app_state_mutation_macs s)).

Definition sql_put_mutation_macs (s : SqliteAppStateStore) (name : str) (version : Z)
    (macs : list MutationMac) : result SqliteAppStateStore :=
  match macs with
  | [] => Ok s
  | _ => if negb (sql_int version) then Raise OverflowError
         else Ok (foldl (sql_put_mac name version) s macs)
  end.

Definition sql_delete_mac (name : str) (s : SqliteAppStateStore) (index_mac : bytes)
    : SqliteAppStateStore :=
  mkSqlStore (app_state_version s)
    (filter (λ kv, ¬ (kv.1.1.1 = name ∧ kv.1.2 = index_mac)) (app_state_mutation_macs s)).

Definition sql_delete_mutation_macs (s : SqliteAppStateStore) (name : str)
    (index_macs : list bytes) : SqliteAppStateStore :=
  match index_macs with [] => s | _ => foldl (sql_delete_mac name) s index_macs end.

#[global] Instance sql_app_store : AppStateStore SqliteAppStateStore := {
  get_version := sql_get_version;
  put_version := sql_put_version;
  delete_version := sql_delete_version;
  get_mutation_mac := sql_get_mutation_mac;
  put_mutation_macs := sql_put_mutation_macs;
  delete_mutation_macs := sql_delete_mutation_macs
}.

(** ** The contract: a store simulates the in-memory one on storable cursors *)

Definition storable (v : Z) : Prop := 0 ≤ v < 2 ^ 63.

Class AppStateStoreLaws (S : Type) {I : AppStateStore S} (sim : S → InMemoryAppStateStore → Prop)
    : Prop := {
  sim_get_version s m name : sim s m → get_version s name = mem_get_version m name;
  sim_put_version s m name st : sim s m → storable (version st) → length (hash st) = _SIZE →
    ∃ s', put_version s name st = Ok s' ∧ sim s' (mem_put_version m name st);
  sim_delete_version s m name : sim s m → sim (delete_version s name) (mem_delete_version m name);
  sim_get_mutation_mac s m name i : sim s m →
    get_mutation_mac s name i = mem_get_mutation_mac m name i;
  sim_put_mutation_macs s m name v macs : sim s m → storable v →
    ∃ s', put_mutation_macs s name v macs = Ok s' ∧ sim s' (mem_put_mutation_macs m name v macs);
  sim_delete_mutation_macs s m name ixs : sim s m →
    sim (delete_mutation_macs s name ixs) (mem_delete_mutation_macs m name ixs)
}.

#[global] Instance mem_app_store_laws : AppStateStoreLaws InMemoryAppStateStore eq.
Proof. split; intros; subst; try done; eexists; by split. Qed.

(** *** The SQLite tables refine the in-memory store *)

(** The memory entry of an index is the row of its newest version. *)
Definition sql_sim (s : SqliteAppStateStore) (m : InMemoryAppStateStore) : Prop :=
  (∀ name, _versions m !! name = (λ '(v, h), mkHashState v h) <$> app_state_version s !! name) ∧
  ∀ name i, match _macs m !! (name, i) with
            | None => ∀ v, app_state_mutation_macs s !! (name, v, i) = None
            | Some (v, x) => app_state_mutation_macs s !! (name, v, i) = Some x ∧
                ∀ v' x', app_state_mutation_macs s !! (name, v', i) = Some x' → v' ≤ v
            end.

Lemma newest_spec rows :
  match newest rows with
  | None => rows = []
  | Some r => r ∈ rows ∧ ∀ r', r' ∈ rows → r'.1 ≤ r.1
  end.
Proof.
  induction rows as [|r rows IH]; [done|]. cbn [newest foldr]. fold (newest rows).
  destruct (newest rows) as [b|].
  - destruct IH as [Hb Hmax]. destruct (b.1 <=? r.1) eqn:E; zbool.
    + split; [left|]. intros r' [->|Hr']%elem_of_cons; [lia|]. specialize (Hmax r' Hr'). lia.
    + split; [by right|]. intros r' [->|Hr']%elem_of_cons; [lia|auto].
  - subst. split; [left|]. intros r' ->%list_elem_of_singleton. lia.
Qed.

Lemma elem_sql_rows s name i v x :
  (v, x) ∈ sql_rows s name i ↔ app_state_mutation_macs s !! (name, v, i) = Some x.
Proof.
  unfold sql_rows. rewrite list_elem_of_fmap. split.
  - intros ([[[n v'] i'] x'] & Heq & Hin). apply elem_of_map_to_list in Hin.
    apply map_lookup_filter_Some in Hin as [Hl [Hn Hi]]. by simplify_eq/=.
  - intros Hl. exists (name, v, i, x). split; [done|].
    apply elem_of_map_to_list, map_lookup_filter_Some. done.
Qed.

Lemma sql_sim_get s m name i : sql_sim s m →
  sql_get_mutation_mac s name i = mem_get_mutation_mac m name i.
Proof.
  intros [_ Hm]. specialize (Hm name i). unfold sql_get_mutation_mac, mem_get_mutation_mac.
  pose proof (newest_spec (sql_rows s name i)) as Hn.
  destruct (newest _) as [[v x]|]; cbn.
  - destruct Hn as [Hin Hmax]. apply elem_sql_rows in Hin.
    destruct (_macs m !! _) as [[v0 x0]|]; [|by rewrite Hm in Hin]. destruct Hm as [H0 Hle].
    assert (v = v0) as ->; [|cbn; congruence].
    apply Z.le_antisymm; [by eapply Hle|]. by apply (Hmax (v0, x0)), elem_sql_rows.
  - destruct (_macs m !! _) as [[v0 x0]|]; [|done]. destruct Hm as [H0 _].
    apply elem_sql_rows in H0. rewrite Hn in H0. by apply not_elem_of_nil in H0.
Qed.

Lemma sql_sim_put_mac s m name v mac : sql_sim s m →
  sql_sim (sql_put_mac name v s mac) (mem_put_mac name v m mac).
Proof.
  destruct mac as [i x]. intros [Hv Hm]. split.
  { intros n. cbn. rewrite <-(Hv n). unfold mem_put_mac. by repeat case_match. }
  intros n j. specialize (Hm n j). unfold mem_put_mac, sql_put_mac; cbn.
  destruct (decide ((name, i) = (n, j))) as [[= <- <-]|Hne].
  - destruct (_macs m !! (name, i)) as [[v0 x0]|] eqn:E; cbn in *.
    + destruct Hm as [H0 Hle]. destruct (v0 <=? v) eqn:Ev; zbool; cbn;
        rewrite ?lookup_insert_eq, ?E.
      * split; [done|]. intros v' x' H'.
        destruct (decide (v = v')) as [->|]; [lia|].
        rewrite lookup_insert_ne in H' by congruence. specialize (Hle _ _ H'). lia.
      * split; [rewrite lookup_insert_ne by (intros [=]; lia); done|]. intros v' x' H'.
        destruct (decide (v = v')) as [->|]; [lia|].
        rewrite lookup_insert_ne in H' by congruence. eauto.
    + rewrite !lookup_insert_eq. split; [done|]. intros v' x' H'.
      destruct (decide (v = v')) as [->|]; [lia|].
      rewrite lookup_insert_ne in H' by congruence. by rewrite Hm in H'.
  - assert (∀ v', (name, v, i) ≠ (n, v', j)) as Hne' by congruence.
    assert (_macs (match _macs m !! (name, i) with
      | Some existing => if existing.1 <=? v then
          mkMemStore (_versions m) (<[(name, i) := (v, x)]> (_macs m)) else m
      | None => mkMemStore (_versions m) (<[(name, i) := (v, x)]> (_macs m)) end) !! (n, j)
      = _macs m !! (n, j)) as ->.
    { repeat case_match; cbn; rewrite ?lookup_insert_ne by done; done. }
    destruct (_macs m !! (n, j)) as [[v0 x0]|].
    + rewrite lookup_insert_ne by done. destruct Hm as [H0 Hle]. split; [done|].
      intros v' x'. rewrite lookup_insert_ne by done. eauto.
    + intros v'. by rewrite lookup_insert_ne.
Qed.

(** Filtering both tables by a predicate on the collection and the index. *)
Lemma sql_sim_filter s m (P : str → bytes → Prop) `{∀ n i, Decision (P n i)} :
  sql_sim s m →
  sql_sim (mkSqlStore (app_state_version s)
             (filter (λ kv, P kv.1.1.1 kv.1.2) (app_state_mutation_macs s)))
          (mkMemStore (_versions m) (filter (λ kv, P kv.1.1 kv.1.2) (_macs m))).
Proof.
  intros [Hv Hm]. split; [done|]. intros n i. specialize (Hm n i). cbn.
  destruct (decide (P n i)) as [HP|HP].
  - assert (filter (λ kv, P kv.1.1 kv.1.2) (_macs m) !! (n, i) = _macs m !! (n, i)) as ->.
    { apply option_eq. intros e. rewrite map_lookup_filter_Some. cbn. naive_solver. }
    assert (∀ v, filter (λ kv, P kv.1.1.1 kv.1.2) (app_state_mutation_macs s) !! (n, v, i)
      = app_state_mutation_macs s !! (n, v, i)) as E.
    { intros v. apply option_eq. intros e. rewrite map_lookup_filter_Some. cbn. naive_solver. }
    destruct (_macs m !! (n, i)) as [[v x]|]; [split|]; [by rewrite E; apply Hm| |by intros; rewrite E].
    intros v' x'. rewrite E. apply Hm.
  - rewrite (proj2 (map_lookup_filter_None _ _ _)) by (right; cbn; naive_solver).
    intros v. apply map_lookup_filter_None. right. cbn. naive_solver.
Qed.

Lemma sql_sim_delete_mac s m name i : sql_sim s m →
  sql_sim (sql_delete_mac name s i) (mem_delete_mac name m i).
Proof.
  intros Hs. pose proof (sql_sim_filter s m (λ n j, ¬ (n = name ∧ j = i)) Hs) as Hf.
  unfold sql_delete_mac, mem_delete_mac.
  replace (delete (name, i) (_macs m)) with
    (filter (λ kv : str * bytes * (Z * bytes), ¬ (kv.1.1 = name ∧ kv.1.2 = i)) (_macs m)); [done|].
  apply map_eq. intros [n j]. apply option_eq. intros e.
  rewrite map_lookup_filter_Some, lookup_delete_Some. cbn. naive_solver.
Qed.

Lemma foldl_sim {S1 S2 A} (R : S1 → S2 → Prop) (f : S1 → A → S1) (g : S2 → A → S2) l :
  (∀ s1 s2 a, R s1 s2 → R (f s1 a) (g s2 a)) → ∀ s1 s2, R s1 s2 → R (foldl f s1 l) (foldl g s2 l).
Proof. intros Hstep. induction l as [|a l IH]; intros s1 s2 HR; simpl; auto. Qed.

#[global] Instance sql_app_store_laws : AppStateStoreLaws SqliteAppStateStore sql_sim.
Proof.
  split.
  - intros s m name [Hv _]. cbn. unfold sql_get_version, mem_get_version. rewrite Hv.
    by destruct (app_state_version s !! name) as [[v h]|].
  - intros s m name [v h] [Hv Hm] Hst Hl. cbn in *. unfold sql_put_version, storable in *. cbn in *.
    rewrite Hl. change (Z.of_nat _SIZE) with 128. cbn [negb Z.eqb Pos.eqb].
    replace (sql_int v) with true by (symmetry; unfold sql_int; lia). eexists. split; [done|].
    split; [|done]. intros n. cbn. destruct (decide (name = n)) as [->|];
      [by rewrite !lookup_insert_eq|by rewrite !lookup_insert_ne].
  - intros s m name Hs. pose proof (sql_sim_filter s m (λ n _, n ≠ name) Hs) as [_ Hf].
    split; [|exact Hf]. intros n. cbn. destruct Hs as [Hv _].
    destruct (decide (name = n)) as [->|]; [by rewrite !lookup_delete_eq|].
    rewrite !lookup_delete_ne by done. apply Hv.
  - intros. by apply sql_sim_get.
  - intros s m name v macs Hs Hst. cbn. unfold sql_put_mutation_macs, mem_put_mutation_macs.
    assert (sql_int v = true) as -> by (unfold sql_int, storable in *; lia).
    exists (foldl (sql_put_mac name v) s macs). split; [by destruct macs|].
    apply foldl_sim; [|done]. intros. by apply sql_sim_put_mac.
  - intros s m name ixs Hs. cbn. unfold mem_delete_mutation_macs.
    assert (sql_delete_mutation_macs s name ixs = foldl (sql_delete_mac name) s ixs) as ->
      by by destruct ixs.
    apply foldl_sim; [|done]. intros. by apply sql_sim_delete_mac.
Qed.

(** ** Sequences of store operations *)

Inductive StoreOp :=
  | OpPutVersion (name : str) (st : HashState)
  | OpDeleteVersion (name : str)
  | OpPutMacs (name : str) (v : Z) (macs : list MutationMac)
  | OpDeleteMacs (name : str) (ixs : list bytes).

Definition run_op {S} `{AppStateStore S} (s : S) (op : StoreOp) : result S :=
  match op with
  | OpPutVersion n st => put_version s n st
  | OpDeleteVersion n => Ok (delete_version s n)
  | OpPutMacs n v macs => put_mutation_macs s n v macs
  | OpDeleteMacs n ixs => Ok (delete_mutation_macs s n ixs)
  end.

Definition run_ops {S} `{AppStateStore S} (s : S) (ops : list StoreOp) : result S :=
  foldl (λ r op, s ← r; run_op s op) (Ok s) ops.

Definition op_storable (op : StoreOp) : Prop :=
  match op with
  | OpPutVersion _ st => storable (version st) ∧ length (hash st) = _SIZE
  | OpPutMacs _ v _ => storable v
  | _ => True
  end.

Lemma run_op_sim s m op : sql_sim s m → op_storable op →
  ∃ s' m', run_op s op = Ok s' ∧ run_op m op = Ok m' ∧ sql_sim s' m'.
Proof.
  intros Hs Hop. destruct op as [n st|n|n v macs|n ixs]; cbn.
  - destruct Hop. destruct (sim_put_version (sim := sql_sim) s m n st) as (s' & ? & ?); [done..|]. eauto.
  - eexists _, _. split_and!; [done..|]. exact (sim_delete_version (sim := sql_sim) s m n Hs).
  - destruct (sim_put_mutation_macs (sim := sql_sim) s m n v macs) as (s' & ? & ?); [done..|]. eauto.
  - eexists _, _. split_and!; [done..|]. exact (sim_delete_mutation_macs (sim := sql_sim) s m n ixs Hs).
Qed.

Lemma run_ops_sim ops : ∀ s m, sql_sim s m → Forall op_storable ops →
  ∃ s' m', run_ops s ops = Ok s' ∧ run_ops m ops = Ok m' ∧ sql_sim s' m'.
Proof.
  unfold run_ops. induction ops as [|op ops IH]; intros s m Hs Hf; [by exists s, m|].
  apply Forall_cons in Hf as [Hop Hf].
  destruct (run_op_sim s m op Hs Hop) as (s1 & m1 & E1 & E2 & Hs1). cbn [foldl].
  change (mbind (λ s, run_op s op) (Ok s)) with (run_op s op).
  change (mbind (λ s, run_op s op) (Ok m)) with (run_op m op).
  rewrite E1, E2. by apply IH.
Qed.

Definition empty_sql : SqliteAppStateStore := mkSqlStore ∅ ∅.
Definition empty_mem : InMemoryAppStateStore := mkMemStore ∅ ∅.

(** C26: the SQLite app-state store refines the in-memory one: after any sequence of
    writes of 128-byte hashes and versions that fit a column, both report the
    same cursor for every collection and the same value MAC for every index,
    even when MACs are written out of version order. *)
Theorem app_stores_agree (ops : list StoreOp) :
  Forall op_storable ops →
  ∃ (s : SqliteAppStateStore) (m : InMemoryAppStateStore),
    run_ops empty_sql ops = Ok s ∧ run_ops empty_mem ops = Ok m ∧
    ∀ name, get_version s name = get_version m name ∧
            ∀ i, get_mutation_mac s name i = get_mutation_mac m name i.
Proof.
  intros Hf. destruct (run_ops_sim ops empty_sql empty_mem) as (s & m & Hs & Hm & Hsim);
    [|done|].
  - split; [done|]. intros n i. cbn. rewrite lookup_empty. intros v. apply lookup_empty.
  - exists s, m. split_and!; [done..|]. intros name. split; [by apply (sim_get_version (sim := sql_sim) s m)|].
    intros i. by apply (sim_get_mutation_mac (sim := sql_sim) s m).
Qed.

Lemma app_stores_agree_witness :
  let ops := [OpPutMacs (u "regular") 5 [mkMutationMac (bstr "i") (bstr "new")];
              OpPutMacs (u "regular") 3 [mkMutationMac (bstr "i") (bstr "old")];
              OpPutVersion (u "regular") _EMPTY_STATE] in
  ∃ (s : SqliteAppStateStore) (m : InMemoryAppStateStore),
    run_ops empty_sql ops = Ok s ∧ run_ops empty_mem ops = Ok m ∧
    ∀ name, get_version s name = get_version m name ∧
            ∀ i, get_mutation_mac s name i = get_mutation_mac m name i.
Proof. apply app_stores_agree. repeat constructor; cbn; lia. Defined.
