(* ===== verification/AppFetch.v ===== *)
(** * Fetching and applying app-state collections ([src/src/pywhats/appstate/fetch.py])

    The store is any implementation of the [AppStateStore] contract, in a database whose
    writes may fail. Writes made before an exception stay, also the rows of a batch that
    were written before one failed, so the operations live in the state-and-exception
    monad. Reads of the store and [delete_version] are taken to succeed. The server is a list of replies, one per request: a reply is a node, or
    the exception the send or the wait raises; a missing reply means the code
    waits for ever, which the model reports as [OutOfFuel]. *)

From S2P Require Import Prelude PyStr Tokens Jid Node Encoder Crypto LtHash AppCrypto AppPatches AppStore.

Definition _SERVER : JID := mkJID [] (u "s.whatsapp.net") 0.
Definition _XMLNS : str := u "w:sync:app:state".

Record PatchList := mkPatchList {
  pl_name : str;
  pl_has_more_patches : bool;
  pl_patches : list SyncdPatch;
  pl_snapshot : option SyncdSnapshot
}.

(** ** The request *)

Definition build_fetch_collection_content (name : str) (version : Z) (want_snapshot : bool)
    : result Node :=
  let attrs := [(u "name", AStr name);
                (u "return_snapshot", AStr (u (if want_snapshot then "true" else "false")))] in
  attrs ← (if want_snapshot then Ok attrs
           else v ← py_str_int version; Ok (attrs ++ [(u "version", AStr v)]));
  Ok (mkNode (u "sync") [] (CList [mkNode (u "collection") attrs CNone])).

(** ** The reply *)

(** [s.lower()] on the letters that matter: no other character lowers to one of
    the letters of ["true"]. *)
Definition ascii_lower (s : str) : str :=
  (λ c, if (65 <=? c) && (c <=? 90) then c + 32 else c) <$> s.

Definition _attr_bool (node : Node) (name : str) : result bool :=
  s ← get_str node name;
  Ok (bool_decide (ascii_lower s ∈ [u "true"; u "1"])).

Section Parse.
Context {PB : AppProto}.
Variable download_external : option (ExternalBlobReference → result bytes).

Definition _parse_snapshot (collection : Node) : result (option SyncdSnapshot) :=
  match get_child collection (u "snapshot") with
  | None => Ok None
  | Some snapshot_node =>
      let raw := content_bytes snapshot_node in
      if negb (truthy raw) then Ok None
      else
        ref ← parse_ExternalBlobReference raw;
        download ← some_or download_external ValueError;
        data ← download ref;
        snapshot ← parse_SyncdSnapshot data;
        Ok (Some snapshot)
  end.

Definition with_mutations (p : SyncdPatch) (ms : list SyncdMutation) : SyncdPatch :=
  mkPatch (p_version p) ms (p_external_mutations p) (p_snapshot_mac p) (p_patch_mac p) (p_key_id p).

Fixpoint parse_patch_nodes (nodes : list Node) : result (list SyncdPatch) :=
  match nodes with
  | [] => Ok []
  | patch_node :: nodes =>
      let raw := content_bytes patch_node in
      if negb (truthy raw) then parse_patch_nodes nodes
      else
        patch ← parse_SyncdPatch raw;
        patch ← match p_external_mutations patch with
                | None => Ok patch
                | Some ref =>
                    download ← some_or download_external ValueError;
                    data ← download ref;
                    downloaded ← parse_SyncdMutations data;
                    Ok (with_mutations patch downloaded)
                end;
        rest ← parse_patch_nodes nodes;
        Ok (patch :: rest)
  end.

Definition _parse_patches (collection : Node) : result (list SyncdPatch) :=
  match get_child collection (u "patches") with
  | None => Ok []
  | Some patches_node => parse_patch_nodes (get_children patches_node (Some (u "patch")))
  end.

Definition parse_patch_list (collection : Node) : result PatchList :=
  snapshot ← _parse_snapshot collection;
  patches ← _parse_patches collection;
  name ← get_str collection (u "name");
  has_more ← _attr_bool collection (u "has_more_patches");
  Ok (mkPatchList name has_more patches snapshot).
End Parse.

(** ** Applying a reply *)

Definition mac_delta (acc : list MutationMac * list bytes) (mutation : Mutation)
    : list MutationMac * list bytes :=
  let '(added, removed) := acc in
  if mu_operation mutation =? _REMOVE then
    (filter (λ a, mm_index_mac a ≠ mu_index_mac mutation) added,
     removed ++ [mu_index_mac mutation])
  else if mu_operation mutation =? _SET then
    (added ++ [mkMutationMac (mu_index_mac mutation) (mu_value_mac mutation)], removed)
  else (added, removed).

Definition _compute_mac_deltas (mutations : list Mutation) : list MutationMac * list bytes :=
  foldl mac_delta ([], []) mutations.

Section Apply.
Context {HK : Hkdf} {HM : Hmac} {AES : AesCbc} {PB : AppProto} {JS : JsonLoads}.
Context {KS : Type} {KSI : AppStateKeyStore KS}.
Context {S : Type} {SI : AppStateStore S}.

(** The store, and how its coming writes end: [None] is a write the database carries out, [Some (n, e)]
    one that raises [e] after [n] rows, each committed on its own. Once the list is used up
    every write is carried out. *)
Record Db := mkDb { db_store : S; db_faults : list (option (nat * exn)) }.

(** [partial n] is the write cut off after [n] rows. A write that the store itself refuses
    leaves it as it was. *)
Definition store_write (partial : nat → S → result S) (full : S → result S) : SE Db unit := λ d,
  let keep (r : result S) := match r with Ok s => s | Raise _ => db_store d end in
  match db_faults d with
  | Some (n, e) :: faults => (mkDb (keep (partial n (db_store d))) faults, Raise e)
  | faults =>
      let r := full (db_store d) in
      (mkDb (keep r) (tail faults), match r with Ok _ => Ok tt | Raise e => Raise e end)
  end.

(** [put_version] writes one row; the other two are [executemany]. *)
Definition _persist (name : str) (state : HashState) (mutations : list Mutation) : SE Db unit :=
  let '(added, removed) := _compute_mac_deltas mutations in
  _ ← store_write (λ _ s, Ok s) (λ s, put_version s name state);
  _ ← (if truthy removed
       then store_write (λ n s, Ok (delete_mutation_macs s name (take n removed))) (λ s, Ok (delete_mutation_macs s name removed))
       else mret tt);
  if truthy added
  then store_write (λ n s, put_mutation_macs s name (version state) (take n added))
         (λ s, put_mutation_macs s name (version state) added)
  else mret tt.

(** One turn of the loop over the patches. *)
Definition apply_patch (key_store : KS) (name : str) (validate_macs : bool)
    (acc : list Mutation * HashState) (patch : SyncdPatch) : SE Db (list Mutation * HashState) :=
  let '(all_mutations, state) := acc in
  app_state_store ← se_get;
  let _prev := get_mutation_mac (db_store app_state_store) name in
  r ← se_lift (decode_patch patch key_store name state (Some _prev) validate_macs);
  _ ← _persist name (pd_state r) (pd_mutations r);
  mret (all_mutations ++ pd_mutations r, pd_state r).

Definition apply_patch_list (patch_list : PatchList) (key_store : KS) (initial_state : HashState)
    (validate_macs : bool) : SE Db (list Mutation * HashState) :=
  let name := pl_name patch_list in
  acc ← match pl_snapshot patch_list with
        | None => mret ([], initial_state)
        | Some snapshot =>
            r ← se_lift (decode_snapshot snapshot key_store name initial_state validate_macs);
            _ ← _persist name (pd_state r) (pd_mutations r);
            mret (pd_mutations r, pd_state r)
        end;
  se_fold (apply_patch key_store name validate_macs) acc (pl_patches patch_list).
End Apply.
Arguments Db : clear implicits.
Arguments mkDb {S}.
Arguments db_store {S}.
Arguments db_faults {S}.

(** ** The live syncer *)

(** The syncer's surroundings: its store, the server's coming replies with the
    request ids, and what it sent and handed to [on_mutations]. *)
Record World (S : Type) := mkWorld {
  w_store : Db S;
  w_env : list (str * result Node);
  w_sent : list Node;
  w_out : list (str * list Mutation)
}.
Arguments mkWorld {S}.
Arguments w_store {S}.
Arguments w_env {S}.
Arguments w_sent {S}.
Arguments w_out {S}.

Section Syncer.
Context {U : UnicodeDB} {T : TokenTable} {Zl : Zlib}.
Context {HK : Hkdf} {HM : Hmac} {AES : AesCbc} {PB : AppProto} {JS : JsonLoads}.
Context {KS : Type} {KSI : AppStateKeyStore KS}.
Context {S : Type} {SI : AppStateStore S}.
Variable key_store : KS.
Variable download_external : option (ExternalBlobReference → result bytes).
Variable on_mutations : bool.        (* a sink is installed *)

Definition in_store {A} (m : SE (Db S) A) : SE (World S) A := λ w,
  let '(s, r) := m (w_store w) in (mkWorld s (w_env w) (w_sent w) (w_out w), r).

Definition fetch_iq (iq_id : str) (body : Node) : Node :=
  mkNode (u "iq") [(u "id", AStr iq_id); (u "type", AStr (u "set"));
                   (u "xmlns", AStr _XMLNS); (u "to", AJid _SERVER)] (CList [body]).

Definition _fetch_collection (name : str) (version : Z) (want_snapshot : bool)
    : SE (World S) Node := λ w,
  match w_env w with
  | [] => (w, Raise OutOfFuel)
  | (iq_id, reply) :: env =>
      let w1 := mkWorld (w_store w) env (w_sent w) (w_out w) in
      match body ← build_fetch_collection_content name version want_snapshot;
            _ ← encode (fetch_iq iq_id body) false; Ok (fetch_iq iq_id body) with
      | Raise e => (w1, Raise e)
      | Ok iq =>
          (mkWorld (w_store w) env (w_sent w ++ [iq]) (w_out w),
           resp ← reply;
           some_or (sync ← get_child resp (u "sync"); get_child sync (u "collection")) ValueError)
      end
  end.

Definition is_key_not_found (e : exn) : bool := bool_decide (e = AppStateKeyNotFound).

(** The [while has_more] loop; [None] as the page's result is the [break]. *)
Fixpoint fetch_loop (fuel : nat) (name : str) (state : HashState) (want_snapshot : bool)
    (all_mutations : list Mutation) : SE (World S) (list Mutation) :=
  match fuel with
  | O => se_raise OutOfFuel
  | Datatypes.S fuel =>
      collection ← _fetch_collection name (version state) want_snapshot;
      patch_list ← se_lift (parse_patch_list download_external collection);
      page ← se_try (r ← in_store (apply_patch_list patch_list key_store state true); mret (Some r))
               is_key_not_found (λ _, mret None);
      match page with
      | None => mret all_mutations
      | Some (mutations, state) =>
          let all_mutations := all_mutations ++ mutations in
          if pl_has_more_patches patch_list
          then fetch_loop fuel name state false all_mutations
          else mret all_mutations
      end
  end.

Definition emit_mutations (name : str) (ms : list Mutation) : SE (World S) unit := λ w,
  (if truthy ms && on_mutations
   then mkWorld (w_store w) (w_env w) (w_sent w) (w_out w ++ [(name, ms)]) else w, Ok tt).

Definition fetch (name : str) (full_sync only_if_not_synced : bool) : SE (World S) (list Mutation) :=
  _ ← (if full_sync then in_store (λ d, (mkDb (delete_version (db_store d) name) (db_faults d), Ok tt)) else mret tt);
  w ← se_get;
  let state := get_version (db_store (w_store w)) name in
  if negb (version state =? 0) && only_if_not_synced then mret []
  else
    let full_sync := full_sync || (version state =? 0) in
    all_mutations ← fetch_loop (Datatypes.S (length (w_env w))) name state full_sync [];
    _ ← emit_mutations name all_mutations;
    mret all_mutations.

(** [handle_server_sync]: every failure of one collection is logged and dropped. *)
Definition sync_one (collection : Node) : SE (World S) unit :=
  name ← se_lift (get_str collection (u "name"));
  if negb (truthy name) then mret tt
  else se_try (_ ← fetch name false false; mret tt) (λ e, negb (bool_decide (e = OutOfFuel)))
         (λ _, mret tt).

Definition handle_server_sync (node : Node) : SE (World S) unit :=
  se_fold (λ _ c, sync_one c) tt (get_children node (Some (u "collection"))).
End Syncer.
