(* ===== verification/AppSync.v ===== *)
(** * The app-state integrity invariant

    The stored cursor of a collection carries an LT-hash of exactly the value MACs
    stored for it. Decoding and persisting snapshots and patches keeps it so, on
    every path, against any store that meets the [AppStateStore] contract. *)

From S2P Require Import Prelude PyStr Json Tokens Jid Node Encoder Crypto LtHash AppCrypto AppPatches.
From S2P Require Import AppStore AppFetch.

(** ** The MAC deltas of a patch replay its mutations *)

Definition put_all (M : gmap bytes bytes) (l : list MutationMac) : gmap bytes bytes :=
  foldl (λ M a, <[mm_index_mac a := mm_value_mac a]> M) M l.

Definition delete_all (M : gmap bytes bytes) (l : list bytes) : gmap bytes bytes :=
  foldl (λ M i, delete i M) M l.

Lemma put_all_filter M l i :
  put_all (delete i M) (filter (λ a, mm_index_mac a ≠ i) l) = delete i (put_all M l).
Proof.
  revert M. induction l as [|[j x] l IH]; intros M; [done|].
  rewrite filter_cons. cbn [mm_index_mac mm_value_mac]. destruct (decide (j ≠ i)) as [Hne|Heq].
  - cbn [put_all foldl mm_index_mac mm_value_mac].
    rewrite <-delete_insert_ne by congruence. apply IH.
  - apply dec_stable in Heq as ->. cbn [put_all foldl mm_index_mac mm_value_mac].
    specialize (IH (<[i := x]> M)). unfold put_all in *. by rewrite delete_insert_eq in IH.
Qed.

(** The two steps of [_persist] have the effect of the mutations in order. *)
Lemma mac_deltas_replay M ms ds :
  Forall2 decodes ms ds → Forall (λ m, known_op m = true) ms →
  let '(added, removed) := _compute_mac_deltas ds in
  put_all (delete_all M removed) added = replay M ms.
Proof.
  unfold _compute_mac_deltas. revert ds.
  induction ms as [|m ms IH] using rev_ind; intros ds HF Hk.
  { apply Forall2_nil_inv_l in HF as ->. done. }
  apply Forall2_app_inv_l in HF as (ds1 & ds2 & HF1 & HF2 & ->).
  apply Forall2_cons_inv_l in HF2 as (d & ds3 & Hd & HF3 & ->).
  apply Forall2_nil_inv_l in HF3 as ->. apply Forall_app in Hk as [Hk1 [Hk2 _]%Forall_cons].
  specialize (IH ds1 HF1 Hk1). unfold replay in *. rewrite !foldl_app. cbn [foldl].
  destruct (foldl mac_delta ([], []) ds1) as [added removed]. rewrite <-IH.
  destruct Hd as (Hop & Hi & Hv & _). unfold mac_delta, apply_mutation, known_op in *.
  rewrite Hop, Hi, Hv. unfold _SET, _REMOVE in *.
  destruct (m_operation m =? 0) eqn:E0, (m_operation m =? 1) eqn:E1; zbool; [lia| | |lia].
  - unfold put_all. by rewrite foldl_app.
  - unfold delete_all at 1. rewrite foldl_app. cbn [foldl]. by rewrite put_all_filter.
Qed.

(** ** Writing the MACs of one version *)

Definition represents {S} `{AppStateStore S} (s : S) (name : str) (M : gmap bytes bytes) : Prop :=
  ∀ i, get_mutation_mac s name i = M !! i.

(** No stored MAC of the collection is newer than [v]. *)
Definition macs_upto (m : InMemoryAppStateStore) (name : str) (v : Z) : Prop :=
  ∀ i w x, _macs m !! (name, i) = Some (w, x) → w ≤ v.

Definition others_kept (name : str) (m m' : InMemoryAppStateStore) : Prop :=
  ∀ n, n ≠ name → mem_get_version m' n = mem_get_version m n ∧
                  ∀ i, mem_get_mutation_mac m' n i = mem_get_mutation_mac m n i.

#[global] Instance others_kept_preorder name : PreOrder (others_kept name).
Proof.
  split; [done|]. intros m1 m2 m3 H12 H23 n Hn.
  destruct (H12 n Hn) as [V1 M1], (H23 n Hn) as [V2 M2]. split; [congruence|].
  intros i. by rewrite M2, M1.
Qed.

Lemma mem_delete_macs_spec name ixs : ∀ m M v, represents m name M → macs_upto m name v →
  let m' := mem_delete_mutation_macs m name ixs in
  represents m' name (delete_all M ixs) ∧ macs_upto m' name v ∧ _versions m' = _versions m ∧
  others_kept name m m'.
Proof.
  induction ixs as [|i ixs IH]; intros m M v Hr Hv; [by split_and!|].
  cbn zeta. cbn [mem_delete_mutation_macs delete_all foldl].
  destruct (IH (mem_delete_mac name m i) (delete i M) v) as (H1 & H2 & H3 & H4).
  - intros j. cbn. unfold mem_get_mutation_mac. cbn. destruct (decide (i = j)) as [->|].
    + by rewrite !lookup_delete_eq.
    + rewrite !lookup_delete_ne by congruence. apply Hr.
  - intros j w x. cbn. rewrite lookup_delete_Some. intros [_ ?]. eauto.
  - split_and!; [exact H1|exact H2|exact H3|]. etrans; [|exact H4].
    intros n Hn. split; [done|]. intros j. unfold mem_get_mutation_mac. cbn.
    by rewrite lookup_delete_ne by congruence.
Qed.

Lemma mem_put_macs_spec name v macs : ∀ m M, represents m name M → macs_upto m name v →
  let m' := mem_put_mutation_macs m name v macs in
  represents m' name (put_all M macs) ∧ macs_upto m' name v ∧ _versions m' = _versions m ∧
  others_kept name m m'.
Proof.
  induction macs as [|[i x] macs IH]; intros m M Hr Hv; [by split_and!|].
  cbn zeta. cbn [mem_put_mutation_macs put_all foldl mm_index_mac mm_value_mac].
  assert (mem_put_mac name v m (mkMutationMac i x) =
    mkMemStore (_versions m) (<[(name, i) := (v, x)]> (_macs m))) as ->.
  { unfold mem_put_mac. cbn. destruct (_macs m !! (name, i)) as [[w y]|] eqn:E; [|done].
    apply Hv in E. cbn. by rewrite (proj2 (Z.leb_le _ _)). }
  edestruct (IH (mkMemStore (_versions m) (<[(name, i) := (v, x)]> (_macs m))) (<[i := x]> M))
    as (H1 & H2 & H3 & H4).
  - intros j. cbn. unfold mem_get_mutation_mac. cbn. destruct (decide (i = j)) as [->|].
    + by rewrite !lookup_insert_eq.
    + rewrite !lookup_insert_ne by congruence. apply Hr.
  - intros j w y. cbn. rewrite lookup_insert_Some. intros [[_ [= <- _]]|[_ ?]]; [lia|eauto].
  - split_and!; [exact H1|exact H2|exact H3|]. etrans; [|exact H4].
    intros n Hn. split; [done|]. intros j. unfold mem_get_mutation_mac. cbn.
    by rewrite lookup_insert_ne by congruence.
Qed.

Section Sync.
Context {HK : Hkdf} {HM : Hmac} {AES : AesCbc} {PB : AppProto} {JS : JsonLoads}.
Context {KS : Type} {KSI : AppStateKeyStore KS}.
Context {S : Type} {SI : AppStateStore S} {sim : S → InMemoryAppStateStore → Prop}.
Context {SL : AppStateStoreLaws S sim}.

(** The invariant, on a store and the in-memory store it simulates. *)
Definition synced (s : S) (m : InMemoryAppStateStore) (name : str) : Prop :=
  sim s m ∧ macs_upto m name (version (get_version s name)) ∧
  ∃ M, represents s name M ∧ hash_matches (hash (get_version s name)) M.

Lemma represents_sim s m name M : sim s m → represents s name M ↔ represents m name M.
Proof.
  intros Hs. unfold represents.
  split; intros H i; rewrite <-H; [symmetry|]; by apply (sim_get_mutation_mac (sim := sim) s m).
Qed.

(** What a failed write leaves behind, [n] rows into it: the cursor is the new one already,
    [st], but of the MACs of [ds] only those of the first rows are deleted or put. *)
Definition torn (n : nat) (s0 s : S) (m : InMemoryAppStateStore) (name : str) (st : HashState) (ds : list Mutation) : Prop :=
  let '(added, removed) := _compute_mac_deltas ds in
  sim s m ∧ get_version s name = st ∧
  ∃ M, represents s0 name M ∧ hash_matches (hash st) (put_all (delete_all M removed) added) ∧
    (represents s name (delete_all M (take n removed)) ∨
     represents s name (put_all (delete_all M removed) (take n added))).

(** How a write of the store goes: all of it, or a failure was due and it is cut off. *)
Definition write_spec (write : SE (Db S) unit) (d : Db S) (full : S → Prop) (partial : nat → S → Prop) : Prop :=
  let out := write d in
  db_faults out.1 ⊆ db_faults d ∧
  match out.2 with
  | Ok _ => full (db_store out.1)
  | Raise e => ∃ n, Some (n, e) ∈ db_faults d ∧ partial n (db_store out.1)
  end.

Lemma store_write_spec (partial : nat → S → result S) (full : S → result S) (d : Db S) (P : S → Prop) (Q : nat → S → Prop) :
  (∃ s1, full (db_store d) = Ok s1 ∧ P s1) → (∀ n, ∃ s1, partial n (db_store d) = Ok s1 ∧ Q n s1) →
  write_spec (store_write partial full) d P Q.
Proof.
  intros (s1 & Hf & HP) Hp. unfold write_spec, store_write. destruct d as [s [|[[n e]|] fs]]; cbn in *; rewrite ?Hf; cbn.
  - done.
  - destruct (Hp n) as (s2 & -> & HQ). split; [set_solver|]. exists n. split; [left|done].
  - split; [set_solver|done].
Qed.

Lemma write_spec_mono write d (P P' : S → Prop) (Q Q' : nat → S → Prop) :
  write_spec write d P Q → (∀ s, P s → P' s) → (∀ n s, Q n s → Q' n s) → write_spec write d P' Q'.
Proof.
  unfold write_spec. intros [Hf H] HP HQ. split; [done|]. destruct (write d) as [d' [u|e]]; cbn in *; [auto|].
  destruct H as (n & ? & ?). exists n. auto.
Qed.

Lemma write_spec_bind w1 w2 d (P P' : S → Prop) (Q Q' : nat → S → Prop) :
  write_spec w1 d P Q → (∀ n s, Q n s → Q' n s) → (∀ d1, P (db_store d1) → write_spec w2 d1 P' Q') →
  write_spec (_ ← w1; w2) d P' Q'.
Proof.
  unfold write_spec, mbind, se_bind. intros [Hf H] HQ H2. destruct (w1 d) as [d1 [u|e]]; cbn in *.
  - destruct (H2 d1 H) as [Hf2 H3]. split; [by etrans|]. destruct (w2 d1) as [d2 [u2|e]]; cbn in *; [done|].
    destruct H3 as (n & Hn & ?). exists n. split; [by apply Hf|done].
  - split; [done|]. destruct H as (n & ? & ?). exists n. auto.
Qed.

Lemma cursor_stage (d : Db S) m name st : sim (db_store d) m → storable (version st) → length (hash st) = _SIZE →
  write_spec (store_write (λ _ s, Ok s) (λ s, put_version s name st)) d
    (λ s, sim s (mem_put_version m name st)) (λ _ s, s = db_store d).
Proof. intros Hs Hst Hl. apply store_write_spec; [by apply (sim_put_version (sim := sim))|eauto]. Qed.

Lemma delete_stage (d : Db S) m name removed : sim (db_store d) m →
  write_spec (if truthy removed
              then store_write (λ n s, Ok (delete_mutation_macs s name (take n removed))) (λ s, Ok (delete_mutation_macs s name removed))
              else mret tt) d
    (λ s, sim s (mem_delete_mutation_macs m name removed)) (λ n s, sim s (mem_delete_mutation_macs m name (take n removed))).
Proof.
  intros Hs. destruct removed as [|i l]; cbn [truthy]; [done|].
  apply store_write_spec; intros; eexists; (split; [done|]); by apply (sim_delete_mutation_macs (sim := sim)).
Qed.

Lemma put_stage (d : Db S) m name v added : sim (db_store d) m → storable v →
  write_spec (if truthy added
              then store_write (λ n s, put_mutation_macs s name v (take n added)) (λ s, put_mutation_macs s name v added)
              else mret tt) d
    (λ s, sim s (mem_put_mutation_macs m name v added)) (λ n s, sim s (mem_put_mutation_macs m name v (take n added))).
Proof.
  intros Hs Hv. destruct added as [|a l]; cbn [truthy]; [done|].
  apply store_write_spec; intros; by apply (sim_put_mutation_macs (sim := sim)).
Qed.

(** The cursor and the MACs of a store that simulates [m'], when only MACs were written since
    the cursor. *)
Lemma cursor_kept m m' name st s' :
  _versions m' = _versions (mem_put_version m name st) → others_kept name (mem_put_version m name st) m' →
  sim s' m' → others_kept name m m' ∧ get_version s' name = st.
Proof.
  intros Hf Ho Hs'. split.
  - etrans; [|exact Ho]. intros n Hn. split; [|done]. unfold mem_get_version. cbn. by rewrite lookup_insert_ne by done.
  - rewrite (sim_get_version (sim := sim) s' m') by done. unfold mem_get_version. rewrite Hf. cbn. by rewrite lookup_insert_eq.
Qed.

(** [_persist] writes everything, or it fails: before the cursor is written, or with only the
    first MACs written. *)
Lemma persist_spec (d : Db S) m name st ms ds M :
  sim (db_store d) m → represents (db_store d) name M → macs_upto m name (version st) →
  storable (version st) → hash_matches (hash st) (replay M ms) →
  Forall2 decodes ms ds → Forall (λ m, known_op m = true) ms →
  write_spec (_persist name st ds) d
    (λ s, get_version s name = st ∧ ∃ m', synced s m' name ∧ others_kept name m m')
    (λ n s, s = db_store d ∨ ∃ m', torn n (db_store d) s m' name st ds ∧ others_kept name m m').
Proof.
  intros Hs HM0 Hv Hst Hh HF Hk. pose proof (mac_deltas_replay M ms ds HF Hk) as HD.
  unfold _persist, torn. destruct (_compute_mac_deltas ds) as [added removed]. rewrite <-HD in Hh. clear HD HF Hk.
  set (m1 := mem_put_version m name st).
  assert (represents m1 name M) as R1 by (by apply (represents_sim (db_store d) m)).
  destruct (mem_delete_macs_spec name removed m1 M (version st) R1 Hv) as (R2 & U2 & V2 & O2).
  assert (∀ n s' m', sim s' m' → _versions m' = _versions m1 → others_kept name m1 m' →
    (represents m' name (delete_all M (take n removed)) ∨ represents m' name (put_all (delete_all M removed) (take n added))) →
    s' = db_store d ∨ ∃ m', (sim s' m' ∧ get_version s' name = st ∧ ∃ M0, represents (db_store d) name M0 ∧
      hash_matches (hash st) (put_all (delete_all M0 removed) added) ∧
      (represents s' name (delete_all M0 (take n removed)) ∨ represents s' name (put_all (delete_all M0 removed) (take n added)))) ∧
      others_kept name m m') as Htorn.
  { intros n s' m' C V O HR. destruct (cursor_kept m m' name st s' V O C) as [Ho Hg]. right. exists m'. split; [|exact Ho].
    split_and!; [exact C|exact Hg|]. exists M. by rewrite !(represents_sim s' m'). }
  eapply write_spec_bind; [exact (cursor_stage d m name st Hs Hst (proj1 Hh))|by left|]. intros d1 C1. fold m1 in C1.
  eapply write_spec_bind; [exact (delete_stage d1 m1 name removed C1)| |].
  { intros n s' C. destruct (mem_delete_macs_spec name (take n removed) m1 M (version st) R1 Hv) as (R & _ & V & O).
    apply (Htorn n s' _ C V O). by left. }
  intros d2 C2. eapply write_spec_mono; [exact (put_stage d2 _ name (version st) added C2 Hst)| |].
  - intros s' C. destruct (mem_put_macs_spec name (version st) added _ _ R2 U2) as (R3 & U3 & V3 & O3).
    destruct (cursor_kept m _ name st s' (eq_trans V3 V2) (transitivity O2 O3) C) as [Ho Hg].
    split; [exact Hg|]. eexists. split; [|exact Ho].
    split_and!; [exact C|by rewrite Hg|]. exists (put_all (delete_all M removed) added). rewrite Hg.
    split; [|exact Hh]. by apply (represents_sim _ _ _ _ C).
  - intros n s' C. destruct (mem_put_macs_spec name (version st) (take n added) _ _ R2 U2) as (R3 & _ & V3 & O3).
    apply (Htorn n s' _ C (eq_trans V3 V2) (transitivity O2 O3)). by right.
Qed.

(** ** What is asked of the server's data *)

Definition patch_wf (v : Z) (p : SyncdPatch) : Prop :=
  v ≤ p_version p ∧ storable (p_version p) ∧ Forall (λ m, known_op m = true) (p_mutations p).

Fixpoint patches_wf (v : Z) (ps : list SyncdPatch) : Prop :=
  match ps with [] => True | p :: ps => patch_wf v p ∧ patches_wf (p_version p) ps end.

(** A snapshot lists each index once, and comes to a collection without them. *)
Definition snapshot_wf (s : S) (name : str) (v : Z) (o : option SyncdSnapshot) : Prop :=
  match o with
  | None => True
  | Some sn => v ≤ s_version sn ∧ storable (s_version sn) ∧ NoDup (r_index_blob <$> s_records sn) ∧
      ∀ r, r ∈ s_records sn → get_mutation_mac s name (r_index_blob r) = None
  end.

Definition after_snapshot (v : Z) (o : option SyncdSnapshot) : Z :=
  match o with None => v | Some sn => s_version sn end.

Definition patch_list_wf (s : S) (v : Z) (pl : PatchList) : Prop :=
  snapshot_wf s (pl_name pl) v (pl_snapshot pl) ∧
  patches_wf (after_snapshot v (pl_snapshot pl)) (pl_patches pl).

Lemma macs_upto_le m name v v' : macs_upto m name v → v ≤ v' → macs_upto m name v'.
Proof. intros H Hle i w x E. specialize (H i w x E). lia. Qed.

(** The mutations of the parts of a reply. *)
Definition parts (pl : PatchList) : list (list SyncdMutation) :=
  from_option (λ sn, [mkSyncdMutation _SET <$> s_records sn]) [] (pl_snapshot pl) ++ (p_mutations <$> pl_patches pl).

(** The invariant holds when [prog] ends, with [good] of what it returns; unless a write
    failed that left the MACs of one part behind its cursor. *)
Definition kept {A} (name : str) (ps : list (list SyncdMutation)) (prog : SE (Db S) A) (d : Db S) (m : InMemoryAppStateStore)
    (good : A → S → Prop) : Prop :=
  let out := prog d in
  db_faults out.1 ⊆ db_faults d ∧
  ((∃ m', synced (db_store out.1) m' name ∧ others_kept name m m' ∧
      match out.2 with Ok a => good a (db_store out.1) | Raise _ => True end) ∨
   ∃ n e s0 m0 m' st ms ds, out.2 = Raise e ∧ Some (n, e) ∈ db_faults d ∧ synced s0 m0 name ∧
      ms ∈ ps ∧ Forall2 decodes ms ds ∧ torn n s0 (db_store out.1) m' name st ds ∧ others_kept name m m').

Lemma kept_ret {A} name ps (a : A) d m (good : A → S → Prop) :
  synced (db_store d) m name → good a (db_store d) → kept name ps (mret a) d m good.
Proof. intros H Hg. split; [done|]. left. by exists m. Qed.

Lemma kept_lift {A B} name ps (r : result A) (f : A → SE (Db S) B) d m (good : B → S → Prop) :
  synced (db_store d) m name → (∀ a, r = Ok a → kept name ps (f a) d m good) → kept name ps (a ← se_lift r; f a) d m good.
Proof. intros H Hf. destruct r as [a|e]; [by apply (Hf a)|]. split; [done|]. left. by exists m. Qed.

Lemma kept_bind {A B} name ps (p : SE (Db S) A) (f : A → SE (Db S) B) d m (g1 : A → S → Prop) (g2 : B → S → Prop) :
  kept name ps p d m g1 →
  (∀ a d1 m1, synced (db_store d1) m1 name → g1 a (db_store d1) → kept name ps (f a) d1 m1 g2) →
  kept name ps (p ≫= f) d m g2.
Proof.
  unfold kept, mbind, se_bind. intros [Hf H] H2. destruct (p d) as [d1 [a|e]]; cbn in *.
  - destruct H as [(m1 & Hsy & Ho & Hg)|(? & ? & ? & ? & ? & ? & ? & ? & [=] & _)].
    destruct (H2 a d1 m1 Hsy Hg) as [Hf2 H3]. split; [by etrans|]. destruct H3 as [(m2 & H3 & Ho2 & Hg2)|H3].
    + left. exists m2. split_and!; [done|by etrans|done].
    + destruct H3 as (n & e & s0 & m0 & m' & st & ms & ds & He & Hin & H0 & Hms & HF & Ht & Ho2). right.
      exists n, e, s0, m0, m', st, ms, ds. split_and!; try done; [by apply Hf|by etrans].
  - split; [done|]. destruct H as [(m1 & ? & ? & _)|(n & e' & s0 & m0 & m' & st & ms & ds & [= <-] & H)]; [left; by exists m1|].
    right. by exists n, e, s0, m0, m', st, ms, ds.
Qed.

(** What was decoded on the cursor is persisted. *)
Lemma persist_kept name ps st ms ds d m :
  synced (db_store d) m name → version (get_version (db_store d) name) ≤ version st → storable (version st) → ms ∈ ps →
  (∀ M, represents (db_store d) name M → hash_matches (hash (get_version (db_store d) name)) M → hash_matches (hash st) (replay M ms)) →
  Forall2 decodes ms ds → Forall (λ m, known_op m = true) ms →
  kept name ps (_persist name st ds) d m (λ _ s, get_version s name = st).
Proof.
  intros Hsy Hle Hst Hms Hh HF Hk. pose proof Hsy as (Hs & Hu & M & HM0 & HhM).
  destruct (persist_spec d m name st ms ds M) as [Hf H]; [done..| |done|by apply Hh|done|done|].
  { intros i w x E. specialize (Hu i w x E). lia. }
  split; [exact Hf|]. destruct (_persist name st ds d) as [d' [u|e]]; cbn in *.
  - left. destruct H as (Hg & m' & ? & ?). by exists m'.
  - destruct H as (n & Hn & [->|(m' & Ht & Ho)]); [left; by exists m|]. right.
    by exists n, e, (db_store d), m, m', st, ms, ds.
Qed.

Lemma apply_patch_kept ks name vm ps acc p d m :
  synced (db_store d) m name → acc.2 = get_version (db_store d) name → patch_wf (version acc.2) p → p_mutations p ∈ ps →
  kept name ps (apply_patch ks name vm acc p) d m
    (λ acc' s, acc'.2 = get_version s name ∧ version acc'.2 = p_version p).
Proof.
  destruct acc as [all st]. intros Hsy Hacc (Hle & Hst & Hk) Hp. cbn [snd] in *. subst st.
  unfold apply_patch. change (kept name ps (x ← se_get; ?f x) d) with (kept name ps (f d) d).
  apply kept_lift; [done|]. intros r [Est HF]%decode_patch_inv.
  assert (version (pd_state r) = p_version p) as Ev by by rewrite Est.
  eapply (kept_bind name ps); [eapply (persist_kept name ps (pd_state r) (p_mutations p)); [done|by rewrite Ev..|done| |done|done]|].
  - intros M HM0 Hh. rewrite Est. cbn [hash].
    rewrite (update_hash_ext _ _ _ (λ i, M !! i)) by exact HM0. exact (update_hash_matches _ M _ Hh).
  - intros [] d1 m1 Hsy1 Hg. apply kept_ret; [done|]. cbn. by rewrite Hg.
Qed.

Lemma apply_patches_kept ks name vm ps pl : ∀ acc d m,
  synced (db_store d) m name → acc.2 = get_version (db_store d) name → patches_wf (version acc.2) pl →
  (∀ p, p ∈ pl → p_mutations p ∈ ps) →
  kept name ps (se_fold (apply_patch ks name vm) acc pl) d m (λ acc' s, acc'.2 = get_version s name).
Proof.
  induction pl as [|p pl IH]; intros acc d m Hsy Hacc Hwf Hps; [by apply kept_ret|].
  destruct Hwf as [Hp Hpl]. cbn [se_fold]. eapply kept_bind; [apply apply_patch_kept; [done..|apply Hps; left]|].
  intros acc1 d1 m1 Hsy1 [Hg Hv]. apply IH; [done|done|by rewrite Hv|]. intros q Hq. apply Hps. by right.
Qed.

Lemma apply_patch_list_kept pl ks vm d m :
  synced (db_store d) m (pl_name pl) →
  patch_list_wf (db_store d) (version (get_version (db_store d) (pl_name pl))) pl →
  kept (pl_name pl) (parts pl) (apply_patch_list pl ks (get_version (db_store d) (pl_name pl)) vm) d m
    (λ acc s, acc.2 = get_version s (pl_name pl)).
Proof.
  intros Hsy [Hsn Hps]. unfold apply_patch_list. set (name := pl_name pl) in *.
  assert (∀ p, p ∈ pl_patches pl → p_mutations p ∈ parts pl) as Hparts.
  { intros p Hp. apply elem_of_app. right. by apply list_elem_of_fmap_2. }
  apply (kept_bind _ _ _ _ _ _ (λ acc s, acc.2 = get_version s name ∧
    version acc.2 = after_snapshot (version (get_version (db_store d) name)) (pl_snapshot pl))); cycle 1.
  { intros acc d1 m1 Hsy1 [Hg Hv]. apply apply_patches_kept; [done|done|by rewrite Hv|done]. }
  unfold parts. destruct (pl_snapshot pl) as [sn|]; cbn [after_snapshot from_option]; [|by apply kept_ret].
  apply kept_lift; [done|]. intros r [Est HF]%decode_snapshot_inv. destruct Hsn as (Hle & Hst & Hnd & Hfresh).
  assert (version (pd_state r) = s_version sn) as Ev by by rewrite Est.
  eapply (kept_bind name); [eapply (persist_kept name _ (pd_state r) (mkSyncdMutation _SET <$> s_records sn));
    [done|by rewrite Ev..|by left| |done|by apply Forall_fmap, Forall_forall]|].
  - intros M HM0 Hh. rewrite Est. cbn [hash]. apply snapshot_hash_matches; [done..|].
    intros x Hx. rewrite <-HM0. by apply Hfresh.
  - intros [] d1 m1 Hsy1 Hg. apply kept_ret; [done|]. cbn. by rewrite Hg.
Qed.

Lemma empty_hash_matches : hash_matches (hash _EMPTY_STATE) ∅.
Proof.
  split; [reflexivity|]. intros k Hk. unfold macs_sum. rewrite map_fold_empty.
  do 64 (destruct k as [|k]; [vm_compute; reflexivity|]). lia.
Qed.

(** Forgetting the cursor with its MACs starts the collection afresh. *)
Lemma delete_version_synced s m name : sim s m → ∃ m', synced (delete_version s name) m' name ∧ others_kept name m m'.
Proof.
  intros Hs. exists (mem_delete_version m name).
  pose proof (sim_delete_version (sim := sim) s m name Hs) as Hd.
  assert (get_version (delete_version s name) name = _EMPTY_STATE) as Hg.
  { rewrite (sim_get_version (sim := sim) _ _ _ Hd). unfold mem_get_version. cbn. by rewrite lookup_delete_eq. }
  assert (∀ i, _macs (mem_delete_version m name) !! (name, i) = None) as Hn.
  { intros i. cbn. apply map_lookup_filter_None. right. intros x _ Hx. by apply Hx. }
  split.
  - split_and!; [exact Hd|intros i w x E; by rewrite Hn in E|]. exists ∅. rewrite Hg. split; [|exact empty_hash_matches].
    apply (represents_sim _ _ _ _ Hd). intros i.
    change (mem_get_mutation_mac (mem_delete_version m name) name i = None). unfold mem_get_mutation_mac. by rewrite Hn.
  - intros n Hne. unfold mem_get_version, mem_get_mutation_mac. cbn. rewrite lookup_delete_ne by done. split; [done|].
    intros i. rewrite map_lookup_filter. by destruct (_macs m !! (n, i)); cbn; [rewrite option_guard_True|].
Qed.
End Sync.

(** C8: applying a reply keeps the integrity invariant of its collection, that the stored
    cursor is the LT-hash of the stored value MACs, whatever the reply's MACs and keys are
    and whichever exception decoding raises: whatever prefix of its snapshot and patches was
    accepted, the invariant holds for it, the state returned on success is the stored
    cursor, and other collections are untouched. The reply is taken to have versions that do
    not decrease and fit the database, only SET and REMOVE operations, and a snapshot with
    distinct indexes that are new to the store. The writes of the store may fail at any
    moment. Then the invariant holds all the same, or the exception is that of a failed write
    of MACs, and the store has the new cursor of the part beside only those of its MACs that
    were deleted and put before: [_persist] is no transaction. Forgetting the collection's
    version, as a full sync does first, gives the invariant again. *)
Theorem apply_patch_list_integrity
    {HK : Hkdf} {HM : Hmac} {AES : AesCbc} {PB : AppProto} {JS : JsonLoads}
    {KS : Type} {KSI : AppStateKeyStore KS}
    {S : Type} {SI : AppStateStore S} {sim : S → InMemoryAppStateStore → Prop}
    {SL : AppStateStoreLaws S sim} (pl : PatchList) (ks : KS) (vm : bool) (s : S) (faults : list (option (nat * exn))) m :
  synced (sim := sim) s m (pl_name pl) →
  patch_list_wf s (version (get_version s (pl_name pl))) pl →
  let out := apply_patch_list pl ks (get_version s (pl_name pl)) vm (mkDb s faults) in
  ((∃ m', synced (sim := sim) (db_store out.1) m' (pl_name pl) ∧ others_kept (pl_name pl) m m' ∧
      match out.2 with Ok (_, st) => st = get_version (db_store out.1) (pl_name pl) | Raise _ => True end) ∨
   (∃ n e s0 m0 m' st ms ds, out.2 = Raise e ∧ Some (n, e) ∈ faults ∧ synced (sim := sim) s0 m0 (pl_name pl) ∧
      ms ∈ parts pl ∧ Forall2 decodes ms ds ∧ torn (sim := sim) n s0 (db_store out.1) m' (pl_name pl) st ds ∧
      others_kept (pl_name pl) m m')) ∧
  ∃ m', synced (sim := sim) (delete_version (db_store out.1) (pl_name pl)) m' (pl_name pl) ∧ others_kept (pl_name pl) m m'.
Proof.
  intros Hsy Hwf out. destruct (apply_patch_list_kept pl ks vm (mkDb s faults) m Hsy Hwf) as [_ H].
  cbn [db_store db_faults] in H. fold out in H. clearbody out.
  destruct H as [(m' & Hsy' & Ho & Hg)|(n & e & s0 & m0 & m' & st & ms & ds & H)].
  - destruct (delete_version_synced _ _ (pl_name pl) (proj1 Hsy')) as (m2 & H2 & Ho2). split.
    + left. exists m'. split_and!; [done|done|]. destruct (out.2) as [[ms st]|e]; exact Hg.
    + exists m2. split; [done|by etrans].
  - destruct H as (He & Hn & H0 & Hms & HF & Ht & Ho). assert (sim (db_store out.1) m') as Hs.
    { unfold torn in Ht. destruct (_compute_mac_deltas ds). apply Ht. }
    destruct (delete_version_synced _ _ (pl_name pl) Hs) as (m2 & H2 & Ho2). split.
    + right. by exists n, e, s0, m0, m', st, ms, ds.
    + exists m2. split; [done|by etrans].
Qed.

(** *** A concrete run: two patches with genuine MACs on an empty SQLite store *)

Module Demo.
Definition demo_proto : AppProto := {|
  parse_SyncActionData d := Ok (mkActionData d (mkAction 1 (false, 0) false false ([], []) []) 1);
  parse_SyncdPatch _ := Raise ProtobufError;
  parse_SyncdSnapshot _ := Raise ProtobufError;
  parse_SyncdMutations _ := Raise ProtobufError;
  parse_ExternalBlobReference _ := Raise ProtobufError
|}.
Definition demo_json : JsonLoads := λ d, s ← utf8_decode d; Ok (JArr [JStr s]).
Definition demo_key : AppStateSyncKey := mkSyncKey (bstr "kid") (bstr "root-key") [] 7.
Definition demo_keys : InMemoryAppStateKeyStore := {[ bstr "kid" := demo_key ]}.
Definition name : str := u "regular".

(** The primary's side: encrypt and authenticate one mutation. *)
Definition seal (op : Z) (index : bytes) : SyncdMutation :=
  let k := expand_app_state_keys (H := toy_hkdf) (bstr "root-key") in
  let iv := replicate 16 (mkb 5) in
  let c := match aes_cbc_enc (AesCbc := toy_aes) (k_value_encryption k) iv (pkcs7_pad index) with
           | Ok c => iv ++ c | Raise _ => [] end in
  let mac := match generate_content_mac (H := toy_hmac) op c (bstr "kid") (k_value_mac k) with
             | Ok m => m | Raise _ => [] end in
  mkSyncdMutation op (mkRecord (Sha256.hmac_sha256 (k_index k) index) (c ++ mac) (bstr "kid")).

Definition seal_patch (v : Z) (h : bytes) (ms : list SyncdMutation) (gp : bytes → option bytes)
    : SyncdPatch :=
  let k := expand_app_state_keys (H := toy_hkdf) (bstr "root-key") in
  let h' := _update_hash (HK := toy_hkdf) h ms (Some gp) in
  let sm := Sha256.hmac_sha256 (k_snapshot_mac k) (h' ++ be_bytes 8 v ++ bstr "regular") in
  let pm := Sha256.hmac_sha256 (k_patch_mac k)
    (sm ++ (ms ≫= λ m, last32 (r_value_blob (m_record m))) ++ be_bytes 8 v ++ bstr "regular") in
  mkPatch v ms None sm pm (bstr "kid").

Definition set_mute : SyncdMutation := seal 0 (bstr "mute").
Definition patch1 : SyncdPatch := seal_patch 1 (hash _EMPTY_STATE) [set_mute] (λ _, None).
Definition h1 : bytes := _update_hash (HK := toy_hkdf) (hash _EMPTY_STATE) [set_mute] (Some (λ _, None)).
Definition patch2 : SyncdPatch :=
  seal_patch 2 h1 [seal 1 (bstr "mute"); seal 0 (bstr "pin")]
    (λ i, if decide (i = r_index_blob (m_record set_mute))
          then Some (last32 (r_value_blob (m_record set_mute))) else None).
Definition plist : PatchList := mkPatchList name false [patch1; patch2] None.

Definition apply_to (d : Db SqliteAppStateStore) (l : list SyncdPatch)
    : Db SqliteAppStateStore * result (list Mutation * HashState) :=
  apply_patch_list (HK := toy_hkdf) (HM := toy_hmac) (AES := toy_aes) (PB := demo_proto)
    (JS := demo_json) (mkPatchList name false l None) demo_keys (get_version (db_store d) name) true d.

Definition run : Db SqliteAppStateStore * result (list Mutation * HashState) := apply_to (mkDb empty_sql []) [patch1; patch2].

(** The cursor of [patch1] is written, its MAC is not. *)
Definition cut_short (e : exn) : Db SqliteAppStateStore := (apply_to (mkDb empty_sql [None; Some (0%nat, e)]) [patch1]).1.
End Demo.

(** After a failed write of a MAC the collection is stuck: the cursor says version 1, and the
    genuine next patch is refused, for it removes a MAC that was never stored. *)
Lemma torn_refuses_next e :
  (Demo.apply_to (mkDb empty_sql [None; Some (0%nat, e)]) [Demo.patch1]).2 = Raise e ∧
  version (get_version (db_store (Demo.cut_short e)) Demo.name) = 1 ∧
  (Demo.apply_to (Demo.cut_short e) [Demo.patch2]).2 = Raise SnapshotMacMismatch ∧
  is_ok Demo.run.2 = true.
Proof. split_and!; vm_compute; reflexivity. Qed.

Lemma empty_sql_synced name :
  synced (HK := toy_hkdf) (sim := sql_sim) empty_sql empty_mem name.
Proof.
  split_and!.
  - split; [done|]. intros n i. cbn. rewrite lookup_empty. intros v. apply lookup_empty.
  - intros i w x. cbn. by rewrite lookup_empty.
  - exists ∅. split; [intros i; by rewrite lookup_empty|exact empty_hash_matches].
Qed.

Lemma apply_patch_list_integrity_witness :
  (∃ ms st, Demo.run.2 = Ok (ms, st) ∧ length ms = 3%nat ∧ version st = 2) ∧
  (∃ m', synced (HK := toy_hkdf) (sim := sql_sim) (db_store Demo.run.1) m' Demo.name).
Proof.
  split.
  { destruct Demo.run as [s r] eqn:E. assert (r = (Demo.run).2) as -> by by rewrite E. clear E.
    eexists _, _. split; [vm_compute; reflexivity|]. split; vm_compute; reflexivity. }
  destruct (apply_patch_list_integrity (HK := toy_hkdf) (HM := toy_hmac) (AES := toy_aes)
    (PB := Demo.demo_proto) (JS := Demo.demo_json) (sim := sql_sim)
    Demo.plist Demo.demo_keys true empty_sql [] empty_mem (empty_sql_synced _)) as [[(m' & Hm & _)|H] _].
  - split; [done|]. vm_compute. repeat split; try discriminate; repeat constructor.
  - exists m'. exact Hm.
  - destruct H as (n & e & s0 & m0 & m' & st' & ms' & ds & _ & Hin & _). apply not_elem_of_nil in Hin. destruct Hin.
Defined.

Lemma sealed_mutation_decodes_witness :
  ∃ m d, seal_mutation (HK := toy_hkdf) (HM := toy_hmac) (AES := toy_aes) 0 (bstr "kid")
      (bstr "root-key") (replicate 16 (mkb 5)) (bstr "mute") (bstr "mute") = Ok m ∧
    _decode_mutation (HK := toy_hkdf) (HM := toy_hmac) (AES := toy_aes) (PB := Demo.demo_proto)
      (JS := Demo.demo_json) Demo.demo_keys true m = Ok d ∧ mu_index d = JArr [JStr (u "mute")].
Proof.
  eexists _, _. split; [vm_compute; reflexivity|]. split.
  - apply (sealed_mutation_decodes (HM := toy_hmac) (AES := toy_aes) (PB := Demo.demo_proto)
      (JS := Demo.demo_json) Demo.demo_keys Demo.demo_key 0 (bstr "kid") (replicate 16 (mkb 5))
      (bstr "mute") (mkActionData (bstr "mute") (mkAction 1 (false, 0) false false ([], []) []) 1)
      (JArr [JStr (u "mute")])); vm_compute; reflexivity.
  - reflexivity.
Defined.

Lemma decoded_patch_authentic_witness :
  ∃ r, decode_patch (HK := toy_hkdf) (HM := toy_hmac) (AES := toy_aes) (PB := Demo.demo_proto)
      (JS := Demo.demo_json) Demo.patch1 Demo.demo_keys Demo.name _EMPTY_STATE (Some (λ _, None)) true
      = Ok r ∧
    Forall (authentic (HK := toy_hkdf) (HM := toy_hmac) (AES := toy_aes) (PB := Demo.demo_proto)
      Demo.demo_keys) (p_mutations Demo.patch1).
Proof.
  assert (is_ok (decode_patch (HK := toy_hkdf) (HM := toy_hmac) (AES := toy_aes)
    (PB := Demo.demo_proto) (JS := Demo.demo_json) Demo.patch1 Demo.demo_keys Demo.name _EMPTY_STATE
    (Some (λ _, None)) true) = true) as Hok by (vm_compute; reflexivity).
  destruct (decode_patch _ _ _ _ _ _) as [r|e] eqn:E; [|discriminate Hok]. exists r. split; [reflexivity|].
  destruct (decoded_patch_authentic (JS := Demo.demo_json) _ _ _ _ _ _ E)
    as (key & v & n & _ & _ & _ & _ & _ & _ & H). exact H.
Defined.
