(* ===== verification/AppEvents.v ===== *)
(** * App-state mutations as events ([src/src/pywhats/appstate/events.py])

    A mutation's index is whatever JSON value its payload held, so indexing and
    truthiness are those of Python on JSON values. *)

From S2P Require Import Prelude PyStr Json Jid Crypto LtHash AppCrypto AppPatches.

Definition _EMPTY_JID : JID := mkJID [] (u "s.whatsapp.net") 0.

Inductive AppEvent :=
  | EvMute (jid : JID) (muted : bool) (mute_end_timestamp timestamp : Z)
  | EvPin (jid : JID) (pinned : bool) (timestamp : Z)
  | EvArchive (jid : JID) (archived : bool) (timestamp : Z)
  | EvContact (jid : JID) (first_name full_name : str) (timestamp : Z)
  | EvPushName (name : str) (timestamp : Z).

(** [bool(v)]; a float is false when its literal denotes zero. *)
Definition json_truthy (v : json) : bool :=
  match v with
  | JNull => false
  | JBool x => x
  | JInt n => negb (n =? 0)
  | JFloat lit => existsb (λ c, (49 <=? c) && (c <=? 57))
                    (match split_first 101 (lit ++ [101]) with Some (p, _) => p | None => lit end)
  | JStr s => truthy s
  | JArr l => truthy l
  | JObj l => truthy l
  end.

(** [v[n]] and [len(v)]. *)
Definition json_item (v : json) (n : nat) : result json :=
  match v with
  | JArr l => some_or (l !! n) IndexError
  | JStr s => some_or ((λ c, JStr [c]) <$> s !! n) IndexError
  | JObj _ => Raise KeyError
  | _ => Raise TypeError
  end.

Definition json_len (v : json) : result nat :=
  match v with
  | JArr l => Ok (length l)
  | JStr s => Ok (length s)
  | JObj l => Ok (length l)
  | _ => Raise TypeError
  end.

Definition is_key (v : json) (key : str) : bool :=
  match v with JStr s => bool_decide (s = key) | _ => false end.

Section Events.
Context {U : UnicodeDB}.

(** [parse_jid] of anything but a string raises, and every exception is caught. *)
Definition _index_jid (index : json) : result JID :=
  n ← json_len index;
  if (1 <? Z.of_nat n) then
    v ← json_item index 1;
    if json_truthy v then
      match v with
      | JStr s => match parse_jid s with Ok j => Ok j | Raise _ => Ok _EMPTY_JID end
      | _ => Ok _EMPTY_JID
      end
    else Ok _EMPTY_JID
  else Ok _EMPTY_JID.

Definition app_state_mutation_to_event (m : Mutation) : result (option AppEvent) :=
  if negb (mu_operation m =? _SET) || negb (json_truthy (mu_index m)) then Ok None
  else
    key ← json_item (mu_index m) 0;
    let action := mu_action m in
    let ts := av_timestamp action in
    jid ← _index_jid (mu_index m);
    Ok (if is_key key (u "mute") then
          Some (EvMute jid (av_mute action).1 (av_mute action).2 ts)
        else if is_key key (u "pin_v1") then Some (EvPin jid (av_pinned action) ts)
        else if is_key key (u "archive") then Some (EvArchive jid (av_archived action) ts)
        else if is_key key (u "contact") then
          Some (EvContact jid (av_contact action).1 (av_contact action).2 ts)
        else if is_key key (u "setting_pushName") then Some (EvPushName (av_push_name action) ts)
        else None).

Definition event_keys : list str :=
  [u "mute"; u "pin_v1"; u "archive"; u "contact"; u "setting_pushName"].

Lemma index_jid_array l : ∃ j, _index_jid (JArr l) = Ok j.
Proof.
  unfold _index_jid. cbn. destruct (1 <? Z.of_nat (length l)) eqn:E; [|eauto]. zbool.
  destruct l as [|x [|y l]]; cbn in E; [lia..|]. cbn.
  destruct (json_truthy y); [|eauto]. destruct y; eauto. destruct (parse_jid s); eauto.
Qed.
End Events.

(** A mutation whose index is a JSON array never makes the event mapping raise, and
    it yields an event exactly when it is a SET whose first index entry is one
    of the five recognised keys. *)
Theorem mutation_event_total {U : UnicodeDB} (m : Mutation) (l : list json) :
  mu_index m = JArr l →
  ∃ ev, app_state_mutation_to_event m = Ok ev ∧
    (is_Some ev ↔ mu_operation m = _SET ∧ ∃ k, k ∈ event_keys ∧ head l = Some (JStr k)).
Proof.
  intros Hi. unfold app_state_mutation_to_event. rewrite Hi.
  destruct (mu_operation m =? _SET) eqn:Eop; zbool; cbn [negb orb].
  2: { exists None. split; [done|]. rewrite is_Some_alt. naive_solver. }
  destruct l as [|x l]; cbn [json_truthy truthy negb orb head].
  { exists None. split; [done|]. rewrite is_Some_alt. naive_solver. }
  destruct (index_jid_array (x :: l)) as [j Hj]. rewrite Hj. cbn.
  eexists. split; [reflexivity|]. rewrite Eop. unfold event_keys.
  destruct x as [| | | |s| |]; cbn [is_key]; try (rewrite is_Some_alt; naive_solver).
  repeat (case_bool_decide as Hs;
    [split; [intros _; split; [done|]; exists s; split; [rewrite Hs|done]; set_solver|done]|]; revert Hs).
  intros.
  split; [by intros [? [=]]|]. intros (_ & k & Hk & [= <-]). set_solver.
Qed.

Lemma mutation_event_total_witness :
  let m := mkMutation 0 (JArr [JStr (u "pin_v1"); JStr (u "1555@s.whatsapp.net")])
             (mkAction 9 (false, 0) true false ([], []) []) [] [] [] 1 in
  ∃ ev, app_state_mutation_to_event (U := latin1_ucd) m = Ok ev ∧
    (is_Some ev ↔ mu_operation m = _SET ∧
       ∃ k, k ∈ event_keys ∧ head [JStr (u "pin_v1"); JStr (u "1555@s.whatsapp.net")] = Some (JStr k)).
Proof. apply (mutation_event_total (U := latin1_ucd)). reflexivity. Defined.
