(* ===== verification/SignalKeys.v ===== *)
(** * Signal keys ([src/src/pywhats/signal/experimental/keys.py])

    Random key generation draws the private key from the caller. XEdDSA is an
    interface here, so that the protocols above it do not depend on the curve code;
    Xeddsa.v models the source's implementation and discharges the laws. *)

From S2P Require Import Prelude PyStr Crypto.

(** ** XEdDSA as the protocols use it *)
Class XEdDSA := {
  xeddsa_sign : bytes → bytes → bytes → result bytes;    (* private, message, random_z *)
  xeddsa_verify : bytes → bytes → bytes → bool           (* public, message, signature *)
}.

Class XEdDSALaws (X : X25519) (E : XEdDSA) : Prop := {
  length_xeddsa_sign k m z s : xeddsa_sign k m z = Ok s → length s = 64%nat;
  xeddsa_verify_sign k m z s : xeddsa_sign k m z = Ok s →
    xeddsa_verify (x25519_public k) m s = true;
  xeddsa_sign_ok k m z : length k = 32%nat → length z = 64%nat → is_ok (xeddsa_sign k m z) = true
}.

(** ** Key records *)

Record IdentityKeyPair := mkIdentity { ik_private : bytes; ik_public : bytes }.

Record SignedPreKey := mkSignedPreKey {
  spk_key_id : Z; spk_private : bytes; spk_public : bytes; spk_signature : bytes }.

Record OneTimePreKey := mkOneTimePreKey { opk_key_id : Z; opk_private : bytes; opk_public : bytes }.

#[global] Instance OneTimePreKey_eq_dec : EqDecision OneTimePreKey.
Proof. solve_decision. Defined.

Record PreKeyBundle := mkBundle {
  b_identity_key : bytes;
  b_signed_pre_key_id : Z;
  b_signed_pre_key_public : bytes;
  b_signed_pre_key_signature : bytes;
  b_one_time_pre_key_id : option Z;
  b_one_time_pre_key_public : option bytes
}.

Definition _SIGNAL_KEY_TYPE : byte := mkb 0x05.

Definition signal_pubkey (raw_public : bytes) : result bytes :=
  if Z.of_nat (length raw_public) =? 33 then
    (if bool_decide (head raw_public = Some _SIGNAL_KEY_TYPE) then Ok raw_public
     else Raise SignalCryptoError)
  else if negb (Z.of_nat (length raw_public) =? 32) then Raise SignalCryptoError
  else Ok (_SIGNAL_KEY_TYPE :: raw_public).

Section Keys.
Context {X : X25519} {E : XEdDSA}.

(** [IdentityKeyPair.generate()], [sk] being the fresh private key. *)
Definition identity_generate (sk : bytes) : IdentityKeyPair := mkIdentity sk (x25519_public sk).

Definition identity_dh (i : IdentityKeyPair) (peer_public : bytes) : result bytes :=
  if negb (Z.of_nat (length peer_public) =? 32) then Raise SignalCryptoError
  else x25519_exchange (ik_private i) peer_public.

Definition identity_sign (i : IdentityKeyPair) (random_z message : bytes) : result bytes :=
  xeddsa_sign (ik_private i) message random_z.

Definition signed_prekey_generate (identity : IdentityKeyPair) (key_id : Z) (sk random_z : bytes)
    : result SignedPreKey :=
  let pub := x25519_public sk in
  m ← signal_pubkey pub;
  sig ← identity_sign identity random_z m;
  Ok (mkSignedPreKey key_id sk pub sig).

Definition signed_prekey_verify (s : SignedPreKey) (identity_public : bytes) : result bool :=
  m ← signal_pubkey (spk_public s);
  Ok (xeddsa_verify identity_public m (spk_signature s)).

Definition generate_pre_key (key_id : Z) (sk : bytes) : OneTimePreKey :=
  mkOneTimePreKey key_id sk (x25519_public sk).

Definition verify_signature (b : PreKeyBundle) : result bool :=
  m ← signal_pubkey (b_signed_pre_key_public b);
  Ok (xeddsa_verify (b_identity_key b) m (b_signed_pre_key_signature b)).
End Keys.

Lemma signal_pubkey_32 k : length k = 32%nat → signal_pubkey k = Ok (_SIGNAL_KEY_TYPE :: k).
Proof. intros H. unfold signal_pubkey. by rewrite H. Qed.

Lemma signal_pubkey_length k s : signal_pubkey k = Ok s → length s = 33%nat ∧ head s = Some _SIGNAL_KEY_TYPE.
Proof.
  unfold signal_pubkey. destruct (_ =? 33) eqn:E1; zbool.
  - case_bool_decide; [|done]. intros [= <-]. split; [lia|done].
  - destruct (_ =? 32) eqn:E2; zbool; [|done]. intros [= <-]. cbn. split; [lia|done].
Qed.

Lemma signal_pubkey_error k e : signal_pubkey k = Raise e → e = SignalCryptoError.
Proof.
  unfold signal_pubkey. destruct (_ =? 33); [case_bool_decide; congruence|].
  destruct (_ =? 32); cbn; congruence.
Qed.

(** ** Toy instances *)

#[local] Opaque toy_mix.

(** A keyless tag, which satisfies the completeness laws. *)
Definition toy_xeddsa : XEdDSA := {|
  xeddsa_sign := λ k m z, if bool_decide (length k = 32%nat ∧ length z = 64%nat)
                          then Ok (toy_mix m [] 64) else Raise SignalCryptoError;
  xeddsa_verify := λ P m s, bool_decide (s = toy_mix m [] 64)
|}.

#[global] Instance toy_xeddsa_laws : XEdDSALaws toy_x25519 toy_xeddsa.
Proof.
  split; cbn -[toy_mix].
  - intros k m z s. case_bool_decide; [|done]. intros [= <-]. apply length_toy_mix.
  - intros k m z s. case_bool_decide; [|done]. intros [= <-]. by apply bool_decide_true.
  - intros k m z Hk Hz. by rewrite bool_decide_true.
Qed.

#[local] Transparent toy_mix.
