(* ===== verification/X3dh.v ===== *)
(** * X3DH key agreement ([src/src/pywhats/signal/experimental/x3dh.py]) *)

From S2P Require Import Prelude PyStr Crypto SignalKeys.

Definition _X3DH_F : bytes := replicate 32 (mkb 0xFF).
Definition X3DH_INFO : bytes := bstr "WhisperText".

Record X3DHInitiatorResult := mkInitiator {
  xi_shared_secret : bytes;
  xi_associated_data : bytes;
  xi_ephemeral_public : bytes;
  xi_identity_public : bytes;
  xi_used_signed_pre_key_id : Z;
  xi_used_one_time_pre_key_id : option Z
}.

Record X3DHResponderResult := mkResponder { xr_shared_secret : bytes; xr_associated_data : bytes }.

Section X3dh.
Context {X : X25519} {E : XEdDSA} {HK : Hkdf}.

Definition x3dh_dh (private peer_public : bytes) : result bytes :=
  if negb (Z.of_nat (length private) =? 32) || negb (Z.of_nat (length peer_public) =? 32)
  then Raise SignalCryptoError
  else x25519_exchange private peer_public.

Definition x3dh_kdf (ikm info : bytes) : bytes :=
  hkdf_sha256 (Some (replicate 32 (mkb 0))) (_X3DH_F ++ ikm) info 32.

(** [ephemeral] is the pair generated when the caller passes none. *)
Definition x3dh_initiator (identity : IdentityKeyPair) (peer_bundle : PreKeyBundle)
    (ephemeral : IdentityKeyPair) : result X3DHInitiatorResult :=
  ok ← verify_signature peer_bundle;
  if negb ok then Raise SignalCryptoError
  else
    dh1 ← x3dh_dh (ik_private identity) (b_signed_pre_key_public peer_bundle);
    dh2 ← x3dh_dh (ik_private ephemeral) (b_identity_key peer_bundle);
    dh3 ← x3dh_dh (ik_private ephemeral) (b_signed_pre_key_public peer_bundle);
    km ← match b_one_time_pre_key_public peer_bundle with
         | None => Ok (dh1 ++ dh2 ++ dh3)
         | Some opk => dh4 ← x3dh_dh (ik_private ephemeral) opk; Ok ((dh1 ++ dh2 ++ dh3) ++ dh4)
         end;
    Ok (mkInitiator (x3dh_kdf km X3DH_INFO) (ik_public identity ++ b_identity_key peer_bundle)
          (ik_public ephemeral) (ik_public identity) (b_signed_pre_key_id peer_bundle)
          (b_one_time_pre_key_id peer_bundle)).

Definition x3dh_responder (identity : IdentityKeyPair) (signed_pre_key : SignedPreKey)
    (one_time_pre_key : option OneTimePreKey) (initiator_identity_public initiator_ephemeral_public : bytes)
    : result X3DHResponderResult :=
  dh1 ← x3dh_dh (spk_private signed_pre_key) initiator_identity_public;
  dh2 ← x3dh_dh (ik_private identity) initiator_ephemeral_public;
  dh3 ← x3dh_dh (spk_private signed_pre_key) initiator_ephemeral_public;
  km ← match one_time_pre_key with
       | None => Ok (dh1 ++ dh2 ++ dh3)
       | Some opk => dh4 ← x3dh_dh (opk_private opk) initiator_ephemeral_public;
                     Ok ((dh1 ++ dh2 ++ dh3) ++ dh4)
       end;
  Ok (mkResponder (x3dh_kdf km X3DH_INFO) (initiator_identity_public ++ ik_public identity)).

(** The bundle a responder publishes. *)
Definition bundle_of (identity : IdentityKeyPair) (spk : SignedPreKey) (opk : option OneTimePreKey)
    : PreKeyBundle :=
  mkBundle (ik_public identity) (spk_key_id spk) (spk_public spk) (spk_signature spk)
    (opk_key_id <$> opk) (opk_public <$> opk).

Lemma x3dh_dh_comm {XL : X25519Laws X} a b : length a = 32%nat → length b = 32%nat →
  ∃ s, x3dh_dh a (x25519_public b) = Ok s ∧ x3dh_dh b (x25519_public a) = Ok s.
Proof.
  intros Ha Hb. destruct (x25519_comm a b Ha Hb) as (s & E1 & E2). exists s.
  unfold x3dh_dh. rewrite !length_x25519_public, Ha, Hb. done.
Qed.
(** Responder and initiator derive one secret; what the initiator reports is what it sends. *)
Lemma x3dh_agree {XL : X25519Laws X} {EL : XEdDSALaws X E} (a e b s z : bytes) (o : option (Z * bytes))
    (spk_id : Z) (spk : SignedPreKey) :
  Forall (λ k, length k = 32%nat) [a; e; b; s] → from_option (λ ko, length ko.2 = 32%nat) True o →
  signed_prekey_generate (identity_generate b) spk_id s z = Ok spk →
  let opk := (λ ko, generate_pre_key ko.1 ko.2) <$> o in
  ∃ secret,
    x3dh_initiator (identity_generate a) (bundle_of (identity_generate b) spk opk) (identity_generate e) =
      Ok (mkInitiator secret (x25519_public a ++ x25519_public b) (x25519_public e) (x25519_public a)
            spk_id (fst <$> o)) ∧
    x3dh_responder (identity_generate b) spk opk (x25519_public a) (x25519_public e) =
      Ok (mkResponder secret (x25519_public a ++ x25519_public b)) ∧
    spk_key_id spk = spk_id ∧ spk_private spk = s ∧ spk_public spk = x25519_public s.
Proof.
  intros Hl Ho Hspk. cbn zeta. repeat (apply Forall_cons in Hl as [? Hl]).
  unfold signed_prekey_generate, identity_sign in Hspk. cbn [ik_private identity_generate] in Hspk.
  res_inv. unfold x3dh_initiator, verify_signature. cbn. rewrite Hm. rbind.
  rewrite (xeddsa_verify_sign b a0 z a1) by done. cbn [negb].
  destruct (x3dh_dh_comm a s) as (s1 & E1 & E1'); [done..|].
  destruct (x3dh_dh_comm e b) as (s2 & E2 & E2'); [done..|].
  destruct (x3dh_dh_comm e s) as (s3 & E3 & E3'); [done..|].
  rewrite E1. rbind. rewrite E2. rbind. rewrite E3. rbind. unfold x3dh_responder. cbn.
  destruct o as [[oid o]|]; cbn in *.
  - destruct (x3dh_dh_comm e o) as (s4 & E4 & E4'); [done..|]. rewrite E4, E1', E2', E3'. rbind.
    rewrite E4'. rbind. eexists. split_and!; done.
  - rewrite E1', E2', E3'. rbind. eexists. split_and!; done.
Qed.
End X3dh.

(** C28: both sides of X3DH agree: when the responder publishes a bundle of keys it
    generated, with or without a one-time prekey, the initiator accepts it, and
    the responder recomputes from the initiator's two public keys the same
    shared secret and associated data. *)
Theorem x3dh_agreement {X : X25519} {XL : X25519Laws X} {E : XEdDSA} {EL : XEdDSALaws X E} {HK : Hkdf}
    (a e b s z : bytes) (o : option (Z * bytes)) (spk_id : Z) (spk : SignedPreKey) :
  Forall (λ k, length k = 32%nat) [a; e; b; s] → from_option (λ ko, length ko.2 = 32%nat) True o →
  signed_prekey_generate (identity_generate b) spk_id s z = Ok spk →
  let alice := identity_generate a in let eph := identity_generate e in
  let bob := identity_generate b in let opk := (λ ko, generate_pre_key ko.1 ko.2) <$> o in
  ∃ ri rr, x3dh_initiator alice (bundle_of bob spk opk) eph = Ok ri ∧
    x3dh_responder bob spk opk (xi_identity_public ri) (xi_ephemeral_public ri) = Ok rr ∧
    xi_shared_secret ri = xr_shared_secret rr ∧ xi_associated_data ri = xr_associated_data rr.
Proof.
  intros Hl Ho Hspk. cbn zeta. destruct (x3dh_agree a e b s z o spk_id spk Hl Ho Hspk) as (k & Ei & Er & _).
  eexists _, _. split; [exact Ei|]. split; [exact Er|]. done.
Qed.

Lemma x3dh_agreement_witness :
  let k i := replicate 32 (mkb i) in
  ∃ spk, signed_prekey_generate (X := toy_x25519) (E := toy_xeddsa)
      (identity_generate (X := toy_x25519) (k 3)) 7 (k 4) (replicate 64 (mkb 0)) = Ok spk ∧
    ∃ ri rr, x3dh_initiator (X := toy_x25519) (E := toy_xeddsa) (HK := toy_hkdf)
      (identity_generate (X := toy_x25519) (k 1))
      (bundle_of (identity_generate (X := toy_x25519) (k 3)) spk
         (Some (generate_pre_key (X := toy_x25519) 9 (k 5))))
      (identity_generate (X := toy_x25519) (k 2)) = Ok ri ∧
    x3dh_responder (X := toy_x25519) (HK := toy_hkdf) (identity_generate (X := toy_x25519) (k 3)) spk
      (Some (generate_pre_key (X := toy_x25519) 9 (k 5)))
      (xi_identity_public ri) (xi_ephemeral_public ri) = Ok rr ∧
    xi_shared_secret ri = xr_shared_secret rr.
Proof.
  cbn zeta. eexists. split; [vm_compute; reflexivity|].
  destruct (x3dh_agreement (X := toy_x25519) (E := toy_xeddsa) (HK := toy_hkdf)
    (replicate 32 (mkb 1)) (replicate 32 (mkb 2)) (replicate 32 (mkb 3)) (replicate 32 (mkb 4))
    (replicate 64 (mkb 0)) (Some (9, replicate 32 (mkb 5))) 7 _
    ltac:(repeat constructor) ltac:(reflexivity) ltac:(vm_compute; reflexivity))
    as (ri & rr & H1 & H2 & H3 & _).
  exists ri, rr. split; [exact H1|]. split; [exact H2|exact H3].
Defined.
