(* ===== verification/SignalTypes.v ===== *)
(** * Signal message envelopes ([src/src/pywhats/signal/experimental/types.py])

    The protobuf runtime is a parameter: setting a [uint32] field outside its
    range raises [ValueError], and parsing inverts serialising. *)

From S2P Require Import Prelude PyStr Sha256 Crypto SignalKeys.

Definition _MAGIC : byte := mkb 0x33.
Definition _MAC_LEN : nat := 8.

(** ** The protobuf messages; an unset field reads as its default *)

Record WhisperMessage := mkWhisper {
  wm_ratchetKey : bytes; wm_counter : Z; wm_previousCounter : Z; wm_ciphertext : option bytes }.

Record PreKeyWhisperMessage := mkPreKeyWhisper {
  pw_preKeyId : option Z; pw_baseKey : bytes; pw_identityKey : bytes; pw_message : bytes;
  pw_registrationId : Z; pw_signedPreKeyId : Z }.

Definition uint32 (z : Z) : bool := (0 <=? z) && (z <? 2 ^ 32).
Definition uint64 (z : Z) : bool := (0 <=? z) && (z <? 2 ^ 64).
Definition int32 (z : Z) : bool := (- 2 ^ 31 <=? z) && (z <? 2 ^ 31).

Class WhisperProto := {
  ser_WhisperMessage : WhisperMessage → result bytes;
  parse_WhisperMessage : bytes → result WhisperMessage;
  ser_PreKeyWhisperMessage : PreKeyWhisperMessage → result bytes;
  parse_PreKeyWhisperMessage : bytes → result PreKeyWhisperMessage
}.

Class WhisperProtoLaws (W : WhisperProto) : Prop := {
  whisper_roundtrip w : if uint32 (wm_counter w) && uint32 (wm_previousCounter w) then
      ∃ bs, ser_WhisperMessage w = Ok bs ∧ parse_WhisperMessage bs = Ok w
    else ser_WhisperMessage w = Raise ValueError;
  prekey_whisper_roundtrip w :
    if from_option uint32 true (pw_preKeyId w) && uint32 (pw_registrationId w)
       && uint32 (pw_signedPreKeyId w) then
      ∃ bs, ser_PreKeyWhisperMessage w = Ok bs ∧ parse_PreKeyWhisperMessage bs = Ok w
    else ser_PreKeyWhisperMessage w = Raise ValueError
}.

(** ** Envelopes *)

Record MessageHeader := mkHeader { h_dh : bytes; h_pn : Z; h_n : Z }.

#[global] Instance MessageHeader_eq_dec : EqDecision MessageHeader.
Proof. solve_decision. Defined.

Record SignalMessage := mkSignalMessage {
  sm_header : MessageHeader;
  sm_ciphertext : bytes;
  sm_body : option bytes;
  sm_mac : option bytes
}.

Record PreKeySignalMessage := mkPreKeySignalMessage {
  pk_registration_id : Z;
  pk_one_time_pre_key_id : option Z;
  pk_signed_pre_key_id : Z;
  pk_base_key : bytes;
  pk_identity_key : bytes;
  pk_message : SignalMessage
}.

Definition _strip_signal_pubkey (public : bytes) : result bytes :=
  if Z.of_nat (length public) =? 33 then
    (if bool_decide (head public = Some (mkb 0x05)) then Ok (drop 1 public)
     else Raise SignalCryptoError)
  else if negb (Z.of_nat (length public) =? 32) then Raise SignalCryptoError
  else Ok public.

Definition _mac (sender_identity receiver_identity versioned_body mac_key : bytes) : result bytes :=
  sender ← signal_pubkey sender_identity;
  receiver ← signal_pubkey receiver_identity;
  Ok (take _MAC_LEN (hmac_sha256 mac_key (sender ++ receiver ++ versioned_body))).

(** [except Exception: raise SignalCryptoError] *)
Definition as_crypto_error {A} (r : result A) : result A :=
  match r with Ok a => Ok a | Raise _ => Raise SignalCryptoError end.

Section Types.
Context {W : WhisperProto}.

Definition header_encode (h : MessageHeader) : result bytes :=
  if negb (Z.of_nat (length (h_dh h)) =? 32) then Raise SignalCryptoError
  else if negb ((0 <=? h_pn h) && (h_pn h <? 2 ^ 32)) || negb ((0 <=? h_n h) && (h_n h <? 2 ^ 32))
  then Raise SignalCryptoError
  else
    k ← signal_pubkey (h_dh h);
    ser_WhisperMessage (mkWhisper k (h_n h) (h_pn h) None).

Definition header_decode (data : bytes) : result (MessageHeader * Z) :=
  proto ← as_crypto_error (parse_WhisperMessage data);
  dh ← _strip_signal_pubkey (wm_ratchetKey proto);
  Ok (mkHeader dh (wm_previousCounter proto) (wm_counter proto), Z.of_nat (length data)).

Definition _serialize_body (m : SignalMessage) : result bytes :=
  k ← signal_pubkey (h_dh (sm_header m));
  ser_WhisperMessage (mkWhisper k (h_n (sm_header m)) (h_pn (sm_header m)) (Some (sm_ciphertext m))).

Definition signal_encode (m : SignalMessage) (sender_identity receiver_identity mac_key : bytes)
    : result bytes :=
  body ← match sm_body m with Some b => Ok b | None => _serialize_body m end;
  let versioned := _MAGIC :: body in
  mac ← _mac sender_identity receiver_identity versioned mac_key;
  Ok (versioned ++ mac).

Definition signal_decode (data : bytes) : result SignalMessage :=
  if (Z.of_nat (length data) <? 1 + Z.of_nat _MAC_LEN) || negb (bool_decide (head data = Some _MAGIC))
  then Raise SignalCryptoError
  else
    let body := drop 1 (prefix_upto _MAC_LEN data) in
    let mac := suffix_from _MAC_LEN data in
    proto ← as_crypto_error (parse_WhisperMessage body);
    dh ← _strip_signal_pubkey (wm_ratchetKey proto);
    Ok (mkSignalMessage (mkHeader dh (wm_previousCounter proto) (wm_counter proto))
          (default [] (wm_ciphertext proto)) (Some body) (Some mac)).

Definition verify_mac (m : SignalMessage) (sender_identity receiver_identity mac_key : bytes)
    : result unit :=
  match sm_body m, sm_mac m with
  | Some body, Some mac =>
      expected ← _mac sender_identity receiver_identity (_MAGIC :: body) mac_key;
      guard_or (bool_decide (expected = mac)) SignalCryptoError
  | _, _ => Raise SignalCryptoError
  end.

Definition prekey_encode (m : PreKeySignalMessage) (sender_identity receiver_identity mac_key : bytes)
    : result bytes :=
  base ← signal_pubkey (pk_base_key m);
  ident ← signal_pubkey (pk_identity_key m);
  inner ← signal_encode (pk_message m) sender_identity receiver_identity mac_key;
  body ← ser_PreKeyWhisperMessage (mkPreKeyWhisper (pk_one_time_pre_key_id m) base ident inner
           (pk_registration_id m) (pk_signed_pre_key_id m));
  Ok (_MAGIC :: body).

Definition prekey_decode (data : bytes) : result PreKeySignalMessage :=
  if (Z.of_nat (length data) <? 1) || negb (bool_decide (head data = Some _MAGIC))
  then Raise SignalCryptoError
  else
    proto ← as_crypto_error (parse_PreKeyWhisperMessage (drop 1 data));
    base ← _strip_signal_pubkey (pw_baseKey proto);
    ident ← _strip_signal_pubkey (pw_identityKey proto);
    inner ← signal_decode (pw_message proto);
    Ok (mkPreKeySignalMessage (pw_registrationId proto) (pw_preKeyId proto) (pw_signedPreKeyId proto)
          base ident inner).
End Types.

(** ** Lemmas *)

Lemma strip_signal_pubkey k s : signal_pubkey k = Ok s → length k = 32%nat →
  _strip_signal_pubkey s = Ok k.
Proof.
  intros H Hl. rewrite signal_pubkey_32 in H by done. simplify_eq.
  unfold _strip_signal_pubkey. cbn [length]. rewrite Hl. done.
Qed.

Lemma mac_length s r v k m : _mac s r v k = Ok m → length m = _MAC_LEN.
Proof.
  unfold _mac, _MAC_LEN. intros H. res_inv. rewrite length_take, length_hmac_sha256. lia.
Qed.

Lemma split_mac (v m : bytes) : length m = _MAC_LEN →
  prefix_upto _MAC_LEN (v ++ m) = v ∧ suffix_from _MAC_LEN (v ++ m) = m.
Proof.
  intros Hm. unfold prefix_upto, suffix_from. rewrite length_app, Hm.
  replace (length v + _MAC_LEN - _MAC_LEN)%nat with (length v) by lia.
  by rewrite take_app_length, drop_app_length.
Qed.

Lemma ser_whisper_Ok {W : WhisperProto} {WL : WhisperProtoLaws W} w bs :
  ser_WhisperMessage w = Ok bs → parse_WhisperMessage bs = Ok w.
Proof.
  intros H. pose proof (whisper_roundtrip w) as R. destruct (_ && _); [|congruence].
  destruct R as (bs' & E & P). rewrite E in H. by simplify_eq.
Qed.

Lemma ser_prekey_Ok {W : WhisperProto} {WL : WhisperProtoLaws W} w bs :
  ser_PreKeyWhisperMessage w = Ok bs → parse_PreKeyWhisperMessage bs = Ok w.
Proof.
  intros H. pose proof (prekey_whisper_roundtrip w) as R. destruct (_ && _); [|congruence].
  destruct R as (bs' & E & P). rewrite E in H. by simplify_eq.
Qed.

Lemma signal_decode_encode {W : WhisperProto} {WL : WhisperProtoLaws W} m s r k data :
  sm_body m = None → length (h_dh (sm_header m)) = 32%nat → signal_encode m s r k = Ok data →
  ∃ body mac, signal_decode data = Ok (mkSignalMessage (sm_header m) (sm_ciphertext m) (Some body) (Some mac)) ∧
    _mac s r (_MAGIC :: body) k = Ok mac.
Proof.
  intros Hb Hl H. unfold signal_encode in H. rewrite Hb in H. res_inv.
  exists a, a0. split; [|done]. unfold _serialize_body in Hm. res_inv.
  pose proof (mac_length _ _ _ _ _ Hm0) as Hml.
  unfold signal_decode. rewrite ?app_comm_cons.
  destruct (split_mac (_MAGIC :: a) a0 Hml) as [-> ->].
  assert ((Z.of_nat (length ((_MAGIC :: a) ++ a0)) <? 1 + Z.of_nat _MAC_LEN) = false) as ->.
  { apply Z.ltb_ge. rewrite length_app, Hml. cbn [length]. lia. }
  cbn [app head]. rewrite bool_decide_true by done. cbn [negb orb drop].
  rewrite drop_0, (ser_whisper_Ok _ _ Hk). cbn [as_crypto_error]. rbind.
  cbn [wm_ratchetKey wm_previousCounter wm_counter wm_ciphertext]. rewrite (strip_signal_pubkey _ _ Hm1 Hl). rbind. by destruct m as [[dh pn n] c b mc].
Qed.

(** Encoding succeeds on 32-byte keys and 32-bit counters and ids. *)
Lemma signal_encode_ok {W : WhisperProto} {WL : WhisperProtoLaws W} h c s r k :
  length (h_dh h) = 32%nat → uint32 (h_pn h) = true → uint32 (h_n h) = true →
  length s = 32%nat → length r = 32%nat → is_ok (signal_encode (mkSignalMessage h c None None) s r k) = true.
Proof.
  intros Hd Hp Hn Hs Hr. unfold signal_encode, _serialize_body. cbn [sm_body sm_header sm_ciphertext].
  rewrite (signal_pubkey_32 _ Hd). rbind.
  pose proof (whisper_roundtrip (mkWhisper (_SIGNAL_KEY_TYPE :: h_dh h) (h_n h) (h_pn h) (Some c))) as R.
  cbn [wm_counter wm_previousCounter] in R. rewrite Hp, Hn in R. destruct R as (bs & -> & _). rbind.
  unfold _mac. rewrite (signal_pubkey_32 _ Hs), (signal_pubkey_32 _ Hr). done.
Qed.

Lemma prekey_encode_ok {W : WhisperProto} {WL : WhisperProtoLaws W} m s r k :
  is_ok (signal_encode (pk_message m) s r k) = true →
  length (pk_base_key m) = 32%nat → length (pk_identity_key m) = 32%nat →
  from_option uint32 true (pk_one_time_pre_key_id m) = true → uint32 (pk_registration_id m) = true →
  uint32 (pk_signed_pre_key_id m) = true → is_ok (prekey_encode m s r k) = true.
Proof.
  intros He Hb Hi Ho Hr Hs. unfold prekey_encode. rewrite (signal_pubkey_32 _ Hb), (signal_pubkey_32 _ Hi). rbind.
  destruct (signal_encode (pk_message m) s r k) as [inner|]; [|done]. rbind.
  match goal with |- context [ser_PreKeyWhisperMessage ?w] => pose proof (prekey_whisper_roundtrip w) as R end.
  cbn [pw_preKeyId pw_registrationId pw_signedPreKeyId] in R. rewrite Ho, Hr, Hs in R.
  by destruct R as (bs & -> & _).
Qed.

Lemma prekey_decode_encode {W : WhisperProto} {WL : WhisperProtoLaws W}
    (m : PreKeySignalMessage) (s r k data : bytes) :
  sm_body (pk_message m) = None → length (h_dh (sm_header (pk_message m))) = 32%nat →
  length (pk_base_key m) = 32%nat → length (pk_identity_key m) = 32%nat →
  prekey_encode m s r k = Ok data →
  ∃ m', prekey_decode data = Ok m' ∧
    pk_registration_id m' = pk_registration_id m ∧
    pk_one_time_pre_key_id m' = pk_one_time_pre_key_id m ∧
    pk_signed_pre_key_id m' = pk_signed_pre_key_id m ∧
    pk_base_key m' = pk_base_key m ∧ pk_identity_key m' = pk_identity_key m ∧
    sm_header (pk_message m') = sm_header (pk_message m) ∧
    sm_ciphertext (pk_message m') = sm_ciphertext (pk_message m) ∧
    verify_mac (pk_message m') s r k = Ok tt.
Proof.
  intros Hb Hd Hbase Hid H. unfold prekey_encode in H. res_inv.
  destruct (signal_decode_encode _ _ _ _ _ Hb Hd Hm1) as (body & mac & Hdec & Hmac).
  unfold prekey_decode. cbn [length head drop].
  assert ((Z.of_nat (S (length a2)) <? 1) = false) as -> by (apply Z.ltb_ge; lia).
  rewrite bool_decide_true by done. cbn [negb orb].
  rewrite drop_0, (ser_prekey_Ok _ _ Hm2). cbn [as_crypto_error]. rbind. cbn [pw_baseKey pw_identityKey pw_message].
  rewrite (strip_signal_pubkey _ _ Hm Hbase). rbind. rewrite (strip_signal_pubkey _ _ Hm0 Hid). rbind.
  rewrite Hdec. rbind. eexists. split; [done|]. cbn. split_and!; try done.
  unfold verify_mac. cbn [sm_body sm_mac]. rewrite Hmac. rbind. by rewrite bool_decide_true.
Qed.

(** An envelope that encodes decodes to the same header, ids and ciphertext, and the
    decoded inner message passes the MAC check under the same identities and key.
    The prekey envelope carries a fresh inner message and 32-byte keys. *)
Theorem prekey_envelope_roundtrip {W : WhisperProto} {WL : WhisperProtoLaws W}
    (m : PreKeySignalMessage) (s r k data : bytes) :
  sm_body (pk_message m) = None → length (h_dh (sm_header (pk_message m))) = 32%nat →
  length (pk_base_key m) = 32%nat → length (pk_identity_key m) = 32%nat →
  prekey_encode m s r k = Ok data →
  ∃ m', prekey_decode data = Ok m' ∧
    pk_registration_id m' = pk_registration_id m ∧
    pk_one_time_pre_key_id m' = pk_one_time_pre_key_id m ∧
    pk_signed_pre_key_id m' = pk_signed_pre_key_id m ∧
    pk_base_key m' = pk_base_key m ∧ pk_identity_key m' = pk_identity_key m ∧
    sm_header (pk_message m') = sm_header (pk_message m) ∧
    sm_ciphertext (pk_message m') = sm_ciphertext (pk_message m) ∧
    verify_mac (pk_message m') s r k = Ok tt.
Proof. apply prekey_decode_encode. Qed.

(** ** A toy protobuf runtime: length-prefixed fields, lengths in unary *)

Definition toy_field (d : bytes) : bytes := replicate (length d) (mkb 1) ++ mkb 0 :: d.

Fixpoint toy_len (bs : bytes) : nat * bytes :=
  match bs with
  | x :: bs => if decide (x = mkb 1) then let '(n, r) := toy_len bs in (S n, r) else (0%nat, bs)
  | [] => (0%nat, [])
  end.

Definition toy_get (bs : bytes) : bytes * bytes := let '(n, r) := toy_len bs in (take n r, drop n r).

Lemma toy_get_field d r : toy_get (toy_field d ++ r) = (d, r).
Proof.
  unfold toy_get, toy_field. rewrite <-app_assoc. cbn [app].
  assert (∀ n l, toy_len (replicate n (mkb 1) ++ mkb 0 :: l) = (n, l)) as ->.
  { induction n as [|n IH]; intros l; [done|]. cbn [replicate app toy_len].
    rewrite decide_True by done. by rewrite IH. }
  by rewrite take_app_length, drop_app_length.
Qed.

Definition toy_opt (o : option bytes) : bytes :=
  match o with None => [mkb 0] | Some d => mkb 1 :: toy_field d end.

Definition toy_get_opt (bs : bytes) : option bytes * bytes :=
  if decide (head bs = Some (mkb 1)) then let '(d, r) := toy_get (drop 1 bs) in (Some d, r)
  else (None, drop 1 bs).

Lemma toy_get_opt_ok o r : toy_get_opt (toy_opt o ++ r) = (o, r).
Proof.
  unfold toy_get_opt, toy_opt. destruct o as [d|]; cbn [app head drop].
  - rewrite decide_True by done. by rewrite drop_0, toy_get_field.
  - rewrite decide_False by done. by rewrite drop_0.
Qed.

Definition toy_num (z : Z) : bytes := le_bytes 4 z.
Definition toy_get_num (bs : bytes) : Z * bytes := (le_val (take 4 bs), drop 4 bs).

Lemma toy_get_num_ok z r : uint32 z = true → toy_get_num (toy_num z ++ r) = (z, r).
Proof.
  unfold uint32, toy_get_num, toy_num. intros H. zbool.
  rewrite take_app_length', drop_app_length' by (symmetry; apply length_le_bytes).
  rewrite le_val_bytes, Z.mod_small by (change (256 ^ Z.of_nat 4) with (2 ^ 32); lia). done.
Qed.

Definition toy_whisper : WhisperProto := {|
  ser_WhisperMessage w :=
    if uint32 (wm_counter w) && uint32 (wm_previousCounter w) then
      Ok (toy_field (wm_ratchetKey w) ++ toy_num (wm_counter w) ++ toy_num (wm_previousCounter w)
          ++ toy_opt (wm_ciphertext w) ++ [])
    else Raise ValueError;
  parse_WhisperMessage bs :=
    let '(k, bs) := toy_get bs in let '(c, bs) := toy_get_num bs in
    let '(p, bs) := toy_get_num bs in let '(ct, _) := toy_get_opt bs in
    Ok (mkWhisper k c p ct);
  ser_PreKeyWhisperMessage w :=
    if from_option uint32 true (pw_preKeyId w) && uint32 (pw_registrationId w)
       && uint32 (pw_signedPreKeyId w) then
      Ok (toy_opt (toy_num <$> pw_preKeyId w) ++ toy_field (pw_baseKey w) ++ toy_field (pw_identityKey w)
          ++ toy_field (pw_message w) ++ toy_num (pw_registrationId w) ++ toy_num (pw_signedPreKeyId w) ++ [])
    else Raise ValueError;
  parse_PreKeyWhisperMessage bs :=
    let '(o, bs) := toy_get_opt bs in let '(b, bs) := toy_get bs in let '(i, bs) := toy_get bs in
    let '(m, bs) := toy_get bs in let '(r, bs) := toy_get_num bs in let '(s, _) := toy_get_num bs in
    Ok (mkPreKeyWhisper (le_val <$> o) b i m r s)
|}.

#[global] Instance toy_whisper_laws : WhisperProtoLaws toy_whisper.
Proof.
  split.
  - intros [k c p ct]. cbn -[toy_get toy_field toy_num toy_get_num toy_opt toy_get_opt uint32 app].
    destruct (uint32 c && uint32 p) eqn:E; [|done]. apply andb_true_iff in E as [Hc Hp].
    eexists. split; [done|].
    by rewrite toy_get_field, toy_get_num_ok, toy_get_num_ok, toy_get_opt_ok by done.
  - intros [o b i m r s]. cbn -[toy_get toy_field toy_num toy_get_num toy_opt toy_get_opt uint32 app].
    destruct (_ && _) eqn:E; [|done]. apply andb_true_iff in E as [[Ho Hr]%andb_true_iff Hs].
    eexists. split; [done|].
    rewrite toy_get_opt_ok, !toy_get_field, !toy_get_num_ok by done.
    do 2 f_equal. destruct o as [z|]; [|done]. cbn [fmap option_fmap option_map from_option] in *.
    f_equal. pose proof (toy_get_num_ok z [] Ho) as H.
    unfold toy_get_num, toy_num in *. apply (f_equal fst) in H. cbn [fst] in H.
    by rewrite app_nil_r, take_ge in H by (rewrite length_le_bytes; lia).
Qed.

Lemma prekey_envelope_roundtrip_witness :
  let key i := replicate 32 (mkb i) in
  let m := mkPreKeySignalMessage 77 (Some 5) 3 (key 1) (key 2)
             (mkSignalMessage (mkHeader (key 4) 0 6) (bstr "ciphertext-bytes") None None) in
  ∃ data m', prekey_encode (W := toy_whisper) m (key 2) (key 9) (bstr "mac") = Ok data ∧
    prekey_decode (W := toy_whisper) data = Ok m' ∧ verify_mac (pk_message m') (key 2) (key 9) (bstr "mac") = Ok tt.
Proof.
  cbn zeta. set (m := mkPreKeySignalMessage _ _ _ _ _ _).
  assert (is_ok (prekey_encode (W := toy_whisper) m (replicate 32 (mkb 2)) (replicate 32 (mkb 9))
    (bstr "mac")) = true) as Hok by (vm_compute; reflexivity).
  destruct (prekey_encode m _ _ _) as [data|e] eqn:E; [|discriminate Hok].
  destruct (prekey_envelope_roundtrip (W := toy_whisper) m _ _ _ _ eq_refl eq_refl eq_refl eq_refl E)
    as (m' & H1 & _ & _ & _ & _ & _ & _ & _ & H2).
  exists data, m'. split; [reflexivity|]. split; [exact H1|exact H2].
Defined.
