(* ===== verification/Ratchet.v ===== *)
(** * The Double Ratchet ([src/src/pywhats/signal/experimental/ratchet.py])

    [RatchetState] is mutated in place, so each operation is a computation in the
    state-and-exception monad: what was assigned before an exception stays
    assigned. The key pair [_generate_dh] draws is an argument. The associated
    data is passed on and never used, as in the code. *)

From S2P Require Import Prelude PyStr Crypto AppCrypto SignalKeys SignalTypes.

Definition DEFAULT_MAX_SKIP : Z := 1000.
Definition _MAX_SKIPPED_TOTAL : Z := 2000.
Definition _KDF_RK_INFO : bytes := bstr "WhisperRatchet".
Definition _MESSAGE_KEYS_INFO : bytes := bstr "WhisperMessageKeys".

Record RatchetState := mkRatchet {
  dhs_priv : bytes;
  dhs_pub : bytes;
  dhr : option bytes;
  rk : bytes;
  cks : option bytes;
  ckr : option bytes;
  ns : Z;
  nr : Z;
  pn : Z;
  mkskipped : list ((bytes * Z) * bytes);
  max_skip : Z
}.

Section Ratchet.
Context {X : X25519} {HK : Hkdf} {HM : Hmac} {AES : AesCbc} {PK : Pkcs7}.

Definition _dh (private peer_public : bytes) : result bytes := x25519_exchange private peer_public.

Definition _kdf_rk (rk dh_out : bytes) : bytes * bytes :=
  let out := hkdf_sha256 (Some rk) dh_out _KDF_RK_INFO 64 in (take 32 out, drop 32 out).

Definition _kdf_ck (ck : bytes) : bytes * bytes :=
  (c_hmac_sha256 ck [mkb 0x01], c_hmac_sha256 ck [mkb 0x02]).

(** [(mac_key, cipher_key, iv)] *)
Definition _derive_message_keys (mk : bytes) : bytes * bytes * bytes :=
  let out := hkdf_sha256 (Some (replicate 32 (mkb 0))) mk _MESSAGE_KEYS_INFO 80 in
  (slice 32 64 out, take 32 out, slice 64 80 out).

Definition _encrypt_aes_cbc (mk plaintext : bytes) : result (bytes * bytes) :=
  let '(mac_key, cipher_key, iv) := _derive_message_keys mk in
  ciphertext ← aes_cbc_enc cipher_key iv (pkcs7_padder plaintext);
  Ok (ciphertext, mac_key).

Definition _decrypt_aes_cbc (mk ciphertext : bytes) : result bytes :=
  let '(_, cipher_key, iv) := _derive_message_keys mk in
  padded ← aes_cbc_dec cipher_key iv ciphertext;
  match pkcs7_unpadder padded with
  | Ok p => Ok p
  | Raise e => Raise (if is_ValueError e then SignalCryptoError else e)
  end.

Definition ratchet_init_alice (new : bytes * bytes) (shared_secret peer_signed_pre_key_public : bytes)
    : result RatchetState :=
  let '(dhs_priv, dhs_pub) := new in
  dh ← _dh dhs_priv peer_signed_pre_key_public;
  let '(rk, cks) := _kdf_rk shared_secret dh in
  Ok (mkRatchet dhs_priv dhs_pub (Some peer_signed_pre_key_public) rk (Some cks) None 0 0 0 []
        DEFAULT_MAX_SKIP).

Definition ratchet_init_bob (shared_secret signed_pre_key_private signed_pre_key_public : bytes)
    : RatchetState :=
  mkRatchet signed_pre_key_private signed_pre_key_public None shared_secret None None 0 0 0 []
    DEFAULT_MAX_SKIP.

Definition ratchet_encrypt (plaintext associated_data : bytes)
    : SE RatchetState (MessageHeader * bytes * bytes) := λ st,
  match cks st with
  | None => (st, Raise SignalCryptoError)
  | Some ck =>
      let '(mk, ck') := _kdf_ck ck in
      let header := mkHeader (dhs_pub st) (pn st) (ns st) in
      let st' := mkRatchet (dhs_priv st) (dhs_pub st) (dhr st) (rk st) (Some ck') (ckr st)
                   (ns st + 1) (nr st) (pn st) (mkskipped st) (max_skip st) in
      (st', '(ciphertext, mac_key) ← _encrypt_aes_cbc mk plaintext;
            Ok (header, ciphertext, mac_key))
  end.

(** Drop the oldest entry above the limit. *)
Definition evict (d : list ((bytes * Z) * bytes)) : list ((bytes * Z) * bytes) :=
  if _MAX_SKIPPED_TOTAL <? Z.of_nat (length d)
  then match d with [] => d | (oldest, _) :: _ => dict_del oldest d end
  else d.

(** One turn of the [while] loop, entered with a receiving chain. *)
Definition skip_one (ck : bytes) : SE RatchetState bytes := λ st,
  let '(mk, ck') := _kdf_ck ck in
  match dhr st with
  | None => (mkRatchet (dhs_priv st) (dhs_pub st) None (rk st) (cks st) (Some ck') (ns st) (nr st)
               (pn st) (mkskipped st) (max_skip st), Raise AssertionError)
  | Some d =>
      (mkRatchet (dhs_priv st) (dhs_pub st) (Some d) (rk st) (cks st) (Some ck') (ns st) (nr st + 1)
         (pn st) (evict (dict_set (d, nr st) mk (mkskipped st))) (max_skip st), Ok ck')
  end.

Fixpoint skip_loop (n : nat) (ck : bytes) : SE RatchetState unit :=
  match n with
  | O => mret tt
  | S n => ck' ← skip_one ck; skip_loop n ck'
  end.

(** [until - nr] turns, none when [until <= nr]. *)
Definition _skip_message_keys (until : Z) : SE RatchetState unit := λ st,
  match ckr st with
  | None => (st, Ok tt)
  | Some ck =>
      if nr st + max_skip st <? until then (st, Raise SignalCryptoError)
      else skip_loop (Z.to_nat (until - nr st)) ck st
  end.

Definition _dh_ratchet (new : bytes * bytes) (header : MessageHeader) : SE RatchetState unit := λ st,
  let st1 := mkRatchet (dhs_priv st) (dhs_pub st) (Some (h_dh header)) (rk st) (cks st) (ckr st)
               0 0 (ns st) (mkskipped st) (max_skip st) in
  match _dh (dhs_priv st1) (h_dh header) with
  | Raise e => (st1, Raise e)
  | Ok dh1 =>
      let '(rk1, ckr1) := _kdf_rk (rk st1) dh1 in
      let '(new_priv, new_pub) := new in
      let st2 := mkRatchet new_priv new_pub (dhr st1) rk1 (cks st1) (Some ckr1) (ns st1) (nr st1)
                   (pn st1) (mkskipped st1) (max_skip st1) in
      match _dh new_priv (h_dh header) with
      | Raise e => (st2, Raise e)
      | Ok dh2 =>
          let '(rk2, cks2) := _kdf_rk rk1 dh2 in
          (mkRatchet new_priv new_pub (dhr st2) rk2 (Some cks2) (ckr st2) (ns st2) (nr st2)
             (pn st2) (mkskipped st2) (max_skip st2), Ok tt)
      end
  end.

(** The key is derived and checked; [None] is an absent verifier. *)
Definition open_message (verify_mac : option (bytes → result unit)) (mk ciphertext : bytes)
    : result bytes :=
  _ ← match verify_mac with
      | None => Ok tt
      | Some v => v (_derive_message_keys mk).1.1
      end;
  _decrypt_aes_cbc mk ciphertext.

Definition _try_skipped_message_keys (header : MessageHeader) (ciphertext associated_data : bytes)
    (verify_mac : option (bytes → result unit)) : SE RatchetState (option bytes) := λ st,
  let key := (h_dh header, h_n header) in
  match dict_get key (mkskipped st) with
  | None => (st, Ok None)
  | Some mk =>
      (mkRatchet (dhs_priv st) (dhs_pub st) (dhr st) (rk st) (cks st) (ckr st) (ns st) (nr st) (pn st)
         (dict_del key (mkskipped st)) (max_skip st),
       p ← open_message verify_mac mk ciphertext; Ok (Some p))
  end.

(** Step 4: the key of this message. *)
Definition take_message_key : SE RatchetState bytes := λ st,
  match ckr st with
  | None => (st, Raise AssertionError)
  | Some ck =>
      let '(mk, ck') := _kdf_ck ck in
      (mkRatchet (dhs_priv st) (dhs_pub st) (dhr st) (rk st) (cks st) (Some ck') (ns st) (nr st + 1)
         (pn st) (mkskipped st) (max_skip st), Ok mk)
  end.

(** Step 2: skip the rest of the old chain, then ratchet. *)
Definition advance_dh (new : bytes * bytes) (header : MessageHeader) : SE RatchetState unit := λ st,
  if bool_decide (dhr st = Some (h_dh header)) then (st, Ok tt)
  else (_ ← match ckr st with Some _ => _skip_message_keys (h_pn header) | None => mret tt end;
        _dh_ratchet new header) st.

Definition ratchet_decrypt (new : bytes * bytes) (header : MessageHeader)
    (ciphertext associated_data : bytes) (verify_mac : option (bytes → result unit))
    : SE RatchetState bytes :=
  plain ← _try_skipped_message_keys header ciphertext associated_data verify_mac;
  match plain with
  | Some p => mret p
  | None =>
      _ ← advance_dh new header;
      _ ← _skip_message_keys (h_n header);
      mk ← take_message_key;
      se_lift (open_message verify_mac mk ciphertext)
  end.
End Ratchet.

#[global] Arguments _kdf_rk : simpl never.
#[global] Arguments _kdf_ck : simpl never.
#[global] Arguments _derive_message_keys : simpl never.
