(* ===== verification/RatchetProofs.v ===== *)
(** * Correctness of the Double Ratchet

    Within one chain, messages decrypt in any delivery order and despite losses;
    across chains, a conversation with any pattern of turns decrypts message by
    message; and no peer can make the cache of skipped keys grow past its bound. *)

From S2P Require Import Prelude Effects PyStr Crypto AppCrypto SignalKeys SignalTypes Ratchet.

Section Proofs.
Context {X : X25519} {HK : Hkdf} {HKL : HkdfLaws HK} {HM : Hmac}
  {AES : AesCbc} {AL : AesCbcLaws AES} {PK : Pkcs7} {PL : Pkcs7Laws PK}.

(** ** One message *)

Lemma encrypt_ok mk p : ∃ c, _encrypt_aes_cbc mk p = Ok (c, (_derive_message_keys mk).1.1) ∧
  _decrypt_aes_cbc mk c = Ok p.
Proof.
  unfold _encrypt_aes_cbc, _decrypt_aes_cbc, _derive_message_keys. cbn [fst].
  set (out := hkdf_sha256 _ _ _ _).
  assert (length out = 80%nat) as Hl by (apply length_hkdf; lia).
  pose proof (aes_enc_cases (take 32 out) (slice 64 80 out) (pkcs7_padder p)) as Hc.
  rewrite pkcs7_pad_whole, andb_true_r in Hc. unfold aes_sizes in Hc.
  rewrite !bool_decide_true in Hc.
  - destruct Hc as (c & E & _ & D). exists c. rewrite E, D. rbind. by rewrite pkcs7_unpad_pad.
  - unfold slice. rewrite length_take, length_drop, Hl. done.
  - rewrite length_take, Hl. set_solver.
Qed.

(** ** The sending chain *)

Definition next_ck (ck : bytes) : bytes := (_kdf_ck ck).2.
Definition chain (ck : bytes) (i : nat) : bytes := Nat.iter i next_ck ck.
Definition mkey (ck : bytes) (i : nat) : bytes := (_kdf_ck (chain ck i)).1.

Lemma chain_S ck i : chain ck (S i) = next_ck (chain ck i).
Proof. done. Qed.

Lemma chain_next ck i : chain (next_ck ck) i = chain ck (S i).
Proof. induction i as [|i IH]; [done|]. by rewrite chain_S, IH. Qed.

(** A message as it travels: header, ciphertext and the key of its MAC. *)
Abbreviation packet := (MessageHeader * bytes * bytes)%type.

Fixpoint send_all (ps : list bytes) : SE RatchetState (list packet) :=
  match ps with
  | [] => mret []
  | p :: ps => m ← ratchet_encrypt p []; ms ← send_all ps; mret (m :: ms)
  end.

(** The MAC check the receiver passes: the derived key must be the sender's. *)
Definition check_mac (mac_key : bytes) : option (bytes → result unit) :=
  Some (λ k, guard_or (bool_decide (k = mac_key)) SignalCryptoError).

Definition receive (new : bytes * bytes) (m : packet) : SE RatchetState bytes :=
  let '(h, c, mac_key) := m in ratchet_decrypt new h c [] (check_mac mac_key).

Fixpoint receive_all (new : bytes * bytes) (ms : list packet) : SE RatchetState (list bytes) :=
  match ms with
  | [] => mret []
  | m :: ms => p ← receive new m; ps ← receive_all new ms; mret (p :: ps)
  end.

(** The verifier is content with the MAC key. *)
Definition accepts (v : option (bytes → result unit)) (mac_key : bytes) : Prop :=
  from_option (λ f, f mac_key = Ok tt) True v.

Lemma accepts_check k : accepts (check_mac k) k.
Proof. cbn. by rewrite bool_decide_true. Qed.
#[local] Hint Resolve accepts_check : core.

(** [m] carries [p] under the [i]th key of the chain [ck]. *)
Definition carries (ck d : bytes) (n0 : Z) (i : nat) (p : bytes) (m : packet) : Prop :=
  m.1.1.(h_dh) = d ∧ m.1.1.(h_n) = n0 + Z.of_nat i ∧
  ∀ v, accepts v m.2 → open_message v (mkey ck i) m.1.2 = Ok p.

Lemma encrypt_carries p st ck : cks st = Some ck →
  ∃ st' m, ratchet_encrypt p [] st = (st', Ok m) ∧ carries ck (dhs_pub st) (ns st) 0 p m ∧
    m.1.1.(h_pn) = pn st ∧
    st' = mkRatchet (dhs_priv st) (dhs_pub st) (dhr st) (rk st) (Some (next_ck ck)) (ckr st)
            (ns st + 1) (nr st) (pn st) (mkskipped st) (max_skip st).
Proof.
  intros Hck. unfold ratchet_encrypt. rewrite Hck. unfold _kdf_ck.
  destruct (encrypt_ok (mkey ck 0) p) as (c & E & D).
  unfold mkey, chain, _kdf_ck in E. cbn [Nat.iter nat_rect fst] in E. rewrite E. rbind.
  eexists _, _. split; [done|]. split_and!; [|done|done].
  unfold carries. cbn. split_and!; [done|lia|]. intros v Hv. unfold open_message.
  destruct v as [v|]; [|rbind; exact D]. change (v (_derive_message_keys (mkey ck 0)).1.1 = Ok tt) in Hv.
  rewrite Hv. rbind. exact D.
Qed.

Lemma carries_shift ck d n0 i p m : carries (next_ck ck) d (n0 + 1) i p m →
  carries ck d n0 (S i) p m.
Proof.
  intros (H1 & H2 & H3). split_and!; [done|lia|]. intros v Hv. specialize (H3 v Hv).
  unfold mkey in *. by rewrite chain_next in H3.
Qed.

Lemma send_all_carries ps : ∀ st ck, cks st = Some ck →
  ∃ st' ms, send_all ps st = (st', Ok ms) ∧ length ms = length ps ∧
    ∀ i p m, ps !! i = Some p → ms !! i = Some m → carries ck (dhs_pub st) (ns st) i p m.
Proof.
  induction ps as [|p ps IH]; intros st ck Hck.
  { exists st, []. split_and!; [done..|]. intros i p m H. by rewrite lookup_nil in H. }
  destruct (encrypt_carries p st ck Hck) as (st1 & m & E & Hc & _ & Hst1).
  destruct (IH st1 (next_ck ck)) as (st2 & ms & E2 & Hl & Hms); [by rewrite Hst1|].
  rewrite Hst1 in Hms. cbn in Hms.
  exists st2, (m :: ms). split_and!.
  - cbn [send_all]. unfold mbind, se_bind. by rewrite E, E2.
  - cbn. by rewrite Hl.
  - intros [|i] q m' Hq Hm'; cbn in Hq, Hm'; simplify_eq; [done|].
    apply carries_shift. eauto.
Qed.

(** ** The receiving chain *)

Section Chain.
Context (ck d : bytes) (n0 : Z) (k : nat).

(** [r] keys of the chain were derived, and those of [D] delivered; the cache
    holds exactly the others, and has room for what is still to come. *)
Record RInv (st : RatchetState) (r : nat) (D : list nat) : Prop := {
  ri_dhr : dhr st = Some d;
  ri_ckr : ckr st = Some (chain ck r);
  ri_nr : nr st = n0 + Z.of_nat r;
  ri_cached : ∀ j, (j < r)%nat → j ∉ D → dict_get (d, n0 + Z.of_nat j) (mkskipped st) = Some (mkey ck j);
  ri_absent : ∀ j, (r ≤ j)%nat → dict_get (d, n0 + Z.of_nat j) (mkskipped st) = None;
  ri_ok : dict_ok (mkskipped st);
  ri_room : (r ≤ k)%nat ∧ Z.of_nat (length (mkskipped st)) + Z.of_nat k - Z.of_nat r ≤ _MAX_SKIPPED_TOTAL;
  ri_skip : Z.of_nat k ≤ max_skip st
}.

Lemma length_dict_set_le {K V} `{EqDecision K} (x : K) (v : V) l :
  (length (dict_set x v l) ≤ S (length l))%nat.
Proof. induction l as [|[y w] l IH]; cbn; [lia|]. case_decide; cbn; lia. Qed.

Lemma skip_one_inv st r D : RInv st r D → (r < k)%nat → r ∉ D →
  ∃ st', skip_one (chain ck r) st = (st', Ok (chain ck (S r))) ∧ RInv st' (S r) D.
Proof.
  intros [Hd Hc Hn Hca Hab Hok [Hrk Hroom] Hms] Hr HD. unfold skip_one, _kdf_ck. rewrite Hd.
  eexists. split; [done|].
  pose proof (length_dict_set_le (d, nr st) (mkey ck r) (mkskipped st)) as Hlen.
  assert (evict (dict_set (d, nr st) (mkey ck r) (mkskipped st)) =
    dict_set (d, nr st) (mkey ck r) (mkskipped st)) as Hev.
  { unfold evict. rewrite (proj2 (Z.ltb_ge _ _)); [done|]. lia. }
  unfold mkey at 1, _kdf_ck in Hev. cbn [fst] in Hev.
  split; cbn; rewrite ?Hev.
  - done.
  - done.
  - lia.
  - intros j Hj HjD. rewrite Hn. destruct (decide (j = r)) as [->|].
    + by rewrite dict_get_set_eq.
    + rewrite dict_get_set_ne by (intros [=]; lia). apply Hca; [lia|done].
  - intros j Hj. rewrite Hn, dict_get_set_ne by (intros [=]; lia). apply Hab. lia.
  - by apply dict_set_ok.
  - split; [lia|].
    match goal with |- context [length (dict_set ?x ?v ?l)] => pose proof (length_dict_set_le x v l) end.
    unfold _MAX_SKIPPED_TOTAL in *. lia.
  - done.
Qed.

Lemma skip_loop_inv n : ∀ st r D, RInv st r D → (r + n ≤ k)%nat →
  (∀ j, (r ≤ j)%nat → j ∉ D) →
  ∃ st', skip_loop n (chain ck r) st = (st', Ok tt) ∧ RInv st' (r + n) D.
Proof.
  induction n as [|n IH]; intros st r D HI Hk HD.
  { exists st. rewrite Nat.add_0_r. done. }
  destruct (skip_one_inv st r D HI ltac:(lia) (HD r ltac:(lia))) as (st1 & E & HI1).
  destruct (IH st1 (S r) D HI1 ltac:(lia)) as (st2 & E2 & HI2); [intros; apply HD; lia|].
  exists st2. cbn [skip_loop]. unfold mbind, se_bind. rewrite E, E2.
  by replace (r + S n)%nat with (S r + n)%nat by lia.
Qed.

(** Every delivered index was derived. *)
Definition delivered_ok (r : nat) (D : list nat) : Prop := Forall (λ j, (j < r)%nat) D.

Lemma receive_new new st r D i p m :
  RInv st r D → delivered_ok r D → (r ≤ i < k)%nat → carries ck d n0 i p m →
  ∃ st', receive new m st = (st', Ok p) ∧ RInv st' (S i) (i :: D).
Proof.
  intros HI HD Hi (Hh & Hn & Hopen). destruct m as [[h c] mac]. cbn [fst snd] in *.
  assert (∀ j, (r ≤ j)%nat → j ∉ D) as HDr.
  { intros j Hj HjD. unfold delivered_ok in HD. rewrite Forall_forall in HD.
    specialize (HD j HjD). lia. }
  destruct (skip_loop_inv (i - r) st r D HI ltac:(lia) HDr) as (st1 & E1 & HI1).
  replace (r + (i - r))%nat with i in HI1 by lia. destruct HI as [Hd Hc Hnr Hca Hab Hok Hroom Hms].
  unfold receive, ratchet_decrypt, mbind, se_bind, _try_skipped_message_keys, advance_dh.
  rewrite Hh, Hn, Hab by lia. rewrite Hd, bool_decide_true by done.
  unfold _skip_message_keys. rewrite Hc.
  rewrite (proj2 (Z.ltb_ge _ _)) by lia.
  replace (Z.to_nat (n0 + Z.of_nat i - nr st)) with (i - r)%nat by lia. rewrite E1.
  destruct HI1 as [Hd1 Hc1 Hnr1 Hca1 Hab1 Hok1 Hroom1 Hms1].
  unfold take_message_key. rewrite Hc1. unfold _kdf_ck, se_lift.
  specialize (Hopen _ (accepts_check mac)). unfold mkey, _kdf_ck in Hopen. cbn [fst] in Hopen.
  rewrite Hopen. eexists. split; [done|]. split; cbn; [done|done|lia| | |done|lia|done].
  - intros j Hj HjD. apply not_elem_of_cons in HjD as [Hne HjD]. apply Hca1; [lia|done].
  - intros j Hj. apply Hab1. lia.
Qed.

Lemma receive_cached new st r D i p m :
  RInv st r D → delivered_ok r D → (i < r)%nat → i ∉ D → carries ck d n0 i p m →
  ∃ st', receive new m st = (st', Ok p) ∧ RInv st' r (i :: D).
Proof.
  intros HI HD Hi HiD (Hh & Hn & Hopen). destruct m as [[h c] mac]. cbn [fst snd] in *.
  destruct HI as [Hd Hc Hnr Hca Hab Hok Hroom Hms].
  unfold receive, ratchet_decrypt, mbind, se_bind, _try_skipped_message_keys.
  rewrite Hh, Hn, Hca by done. rewrite Hopen by done. eexists. split; [done|].
  split; cbn; [done|done|done| | |by apply dict_del_ok| |done].
  - intros j Hj HjD. apply not_elem_of_cons in HjD as [Hne HjD].
    rewrite dict_get_del_ne by (intros [=]; lia). by apply Hca.
  - intros j Hj. rewrite dict_get_del_ne by (intros [=]; lia). by apply Hab.
  - rewrite length_dict_del. case_decide; lia.
Qed.

Lemma receive_all_any_order new (ps : list bytes) (ms : list packet) order : ∀ st r D,
  (∀ i, i ∈ order → ∃ p m, ps !! i = Some p ∧ ms !! i = Some m ∧ carries ck d n0 i p m ∧ (i < k)%nat) →
  RInv st r D → delivered_ok r D → NoDup order → (∀ i, i ∈ order → i ∉ D) →
  ∃ st', receive_all new (omap (λ i, ms !! i) order) st = (st', Ok (omap (λ i, ps !! i) order)).
Proof.
  induction order as [|i order IH]; intros st r D Hm HI HD Hnd Hdis; [by exists st|].
  destruct (Hm i ltac:(left)) as (p & m & Hp & Hmi & Hc & Hik).
  apply NoDup_cons in Hnd as [Hi Hnd].
  assert (∃ st1 r1, receive new m st = (st1, Ok p) ∧ RInv st1 r1 (i :: D) ∧ delivered_ok r1 (i :: D))
    as (st1 & r1 & E & HI1 & HD1).
  { destruct (decide (i < r)%nat) as [Hlt|Hge].
    - destruct (receive_cached new st r D i p m) as (st1 & E & HI1); [done..|apply Hdis; left|done|].
      exists st1, r. split_and!; [done..|]. by constructor.
    - destruct (receive_new new st r D i p m) as (st1 & E & HI1); [done|done|lia|done|].
      exists st1, (S i). split_and!; [done..|]. constructor; [lia|].
      eapply Forall_impl; [exact HD|]. cbn. intros. lia. }
  destruct (IH st1 r1 (i :: D)) as (st2 & E2); [|done|done|done| |].
  - intros j Hj. apply Hm. by right.
  - intros j Hj. apply not_elem_of_cons. split; [by intros ->|]. apply Hdis. by right.
  - exists st2. cbn [omap list_omap]. rewrite Hmi, Hp. cbn [receive_all]. unfold mbind, se_bind.
    by rewrite E, E2.
Qed.
End Chain.
End Proofs.

(** Within one chain the ratchet tolerates any delivery order and any losses: the
    sender's messages, delivered in whatever order and subset, each decrypt to
    their plaintext, as long as the batch fits the skip limits. *)
Theorem ratchet_any_order {X : X25519} {HK : Hkdf} {HKL : HkdfLaws HK} {HM : Hmac}
    {AES : AesCbc} {AL : AesCbcLaws AES} {PK : Pkcs7} {PL : Pkcs7Laws PK}
    (snd rcv : RatchetState) (ck : bytes) (ps : list bytes) (order : list nat) (new : bytes * bytes) :
  cks snd = Some ck → ckr rcv = Some ck → dhr rcv = Some (dhs_pub snd) → nr rcv = ns snd →
  dict_ok (mkskipped rcv) →
  (∀ n, ns snd ≤ n → dict_get (dhs_pub snd, n) (mkskipped rcv) = None) →
  Z.of_nat (length ps) ≤ max_skip rcv →
  Z.of_nat (length (mkskipped rcv)) + Z.of_nat (length ps) ≤ _MAX_SKIPPED_TOTAL →
  NoDup order → (∀ i, i ∈ order → (i < length ps)%nat) →
  ∃ snd' ms rcv', send_all ps snd = (snd', Ok ms) ∧ length ms = length ps ∧
    receive_all new (omap (λ i, ms !! i) order) rcv = (rcv', Ok (omap (λ i, ps !! i) order)).
Proof.
  intros Hs Hr Hd Hn Hok Habs Hsk Htot Hnd Hord.
  destruct (send_all_carries ps snd ck Hs) as (snd' & ms & Es & Hl & Hc).
  destruct (receive_all_any_order ck (dhs_pub snd) (ns snd) (length ps) new ps ms order rcv 0 [])
    as (rcv' & Er).
  - intros i Hi. specialize (Hord i Hi). destruct (lookup_lt_is_Some_2 ps i Hord) as [p Hp].
    destruct (lookup_lt_is_Some_2 ms i) as [m Hm]; [by rewrite Hl|]. exists p, m. eauto.
  - split; cbn; [done|done|lia|lia| |done|lia|done]. intros j _. apply Habs. lia.
  - constructor.
  - done.
  - intros i _. apply not_elem_of_nil.
  - by exists snd', ms, rcv'.
Qed.

(** ** The cache of skipped keys is bounded *)

Section Bound.
Context {X : X25519} {HK : Hkdf} {HM : Hmac} {AES : AesCbc} {PK : Pkcs7}.

Definition cache_bounded (st : RatchetState) : Prop :=
  Z.of_nat (length (mkskipped st)) ≤ _MAX_SKIPPED_TOTAL.

Lemma length_dict_del_head {K V} `{EqDecision K} (k : K) (v : V) l :
  length (dict_del k ((k, v) :: l)) = length l.
Proof. cbn. by rewrite decide_True. Qed.

Lemma evict_bounded d : Z.of_nat (length d) ≤ _MAX_SKIPPED_TOTAL + 1 →
  Z.of_nat (length (evict d)) ≤ _MAX_SKIPPED_TOTAL.
Proof.
  unfold evict. intros H. destruct (_ <? _) eqn:E; zbool; [|done].
  destruct d as [|[k v] d]; [done|]. rewrite length_dict_del_head. cbn [length] in *. lia.
Qed.

(** A computation that keeps the bound, however it ends. *)
Definition still_bounded (st st' : RatchetState) : Prop := cache_bounded st → cache_bounded st'.
#[local] Abbreviation keeps_bound := (keeps still_bounded).

#[local] Instance still_bounded_preorder : PreOrder still_bounded.
Proof. split; [intros st; exact id|intros st1 st2 st3 H1 H2 H; by apply H2, H1]. Qed.

Lemma keeps_skip_one ck : keeps_bound (skip_one ck).
Proof.
  intros st Hst. unfold skip_one, _kdf_ck, cache_bounded in *. destruct (dhr st); [|done]. cbn.
  apply evict_bounded.
  pose proof (length_dict_set_le (l, nr st) (c_hmac_sha256 ck [mkb 0x01]) (mkskipped st)). lia.
Qed.

Lemma keeps_skip_loop n : ∀ ck, keeps_bound (skip_loop n ck).
Proof.
  induction n as [|n IH]; intros ck; [by apply keeps_ret; typeclasses eauto|].
  apply keeps_bind; [typeclasses eauto|apply keeps_skip_one|done].
Qed.

Lemma keeps_skip until : keeps_bound (_skip_message_keys until).
Proof.
  intros st Hst. unfold _skip_message_keys. destruct (ckr st); [|done].
  destruct (_ <? _); [done|]. by apply keeps_skip_loop.
Qed.

Lemma keeps_dh_ratchet new h : keeps_bound (_dh_ratchet new h).
Proof.
  intros st Hst. unfold _dh_ratchet. destruct new as [a b]. cbn.
  destruct (_dh _ _) as [dh1|]; [|done]. cbn. by destruct (_dh _ _).
Qed.

Lemma keeps_advance new h : keeps_bound (advance_dh new h).
Proof.
  intros st Hst. unfold advance_dh. case_bool_decide; [done|].
  destruct (ckr st); (apply (keeps_bind still_bounded); [|intros; apply keeps_dh_ratchet|done]);
    [apply keeps_skip|apply keeps_ret, _].
Qed.

Lemma keeps_try_skipped h c ad v : keeps_bound (_try_skipped_message_keys h c ad v).
Proof.
  intros st Hst. unfold _try_skipped_message_keys, cache_bounded in *.
  destruct (dict_get _ _); [|done]. cbn [fst mkskipped]. rewrite length_dict_del. case_decide; lia.
Qed.

Lemma keeps_take : keeps_bound take_message_key.
Proof. intros st Hst. unfold take_message_key. by destruct (ckr st). Qed.

#[local] Hint Resolve keeps_try_skipped keeps_advance keeps_skip keeps_take : keeps.

Lemma keeps_decrypt new h c ad v : keeps_bound (ratchet_decrypt new h c ad v).
Proof. unfold ratchet_decrypt. keeps. Qed.
End Bound.

(** No incoming message, genuine or forged, makes the ratchet hold more than 2000
    skipped keys, whether it decrypts or raises; and a header on the current
    chain more than [max_skip] ahead is refused with the state unchanged. *)
Theorem ratchet_cache_bounded {X : X25519} {HK : Hkdf} {HM : Hmac} {AES : AesCbc} {PK : Pkcs7}
    (st : RatchetState) new h c ad v :
  Z.of_nat (length (mkskipped st)) ≤ _MAX_SKIPPED_TOTAL →
  Z.of_nat (length (mkskipped (ratchet_decrypt new h c ad v st).1)) ≤ _MAX_SKIPPED_TOTAL ∧
  (dhr st = Some (h_dh h) → is_Some (ckr st) →
   dict_get (h_dh h, h_n h) (mkskipped st) = None → nr st + max_skip st < h_n h →
   ratchet_decrypt new h c ad v st = (st, Raise SignalCryptoError)).
Proof.
  intros Hst. split; [by apply keeps_decrypt|]. intros Hd [ck Hc] Hg Hn.
  unfold ratchet_decrypt, mbind, se_bind, _try_skipped_message_keys. rewrite Hg.
  unfold advance_dh. rewrite bool_decide_true by done. unfold _skip_message_keys.
  rewrite Hc, (proj2 (Z.ltb_lt _ _)) by lia. done.
Qed.

(** ** Conversations *)

Section Conversation.
Context {X : X25519} {XL : X25519Laws X} {HK : Hkdf} {HKL : HkdfLaws HK} {HM : Hmac}
  {AES : AesCbc} {AL : AesCbcLaws AES} {PK : Pkcs7} {PL : Pkcs7Laws PK}.

Definition keypair (priv pub : bytes) : Prop := length priv = 32%nat ∧ pub = x25519_public priv.

(** [x] has drawn a ratchet key [y] has not seen yet; everything else is level. *)
Record ahead (x y : RatchetState) : Prop := {
  ah_x_keys : keypair (dhs_priv x) (dhs_pub x);
  ah_y_keys : keypair (dhs_priv y) (dhs_pub y);
  ah_dhr : dhr x = Some (dhs_pub y);
  ah_unseen : dhr y ≠ Some (dhs_pub x);
  ah_root : ∃ s, x25519_exchange (dhs_priv y) (dhs_pub x) = Ok s ∧
              rk x = (_kdf_rk (rk y) s).1 ∧ cks x = Some (_kdf_rk (rk y) s).2;
  ah_ns : ns x = 0;
  ah_back : ckr x = cks y ∧ nr x = ns y;        (* y's chain, which x follows *)
  ah_old : is_Some (ckr y) → nr y = pn x;        (* x's previous chain was fully read *)
  ah_skip : mkskipped x = [] ∧ mkskipped y = [] ∧ 0 ≤ max_skip x ∧ 0 ≤ max_skip y
}.

(** The header names the sender's key and counters, and any verifier that accepts the MAC
    key, with any associated data, lets [y] read [p]; [y'] is what [y] becomes. *)
Definition reads (new : bytes * bytes) (x : RatchetState)
    (m : MessageHeader * bytes * bytes) (p : bytes) (y y' : RatchetState) : Prop :=
  m.1.1 = mkHeader (dhs_pub x) (pn x) (ns x) ∧
  ∀ v ad, accepts v m.2 → ratchet_decrypt new m.1.1 m.1.2 ad v y = (y', Ok p).

Lemma reads_receive new x m p y y' : reads new x m p y y' → receive new m y = (y', Ok p).
Proof. destruct m as [[h c] k]. intros [_ H]. unfold receive. apply H, accepts_check. Qed.

Definition counters (st : RatchetState) : list Z := [ns st; nr st; pn st; max_skip st].

(** [x] sends on its new chain: [y] follows, and is now the one ahead. *)
Lemma ahead_turn_reads x y p ad priv' : ahead x y → length priv' = 32%nat →
  x25519_public priv' ≠ dhs_pub y →
  ∃ x' y' m, ratchet_encrypt p ad x = (x', Ok m) ∧ reads (priv', x25519_public priv') x m p y y' ∧
    ahead y' x' ∧ is_Some (cks x') ∧
    (dhs_pub x' = dhs_pub x ∧ counters x' = [ns x + 1; nr x; pn x; max_skip x]) ∧
    (dhs_pub y' = x25519_public priv' ∧ counters y' = [0; 1; ns y; max_skip y]).
Proof.
  intros [Hx Hy Hd Hun (s & Es & Hrk & Hck) Hns [Hback Hbn] Hold (Sx & Sy & Mx & My)] Hp Hfresh.
  destruct (encrypt_carries p x _ Hck) as (x' & m & E & (Hh & Hn & Hopen) & Hpn & Hx').
  destruct m as [[h c] mac]. cbn [fst snd] in *.
  destruct Hx as [Hxl Hxp]. destruct (x25519_comm priv' (dhs_priv x) Hp Hxl) as (s2 & E2 & E2').
  rewrite <-Hxp in E2.
  destruct (_kdf_rk (rk y) s) as [rk1 ck1] eqn:Ek. cbn [fst snd] in *.
  destruct (_kdf_rk rk1 s2) as [rk2 ck2] eqn:Ek2.
  exists x', (mkRatchet priv' (x25519_public priv') (Some (dhs_pub x)) rk2 (Some ck2) (Some (next_ck ck1))
               0 1 (ns y) [] (max_skip y)), (h, c, mac).
  split; [exact E|]. split; [|split; [|rewrite Hx'; done]].
  - split; [destruct h; cbn in *; f_equal; [done..|lia]|]. intros v ad' Hv. cbn [fst snd] in *.
    unfold ratchet_decrypt, mbind, se_bind, _try_skipped_message_keys.
    cbn beta. rewrite Sy. cbn [dict_get]. unfold advance_dh. rewrite Hh, bool_decide_false by done.
    assert ((match ckr y with Some _ => _skip_message_keys (h_pn h) | None => mret tt end) y
      = (y, Ok tt)) as Hskip.
    { unfold _skip_message_keys. destruct (ckr y) eqn:Ec; [|done].
      rewrite Ec. rewrite (proj2 (Z.ltb_ge _ _)) by (specialize (Hold ltac:(done)); lia).
      replace (Z.to_nat (h_pn h - nr y)) with 0%nat by (specialize (Hold ltac:(done)); lia). done. }
    unfold mbind, se_bind. rewrite Hskip. unfold _dh_ratchet, _dh. cbn [dhs_priv rk].
    rewrite Hh, Es, Ek, E2, Ek2.
    unfold _skip_message_keys. cbn [ckr nr max_skip]. rewrite Hn, Hns.
    rewrite (proj2 (Z.ltb_ge _ _)) by lia. replace (Z.to_nat _) with 0%nat by lia.
    cbn [skip_loop mret se_ret].
    unfold take_message_key. cbn [ckr]. unfold _kdf_ck, se_lift. specialize (Hopen _ Hv).
    unfold mkey, _kdf_ck, chain in Hopen. cbn [Nat.iter nat_rect fst] in Hopen. rewrite Hopen.
    rewrite Sy. done.
  - rewrite Hx'. split; cbn.
    + by split.
    + by split.
    + done.
    + rewrite Hd. congruence.
    + exists s2. rewrite Hrk, Ek2. done.
    + done.
    + rewrite Hns. done.
    + intros _. lia.
    + rewrite Sx. done.
Qed.

(** [y] goes on sending on its old chain: nobody ratchets. *)
Lemma ahead_same_reads x y p ad new : ahead x y → is_Some (cks y) →
  ∃ x' y' m, ratchet_encrypt p ad y = (y', Ok m) ∧ reads new y m p x x' ∧ ahead x' y' ∧ is_Some (cks y') ∧
    (dhs_pub y' = dhs_pub y ∧ counters y' = [ns y + 1; nr y; pn y; max_skip y]) ∧
    (dhs_pub x' = dhs_pub x ∧ counters x' = [ns x; nr x + 1; pn x; max_skip x]).
Proof.
  intros [Hx Hy Hd Hun Hroot Hns [Hback Hbn] Hold (Sx & Sy & Mx & My)] [ck Hck].
  destruct (encrypt_carries p y ck Hck) as (y' & m & E & (Hh & Hn & Hopen) & Hpn & Hy').
  destruct m as [[h c] mac]. cbn [fst snd] in *.
  exists (mkRatchet (dhs_priv x) (dhs_pub x) (Some (dhs_pub y)) (rk x) (cks x) (Some (next_ck ck))
            (ns x) (nr x + 1) (pn x) [] (max_skip x)), y', (h, c, mac).
  split; [exact E|]. split; [|split; [|rewrite Hy'; done]].
  - split; [destruct h; cbn in *; f_equal; [done..|lia]|]. intros v ad' Hv. cbn [fst snd] in *.
    unfold ratchet_decrypt, mbind, se_bind, _try_skipped_message_keys.
    cbn beta. rewrite Sx. cbn [dict_get]. unfold advance_dh. rewrite Hd, Hh, bool_decide_true by done.
    unfold _skip_message_keys. rewrite Hback, Hck, Hn. rewrite (proj2 (Z.ltb_ge _ _)) by lia.
    replace (Z.to_nat _) with 0%nat by lia. cbn [skip_loop mret se_ret].
    unfold take_message_key. rewrite Hback, Hck. unfold _kdf_ck, se_lift. specialize (Hopen _ Hv).
    unfold mkey, _kdf_ck, chain in Hopen. cbn [Nat.iter nat_rect fst] in Hopen. rewrite Hopen.
    rewrite Hd, Sx. done.
  - rewrite Hy'. split; cbn; try done; try lia. rewrite Hbn. done.
Qed.

Lemma ahead_turn x y p priv' : ahead x y → length priv' = 32%nat →
  x25519_public priv' ≠ dhs_pub y →
  ∃ x' y' m, ratchet_encrypt p [] x = (x', Ok m) ∧
    receive (priv', x25519_public priv') m y = (y', Ok p) ∧ ahead y' x' ∧ is_Some (cks x').
Proof.
  intros Ha Hp Hf. destruct (ahead_turn_reads x y p [] priv' Ha Hp Hf) as (x' & y' & m & E & R & Ha' & Hc & _).
  exists x', y', m. split_and!; [done| |done..]. by eapply reads_receive.
Qed.

Lemma ahead_same x y p new : ahead x y → is_Some (cks y) →
  ∃ x' y' m, ratchet_encrypt p [] y = (y', Ok m) ∧ receive new m x = (x', Ok p) ∧ ahead x' y' ∧
    is_Some (cks y').
Proof.
  intros Ha Hc. destruct (ahead_same_reads x y p [] new Ha Hc) as (x' & y' & m & E & R & Ha' & Hc' & _).
  exists x', y', m. split_and!; [done| |done..]. by eapply reads_receive.
Qed.

(** *** A conversation: who speaks, what is said, and the key the listener draws
    if the message starts a new chain *)

Inductive speaker := Alice | Bob.

Definition turn : Type := speaker * bytes * bytes.

(** One message sent and delivered. *)
Definition say (t : turn) (ab : RatchetState * RatchetState)
    : (RatchetState * RatchetState) * result bytes :=
  let '(who, p, priv') := t in
  let '(from, to) := match who with Alice => ab | Bob => (ab.2, ab.1) end in
  let back f t := match who with Alice => (f, t) | Bob => (t, f) end in
  match ratchet_encrypt p [] from with
  | (from', Raise e) => (back from' to, Raise e)
  | (from', Ok m) =>
      let '(to', r) := receive (priv', x25519_public priv') m to in (back from' to', r)
  end.

Fixpoint converse (ts : list turn) (ab : RatchetState * RatchetState) : list (result bytes) :=
  match ts with
  | [] => []
  | t :: ts => let '(ab', r) := say t ab in r :: converse ts ab'
  end.

(** Both can speak; one of them is ahead. *)
Definition in_talk (ab : RatchetState * RatchetState) : Prop :=
  ahead ab.1 ab.2 ∧ is_Some (cks ab.2) ∨ ahead ab.2 ab.1 ∧ is_Some (cks ab.1).

(** The key drawn by the listener differs from the one it replaces. *)
Definition fresh_turn (t : turn) (ab : RatchetState * RatchetState) : Prop :=
  let '(who, _, priv') := t in
  length priv' = 32%nat ∧
  x25519_public priv' ≠ dhs_pub (match who with Alice => ab.2 | Bob => ab.1 end).

Fixpoint fresh_turns (ts : list turn) (ab : RatchetState * RatchetState) : Prop :=
  match ts with [] => True | t :: ts => fresh_turn t ab ∧ fresh_turns ts (say t ab).1 end.

Lemma ahead_can_speak x y : ahead x y → is_Some (cks x).
Proof. intros H. destruct (ah_root _ _ H) as (s & _ & _ & ->). done. Qed.

(** The one ahead speaks, or the other one does, whoever they are. *)
Lemma say_ok t ab : in_talk ab → fresh_turn t ab → ∃ ab', say t ab = (ab', Ok t.1.2) ∧ in_talk ab'.
Proof.
  destruct t as [[who p] priv'], ab as [a b]. intros Htalk [Hp Hf].
  unfold in_talk, say in *. cbn [fst snd] in *.
  destruct who; destruct Htalk as [[Ha Hs]|[Ha Hs]]; cbn [fst snd].
  - destruct (ahead_turn a b p priv' Ha Hp Hf) as (x' & y' & m & E & R & Ha' & Hs'). rewrite E, R. eauto.
  - destruct (ahead_same b a p (priv', x25519_public priv') Ha Hs) as (x' & y' & m & E & R & Ha' & Hs').
    rewrite E, R. eauto.
  - destruct (ahead_same a b p (priv', x25519_public priv') Ha Hs) as (x' & y' & m & E & R & Ha' & Hs').
    rewrite E, R. eauto.
  - destruct (ahead_turn b a p priv' Ha Hp Hf) as (x' & y' & m & E & R & Ha' & Hs'). rewrite E, R. eauto.
Qed.

Lemma converse_ok ts : ∀ ab, in_talk ab → fresh_turns ts ab → converse ts ab = (λ t : turn, Ok t.1.2) <$> ts.
Proof.
  induction ts as [|t ts IH]; intros ab Ht Hf; [done|]. destruct Hf as [Hf Hfs].
  destruct (say_ok t ab Ht Hf) as (ab' & E & Ht'). cbn [converse]. rewrite E in *. cbn [fst] in Hfs.
  rewrite IH by done. done.
Qed.

Lemma init_ahead a b sk alice : length a = 32%nat → length b = 32%nat →
  ratchet_init_alice (a, x25519_public a) sk (x25519_public b) = Ok alice →
  ahead alice (ratchet_init_bob sk b (x25519_public b)).
Proof.
  intros Ha Hb E. unfold ratchet_init_alice, _dh in E.
  destruct (x25519_comm a b Ha Hb) as (s & E1 & E2). rewrite E1 in E. revert E. rbind.
  destruct (_kdf_rk sk s) as [rk1 ck1] eqn:Ek. intros [= <-].
  split; cbn; try done. exists s. by rewrite E2, Ek.
Qed.
End Conversation.

(** C9: a conversation works: from the X3DH secret, once Alice has spoken first, every
    message of any sequence of turns decrypts at the other side to what was
    said, through all the Diffie-Hellman ratchet steps the turns cause, provided
    each drawn ratchet key differs from the one it replaces. *)
Theorem ratchet_conversation {X : X25519} {XL : X25519Laws X} {HK : Hkdf} {HKL : HkdfLaws HK}
    {HM : Hmac} {AES : AesCbc} {AL : AesCbcLaws AES} {PK : Pkcs7} {PL : Pkcs7Laws PK}
    (a b sk : bytes) (alice : RatchetState) (p priv' : bytes) (ts : list turn) :
  length a = 32%nat → length b = 32%nat →
  ratchet_init_alice (a, x25519_public a) sk (x25519_public b) = Ok alice →
  let bob := ratchet_init_bob sk b (x25519_public b) in
  fresh_turns ((Alice, p, priv') :: ts) (alice, bob) →
  converse ((Alice, p, priv') :: ts) (alice, bob) = (λ t : turn, Ok t.1.2) <$> ((Alice, p, priv') :: ts).
Proof.
  intros Ha Hb Hi bob [[Hp Hf] Hfs].
  pose proof (init_ahead a b sk alice Ha Hb Hi) as Hah. fold bob in Hah.
  destruct (ahead_turn alice bob p priv' Hah Hp Hf) as (x' & y' & m & E & R & Ha' & Hs').
  assert (say (Alice, p, priv') (alice, bob) = ((x', y'), Ok p)) as Hsay
    by (unfold say; by rewrite E, R).
  cbn [converse]. rewrite Hsay in *. rewrite (converse_ok ts (x', y')); [done| |done].
  right. by split.
Qed.

(** ** Witnesses *)

(** The padding of the code's own app-state layer serves as [PKCS7(128)]. *)
Definition demo_pkcs7 : Pkcs7 := {| pkcs7_padder := pkcs7_pad; pkcs7_unpadder := λ d,
  match pkcs7_strip d with Ok p => Ok p | Raise _ => Raise ValueError end |}.

#[global] Instance demo_pkcs7_laws : Pkcs7Laws demo_pkcs7.
Proof.
  split; cbn.
  - intros d. by rewrite pkcs7_strip_pad.
  - intros d. unfold whole_blocks. apply bool_decide_true, pkcs7_pad_blocks.
  - intros d e. destruct (pkcs7_strip d); congruence.
Qed.

Module RatchetDemo.
Definition key (i : Z) : bytes := replicate 32 (mkb i).
Definition alice : RatchetState :=
  match ratchet_init_alice (X := toy_x25519) (HK := toy_hkdf)
          (key 1, x25519_public (X25519 := toy_x25519) (key 1)) (key 9) (x25519_public (X25519 := toy_x25519) (key 2))
  with Ok st => st | Raise _ => ratchet_init_bob [] [] [] end.
Definition bob : RatchetState := ratchet_init_bob (key 9) (key 2) (x25519_public (X25519 := toy_x25519) (key 2)).
Definition turns : list turn :=
  [(Alice, bstr "hi", key 3); (Alice, bstr "there", key 4); (Bob, bstr "hello", key 5);
   (Alice, bstr "bye", key 6)].
(** A receiver level with Alice's first sending chain. *)
Definition rcv : RatchetState :=
  mkRatchet [] [] (Some (dhs_pub alice)) [] None (cks alice) 0 0 0 [] DEFAULT_MAX_SKIP.
End RatchetDemo.

Lemma ratchet_any_order_witness :
  ∃ snd' ms rcv', send_all (HK := toy_hkdf) (HM := toy_hmac) (AES := toy_aes) (PK := demo_pkcs7)
      [bstr "m0"; bstr "m1"; bstr "m2"; bstr "m3"] RatchetDemo.alice = (snd', Ok ms) ∧
    length ms = 4%nat ∧
    receive_all (X := toy_x25519) (HK := toy_hkdf) (HM := toy_hmac) (AES := toy_aes) (PK := demo_pkcs7)
      ([], []) (omap (λ i, ms !! i) [3; 0; 2]%nat) RatchetDemo.rcv
      = (rcv', Ok [bstr "m3"; bstr "m0"; bstr "m2"]).
Proof.
  apply (ratchet_any_order (X := toy_x25519) (HK := toy_hkdf) (HM := toy_hmac) (AES := toy_aes)
    (PK := demo_pkcs7) RatchetDemo.alice RatchetDemo.rcv (default [] (cks RatchetDemo.alice))
    [bstr "m0"; bstr "m1"; bstr "m2"; bstr "m3"] [3; 0; 2]%nat ([], []));
    try (vm_compute; reflexivity).
  - apply NoDup_nil_2.
  - vm_compute. discriminate.
  - vm_compute. discriminate.
  - repeat constructor; set_solver.
  - intros i. rewrite !elem_of_cons, elem_of_nil. cbn. lia.
Defined.

Lemma ratchet_cache_bounded_witness :
  Z.of_nat (length (mkskipped (ratchet_decrypt (X := toy_x25519) (HK := toy_hkdf) (HM := toy_hmac)
    (AES := toy_aes) (PK := demo_pkcs7) ([], []) (mkHeader (dhs_pub RatchetDemo.alice) 0 5000) [] [] None
    RatchetDemo.rcv).1)) ≤ _MAX_SKIPPED_TOTAL.
Proof.
  apply (ratchet_cache_bounded (X := toy_x25519) (HK := toy_hkdf) (HM := toy_hmac) (AES := toy_aes)
    (PK := demo_pkcs7) RatchetDemo.rcv). vm_compute. discriminate.
Defined.

Lemma ratchet_conversation_witness :
  converse (X := toy_x25519) (HK := toy_hkdf) (HM := toy_hmac) (AES := toy_aes) (PK := demo_pkcs7)
    RatchetDemo.turns (RatchetDemo.alice, RatchetDemo.bob)
  = [Ok (bstr "hi"); Ok (bstr "there"); Ok (bstr "hello"); Ok (bstr "bye")].
Proof.
  apply (ratchet_conversation (X := toy_x25519) (HK := toy_hkdf) (HM := toy_hmac) (AES := toy_aes)
    (PK := demo_pkcs7) (RatchetDemo.key 1) (RatchetDemo.key 2) (RatchetDemo.key 9));
    [reflexivity|reflexivity|vm_compute; reflexivity|].
  vm_compute. repeat split; discriminate.
Defined.
