(* ===== verification/SenderKey.v ===== *)
(** * Group sender keys ([src/src/pywhats/signal/experimental/sender_key.py])

    A sender-key session is a hash-ratchet chain with a signing key. Random values
    (chain key, signing key, signature nonce) are arguments. *)

From S2P Require Import Prelude PyStr Json Sha256 Crypto AppCrypto SignalKeys SignalTypes.

Definition _VERSION : Z := 3.
Definition _VERSION_BYTE : byte := mkb (Z.lor (Z.shiftl _VERSION 4) _VERSION).
Definition _MSG_SEED : bytes := [mkb 0x01].
Definition _CHAIN_SEED : bytes := [mkb 0x02].
Definition _WHISPER_GROUP : bytes := bstr "WhisperGroup".
Definition _MAX_JUMP : Z := 2000.

Record SenderKeyState := mkSenderKey {
  key_id : Z;
  iteration : Z;
  chain_key : bytes;
  signing_public : bytes;
  signing_private : option bytes
}.

#[global] Instance SenderKeyState_eq_dec : EqDecision SenderKeyState.
Proof. solve_decision. Defined.

(** ** The protobuf bodies *)

Record SenderKeyMessageBody := mkSkBody { skb_id : Z; skb_iteration : Z; skb_ciphertext : bytes }.

Record SenderKeyDistributionMessageBody := mkSkdBody {
  skd_id : Z; skd_iteration : Z; skd_chain_key : bytes; skd_signing_key : bytes }.

Class SenderKeyProto := {
  ser_SenderKeyMessage : SenderKeyMessageBody → result bytes;
  parse_SenderKeyMessage : bytes → result SenderKeyMessageBody;
  ser_SenderKeyDistribution : SenderKeyDistributionMessageBody → result bytes;
  parse_SenderKeyDistribution : bytes → result SenderKeyDistributionMessageBody
}.

Class SenderKeyProtoLaws (P : SenderKeyProto) : Prop := {
  sender_key_message_roundtrip b : if uint32 (skb_id b) && uint32 (skb_iteration b) then
      ∃ bs, ser_SenderKeyMessage b = Ok bs ∧ parse_SenderKeyMessage bs = Ok b
    else ser_SenderKeyMessage b = Raise ValueError;
  sender_key_distribution_roundtrip b : if uint32 (skd_id b) && uint32 (skd_iteration b) then
      ∃ bs, ser_SenderKeyDistribution b = Ok bs ∧ parse_SenderKeyDistribution bs = Ok b
    else ser_SenderKeyDistribution b = Raise ValueError
}.

(** ** Padding as this module does it *)

Definition skmsg_unpad (padded : bytes) : result bytes :=
  pad ← some_or (b2z <$> last padded) IndexError;
  if (pad <? 1) || (16 <? pad) || (Z.of_nat (length padded) <? pad)
     || negb (bool_decide (suffix_from (Z.to_nat pad) padded = replicate (Z.to_nat pad) (mkb pad)))
  then Raise SenderKeyError
  else Ok (prefix_upto (Z.to_nat pad) padded).

Definition _strip_djb (public : bytes) : result bytes :=
  if (Z.of_nat (length public) =? 33) && bool_decide (head public = Some (mkb 0x05))
  then Ok (drop 1 public)
  else if Z.of_nat (length public) =? 32 then Ok public
  else Raise SenderKeyError.

Section SenderKey.
Context {X : X25519} {E : XEdDSA} {HK : Hkdf} {AES : AesCbc} {P : SenderKeyProto}.

Definition _hmac256 (key data : bytes) : bytes := hmac_sha256 key data.

Definition _message_key (chain_key : bytes) : bytes * bytes :=
  let seed := _hmac256 chain_key _MSG_SEED in
  let derivative := hkdf_sha256 None seed _WHISPER_GROUP 48 in
  (take 16 derivative, slice 16 48 derivative).

Definition _next_chain_key (chain_key : bytes) : bytes := _hmac256 chain_key _CHAIN_SEED.

Definition create_sender_key_state (key_id : Z) (signing_private chain_key : bytes) : SenderKeyState :=
  mkSenderKey key_id 0 chain_key (x25519_public signing_private) (Some signing_private).

Definition build_distribution_message (state : SenderKeyState) : result bytes :=
  k ← signal_pubkey (signing_public state);
  body ← ser_SenderKeyDistribution
           (mkSkdBody (key_id state) (iteration state) (chain_key state) k);
  Ok (_VERSION_BYTE :: body).

Definition process_distribution_message (data : bytes) : result SenderKeyState :=
  body ← parse_SenderKeyDistribution (drop 1 data);
  pub ← _strip_djb (skd_signing_key body);
  Ok (mkSenderKey (skd_id body) (skd_iteration body) (skd_chain_key body) pub None).

Definition sk_aes_cbc_encrypt (key iv plaintext : bytes) : result bytes :=
  let pad := (16 - length plaintext mod 16)%nat in
  aes_cbc_enc key iv (plaintext ++ replicate pad (mkb (Z.of_nat pad))).

Definition sk_aes_cbc_decrypt (key iv ciphertext : bytes) : result bytes :=
  if negb (truthy ciphertext) || negb (Z.of_nat (length ciphertext) mod 16 =? 0)
  then Raise SenderKeyError
  else
    padded ← aes_cbc_dec key iv ciphertext;
    skmsg_unpad padded.

Definition _build_skmsg (key_id iteration : Z) (ciphertext signing_private random_z : bytes)
    : result bytes :=
  body ← ser_SenderKeyMessage (mkSkBody key_id iteration ciphertext);
  let serialized := _VERSION_BYTE :: body in
  signature ← xeddsa_sign signing_private serialized random_z;
  Ok (serialized ++ signature).

Definition advance (state : SenderKeyState) (iteration : Z) (chain_key : bytes) : SenderKeyState :=
  mkSenderKey (key_id state) iteration chain_key (signing_public state) (signing_private state).

Definition group_encrypt (random_z : bytes) (state : SenderKeyState) (plaintext : bytes)
    : result (bytes * SenderKeyState) :=
  sp ← some_or (signing_private state) SenderKeyError;
  let '(iv, cipher_key) := _message_key (chain_key state) in
  ciphertext ← sk_aes_cbc_encrypt cipher_key iv plaintext;
  skmsg ← _build_skmsg (key_id state) (iteration state) ciphertext sp random_z;
  Ok (skmsg, advance state (iteration state + 1) (_next_chain_key (chain_key state))).

(** [while iteration < target], [n] turns. *)
Fixpoint fast_forward (n : nat) (chain_key : bytes) : bytes :=
  match n with O => chain_key | S n => fast_forward n (_next_chain_key chain_key) end.

Definition group_decrypt (state : SenderKeyState) (skmsg : bytes) : result (bytes * SenderKeyState) :=
  if Z.of_nat (length skmsg) <? 64 then Raise SenderKeyError
  else
    let serialized := prefix_upto 64 skmsg in
    let signature := suffix_from 64 skmsg in
    if negb (xeddsa_verify (signing_public state) serialized signature)
    then Raise InvalidSenderKeySignature
    else
      body ← parse_SenderKeyMessage (drop 1 serialized);
      let target := skb_iteration body in
      if target <? iteration state then Raise SenderKeyError
      else if _MAX_JUMP <? target - iteration state then Raise SenderKeyError
      else
        let ck := fast_forward (Z.to_nat (target - iteration state)) (chain_key state) in
        let '(iv, cipher_key) := _message_key ck in
        plaintext ← sk_aes_cbc_decrypt cipher_key iv (skb_ciphertext body);
        Ok (plaintext, advance state (target + 1) (_next_chain_key ck)).
End SenderKey.

(** ** Persistence *)

Definition serialize_sender_key_state (state : SenderKeyState) : list (str * json) :=
  [(u "key_id", JInt (key_id state));
   (u "iteration", JInt (iteration state));
   (u "chain_key", JStr (hex_encode (chain_key state)));
   (u "signing_public", JStr (hex_encode (signing_public state)));
   (u "signing_private",
     match signing_private state with
     | Some p => if truthy p then JStr (hex_encode p) else JNull
     | None => JNull
     end)].

(** [isinstance(v, int)] holds of booleans too. *)
Definition as_int (v : json) : result Z :=
  match v with
  | JInt n => Ok n
  | JBool x => Ok (if x then 1 else 0)
  | _ => Raise AssertionError
  end.

Definition as_str (v : json) : result str :=
  match v with JStr s => Ok s | _ => Raise AssertionError end.

Definition deserialize_sender_key_state (data : list (str * json)) : result SenderKeyState :=
  sp ← some_or (dict_get (u "signing_private") data) KeyError;
  key_id ← some_or (dict_get (u "key_id") data) KeyError;
  iteration ← some_or (dict_get (u "iteration") data) KeyError;
  chain_key ← some_or (dict_get (u "chain_key") data) KeyError;
  signing_public ← some_or (dict_get (u "signing_public") data) KeyError;
  key_id ← as_int key_id;
  iteration ← as_int iteration;
  chain_key ← as_str chain_key;
  signing_public ← as_str signing_public;
  ck ← bytes_fromhex chain_key;
  pub ← bytes_fromhex signing_public;
  priv ← match sp with JStr s => p ← bytes_fromhex s; Ok (Some p) | _ => Ok None end;
  Ok (mkSenderKey key_id iteration ck pub priv).

(** ** The in-memory store *)

Definition SenderKeyStore : Type := list ((str * str) * SenderKeyState).

Definition sk_load (s : SenderKeyStore) (group_id sender_id : str) : option SenderKeyState :=
  dict_get (group_id, sender_id) s.
Definition sk_save (s : SenderKeyStore) (group_id sender_id : str) (st : SenderKeyState)
    : SenderKeyStore := dict_set (group_id, sender_id) st s.
Definition sk_delete (s : SenderKeyStore) (group_id sender_id : str) : SenderKeyStore :=
  dict_del (group_id, sender_id) s.

(** A stored sender key is read back unchanged, unless its private half is the empty
    string, which the serialiser drops. *)
Lemma sk_json_roundtrip (state : SenderKeyState) :
  deserialize_sender_key_state (serialize_sender_key_state state) =
    Ok (mkSenderKey (key_id state) (iteration state) (chain_key state) (signing_public state)
          (match signing_private state with Some [] => None | p => p end)).
Proof.
  destruct state as [kid it ck pub priv]. unfold deserialize_sender_key_state.
  unfold serialize_sender_key_state. cbn [SenderKey.key_id SenderKey.iteration SenderKey.chain_key
    SenderKey.signing_public SenderKey.signing_private].
  set (sp := match priv with Some _ => _ | None => _ end).
  assert (match sp with JStr s => p ← bytes_fromhex s; Ok (Some p) | _ => Ok None end =
    Ok (match priv with Some [] => None | p => p end)) as Hsp.
  { unfold sp. destruct priv as [[|x p]|]; [done| |done]. cbn [truthy].
    rewrite fromhex_hex. done. }
  pose proof (fromhex_hex ck) as Hc. pose proof (fromhex_hex pub) as Hp.
  set (hc := hex_encode ck) in *. set (hp := hex_encode pub) in *. clearbody hc hp sp.
  dict_lit. rbind. cbn [as_int as_str]. rbind. rewrite Hc. rbind. rewrite Hp. rbind. rewrite Hsp. rbind.
  by destruct priv as [[|]|].
Qed.

(** ** Group messages *)

Lemma skmsg_unpad_pad d : skmsg_unpad (pkcs7_pad d) = Ok d.
Proof.
  pose proof (pkcs7_strip_pad d) as H. unfold pkcs7_strip, skmsg_unpad in *.
  destruct (some_or _ _) as [pad|e]; [|done]. revert H. rbind.
  destruct (_ || _ || _); [done|]. cbn [orb]. by destruct (bool_decide _).
Qed.

Section Group.
Context {X : X25519} {XL : X25519Laws X} {E : XEdDSA} {EL : XEdDSALaws X E} {HK : Hkdf}
  {HKL : HkdfLaws HK} {AES : AesCbc} {AL : AesCbcLaws AES} {P : SenderKeyProto}
  {PL : SenderKeyProtoLaws P}.

Lemma sk_aes_roundtrip ck p : let '(iv, k) := _message_key ck in
  ∃ c, sk_aes_cbc_encrypt k iv p = Ok c ∧ sk_aes_cbc_decrypt k iv c = Ok p.
Proof.
  unfold _message_key. set (out := hkdf_sha256 _ _ _ _).
  assert (length out = 48%nat) as Hl by (apply length_hkdf; lia).
  pose proof (aes_enc_cases (slice 16 48 out) (take 16 out) (pkcs7_pad p)) as Hc.
  destruct (pkcs7_pad_blocks p) as [Hb Hlt].
  unfold aes_sizes, whole_blocks in Hc. rewrite !bool_decide_true in Hc; [|done| |].
  - destruct Hc as (c & Ec & Hcl & Dc). exists c. split; [done|]. unfold sk_aes_cbc_decrypt.
    replace (truthy c) with true by (destruct c; [simpl in Hcl; lia|done]).
    replace (Z.of_nat (length c) mod 16) with 0
      by (rewrite Hcl; change 16 with (Z.of_nat 16); by rewrite <-Nat2Z.inj_mod, Hb).
    cbn [negb orb Z.eqb]. rewrite Dc. rbind. apply skmsg_unpad_pad.
  - rewrite length_take, Hl. done.
  - unfold slice. rewrite length_take, length_drop, Hl. set_solver.
Qed.

(** The [i]th chain key after the state's own. *)
Lemma fast_forward_S n ck : fast_forward (S n) ck = _next_chain_key (fast_forward n ck).
Proof. revert ck. induction n as [|n IH]; intros ck; [done|]. cbn [fast_forward]. by rewrite <-IH. Qed.

Lemma fast_forward_add n m ck : fast_forward n (fast_forward m ck) = fast_forward (m + n) ck.
Proof. revert ck. induction m as [|m IH]; intros ck; [done|]. cbn. apply IH. Qed.

(** [skmsg] carries [p] at the iteration and chain key of [st]. *)
Definition sk_carries (st : SenderKeyState) (p skmsg : bytes) : Prop :=
  ∃ body sig c, skmsg = (_VERSION_BYTE :: body) ++ sig ∧ length sig = 64%nat ∧
    xeddsa_verify (signing_public st) (_VERSION_BYTE :: body) sig = true ∧
    parse_SenderKeyMessage body = Ok (mkSkBody (key_id st) (iteration st) c) ∧
    (let '(iv, k) := _message_key (chain_key st) in sk_aes_cbc_decrypt k iv c = Ok p).

(** An own sending state: 32-byte private key, its public half, wire-sized ids. *)
Definition own_state (st : SenderKeyState) : Prop :=
  uint32 (key_id st) = true ∧ ∃ k, length k = 32%nat ∧ signing_private st = Some k ∧
    signing_public st = x25519_public k.

Lemma group_encrypt_ok z st p : own_state st → length z = 64%nat → uint32 (iteration st) = true →
  ∃ skmsg, group_encrypt z st p =
      Ok (skmsg, advance st (iteration st + 1) (_next_chain_key (chain_key st))) ∧
    sk_carries st p skmsg.
Proof.
  intros (Hid & k & Hk & Hp & Hpub) Hz Hit. unfold group_encrypt. rewrite Hp. rbind.
  pose proof (sk_aes_roundtrip (chain_key st) p) as Haes.
  destruct (_message_key (chain_key st)) as [iv ck] eqn:Em. destruct Haes as (c & Ec & Dc). rewrite Ec. rbind.
  unfold _build_skmsg. pose proof (sender_key_message_roundtrip (mkSkBody (key_id st) (iteration st) c)) as R.
  cbn [skb_id skb_iteration] in R. rewrite Hid, Hit in R. destruct R as (body & Eb & Pb). rewrite Eb. rbind.
  pose proof (xeddsa_sign_ok k (_VERSION_BYTE :: body) z Hk Hz) as Hs.
  destruct (xeddsa_sign k (_VERSION_BYTE :: body) z) as [sig|] eqn:Esig; [|done]. rbind.
  eexists. split; [done|]. exists body, sig, c. split_and!; [done| | |done|by rewrite Em].
  - by eapply length_xeddsa_sign.
  - rewrite Hpub. by eapply xeddsa_verify_sign.
Qed.

(** What the receiver does with a genuine message, by how far it is ahead. *)
Lemma group_decrypt_genuine st_msg rcv p skmsg :
  sk_carries st_msg p skmsg → signing_public rcv = signing_public st_msg →
  group_decrypt rcv skmsg =
    if iteration st_msg <? iteration rcv then Raise SenderKeyError
    else if _MAX_JUMP <? iteration st_msg - iteration rcv then Raise SenderKeyError
    else
      let ck := fast_forward (Z.to_nat (iteration st_msg - iteration rcv)) (chain_key rcv) in
      let '(iv, k) := _message_key ck in
      body ← parse_SenderKeyMessage (drop 1 (prefix_upto 64 skmsg));
      plaintext ← sk_aes_cbc_decrypt k iv (skb_ciphertext body);
      Ok (plaintext, advance rcv (iteration st_msg + 1) (_next_chain_key ck)).
Proof.
  intros (body & sig & c & -> & Hsig & Hver & Hparse & Hdec) Hpub. unfold group_decrypt.
  unfold prefix_upto, suffix_from. rewrite !length_app, Hsig.
  replace (length (_VERSION_BYTE :: body) + 64 - 64)%nat with (length (_VERSION_BYTE :: body)) by lia.
  rewrite take_app_length, drop_app_length. rewrite (proj2 (Z.ltb_ge _ _)) by lia.
  rewrite Hpub, Hver. cbn [negb]. change (drop 1 (_VERSION_BYTE :: body)) with (drop 0 body).
  rewrite drop_0, Hparse. rbind. cbn [skb_iteration].
  destruct (_ <? _); [done|]. destruct (_ <? _); [done|]. cbn zeta. by destruct (_message_key _).
Qed.

(** A receiver that has followed the sender's chain to iteration [iteration rcv]. *)
Definition follows (st rcv : SenderKeyState) : Prop :=
  signing_public rcv = signing_public st ∧ ∃ n, iteration rcv = iteration st + Z.of_nat n ∧
    chain_key rcv = fast_forward n (chain_key st).

(** The sender's state when it encrypts its [i]th message. *)
Definition at_message (st : SenderKeyState) (i : nat) : SenderKeyState :=
  advance st (iteration st + Z.of_nat i) (fast_forward i (chain_key st)).

Lemma group_decrypt_follows st rcv i p skmsg :
  follows st rcv → sk_carries (at_message st i) p skmsg →
  iteration rcv ≤ iteration st + Z.of_nat i ≤ iteration rcv + _MAX_JUMP →
  ∃ rcv', group_decrypt rcv skmsg = Ok (p, rcv') ∧ follows st rcv' ∧
    iteration rcv' = iteration st + Z.of_nat i + 1.
Proof.
  intros (Hpub & n & Hn & Hck) Hc Hi.
  rewrite (group_decrypt_genuine (at_message st i) rcv p skmsg Hc) by done.
  destruct Hc as (body & sig & c & -> & Hsig & Hver & Hparse & Hdec).
  cbn [at_message advance iteration] in *.
  rewrite (proj2 (Z.ltb_ge _ _)), (proj2 (Z.ltb_ge _ _)) by lia. cbn zeta.
  rewrite Hck, fast_forward_add.
  replace (n + Z.to_nat (iteration st + Z.of_nat i - iteration rcv))%nat with i by lia.
  cbn [chain_key] in Hdec. destruct (_message_key _) as [iv k].
  unfold prefix_upto. rewrite length_app, Hsig.
  replace (length (_VERSION_BYTE :: body) + 64 - 64)%nat with (length (_VERSION_BYTE :: body)) by lia.
  rewrite take_app_length. change (drop 1 (_VERSION_BYTE :: body)) with (drop 0 body).
  rewrite drop_0, Hparse. rbind. cbn [skb_ciphertext]. rewrite Hdec. rbind.
  eexists. split; [done|]. split; [|done]. split; [done|]. exists (S i). cbn [advance iteration chain_key].
  split; [lia|]. by rewrite fast_forward_S.
Qed.

(** *** A group session: distribution, a stream of messages, lossy delivery *)

Fixpoint group_send (z : bytes) (st : SenderKeyState) (ps : list bytes) : result (list bytes) :=
  match ps with
  | [] => Ok []
  | p :: ps => '(m, st') ← group_encrypt z st p; ms ← group_send z st' ps; Ok (m :: ms)
  end.

Fixpoint group_receive (st : SenderKeyState) (ms : list bytes) : result (list bytes * SenderKeyState) :=
  match ms with
  | [] => Ok ([], st)
  | m :: ms => '(p, st') ← group_decrypt st m; '(ps, st'') ← group_receive st' ms; Ok (p :: ps, st'')
  end.

Lemma group_send_carries z ps : ∀ st, own_state st → length z = 64%nat →
  0 ≤ iteration st → iteration st + Z.of_nat (length ps) ≤ 2 ^ 32 →
  ∃ ms, group_send z st ps = Ok ms ∧ length ms = length ps ∧
    ∀ i p m, ps !! i = Some p → ms !! i = Some m → sk_carries (at_message st i) p m.
Proof.
  induction ps as [|p ps IH]; intros st Hown Hz H0 Hit.
  { exists []. split_and!; [done..|]. intros i p m H. by rewrite lookup_nil in H. }
  cbn [length] in Hit.
  destruct (group_encrypt_ok z st p Hown Hz) as (m & Em & Hc); [unfold uint32; lia|].
  destruct (IH (advance st (iteration st + 1) (_next_chain_key (chain_key st)))) as (ms & Ems & Hl & Hms).
  { destruct Hown as (? & k & ?). split; [done|]. by exists k. }
  { done. }
  { cbn [advance iteration]. lia. }
  { cbn [advance iteration]. lia. }
  exists (m :: ms). cbn [group_send]. rewrite Em. rbind. rewrite Ems. rbind. split_and!; [done|cbn; by rewrite Hl|].
  intros [|i] q m' Hq Hm'; cbn in Hq, Hm'; simplify_eq.
  - unfold at_message. cbn [fast_forward]. rewrite Z.add_0_r.
    by destruct st.
  - specialize (Hms i q m' Hq Hm'). unfold at_message in *. cbn [advance iteration chain_key] in Hms.
    replace (iteration st + Z.of_nat (S i)) with (iteration st + 1 + Z.of_nat i) by lia. exact Hms.
Qed.

(** Strictly increasing indexes from [lo], with gaps the receiver tolerates. *)
Fixpoint in_order (lo : Z) (ixs : list nat) : Prop :=
  match ixs with
  | [] => True
  | i :: ixs => lo ≤ Z.of_nat i ≤ lo + _MAX_JUMP ∧ in_order (Z.of_nat i + 1) ixs
  end.

Lemma group_receive_ok st ps ms order : ∀ rcv,
  (∀ i p m, ps !! i = Some p → ms !! i = Some m → sk_carries (at_message st i) p m) →
  Forall (λ i, (i < length ps)%nat ∧ (i < length ms)%nat) order →
  follows st rcv → in_order (iteration rcv - iteration st) order →
  ∃ rcv', group_receive rcv (omap (λ i, ms !! i) order) = Ok (omap (λ i, ps !! i) order, rcv') ∧
    follows st rcv' ∧
    iteration rcv' = from_option (λ i, iteration st + Z.of_nat i + 1) (iteration rcv) (last order).
Proof.
  induction order as [|i order IH]; intros rcv Hc Hb Hf Ho; [by exists rcv|].
  apply Forall_cons in Hb as [[Hb1 Hb2] Hb]. destruct Ho as [Hi Ho].
  destruct (lookup_lt_is_Some_2 ps i Hb1) as [p Hp], (lookup_lt_is_Some_2 ms i Hb2) as [m Hm].
  destruct (group_decrypt_follows st rcv i p m Hf (Hc i p m Hp Hm)) as (rcv1 & E1 & Hf1 & Hit1); [lia|].
  destruct (IH rcv1 Hc Hb Hf1) as (rcv2 & E2 & Hf2 & Hit2).
  { by replace (iteration rcv1 - iteration st) with (Z.of_nat i + 1) by lia. }
  exists rcv2. cbn [omap list_omap]. rewrite Hp, Hm. cbn [group_receive]. rewrite E1. rbind. rewrite E2. rbind.
  split_and!; [done..|]. rewrite Hit2. destruct order as [|j order]; cbn [last from_option]; [done|].
  by destruct (last (j :: order)) eqn:El; [|apply last_None in El].
Qed.

Lemma distribution_follows st : own_state st → uint32 (iteration st) = true →
  ∃ dist rcv, build_distribution_message st = Ok dist ∧ process_distribution_message dist = Ok rcv ∧
    follows st rcv ∧ iteration rcv = iteration st.
Proof.
  intros (Hid & k & Hk & Hp & Hpub) Hit. unfold build_distribution_message, process_distribution_message.
  assert (length (signing_public st) = 32%nat) as Hl by (rewrite Hpub; apply length_x25519_public).
  rewrite signal_pubkey_32 by done. rbind.
  pose proof (sender_key_distribution_roundtrip
    (mkSkdBody (key_id st) (iteration st) (chain_key st) (_SIGNAL_KEY_TYPE :: signing_public st))) as R.
  cbn [skd_id skd_iteration] in R. rewrite Hid, Hit in R. destruct R as (body & Eb & Pb). rewrite Eb. rbind.
  eexists _, _. split; [done|]. change (drop 1 (_VERSION_BYTE :: body)) with (drop 0 body).
  rewrite drop_0, Pb. rbind. cbn [skd_signing_key]. unfold _strip_djb. cbn [length]. rewrite Hl.
  split; [done|]. split; [|done]. split; [done|]. exists 0%nat. split; [cbn; lia|done].
Qed.
End Group.

(** C11: group sessions work: a member who processed the sender's distribution message
    decrypts any increasing subset of the following messages (gaps up to 2000)
    to what was sent, and a message delivered again, or older than the last one
    read, is refused with [SenderKeyError]. *)
Theorem group_session {X : X25519} {XL : X25519Laws X} {E : XEdDSA} {EL : XEdDSALaws X E} {HK : Hkdf}
    {HKL : HkdfLaws HK} {AES : AesCbc} {AL : AesCbcLaws AES} {P : SenderKeyProto}
    {PL : SenderKeyProtoLaws P} (st : SenderKeyState) (z : bytes) (ps : list bytes) (order : list nat) :
  own_state st → length z = 64%nat → 0 ≤ iteration st < 2 ^ 32 →
  iteration st + Z.of_nat (length ps) ≤ 2 ^ 32 →
  Forall (λ i, (i < length ps)%nat) order → in_order 0 order →
  ∃ dist rcv ms rcv', build_distribution_message st = Ok dist ∧
    process_distribution_message dist = Ok rcv ∧ group_send z st ps = Ok ms ∧
    group_receive rcv (omap (λ i, ms !! i) order) = Ok (omap (λ i, ps !! i) order, rcv') ∧
    ∀ j l m, last order = Some l → (j ≤ l)%nat → ms !! j = Some m →
      group_decrypt rcv' m = Raise SenderKeyError.
Proof.
  intros Hown Hz Hit Htot Hb Ho.
  destruct (distribution_follows st Hown) as (dist & rcv & Ed & Ep & Hf & Hi); [unfold uint32; lia|].
  destruct (group_send_carries z ps st Hown Hz) as (ms & Es & Hl & Hc); [lia|done|].
  destruct (group_receive_ok st ps ms order rcv Hc) as (rcv' & Er & Hf' & Hi'); [|done| |].
  { eapply Forall_impl; [exact Hb|]. cbn. intros. lia. }
  { by rewrite Hi, Z.sub_diag. }
  exists dist, rcv, ms, rcv'. split_and!; [done..|]. intros j l m Hlast Hj Hm.
  rewrite Hlast in Hi'. cbn [from_option] in Hi'.
  destruct (lookup_lt_is_Some_2 ps j) as [p Hp]; [rewrite <-Hl; by eapply lookup_lt_Some|].
  rewrite (group_decrypt_genuine (at_message st j) rcv' p m (Hc j p m Hp Hm)) by apply Hf'.
  cbn [at_message advance iteration]. by rewrite (proj2 (Z.ltb_lt _ _)) by lia.
Qed.

(** ** Witness *)

Definition toy_sk_proto : SenderKeyProto := {|
  ser_SenderKeyMessage b := if uint32 (skb_id b) && uint32 (skb_iteration b)
    then Ok (toy_num (skb_id b) ++ toy_num (skb_iteration b) ++ toy_field (skb_ciphertext b) ++ [])
    else Raise ValueError;
  parse_SenderKeyMessage bs := let '(i, bs) := toy_get_num bs in let '(n, bs) := toy_get_num bs in
    let '(c, _) := toy_get bs in Ok (mkSkBody i n c);
  ser_SenderKeyDistribution b := if uint32 (skd_id b) && uint32 (skd_iteration b)
    then Ok (toy_num (skd_id b) ++ toy_num (skd_iteration b) ++ toy_field (skd_chain_key b)
             ++ toy_field (skd_signing_key b) ++ [])
    else Raise ValueError;
  parse_SenderKeyDistribution bs := let '(i, bs) := toy_get_num bs in let '(n, bs) := toy_get_num bs in
    let '(c, bs) := toy_get bs in let '(k, _) := toy_get bs in Ok (mkSkdBody i n c k)
|}.

#[global] Instance toy_sk_proto_laws : SenderKeyProtoLaws toy_sk_proto.
Proof.
  split.
  - intros [i n c]. cbn -[toy_get toy_field toy_num toy_get_num uint32 app].
    destruct (uint32 i && uint32 n) eqn:H; [|done]. apply andb_true_iff in H as [Hi Hn].
    eexists. split; [done|]. by rewrite !toy_get_num_ok, toy_get_field by done.
  - intros [i n c k]. cbn -[toy_get toy_field toy_num toy_get_num uint32 app].
    destruct (uint32 i && uint32 n) eqn:H; [|done]. apply andb_true_iff in H as [Hi Hn].
    eexists. split; [done|]. by rewrite !toy_get_num_ok, !toy_get_field by done.
Qed.

Lemma group_session_witness :
  let st := create_sender_key_state (X := toy_x25519) 5 (replicate 32 (mkb 3)) (replicate 32 (mkb 8)) in
  ∃ dist rcv ms rcv', build_distribution_message (P := toy_sk_proto) st = Ok dist ∧
    process_distribution_message (P := toy_sk_proto) dist = Ok rcv ∧
    group_send (E := toy_xeddsa) (HK := toy_hkdf) (AES := toy_aes) (P := toy_sk_proto)
      (replicate 64 (mkb 0)) st [bstr "a"; bstr "b"; bstr "c"] = Ok ms ∧
    group_receive (E := toy_xeddsa) (HK := toy_hkdf) (AES := toy_aes) (P := toy_sk_proto)
      rcv (omap (λ i, ms !! i) [0; 2]%nat) = Ok ([bstr "a"; bstr "c"], rcv').
Proof.
  cbn zeta.
  destruct (group_session (X := toy_x25519) (E := toy_xeddsa) (HK := toy_hkdf) (AES := toy_aes)
    (P := toy_sk_proto) (create_sender_key_state (X := toy_x25519) 5 (replicate 32 (mkb 3)) (replicate 32 (mkb 8)))
    (replicate 64 (mkb 0)) [bstr "a"; bstr "b"; bstr "c"] [0; 2]%nat)
    as (dist & rcv & ms & rcv' & H1 & H2 & H3 & H4 & _).
  - split; [reflexivity|]. exists (replicate 32 (mkb 3)). split_and!; reflexivity.
  - reflexivity.
  - cbn. lia.
  - cbn. lia.
  - repeat constructor.
  - vm_compute. repeat split; discriminate.
  - exists dist, rcv, ms, rcv'. split; [exact H1|]. split; [exact H2|]. split; [exact H3|exact H4].
Defined.
