(* ===== verification/SessionStore.v ===== *)
(** * Session, identity, prekey, LID-map and sender-key stores

    [src/src/pywhats/signal/experimental/store.py], [identity_store.py],
    [prekey_store.py], [lid_map.py], the matching facets of [sqlite_store.py], and
    [messaging/addressing.py]. Ratchet states are kept as JSON (in memory) or as
    JSON text (SQLite); the client code sees them through the [SessionStore]
    protocol and its laws. *)

From S2P Require Import Prelude PyStr Json JsonText Jid Sha256 Crypto AppCrypto SignalKeys SignalTypes Ratchet.
From S2P Require Import SenderKey.

Definition _SCHEMA_VERSION : Z := 1.

Definition _b64 (b : bytes) : str := b64encode b.

(** Every failure of [s.encode("ascii")] and [b64decode] becomes [SignalCryptoError]. *)
Definition _unb64 (s : str) : result bytes := some_or (b64decode s) SignalCryptoError.

Definition json_opt (o : option bytes) : json :=
  match o with Some b => JStr (_b64 b) | None => JNull end.

Definition serialize_skipped (e : (bytes * Z) * bytes) : json :=
  JObj [(u "dh", JStr (_b64 e.1.1)); (u "n", JInt e.1.2); (u "mk", JStr (_b64 e.2))].

Definition serialize_state (state : RatchetState) : list (str * json) :=
  [(u "schema", JInt _SCHEMA_VERSION);
   (u "dhs_priv", JStr (_b64 (dhs_priv state)));
   (u "dhs_pub", JStr (_b64 (dhs_pub state)));
   (u "dhr", json_opt (dhr state));
   (u "rk", JStr (_b64 (rk state)));
   (u "cks", json_opt (cks state));
   (u "ckr", json_opt (ckr state));
   (u "ns", JInt (ns state));
   (u "nr", JInt (nr state));
   (u "pn", JInt (pn state));
   (u "max_skip", JInt (max_skip state));
   (u "mkskipped", JArr (serialize_skipped <$> mkskipped state))].

(** [schema != 1] for a JSON value: [True] and [1.0] equal [1] too. *)
Definition is_schema `{FloatOps} (v : json) : bool :=
  match v with
  | JInt n => n =? _SCHEMA_VERSION
  | JBool x => x
  | JFloat lit => float_is lit _SCHEMA_VERSION
  | _ => false
  end.

Section Deserialize.
Context {U : UnicodeDB} {F : FloatOps}.

(** [data[k]], whose [KeyError] the caller turns into [SignalCryptoError]. *)
Definition field (k : str) (data : list (str * json)) : result json :=
  some_or (dict_get k data) SignalCryptoError.

(** [_unb64(str(data[k]))] *)
Definition b64_field (k : str) (data : list (str * json)) : result bytes :=
  v ← field k data; s ← py_str_json v; _unb64 s.

(** [_unb64(str(raw)) if raw is not None else None] with [raw = data.get(k)] *)
Definition opt_json (raw : json) : result (option bytes) :=
  match raw with
  | JNull => Ok None
  | v => s ← py_str_json v; b ← _unb64 s; Ok (Some b)
  end.

Definition opt_field (k : str) (data : list (str * json)) : result (option bytes) :=
  opt_json (default JNull (dict_get k data)).

(** [int(data.get(k, default))] *)
Definition int_field (k : str) (default : Z) (data : list (str * json)) : result Z :=
  match dict_get k data with None => Ok default | Some v => py_int_json v end.

Fixpoint skipped_entries (l : list json) (acc : list ((bytes * Z) * bytes))
    : result (list ((bytes * Z) * bytes)) :=
  match l with
  | [] => Ok acc
  | JObj e :: l =>
      mk ← b64_field (u "mk") e;      (* the value is evaluated before the key *)
      dh ← b64_field (u "dh") e;
      n ← (v ← field (u "n") e; py_int_json v);
      skipped_entries l (dict_set (dh, n) mk acc)
  | _ => Raise SignalCryptoError
  end.

(** [data.get("mkskipped", []) or []], which must be a list. *)
Definition raw_skipped (data : list (str * json)) : result (list json) :=
  match dict_get (u "mkskipped") data with
  | None | Some JNull | Some (JBool false) | Some (JStr []) | Some (JObj []) => Ok []
  | Some (JInt n) => if n =? 0 then Ok [] else Raise SignalCryptoError
  | Some (JArr l) => Ok l
  | Some _ => Raise SignalCryptoError
  end.

Definition deserialize_state (data : list (str * json)) : result RatchetState :=
  if negb (from_option is_schema false (dict_get (u "schema") data)) then Raise SignalCryptoError
  else
    dhs_priv ← b64_field (u "dhs_priv") data;
    dhs_pub ← b64_field (u "dhs_pub") data;
    rk ← b64_field (u "rk") data;
    dhr ← opt_field (u "dhr") data;
    cks ← opt_field (u "cks") data;
    ckr ← opt_field (u "ckr") data;
    ns ← int_field (u "ns") 0 data;
    nr ← int_field (u "nr") 0 data;
    pn ← int_field (u "pn") 0 data;
    max_skip ← int_field (u "max_skip") DEFAULT_MAX_SKIP data;
    raw ← raw_skipped data;
    mkskipped ← skipped_entries raw [];
    Ok (mkRatchet dhs_priv dhs_pub dhr rk cks ckr ns nr pn mkskipped max_skip).

(** ** Round trip *)

Lemma unb64_b64 b : _unb64 (_b64 b) = Ok b.
Proof. unfold _unb64, _b64. by rewrite b64_roundtrip. Qed.

Lemma skipped_entries_ok l acc : dict_ok (acc ++ l) →
  skipped_entries (serialize_skipped <$> l) acc = Ok (acc ++ l).
Proof.
  revert acc. induction l as [|[[dh n] mk] l IH]; intros acc Hok.
  { cbn. by rewrite app_nil_r. }
  rewrite fmap_cons. cbn [serialize_skipped skipped_entries fst snd].
  pose proof (unb64_b64 mk) as Hmk. pose proof (unb64_b64 dh) as Hdh.
  set (smk := _b64 mk) in *. set (sdh := _b64 dh) in *. clearbody smk sdh.
  unfold b64_field, field. dict_lit. rbind. cbn [py_str_json py_int_json]. rbind.
  rewrite Hmk. rbind. rewrite Hdh. rbind.
  rewrite dict_set_new.
  - rewrite IH; rewrite <-app_assoc; done.
  - unfold dict_ok, dict_keys in *. rewrite fmap_app, fmap_cons in Hok.
    apply NoDup_app in Hok as (_ & Hdis & _). intros Hin. apply (Hdis (dh, n) Hin). left.
Qed.

Lemma deserialize_serialize st : dict_ok (mkskipped st) →
  deserialize_state (serialize_state st) = Ok st.
Proof.
  destruct st as [a b d r cs cr s n p mks mx]. intros Hok. cbn [mkskipped] in Hok.
  unfold serialize_state, deserialize_state. cbn [dhs_priv dhs_pub dhr rk cks ckr ns nr pn mkskipped max_skip].
  pose proof (unb64_b64 a) as Ha. pose proof (unb64_b64 b) as Hb. pose proof (unb64_b64 r) as Hr.
  pose proof (skipped_entries_ok mks [] Hok) as Hs.
  set (ja := _b64 a) in *. set (jb := _b64 b) in *. set (jr := _b64 r) in *.
  set (js := serialize_skipped <$> mks) in *. clearbody ja jb jr js.
  assert (∀ o, opt_json (json_opt o) = Ok o) as Ho.
  { intros [x|]; [|done]. cbn [json_opt opt_json py_str_json]. rbind. by rewrite unb64_b64. }
  pose proof (Ho d) as Hd. pose proof (Ho cs) as Hcs. pose proof (Ho cr) as Hcr. clear Ho.
  set (jd := json_opt d) in *. set (jcs := json_opt cs) in *. set (jcr := json_opt cr) in *.
  clearbody jd jcs jcr.
  unfold b64_field, field, opt_field, int_field, raw_skipped. dict_lit.
  cbn [id from_option is_schema _SCHEMA_VERSION Z.eqb Pos.eqb negb]. rbind. cbn [py_str_json]. rbind.
  rewrite Ha. rbind. rewrite Hb. rbind. rewrite Hr. rbind. rewrite Hd. rbind. rewrite Hcs. rbind.
  rewrite Hcr. rbind. cbn [py_int_json]. rbind. rewrite Hs. done.
Qed.

(** Counters are natural numbers that print within the interpreter's limit. *)
Definition counter_ok (z : Z) : Prop := 0 ≤ z ∧ is_ok (py_str_int z) = true.

(** A state the stores can hold: distinct skipped keys, printable counters. *)
Definition storable_state (st : RatchetState) : Prop :=
  dict_ok (mkskipped st) ∧
  Forall counter_ok ([ns st; nr st; pn st; max_skip st] ++ ((λ e, e.1.2) <$> mkskipped st)).

Lemma b64_scalar b : scalar_str (_b64 b) = true.
Proof.
  unfold scalar_str, _b64. apply forallb_forall. intros c Hc%list_elem_of_In. revert c Hc.
  enough (∀ n b, (length b ≤ n)%nat → ∀ c, c ∈ b64encode b → is_scalar c = true) as K by (by eapply K).
  assert (∀ n, is_scalar (b64_char n) = true ∨ n < 0 ∨ 64 ≤ n) as Hch.
  { intros n. destruct (decide (0 ≤ n < 64)); [left|lia]. unfold b64_char.
    apply is_scalar_spec. repeat case_match; zbool; lia. }
  assert (∀ n, 0 ≤ n < 64 → is_scalar (b64_char n) = true) as Hb.
  { intros n Hn. destruct (Hch n) as [?|[?|?]]; [done|lia|lia]. }
  clear b. induction n as [|n IH]; intros b Hn c.
  { destruct b; cbn in Hn; [|lia]. by intros ?%not_elem_of_nil. }
  destruct b as [|x [|y [|z b]]]; cbn [b64encode length] in *; rewrite ?elem_of_cons, ?elem_of_nil;
    try (pose proof (b2z_range x)); try (pose proof (b2z_range y)); try (pose proof (b2z_range z)).
  - done.
  - intros [->|[->|[->|[->|[]]]]]; try done; apply Hb; Z.div_mod_to_equations; lia.
  - intros [->|[->|[->|[->|[]]]]]; try done; apply Hb; Z.div_mod_to_equations; lia.
  - intros [->|[->|[->|[->|Hc]]]]; [apply Hb; Z.div_mod_to_equations; lia..|]. eapply IH; [|done]. lia.
Qed.

Lemma wf_b64 b : json_wf (JStr (_b64 b)).
Proof. constructor. apply b64_scalar. Qed.

(** The keys of a literal object are scalar and distinct. *)
Definition keys_ok (ks : list str) : bool := bool_decide (NoDup ks) && forallb scalar_str ks.

Lemma wf_literal_obj l : keys_ok (dict_keys l) = true → Forall (λ kv, json_wf kv.2) l → json_wf (JObj l).
Proof.
  intros [Hd%bool_decide_eq_true Hk]%andb_true_iff Hf. constructor; [done|].
  rewrite Forall_forall in *. intros kv Hin. split; [|by apply Hf].
  rewrite forallb_forall in Hk. apply Hk, list_elem_of_In. by apply list_elem_of_fmap_2.
Qed.

Lemma serialize_ok st : storable_state st →
  json_wf (JObj (serialize_state st)) ∧ printable (JObj (serialize_state st)).
Proof.
  intros [_ Hz]. apply Forall_app in Hz as [Hz Hs]. repeat (apply Forall_cons in Hz as [[? ?] Hz]).
  rewrite Forall_fmap in Hs.
  assert (∀ o, json_wf (json_opt o) ∧ printable (json_opt o)) as Ho
    by (intros [x|]; [split; [apply wf_b64|done]|split; [constructor|done]]).
  assert (∀ e, e ∈ mkskipped st → json_wf (serialize_skipped e) ∧ printable (serialize_skipped e)) as He.
  { intros [[dh n] mk] He. rewrite Forall_forall in Hs. destruct (Hs _ He) as [Hn0 Hn]. cbn in Hn0, Hn.
    split.
    - apply wf_literal_obj; [vm_compute; reflexivity|].
      repeat (apply Forall_cons; split; [first [apply wf_b64|by constructor]|]). constructor.
    - apply printable_obj. repeat (apply Forall_cons; split; [solve [cbn [snd fst]; auto with json]|]). constructor. }
  split.
  - apply wf_literal_obj; [vm_compute; reflexivity|]. unfold serialize_state.
    repeat (apply Forall_cons; split;
      [first [apply wf_b64|apply Ho|by constructor|constructor; apply Forall_fmap, Forall_forall; apply He]|]).
    constructor.
  - apply printable_obj. unfold serialize_state.
    repeat (apply Forall_cons; split; [first [apply Ho|solve [cbn [snd]; auto with json]|apply printable_arr, Forall_fmap, Forall_forall; apply He]|]).
    constructor.
Qed.
End Deserialize.

(** ** The [SessionStore] protocol *)

Class SessionStore (S : Type) := {
  ss_load : S → str → result (option RatchetState);
  ss_save : S → str → RatchetState → result S;
  ss_delete : S → str → S
}.

Class SessionStoreLaws (S : Type) {I : SessionStore S} : Prop := {
  load_save s id st : storable_state st → ∃ s', ss_save s id st = Ok s' ∧
    ss_load s' id = Ok (Some st) ∧ ∀ id', id ≠ id' → ss_load s' id' = ss_load s id';
  load_delete s id : ss_load (ss_delete s id) id = Ok None;
  load_delete_ne s id id' : id ≠ id' → ss_load (ss_delete s id) id' = ss_load s id';
  load_save_ne s id st s' id' : ss_save s id st = Ok s' → id ≠ id' → ss_load s' id' = ss_load s id'
}.

Section Stores.
Context {U : UnicodeDB} {UL : UnicodeDBLaws U} {F : FloatOps}.

Definition load_json (v : result json) : result (option RatchetState) :=
  v ← v;
  match v with
  | JObj data => st ← deserialize_state data; Ok (Some st)
  | _ => Raise AttributeError
  end.

(** [InMemorySessionStore]: the JSON tree, copied through its text on load. *)
Record InMemorySessionStore := mkMemSessions { mem_sessions : gmap str (list (str * json)) }.

Definition mem_load (s : InMemorySessionStore) (id : str) : result (option RatchetState) :=
  match mem_sessions s !! id with
  | None => Ok None
  | Some blob => load_json (t ← json_dumps (JObj blob); json_loads_str t)
  end.

Definition mem_save (s : InMemorySessionStore) (id : str) (st : RatchetState) : InMemorySessionStore :=
  mkMemSessions (<[id := serialize_state st]> (mem_sessions s)).

Definition mem_delete (s : InMemorySessionStore) (id : str) : InMemorySessionStore :=
  mkMemSessions (delete id (mem_sessions s)).

#[global] Instance mem_session_store : SessionStore InMemorySessionStore := {
  ss_load := mem_load;
  ss_save s id st := Ok (mem_save s id st);
  ss_delete := mem_delete
}.

(** [SqliteSessionStore]: the [sessions] table holds the text. *)
Record SqliteSessionStore := mkSqlSessions { sql_sessions : gmap str str }.

Definition sql_load (s : SqliteSessionStore) (id : str) : result (option RatchetState) :=
  match sql_sessions s !! id with
  | None => Ok None
  | Some text => load_json (json_loads_str text)
  end.

Definition sql_save (s : SqliteSessionStore) (id : str) (st : RatchetState) : result SqliteSessionStore :=
  payload ← json_dumps (JObj (serialize_state st));
  Ok (mkSqlSessions (<[id := payload]> (sql_sessions s))).

Definition sql_delete (s : SqliteSessionStore) (id : str) : SqliteSessionStore :=
  mkSqlSessions (delete id (sql_sessions s)).

#[global] Instance sql_session_store : SessionStore SqliteSessionStore := {
  ss_load := sql_load;
  ss_save := sql_save;
  ss_delete := sql_delete
}.

(** What was dumped loads as the state it came from. *)
Lemma load_dumped st : storable_state st → ∃ t, json_dumps (JObj (serialize_state st)) = Ok t ∧
  load_json (json_loads_str t) = Ok (Some st).
Proof.
  intros Hst. destruct (serialize_ok st Hst) as [Hwf Hok].
  specialize (Hok None 0%nat). change (dumps_at None 0) with json_dumps in Hok.
  destruct (json_dumps (JObj (serialize_state st))) as [t|] eqn:Et; [|done]. exists t. split; [done|].
  rewrite (json_roundtrip _ _ Hwf Et). unfold load_json. rbind.
  by rewrite deserialize_serialize by apply Hst.
Qed.

#[global] Instance mem_session_laws : SessionStoreLaws InMemorySessionStore.
Proof.
  split.
  - intros s id st Hst. cbn [ss_save ss_load mem_session_store]. eexists. split; [done|].
    unfold mem_load, mem_save. cbn [mem_sessions]. split.
    + rewrite lookup_insert_eq. destruct (load_dumped st Hst) as (t & -> & Hl). exact Hl.
    + intros id' Hne. by rewrite lookup_insert_ne.
  - intros s id. cbn. unfold mem_load. cbn. by rewrite lookup_delete_eq.
  - intros s id id' Hne. cbn. unfold mem_load. cbn. by rewrite lookup_delete_ne.
  - intros s id st s' id' [= <-] Hne. cbn. unfold mem_load. cbn. by rewrite lookup_insert_ne.
Qed.

#[global] Instance sql_session_laws : SessionStoreLaws SqliteSessionStore.
Proof.
  split.
  - intros s id st Hst. cbn [ss_save ss_load sql_session_store]. unfold sql_save.
    destruct (load_dumped st Hst) as (t & -> & Hl). rbind. eexists. split; [done|].
    unfold sql_load. cbn [sql_sessions]. split; [by rewrite lookup_insert_eq|].
    intros id' Hne. by rewrite lookup_insert_ne.
  - intros s id. cbn. unfold sql_load. cbn. by rewrite lookup_delete_eq.
  - intros s id id' Hne. cbn. unfold sql_load. cbn. by rewrite lookup_delete_ne.
  - intros s id st s' id' Hs Hne. cbn in *. unfold sql_save in Hs. res_inv. unfold sql_load. cbn. by rewrite lookup_insert_ne.
Qed.
End Stores.

(** ** Sequences of operations *)

Inductive SessionOp := SaveSession (id : str) (st : RatchetState) | DeleteSession (id : str).

Definition run_session_op {S} `{SessionStore S} (s : S) (op : SessionOp) : result S :=
  match op with SaveSession id st => ss_save s id st | DeleteSession id => Ok (ss_delete s id) end.

Definition run_session_ops {S} `{SessionStore S} (s : S) (ops : list SessionOp) : result S :=
  foldl (λ r op, s ← r; run_session_op s op) (Ok s) ops.

(** What a store should answer for [id]. *)
Definition last_session (id : str) (ops : list SessionOp) : option RatchetState :=
  foldl (λ r op, match op with
                 | SaveSession id' st => if decide (id' = id) then Some st else r
                 | DeleteSession id' => if decide (id' = id) then None else r
                 end) None ops.

Definition session_op_ok (op : SessionOp) : Prop :=
  match op with SaveSession _ st => storable_state st | DeleteSession _ => True end.

Lemma run_session_ops_ok {S} {I : SessionStore S} {L : SessionStoreLaws S} (s : S) ops :
  (∀ id, ss_load s id = Ok None) → Forall session_op_ok ops →
  ∃ s', run_session_ops s ops = Ok s' ∧ ∀ id, ss_load s' id = Ok (last_session id ops).
Proof.
  intros H0. induction ops as [|op ops IH] using rev_ind; intros Hf; [by exists s|].
  apply Forall_app in Hf as [Hf [Hop _]%Forall_cons]. destruct (IH Hf) as (s1 & E1 & H1).
  unfold run_session_ops, last_session in *. setoid_rewrite foldl_app. rewrite E1. cbn [foldl].
  destruct op as [id st|id]; cbn [mbind result_bind run_session_op].
  - destruct (load_save s1 id st Hop) as (s2 & -> & Hl & Hne). exists s2. split; [done|].
    intros id'. case_decide; [by subst|]. by rewrite Hne.
  - eexists. split; [done|]. intros id'. case_decide; [subst; apply load_delete|].
    by rewrite load_delete_ne.
Qed.

(** C29: sessions survive storage: after any sequence of saves and deletes, both the
    in-memory and the SQLite session store return for every session id exactly
    the ratchet state last saved, through base64, the JSON text and back. *)
Theorem session_stores_faithful {U : UnicodeDB} {UL : UnicodeDBLaws U} {F : FloatOps}
    (ops : list SessionOp) :
  Forall session_op_ok ops →
  ∃ m q, run_session_ops (mkMemSessions ∅) ops = Ok m ∧ run_session_ops (mkSqlSessions ∅) ops = Ok q ∧
    ∀ id, ss_load m id = Ok (last_session id ops) ∧ ss_load q id = Ok (last_session id ops).
Proof.
  intros Hf.
  destruct (run_session_ops_ok (mkMemSessions ∅) ops) as (m & Em & Hm); [|done|].
  { intros id. cbn. unfold mem_load. cbn. by rewrite lookup_empty. }
  destruct (run_session_ops_ok (mkSqlSessions ∅) ops) as (q & Eq & Hq); [|done|].
  { intros id. cbn. unfold sql_load. cbn. by rewrite lookup_empty. }
  exists m, q. split_and!; [done..|]. auto.
Qed.

Definition no_floats : FloatOps := {|
  float_to_int _ := Raise ValueError; float_is _ _ := false; float_of_int _ := Raise OverflowError; float_of_str _ := Raise ValueError |}.

Lemma session_stores_faithful_witness :
  let st := mkRatchet (bstr "priv") (bstr "pub") None (bstr "root") (Some (bstr "ck")) None 3 0 0
              [((bstr "dh", 2), bstr "mk")] DEFAULT_MAX_SKIP in
  let ops := [SaveSession (u "a") st; DeleteSession (u "b")] in
  ∃ m q, run_session_ops (H := mem_session_store (U := latin1_ucd) (F := no_floats)) (mkMemSessions ∅) ops = Ok m ∧
    run_session_ops (H := sql_session_store (U := latin1_ucd) (F := no_floats)) (mkSqlSessions ∅) ops = Ok q ∧
    ∀ id, mem_load (U := latin1_ucd) (F := no_floats) m id = Ok (last_session id ops) ∧
          sql_load (U := latin1_ucd) (F := no_floats) q id = Ok (last_session id ops).
Proof.
  apply (session_stores_faithful (U := latin1_ucd) (F := no_floats)).
  repeat constructor; cbn; try lia; try (vm_compute; reflexivity).
  - by intros ?%not_elem_of_nil.
  - by vm_compute.
Defined.
