(* ===== verification/LidMap.v ===== *)
(** * Phone number / LID maps ([src/src/pywhats/signal/experimental/lid_map.py] and
      [SqliteLidMap] of [sqlite_store.py])

    The [LidMap] protocol is a class; its laws make every implementation a
    bijection between phone users and LID users in which the last [set] wins. *)

From S2P Require Import Prelude PyStr.

(** ** The protocol and its contract *)

Class LidMap (M : Type) := {
  get_lid : M → str → option str;
  get_pn : M → str → option str;
  lid_set : str → str → SE M unit
}.

(** What [set pn lid] makes of the LID known for [p]. *)
Definition set_spec (pn lid : str) (f : str → option str) (p : str) : option str :=
  if decide (p = pn) then Some lid
  else if decide (f p = Some lid) then None else f p.

Class LidMapLaws (M : Type) {L : LidMap M} := {
  lid_ok : M → Prop;
  lid_bijective m p l : lid_ok m → get_lid m p = Some l ↔ get_pn m l = Some p;
  lid_set_ok m pn lid : lid_ok m → ∃ m', lid_set pn lid m = (m', Ok tt) ∧ lid_ok m' ∧
    ∀ p, get_lid m' p = set_spec pn lid (get_lid m) p
}.

(** ** [InMemoryLidMap] *)

Record InMemoryLidMap := mkMemLids { _pn_to_lid : gmap str str; _lid_to_pn : gmap str str }.

(** [if old is not None and old != keep: d.pop(old, None)] *)
Definition drop_stale (old : option str) (keep : str) (d : gmap str str) : gmap str str :=
  match old with
  | Some old => if bool_decide (old = keep) then d else delete old d
  | None => d
  end.

Definition mem_lid_set (pn_user lid_user : str) : SE InMemoryLidMap unit := λ m,
  let lid_to_pn := drop_stale (_pn_to_lid m !! pn_user) lid_user (_lid_to_pn m) in
  let pn_to_lid := drop_stale (lid_to_pn !! lid_user) pn_user (_pn_to_lid m) in
  (mkMemLids (<[pn_user := lid_user]> pn_to_lid) (<[lid_user := pn_user]> lid_to_pn), Ok tt).

#[global] Instance mem_lid_map : LidMap InMemoryLidMap := {
  get_lid m pn_user := _pn_to_lid m !! pn_user;
  get_pn m lid_user := _lid_to_pn m !! lid_user;
  lid_set := mem_lid_set
}.

(** ** [SqliteLidMap]: the rows of the table [lid_map(pn_user, lid_user)] *)

Record SqliteLidMap := mkSqlLids { lid_rows : list (str * str) }.

Definition sql_get_lid (m : SqliteLidMap) (pn_user : str) : option str :=
  snd <$> head (filter (λ r, r.1 = pn_user) (lid_rows m)).

Definition sql_get_pn (m : SqliteLidMap) (lid_user : str) : option str :=
  fst <$> head (filter (λ r, r.2 = lid_user) (lid_rows m)).

(** [DELETE FROM lid_map WHERE pn_user = ? OR lid_user = ?] *)
Definition sql_delete_lid (pn_user lid_user : str) : SE SqliteLidMap unit := λ m,
  (mkSqlLids (filter (λ r, ¬ (r.1 = pn_user ∨ r.2 = lid_user)) (lid_rows m)), Ok tt).

(** [INSERT INTO lid_map], under the PRIMARY KEY and UNIQUE constraints. *)
Definition sql_insert_lid (pn_user lid_user : str) : SE SqliteLidMap unit := λ m,
  if bool_decide (Exists (λ r, r.1 = pn_user ∨ r.2 = lid_user) (lid_rows m))
  then (m, Raise IntegrityError)
  else (mkSqlLids (lid_rows m ++ [(pn_user, lid_user)]), Ok tt).

(** The transaction: on an exception the table is rolled back. *)
Definition sql_lid_set (pn_user lid_user : str) : SE SqliteLidMap unit := λ m,
  se_try (_ ← sql_delete_lid pn_user lid_user; sql_insert_lid pn_user lid_user)
    (λ _, true) (λ e _, (m, Raise e)) m.

#[global] Instance sql_lid_map : LidMap SqliteLidMap := {
  get_lid := sql_get_lid;
  get_pn := sql_get_pn;
  lid_set := sql_lid_set
}.

(** ** Both implementations honour the contract *)

Lemma drop_stale_Some (old : option str) (keep : str) (d : gmap str str) (k v : str) :
  drop_stale old keep d !! k = Some v ↔ d !! k = Some v ∧ (old = Some k → k = keep).
Proof.
  unfold drop_stale. destruct old as [o|]; [case_bool_decide|]; [naive_solver..| |naive_solver].
  rewrite lookup_delete_Some. naive_solver.
Qed.

Lemma and_iff_compat_l' (A B C : Prop) : (A → (B ↔ C)) → A ∧ B ↔ A ∧ C.
Proof. tauto. Qed.

#[global] Instance mem_lid_laws : LidMapLaws InMemoryLidMap.
Proof.
  refine {| lid_ok m := ∀ p l, _pn_to_lid m !! p = Some l ↔ _lid_to_pn m !! l = Some p |}.
  - intros m p l H. apply H.
  - intros [f g] pn lid Hm. cbn [_pn_to_lid _lid_to_pn] in Hm. eexists. split; [done|].
    cbn [_pn_to_lid _lid_to_pn get_lid mem_lid_map]. set (g' := drop_stale (f !! pn) lid g).
    set (f' := drop_stale (g' !! lid) pn f).
    assert (∀ p l, f' !! p = Some l ↔ f !! p = Some l ∧ (l = lid → p = pn)) as Hf'.
    { intros p l. unfold f', g'. rewrite drop_stale_Some. apply and_iff_compat_l'. intros El.
      rewrite drop_stale_Some, <-Hm, El. clear. naive_solver. }
    assert (∀ p l, g' !! l = Some p ↔ f !! p = Some l ∧ (p = pn → l = lid)) as Hg'.
    { intros p l. unfold g'. rewrite drop_stale_Some, <-Hm. apply and_iff_compat_l'. intros El.
      split; [intros H ->; by apply H|]. intros H Ep. apply H. apply Hm in El, Ep. congruence. }
    clearbody f' g'. split.
    + intros p l. rewrite !lookup_insert_Some, Hf', Hg'. naive_solver.
    + intros p. unfold set_spec. case_decide as Hp; [subst; by rewrite lookup_insert_eq|].
      rewrite lookup_insert_ne by done. apply option_eq. intros l. rewrite Hf'.
      case_decide; naive_solver congruence.
Defined.

Lemma sql_get_lid_Some m p l : NoDup (lid_rows m).*1 → sql_get_lid m p = Some l ↔ (p, l) ∈ lid_rows m.
Proof.
  unfold sql_get_lid. destruct m as [rows]. cbn. intros Hd.
  induction rows as [|[p' l'] rows IH]; [by rewrite elem_of_nil|].
  apply NoDup_cons in Hd as [Hn Hd]. rewrite filter_cons, elem_of_cons. cbn in *. case_decide.
  - subst. cbn. split; [intros [= ->]; auto|]. intros [[= ->]|Hin]; [done|].
    destruct Hn. by apply (list_elem_of_fmap_2 fst) in Hin.
  - rewrite IH by done. naive_solver.
Qed.

Lemma sql_get_pn_Some m p l : NoDup (lid_rows m).*2 → sql_get_pn m l = Some p ↔ (p, l) ∈ lid_rows m.
Proof.
  unfold sql_get_pn. destruct m as [rows]. cbn. intros Hd.
  induction rows as [|[p' l'] rows IH]; [by rewrite elem_of_nil|].
  apply NoDup_cons in Hd as [Hn Hd]. rewrite filter_cons, elem_of_cons. cbn in *. case_decide.
  - subst. cbn. split; [intros [= ->]; auto|]. intros [[= ->]|Hin]; [done|].
    destruct Hn. by apply (list_elem_of_fmap_2 snd) in Hin.
  - rewrite IH by done. naive_solver.
Qed.

Lemma NoDup_fmap_filter {A B} (f : A → B) (P : A → Prop) `{∀ x, Decision (P x)} l :
  NoDup (f <$> l) → NoDup (f <$> filter P l).
Proof.
  intros H0. eapply sublist_NoDup; [done|]. apply fmap_sublist, sublist_filter.
Qed.

#[global] Instance sql_lid_laws : LidMapLaws SqliteLidMap.
Proof.
  refine {| lid_ok m := NoDup (lid_rows m).*1 ∧ NoDup (lid_rows m).*2 |}.
  - intros m p l [H1 H2]. cbn. by rewrite sql_get_lid_Some, sql_get_pn_Some.
  - intros [rows] pn lid [H1 H2]. cbn in H1, H2. cbn [lid_set sql_lid_map].
    unfold sql_lid_set, se_try, sql_delete_lid, sql_insert_lid, mbind, se_bind. cbn [lid_rows].
    set (kept := filter (λ r : str * str, ¬ (r.1 = pn ∨ r.2 = lid)) rows).
    assert (∀ r, r ∈ kept ↔ r ∈ rows ∧ r.1 ≠ pn ∧ r.2 ≠ lid) as Hk.
    { intros r. unfold kept. rewrite list_elem_of_filter. tauto. }
    rewrite bool_decide_false by (intros (r & [Hr Hr']%Hk & [?|?])%Exists_exists; naive_solver).
    eexists. split; [done|].
    assert (NoDup (kept ++ [(pn, lid)]).*1 ∧ NoDup (kept ++ [(pn, lid)]).*2) as Hok.
    { rewrite !fmap_app. split; (apply NoDup_app; split_and!; [by apply NoDup_fmap_filter| |apply NoDup_singleton]);
        intros x (r & -> & Hr%Hk)%list_elem_of_fmap Hx; cbn in Hx; apply list_elem_of_singleton in Hx; naive_solver. }
    split; [done|]. intros p. apply option_eq. intros l. cbn [get_lid sql_lid_map].
    rewrite sql_get_lid_Some by apply Hok. cbn [lid_rows].
    rewrite elem_of_app, Hk, list_elem_of_singleton. cbn [fst snd].
    pose proof (sql_get_lid_Some (mkSqlLids rows) p) as Hg. cbn in Hg. unfold set_spec.
    rewrite <-(Hg l H1). cbn [get_lid sql_lid_map]. case_decide as Hp; [subst; naive_solver|].
    case_decide as Hd; [rewrite Hd; naive_solver|]. naive_solver.
Defined.

(** ** Sequences of updates *)

Definition run_lid_sets {M} `{LidMap M} (m : M) (sets : list (str * str)) : M * result unit :=
  se_fold (λ _ s, lid_set s.1 s.2) tt sets m.

(** The LID a sequence of updates leaves for [p]. *)
Definition final_lid (f : str → option str) (sets : list (str * str)) : str → option str :=
  foldl (λ f s, set_spec s.1 s.2 f) f sets.

Lemma run_lid_sets_ok {M} {L : LidMap M} {LL : LidMapLaws M} (sets : list (str * str)) m f :
  lid_ok m → (∀ p, get_lid m p = f p) →
  ∃ m', run_lid_sets m sets = (m', Ok tt) ∧ lid_ok m' ∧ ∀ p, get_lid m' p = final_lid f sets p.
Proof.
  revert m f. induction sets as [|[pn lid] sets IH]; intros m f Hm Hf; [by exists m|].
  unfold run_lid_sets. cbn [se_fold]. unfold mbind at 1, se_bind at 1. cbn [fst snd].
  destruct (lid_set_ok m pn lid Hm) as (m1 & -> & Hm1 & E1). apply IH; [done|].
  intros p. rewrite E1. unfold set_spec. by rewrite Hf.
Qed.

(** The in-memory and the SQLite LID map agree after any sequence of [set]s, no
    [set] raises, the two directions stay inverse to each other, and the last
    [set] of a phone user or of a LID wins over the earlier ones it conflicts with. *)
Theorem lid_maps_agree (sets : list (str * str)) :
  ∃ m q, run_lid_sets (mkMemLids ∅ ∅) sets = (m, Ok tt) ∧ run_lid_sets (mkSqlLids []) sets = (q, Ok tt) ∧
    (∀ p, get_lid m p = final_lid (λ _, None) sets p ∧ get_lid q p = get_lid m p) ∧
    (∀ l, get_pn q l = get_pn m l) ∧
    ∀ p l, get_lid m p = Some l ↔ get_pn m l = Some p.
Proof.
  destruct (run_lid_sets_ok sets (mkMemLids ∅ ∅) (λ _, None)) as (m & Em & Hm & Lm).
  { intros p l. cbn. by rewrite !lookup_empty. }
  { intros p. cbn. by rewrite lookup_empty. }
  destruct (run_lid_sets_ok sets (mkSqlLids []) (λ _, None)) as (q & Eq & Hq & Lq).
  { split; constructor. }
  { done. }
  exists m, q. split_and!; [done..| | |].
  - intros p. by rewrite Lq, Lm.
  - intros l. apply option_eq. intros p.
    rewrite <-(lid_bijective q p l Hq), <-(lid_bijective m p l Hm). by rewrite Lq, Lm.
  - intros p l. by apply lid_bijective.
Qed.
