(* ===== verification/PeerStores.v ===== *)
(** * Identities, one-time pre-keys, group sender keys and session migration

    [identity_store.py], [prekey_store.py], [InMemorySenderKeyStore] of
    [sender_key.py] with their SQLite counterparts in [sqlite_store.py] (all under
    [src/src/pywhats/signal/experimental/]), and [session_id] and
    [migrate_pn_session_to_lid] of [src/src/pywhats/messaging/addressing.py]. *)

From S2P Require Import Prelude PyStr Json JsonText Jid Crypto AppCrypto.
From S2P Require Import SignalKeys SignalTypes Ratchet SenderKey SessionStore.

(** ** The [IdentityStore] protocol *)

Class IdentityStore (I : Type) := {
  is_load : I → str → option bytes;
  is_save : str → bytes → SE I unit;
  is_delete : I → str → I
}.

Class IdentityStoreLaws (I : Type) {C : IdentityStore I} : Prop := {
  is_save_ok i id b : length b = 32%nat → ∃ i', is_save id b i = (i', Ok tt) ∧
    is_load i' id = Some b ∧ ∀ id', id ≠ id' → is_load i' id' = is_load i id';
  is_save_bad i id b : length b ≠ 32%nat → is_save id b i = (i, Raise ValueError);
  is_load_delete i id : is_load (is_delete i id) id = None;
  is_load_delete_ne i id id' : id ≠ id' → is_load (is_delete i id) id' = is_load i id'
}.

(** [InMemoryIdentityStore]: a dict. *)
Record InMemoryIdentityStore := mkMemIds { mem_ids : gmap str bytes }.

Definition mem_id_save (session_id : str) (identity_public : bytes) : SE InMemoryIdentityStore unit := λ i,
  if negb (Z.of_nat (length identity_public) =? 32) then (i, Raise ValueError)
  else (mkMemIds (<[session_id := identity_public]> (mem_ids i)), Ok tt).

Definition mem_id_delete (i : InMemoryIdentityStore) (session_id : str) : InMemoryIdentityStore :=
  mkMemIds (delete session_id (mem_ids i)).

#[global] Instance mem_identity_store : IdentityStore InMemoryIdentityStore := {
  is_load i session_id := mem_ids i !! session_id;
  is_save := mem_id_save;
  is_delete := mem_id_delete
}.

(** [SqliteIdentityStore]: the rows of the table [identities], keyed by [session_id]. *)
Record SqliteIdentityStore := mkSqlIds { identities : list (str * bytes) }.

Definition sql_id_load (i : SqliteIdentityStore) (session_id : str) : option bytes :=
  snd <$> head (filter (λ r, r.1 = session_id) (identities i)).

(** [INSERT ... ON CONFLICT(session_id) DO UPDATE] *)
Definition sql_id_save (session_id : str) (identity_public : bytes) : SE SqliteIdentityStore unit := λ i,
  if negb (Z.of_nat (length identity_public) =? 32) then (i, Raise ValueError)
  else (mkSqlIds (dict_set session_id identity_public (identities i)), Ok tt).

(** [DELETE FROM identities WHERE session_id = ?] *)
Definition sql_id_delete (i : SqliteIdentityStore) (session_id : str) : SqliteIdentityStore :=
  mkSqlIds (filter (λ r, r.1 ≠ session_id) (identities i)).

#[global] Instance sql_identity_store : IdentityStore SqliteIdentityStore := {
  is_load := sql_id_load;
  is_save := sql_id_save;
  is_delete := sql_id_delete
}.

Lemma select_dict_get {K V} `{EqDecision K} (k : K) (rows : list (K * V)) :
  snd <$> head (filter (λ r, r.1 = k) rows) = dict_get k rows.
Proof.
  induction rows as [|[k' v] rows IH]; [done|]. rewrite filter_cons. cbn [dict_get fst].
  repeat case_decide; naive_solver.
Qed.

Lemma dict_get_filter_ne {K V} `{EqDecision K} (k k' : K) (rows : list (K * V)) :
  dict_get k' (filter (λ r, r.1 ≠ k) rows) = if decide (k' = k) then None else dict_get k' rows.
Proof.
  induction rows as [|[k1 v] rows IH]; [by case_decide|]. rewrite filter_cons. cbn [fst].
  repeat (case_decide; cbn [dict_get]); naive_solver.
Qed.

Lemma length_32 (b : bytes) : negb (Z.of_nat (length b) =? 32) = true ↔ length b ≠ 32%nat.
Proof. zbool; lia. Qed.

#[global] Instance mem_identity_laws : IdentityStoreLaws InMemoryIdentityStore.
Proof.
  split.
  - intros i id b Hb. cbn. unfold mem_id_save. rewrite Hb. cbn. eexists. split; [done|]. cbn.
    split; [apply lookup_insert_eq|]. intros. by apply lookup_insert_ne.
  - intros i id b Hb%length_32. cbn. unfold mem_id_save. by rewrite Hb.
  - intros i id. apply lookup_delete_eq.
  - intros. by apply lookup_delete_ne.
Qed.

#[global] Instance sql_identity_laws : IdentityStoreLaws SqliteIdentityStore.
Proof.
  split; cbn [is_load is_save is_delete sql_identity_store]; unfold sql_id_load, sql_id_save, sql_id_delete.
  - intros i id b Hb. rewrite Hb. cbn. eexists. split; [done|]. setoid_rewrite select_dict_get. cbn.
    split; [apply dict_get_set_eq|]. intros. by apply dict_get_set_ne.
  - intros i id b Hb%length_32. by rewrite Hb.
  - intros i id. rewrite select_dict_get. cbn [identities]. rewrite dict_get_filter_ne. by case_decide.
  - intros i id id' Hne. rewrite !select_dict_get. cbn [identities]. rewrite dict_get_filter_ne. by case_decide.
Qed.

(** ** Addressing *)

Definition session_id (jid : JID) : result str :=
  d ← py_str_int (device jid); Ok (user jid ++ [COLON] ++ d ++ [AT] ++ server jid).

Section Migrate.
Context {S I : Type} {SS : SessionStore S} {IS : IdentityStore I}.

(** [migrate_pn_session_to_lid], over the pair of stores. *)
Definition migrate_pn_session_to_lid (pn lid : JID) : SE (S * I) bool := λ '(sessions, ids),
  let fail e := ((sessions, ids), Raise e) in
  match (pn_key ← session_id pn; lid_key ← session_id lid; Ok (pn_key, lid_key)) with
  | Raise e => fail e
  | Ok (pn_key, lid_key) =>
    match ss_load sessions pn_key with
    | Raise e => fail e
    | Ok None => ((sessions, ids), Ok false)
    | Ok (Some state) =>
      match ss_load sessions lid_key with
      | Raise e => fail e
      | Ok (Some _) => ((sessions, ids), Ok false)
      | Ok None =>
        match ss_save sessions lid_key state with
        | Raise e => fail e
        | Ok sessions =>
          let '(ids, r) := match is_load ids pn_key with
                           | Some peer_identity => is_save lid_key peer_identity ids
                           | None => (ids, Ok tt)
                           end in
          match r with
          | Raise e => ((sessions, ids), Raise e)
          | Ok _ => ((ss_delete sessions pn_key, is_delete ids pn_key), Ok true)
          end
        end
      end
    end
  end.
End Migrate.

(** Distinct device addresses have distinct session keys, when no user part contains
    a colon. *)
Theorem session_id_injective (j1 j2 : JID) (k : str) :
  COLON ∉ user j1 → COLON ∉ user j2 → session_id j1 = Ok k → session_id j2 = Ok k → j1 = j2.
Proof.
  destruct j1 as [u1 s1 d1], j2 as [u2 s2 d2]. cbn [user]. unfold session_id. cbn [user server device].
  intros H1 H2. destruct (py_str_int d1) as [x1|] eqn:P1; [|done].
  destruct (py_str_int d2) as [x2|] eqn:P2; [|done]. rbind. cbn [app]. intros [= <-] [= E].
  assert (split_first COLON (u1 ++ COLON :: x1 ++ AT :: s1) = Some (u1, x1 ++ AT :: s1)) as Ea
    by (by apply split_first_Some).
  rewrite <-E, (proj2 (split_first_Some COLON _ u2 (x2 ++ AT :: s2))) in Ea by done.
  injection Ea as -> Er.
  assert (split_first AT (x1 ++ AT :: s1) = Some (x1, s1)) as Eb
    by (apply split_first_Some; split; [done|]; by eapply py_str_int_no_char).
  rewrite <-Er, (proj2 (split_first_Some AT _ x2 s2)) in Eb
    by (split; [done|]; by eapply py_str_int_no_char).
  injection Eb as -> ->. f_equal. by eapply py_str_int_inj.
Qed.

Lemma session_id_injective_witness :
  let j := mkJID (u "15551234") (u "s.whatsapp.net") 3 in
  session_id j = Ok (u "15551234:3@s.whatsapp.net") ∧ j = j.
Proof.
  cbn zeta. split; [vm_compute; reflexivity|].
  apply (session_id_injective _ _ (u "15551234:3@s.whatsapp.net"));
    [apply contains_false; vm_compute; reflexivity..|vm_compute; reflexivity|vm_compute; reflexivity].
Defined.

(** The identity a store returns under [id] is a key it would accept. *)
Definition identity_valid {I} `{IdentityStore I} (ids : I) (id : str) : Prop :=
  ∀ b, is_load ids id = Some b → length b = 32%nat.

(** Migrating a session from the phone-number address to the LID address either moves
    the ratchet state and the pinned identity, leaving every other entry of both
    stores alone, or (no phone-number session, or a LID session already there)
    changes nothing. *)
Theorem migrate_moves_session {S I} {SS : SessionStore S} {SL : SessionStoreLaws S}
    {IS : IdentityStore I} {IL : IdentityStoreLaws I} (s : S) (ids : I) (pn lid : JID) (kp kl : str)
    (old new : option RatchetState) :
  session_id pn = Ok kp → session_id lid = Ok kl →
  ss_load s kp = Ok old → ss_load s kl = Ok new →
  (∀ st, old = Some st → storable_state st) → identity_valid ids kp →
  match old, new with
  | Some st, None => ∃ s' ids', migrate_pn_session_to_lid pn lid (s, ids) = ((s', ids'), Ok true) ∧
      ss_load s' kl = Ok (Some st) ∧ ss_load s' kp = Ok None ∧
      is_load ids' kl = (match is_load ids kp with Some b => Some b | None => is_load ids kl end) ∧
      is_load ids' kp = None ∧
      ∀ k, k ≠ kp → k ≠ kl → ss_load s' k = ss_load s k ∧ is_load ids' k = is_load ids k
  | _, _ => migrate_pn_session_to_lid pn lid (s, ids) = ((s, ids), Ok false)
  end.
Proof.
  intros Ep El Eo En Hst Hid. unfold migrate_pn_session_to_lid. rewrite Ep, El. rbind. rewrite Eo.
  destruct old as [st|]; [|done]. rewrite En. destruct new as [?|]; [done|].
  assert (kl ≠ kp) as Hne by congruence.
  destruct (load_save s kl st (Hst _ eq_refl)) as (s1 & -> & L1 & N1).
  assert (∃ i1, (match is_load ids kp with Some b => is_save kl b ids | None => (ids, Ok tt) end) = (i1, Ok tt) ∧
    is_load i1 kl = (match is_load ids kp with Some b => Some b | None => is_load ids kl end) ∧
    ∀ k, k ≠ kl → is_load i1 k = is_load ids k) as (i1 & -> & J1 & M1).
  { destruct (is_load ids kp) as [b|] eqn:Eb; [|by exists ids].
    destruct (is_save_ok ids kl b (Hid _ Eb)) as (i1 & E1 & ? & Hn1). exists i1. auto. }
  exists (ss_delete s1 kp), (is_delete i1 kp). split; [done|].
  rewrite load_delete, is_load_delete, load_delete_ne, is_load_delete_ne by done. split_and!; [done..|].
  intros k Hp Hl. rewrite load_delete_ne, is_load_delete_ne by done. auto.
Qed.

Lemma migrate_moves_session_witness :
  let st := mkRatchet (bstr "priv") (bstr "pub") None (bstr "root") (Some (bstr "ck")) None 3 0 0 []
              DEFAULT_MAX_SKIP in
  let S := mem_session_store (U := latin1_ucd) (F := no_floats) in
  let s := mem_save (mkMemSessions ∅) (u "5:0@s.whatsapp.net") st in
  ∃ s' ids', migrate_pn_session_to_lid (SS := S) (mkJID (u "5") (u "s.whatsapp.net") 0) (mkJID (u "9") (u "lid") 0)
      (s, mkMemIds ∅) = ((s', ids'), Ok true) ∧
    mem_load (U := latin1_ucd) (F := no_floats) s' (u "9:0@lid") = Ok (Some st).
Proof.
  cbn zeta. set (st := mkRatchet _ _ _ _ _ _ _ _ _ _ _).
  set (s := mem_save _ _ _).
  destruct (migrate_moves_session (SS := mem_session_store (U := latin1_ucd) (F := no_floats)) s (mkMemIds ∅)
    (mkJID (u "5") (u "s.whatsapp.net") 0) (mkJID (u "9") (u "lid") 0)
    (u "5:0@s.whatsapp.net") (u "9:0@lid") (Some st) None) as (s' & ids' & E & L & _);
    [subst s st; vm_compute; reflexivity..| | |].
  - intros ? [= <-]. subst st. repeat constructor; cbn; try lia; try (vm_compute; reflexivity). by vm_compute.
  - intros b. by vm_compute.
  - exists s', ids'. split; [exact E|exact L].
Defined.

(** ** The [PreKeyStore] protocol *)

Class PreKeyStore (S : Type) := {
  pk_load : S → Z → result (option OneTimePreKey);
  pk_save : OneTimePreKey → SE S unit;
  pk_delete : Z → SE S unit;
  pk_max_id : S → Z
}.

(** [max(keys, default=0)], and SQL's [MAX], [None] on no row. *)
Definition max_of (keys : list Z) : option Z :=
  foldr (λ k m, Some (match m with Some m => Z.max k m | None => k end)) None keys.

Record InMemoryPreKeyStore := mkMemPreKeys { mem_prekeys : list (Z * OneTimePreKey) }.

Definition mem_pk_save (opk : OneTimePreKey) : SE InMemoryPreKeyStore unit := λ s,
  (mkMemPreKeys (dict_set (opk_key_id opk) opk (mem_prekeys s)), Ok tt).

Definition mem_pk_delete (key_id : Z) : SE InMemoryPreKeyStore unit := λ s,
  (mkMemPreKeys (dict_del key_id (mem_prekeys s)), Ok tt).

#[global] Instance mem_prekey_store : PreKeyStore InMemoryPreKeyStore := {
  pk_load s key_id := Ok (dict_get key_id (mem_prekeys s));
  pk_save := mem_pk_save;
  pk_delete := mem_pk_delete;
  pk_max_id s := default 0 (max_of (dict_keys (mem_prekeys s)))
}.

(** The rows [(private, public)] of the table [prekeys] by [key_id]. *)
Record SqlitePreKeyStore := mkSqlPreKeys { prekeys : gmap Z (bytes * bytes) }.

Definition sql_pk_load (s : SqlitePreKeyStore) (key_id : Z) : result (option OneTimePreKey) :=
  if negb (sql_int key_id) then Raise OverflowError
  else Ok (match prekeys s !! key_id with
           | None => None
           | Some (private, public) => Some (mkOneTimePreKey key_id private public)
           end).

Definition sql_pk_save (opk : OneTimePreKey) : SE SqlitePreKeyStore unit := λ s,
  if negb (sql_int (opk_key_id opk)) then (s, Raise OverflowError)
  else (mkSqlPreKeys (<[opk_key_id opk := (opk_private opk, opk_public opk)]> (prekeys s)), Ok tt).

Definition sql_pk_delete (key_id : Z) : SE SqlitePreKeyStore unit := λ s,
  if negb (sql_int key_id) then (s, Raise OverflowError)
  else (mkSqlPreKeys (delete key_id (prekeys s)), Ok tt).

Definition sql_pk_max_id (s : SqlitePreKeyStore) : Z := default 0 (max_of (map_to_list (prekeys s)).*1).

#[global] Instance sql_prekey_store : PreKeyStore SqlitePreKeyStore := {
  pk_load := sql_pk_load;
  pk_save := sql_pk_save;
  pk_delete := sql_pk_delete;
  pk_max_id := sql_pk_max_id
}.

Lemma max_of_spec keys m : max_of keys = Some m ↔ m ∈ keys ∧ ∀ k, k ∈ keys → k ≤ m.
Proof.
  revert m. induction keys as [|k keys IH]; intros m; cbn [max_of foldr].
  { split; [done|]. by intros [?%not_elem_of_nil _]. }
  fold (max_of keys). setoid_rewrite elem_of_cons. destruct (max_of keys) as [m'|] eqn:E.
  - destruct (proj1 (IH m') eq_refl) as [Hin Hmax]. split.
    + intros [= <-]. split; [|intros k' [->|Hk']; [lia|apply Hmax in Hk'; lia]].
      destruct (Z.max_spec k m') as [[_ ->]|[_ ->]]; auto.
    + intros [Hm Hle]. f_equal. apply Z.le_antisymm.
      * apply Z.max_lub; [apply Hle; auto|apply Hle; auto].
      * destruct Hm as [->|Hm]; [lia|apply Hmax in Hm; lia].
  - destruct keys as [|k' keys]; [|by cbn in E]. split; [intros [= <-]; split; [auto|]|].
    + intros k' [->|?%not_elem_of_nil]; [lia|done].
    + intros [[->|?%not_elem_of_nil] _]; done.
Qed.

Lemma max_of_ext keys keys' : (∀ k, k ∈ keys ↔ k ∈ keys') → max_of keys = max_of keys'.
Proof. intros H. apply option_eq. intros m. rewrite !max_of_spec. by setoid_rewrite H. Qed.

Inductive PreKeyOp := SavePreKey (opk : OneTimePreKey) | DeletePreKey (key_id : Z).

Definition run_prekey_op {S} `{PreKeyStore S} (op : PreKeyOp) : SE S unit :=
  match op with SavePreKey opk => pk_save opk | DeletePreKey key_id => pk_delete key_id end.

Definition run_prekey_ops {S} `{PreKeyStore S} (ops : list PreKeyOp) : SE S unit :=
  se_fold (λ _, run_prekey_op) tt ops.

Definition prekey_op_ok (op : PreKeyOp) : bool :=
  sql_int (match op with SavePreKey opk => opk_key_id opk | DeletePreKey key_id => key_id end).

(** The table row of a stored key. *)
Definition opk_row (key_id : Z) (row : bytes * bytes) : OneTimePreKey := mkOneTimePreKey key_id row.1 row.2.

(** The dict and the table hold the same keys, each under its own id. *)
Definition prekeys_match (m : InMemoryPreKeyStore) (q : SqlitePreKeyStore) : Prop :=
  dict_ok (mem_prekeys m) ∧ ∀ k, dict_get k (mem_prekeys m) = opk_row k <$> prekeys q !! k.

Lemma prekeys_match_step m q op : prekeys_match m q → prekey_op_ok op = true →
  ∃ m' q', run_prekey_op op m = (m', Ok tt) ∧ run_prekey_op op q = (q', Ok tt) ∧ prekeys_match m' q'.
Proof.
  intros [Hd Hm] Hop. unfold prekey_op_ok in Hop. destruct op as [[k a b]|k]; cbn in *;
    unfold mem_pk_save, sql_pk_save, mem_pk_delete, sql_pk_delete; cbn; rewrite Hop; cbn;
    eexists _, _; split_and!; [done..| |done|done|]; (split; [cbn|intros k'; cbn]).
  - by apply dict_set_ok.
  - destruct (decide (k = k')) as [->|]; [by rewrite dict_get_set_eq, lookup_insert_eq|].
    rewrite dict_get_set_ne, lookup_insert_ne by done. apply Hm.
  - by apply dict_del_ok.
  - destruct (decide (k = k')) as [->|]; [by rewrite dict_get_del_eq, lookup_delete_eq|].
    rewrite dict_get_del_ne, lookup_delete_ne by done. apply Hm.
Qed.

Lemma prekeys_match_run ops m q : prekeys_match m q → forallb prekey_op_ok ops = true →
  ∃ m' q', run_prekey_ops ops m = (m', Ok tt) ∧ run_prekey_ops ops q = (q', Ok tt) ∧ prekeys_match m' q'.
Proof.
  revert m q. induction ops as [|op ops IH]; intros m q Hm; [by eexists _, _|].
  intros [Hop Hops]%andb_true_iff. unfold run_prekey_ops. cbn [se_fold]. unfold mbind, se_bind.
  destruct (prekeys_match_step m q op Hm Hop) as (m1 & q1 & -> & -> & H1). by apply IH.
Qed.

Lemma prekeys_match_max (m : InMemoryPreKeyStore) (q : SqlitePreKeyStore) : prekeys_match m q → pk_max_id m = pk_max_id q.
Proof.
  intros [_ Hm]. cbn. unfold sql_pk_max_id. f_equal. apply max_of_ext. intros k.
  assert (k ∈ dict_keys (mem_prekeys m) ↔ dict_get k (mem_prekeys m) ≠ None) as ->
    by (rewrite dict_get_None; destruct (decide (k ∈ dict_keys (mem_prekeys m))); tauto).
  rewrite Hm, list_elem_of_fmap. split.
  - destruct (prekeys q !! k) as [r|] eqn:E; [|done]. intros _. exists (k, r).
    by rewrite elem_of_map_to_list.
  - intros ([k' r] & -> & Hin%elem_of_map_to_list). cbn. by rewrite Hin.
Qed.

Lemma mem_above_max (m : InMemoryPreKeyStore) k : pk_max_id m < k → pk_load m k = Ok None.
Proof.
  cbn. intros Hk. f_equal. apply dict_get_None. intros Hin.
  destruct (max_of (dict_keys (mem_prekeys m))) as [mx|] eqn:E; cbn in Hk.
  - apply max_of_spec in E as [_ E]. apply E in Hin. lia.
  - by destruct (dict_keys (mem_prekeys m)); [apply not_elem_of_nil in Hin|].
Qed.

(** After any sequence of saves and deletes of keys with 64-bit ids the in-memory and
    the SQLite pre-key store hold the same one-time pre-keys and report the same
    highest id, and no key is stored above it. *)
Theorem prekey_stores_agree (ops : list PreKeyOp) : forallb prekey_op_ok ops = true →
  ∃ m q, run_prekey_ops ops (mkMemPreKeys []) = (m, Ok tt) ∧
    run_prekey_ops ops (mkSqlPreKeys ∅) = (q, Ok tt) ∧
    pk_max_id q = pk_max_id m ∧
    ∀ k, sql_int k = true → pk_load q k = pk_load m k ∧ (pk_max_id m < k → pk_load m k = Ok None).
Proof.
  intros Hops. destruct (prekeys_match_run ops (mkMemPreKeys []) (mkSqlPreKeys ∅)) as (m & q & Em & Eq & Hm);
    [split; [constructor|done]|done|].
  exists m, q. split_and!; [done..|by symmetry; apply prekeys_match_max|]. intros k Hk.
  split; [|apply mem_above_max]. destruct Hm as [_ Hm]. cbn. unfold sql_pk_load. rewrite Hk, Hm. cbn.
  by destruct (prekeys q !! k) as [[a b]|].
Qed.

Lemma prekey_stores_agree_witness :
  let ops := [SavePreKey (mkOneTimePreKey 7 (bstr "sk") (bstr "pk")); DeletePreKey 3] in
  ∃ m q, run_prekey_ops ops (mkMemPreKeys []) = (m, Ok tt) ∧
    run_prekey_ops ops (mkSqlPreKeys ∅) = (q, Ok tt) ∧ pk_max_id q = pk_max_id m.
Proof.
  cbn zeta.
  destruct (prekey_stores_agree [SavePreKey (mkOneTimePreKey 7 (bstr "sk") (bstr "pk")); DeletePreKey 3])
    as (m & q & ? & ? & ? & _); [vm_compute; reflexivity|]. by exists m, q.
Defined.

(** ** [SqliteSenderKeyStore]: the JSON text by group and sender *)

Record SqliteSenderKeyStore := mkSqlSenderKeys { sender_keys : gmap (str * str) str }.

Section SenderKeyTable.
Context {U : UnicodeDB} {UL : UnicodeDBLaws U}.

Definition sql_sk_load (s : SqliteSenderKeyStore) (group_id sender_id : str)
    : result (option SenderKeyState) :=
  match sender_keys s !! (group_id, sender_id) with
  | None => Ok None
  | Some text =>
    v ← json_loads_str text;
    match v with
    | JObj data => st ← deserialize_sender_key_state data; Ok (Some st)
    | _ => Raise TypeError
    end
  end.

Definition sql_sk_save (group_id sender_id : str) (state : SenderKeyState) : SE SqliteSenderKeyStore unit := λ s,
  match json_dumps (JObj (serialize_sender_key_state state)) with
  | Raise e => (s, Raise e)
  | Ok payload => (mkSqlSenderKeys (<[(group_id, sender_id) := payload]> (sender_keys s)), Ok tt)
  end.

Definition sql_sk_delete (s : SqliteSenderKeyStore) (group_id sender_id : str) : SqliteSenderKeyStore :=
  mkSqlSenderKeys (delete (group_id, sender_id) (sender_keys s)).

(** A sender key the table can hold: printable counters, no empty private key. *)
Definition storable_sender_key (st : SenderKeyState) : Prop :=
  counter_ok (key_id st) ∧ counter_ok (iteration st) ∧ signing_private st ≠ Some [].

Lemma hex_scalar d : scalar_str (hex_encode d) = true.
Proof.
  apply forallb_forall. intros c Hc%list_elem_of_In. unfold hex_encode in Hc.
  apply list_elem_of_bind in Hc as (x & Hc & _). pose proof (b2z_range x).
  rewrite !elem_of_cons in Hc. apply is_scalar_spec. unfold hexd in Hc.
  destruct Hc as [->|[->|?%not_elem_of_nil]]; [..|done]; case_match; zbool; Z.div_mod_to_equations; lia.
Qed.

Lemma serialize_sender_key_ok st : storable_sender_key st →
  json_wf (JObj (serialize_sender_key_state st)) ∧ printable (JObj (serialize_sender_key_state st)).
Proof.
  intros ([Hk H1] & [Hi H2] & _). split.
  - apply wf_literal_obj; [vm_compute; reflexivity|]. unfold serialize_sender_key_state.
    repeat (apply Forall_cons; split; [cbn [snd]|]); [try (constructor; by try apply hex_scalar)..|constructor].
    destruct (signing_private st) as [p|]; [destruct (truthy p)|]; constructor. apply hex_scalar.
  - apply printable_obj. unfold serialize_sender_key_state.
    repeat (apply Forall_cons; split; [cbn [snd]|]); [try solve [auto with json]..|constructor].
    by destruct (signing_private st) as [p|]; [destruct (truthy p)|].
Qed.

(** What [SqliteSenderKeyStore.save] wrote, [load] reads back through the JSON text and
    the hex strings; the other rows of the table are untouched. *)
Theorem sender_key_table_faithful (s : SqliteSenderKeyStore) (group_id sender_id : str)
    (st : SenderKeyState) :
  storable_sender_key st →
  ∃ s', sql_sk_save group_id sender_id st s = (s', Ok tt) ∧
    sql_sk_load s' group_id sender_id = Ok (Some st) ∧
    (∀ g x, (g, x) ≠ (group_id, sender_id) → sql_sk_load s' g x = sql_sk_load s g x) ∧
    sql_sk_load (sql_sk_delete s' group_id sender_id) group_id sender_id = Ok None.
Proof.
  intros Hst. destruct (serialize_sender_key_ok st Hst) as [Hwf Hok]. unfold sql_sk_save.
  specialize (Hok None 0%nat). change (dumps_at None 0) with json_dumps in Hok.
  destruct (json_dumps (JObj (serialize_sender_key_state st))) as [t|] eqn:Et; [|done].
  eexists. split; [done|]. unfold sql_sk_load, sql_sk_delete. cbn [sender_keys]. split_and!.
  - rewrite lookup_insert_eq, (json_roundtrip _ _ Hwf Et). rbind.
    pose proof (sk_json_roundtrip st) as Hr. destruct Hst as (_ & _ & Hp).
    rewrite Hr. rbind. by destruct st as [a b c d [[|]|]]; cbn in *.
  - intros g x Hne. by rewrite lookup_insert_ne.
  - by rewrite lookup_delete_eq.
Qed.
End SenderKeyTable.

Lemma sender_key_table_faithful_witness :
  let st := mkSenderKey 5 0 (bstr "chain") (bstr "pub") (Some (bstr "priv")) in
  ∃ s', sql_sk_save (u "g") (u "a") st (mkSqlSenderKeys ∅) = (s', Ok tt) ∧
    sql_sk_load (U := latin1_ucd) s' (u "g") (u "a") = Ok (Some st).
Proof.
  cbn zeta.
  destruct (sender_key_table_faithful (U := latin1_ucd) (mkSqlSenderKeys ∅) (u "g") (u "a")
    (mkSenderKey 5 0 (bstr "chain") (bstr "pub") (Some (bstr "priv")))) as (s' & H & L & _);
    [split_and!; [split; [cbn; lia|vm_compute; reflexivity]..|done]|]. by exists s'.
Defined.
