(* ===== verification/Prekey.v ===== *)
(** * Pre-key bundles on the wire ([src/src/pywhats/messaging/prekey.py])

    Building the [encrypt] iqs, parsing their results, and the batch a
    [PrekeyUploader] generates and stores; the coroutines that send them and await the
    replies are in Requests. The fresh private keys are arguments. *)

From S2P Require Import Prelude PyStr Jid Node Json.
From S2P Require Import Crypto SignalKeys X3dh PeerStores.

Definition WANTED_PRE_KEY_COUNT : Z := 50.
Definition MIN_PRE_KEY_COUNT : Z := 5.
Definition _DJB_TYPE : bytes := [mkb 0x05].
Definition PK_SERVER : JID := mkJID [] (u "s.whatsapp.net") 0.

(** [key_id.to_bytes(4, "big")[1:]] *)
Definition _id3 (key_id : Z) : result bytes := d ← to_bytes_big 4 key_id; Ok (drop 1 d).

Definition build_prekey_query (jid : JID) (iq_id : str) : Node :=
  mkNode (u "iq")
    [(u "id", AStr iq_id); (u "type", AStr (u "get")); (u "xmlns", AStr (u "encrypt")); (u "to", AJid PK_SERVER)]
    (CList [mkNode (u "key") [] (CList [mkNode (u "user") [(u "jid", AJid jid)] CNone])]).

Definition _read_child_bytes (parent : Node) (t : str) : result bytes :=
  child ← some_or (get_child parent t) PairingFailed;
  let b := content_bytes child in
  if negb (truthy b) then Raise PairingFailed else Ok b.

Definition _read_int_be (parent : Node) (t : str) : result Z :=
  b ← _read_child_bytes parent t; Ok (be_val b).

(** The optional [<key>]: its id, then its value. *)
Definition read_one_time_key (user : Node) : result (option Z * option bytes) :=
  match get_child user (u "key") with
  | None => Ok (None, None)
  | Some otk =>
    otk_id ← _read_int_be otk (u "id");
    otk_pub ← _read_child_bytes otk (u "value");
    Ok (Some otk_id, Some otk_pub)
  end.

(** [isinstance(returned, JID) and returned.user != expected_jid.user] *)
Definition jid_mismatch (returned : option AttrValue) (expected_jid : JID) : bool :=
  match returned with
  | Some (AJid returned) => negb (bool_decide (user returned = user expected_jid))
  | _ => false
  end.

Definition parse_prekey_count_response {U : UnicodeDB} (iq : Node) : result Z :=
  count ← some_or (get_child iq (u "count")) PairingFailed;
  raw ← get_str count (u "value");
  if negb (truthy raw) then Raise PairingFailed
  else match py_int raw with
       | Raise e => if is_ValueError e then Raise PairingFailed else Raise e
       | Ok n => Ok n
       end.

Definition build_prekey_count_query (iq_id : str) : Node :=
  mkNode (u "iq")
    [(u "id", AStr iq_id); (u "type", AStr (u "get")); (u "xmlns", AStr (u "encrypt")); (u "to", AJid PK_SERVER)]
    (CList [mkNode (u "count") [] CNone]).

(** One [<key>] of the upload. *)
Definition opk_node (opk : OneTimePreKey) : result Node :=
  i ← _id3 (opk_key_id opk);
  Ok (mkNode (u "key") [] (CList [mkNode (u "id") [] (CBytes i); mkNode (u "value") [] (CBytes (opk_public opk))])).

Definition skey_node (spk : SignedPreKey) : result Node :=
  i ← _id3 (spk_key_id spk);
  Ok (mkNode (u "skey") []
        (CList [mkNode (u "id") [] (CBytes i); mkNode (u "value") [] (CBytes (spk_public spk));
                mkNode (u "signature") [] (CBytes (spk_signature spk))])).

Definition build_prekey_upload_node (registration_id : Z) (identity_public : bytes)
    (signed_pre_key : SignedPreKey) (one_time_pre_keys : list OneTimePreKey) (iq_id : str) : result Node :=
  key_nodes ← mapR opk_node one_time_pre_keys;
  skey ← skey_node signed_pre_key;
  reg ← to_bytes_big 4 registration_id;
  Ok (mkNode (u "iq")
        [(u "id", AStr iq_id); (u "type", AStr (u "set")); (u "xmlns", AStr (u "encrypt")); (u "to", AJid PK_SERVER)]
        (CList [mkNode (u "registration") [] (CBytes reg);
                mkNode (u "type") [] (CBytes _DJB_TYPE);
                mkNode (u "identity") [] (CBytes identity_public);
                mkNode (u "list") [] (CList key_nodes);
                skey])).

Section Parse.
Context {X : X25519} {E : XEdDSA}.

Definition parse_prekey_response (iq : Node) (expected_jid : JID) : result PreKeyBundle :=
  lst ← some_or (get_child iq (u "list")) PairingFailed;
  user ← some_or (head (get_children lst (Some (u "user")))) PairingFailed;
  if jid_mismatch (get_attr user (u "jid")) expected_jid then Raise PairingFailed else
  identity_key ← _read_child_bytes user (u "identity");
  if negb (Z.of_nat (length identity_key) =? 32) then Raise PairingFailed else
  skey ← some_or (get_child user (u "skey")) PairingFailed;
  spk_id ← _read_int_be skey (u "id");
  spk_pub ← _read_child_bytes skey (u "value");
  spk_sig ← _read_child_bytes skey (u "signature");
  '(otk_id, otk_pub) ← read_one_time_key user;
  let bundle := mkBundle identity_key spk_id spk_pub spk_sig otk_id otk_pub in
  ok ← verify_signature bundle;
  if negb ok then Raise PairingFailed else Ok bundle.

(** The loop of [PrekeyUploader.upload]: one fresh private key per offset. *)
Fixpoint generate_batch {S} `{PreKeyStore S} (base : Z) (sks : list bytes) : SE S (list OneTimePreKey) :=
  match sks with
  | [] => mret []
  | sk :: sks =>
    let opk := generate_pre_key (base + 1) sk in
    _ ← pk_save opk;
    opks ← generate_batch (base + 1) sks;
    mret (opk :: opks)
  end.

(** [upload] up to the iq it sends: ids continue past the highest one stored. *)
Definition upload_batch {S} `{PreKeyStore S} (sks : list bytes) : SE S (list OneTimePreKey) := λ s,
  generate_batch (pk_max_id s) sks s.
End Parse.

(** ** The server's reply, as the module documents it: the user's identity key
    with the uploaded [<skey>] and at most one uploaded [<key>], verbatim. *)
Definition prekey_reply (jid : JID) (registration identity_public : bytes) (skey : Node) (key : option Node) : Node :=
  mkNode (u "iq") [(u "type", AStr (u "result"))]
    (CList [mkNode (u "list") []
      (CList [mkNode (u "user") [(u "jid", AJid jid)]
        (CList ([mkNode (u "registration") [] (CBytes registration);
                 mkNode (u "identity") [] (CBytes identity_public); skey] ++ option_list key))])]).

(** ** Ids on the wire are the low 24 bits *)

Lemma id3_ok key_id : 0 ≤ key_id < 2 ^ 32 → ∃ d, _id3 key_id = Ok d ∧ be_val d = key_id mod 2 ^ 24 ∧ truthy d = true.
Proof.
  intros Hk. unfold _id3, to_bytes_big. change (256 ^ Z.of_nat 4) with (2 ^ 32).
  rewrite (proj2 (Z.leb_le 0 key_id)), (proj2 (Z.ltb_lt key_id (2 ^ 32))) by lia. cbn [andb]. rbind.
  eexists. split; [done|].
  assert (be_bytes 4 key_id = mkb (key_id / 2 ^ 24) :: be_bytes 3 key_id) as ->.
  { unfold be_bytes. cbn [le_bytes rev app]. do 2 f_equal. by rewrite !Z.div_div by lia. }
  cbn [drop]. split; [|by unfold be_bytes; cbn [le_bytes rev app truthy]].
  rewrite drop_0. unfold be_val, be_bytes. rewrite rev_involutive, le_val_bytes. done.
Qed.

Lemma read_child_some n t c : get_child n t = Some c → truthy (content_bytes c) = true →
  _read_child_bytes n t = Ok (content_bytes c).
Proof. intros E H. unfold _read_child_bytes. rewrite E. rbind. by rewrite H. Qed.

Lemma opk_node_read opk : 0 ≤ opk_key_id opk < 2 ^ 24 → truthy (opk_public opk) = true →
  ∃ n, opk_node opk = Ok n ∧ tag n = u "key" ∧ _read_int_be n (u "id") = Ok (opk_key_id opk) ∧
    _read_child_bytes n (u "value") = Ok (opk_public opk).
Proof.
  intros Hk Hp. destruct (id3_ok (opk_key_id opk)) as (d & E & Ed & Td); [lia|].
  unfold opk_node. rewrite E. rbind. eexists. split; [done|]. split; [done|]. unfold _read_int_be. split.
  - erewrite read_child_some by (first [by node_lit|done]). rbind.
    cbn [content_bytes content]. by rewrite Ed, Z.mod_small by lia.
  - by erewrite read_child_some by (first [by node_lit|done]).
Qed.

Lemma skey_node_read spk : 0 ≤ spk_key_id spk < 2 ^ 24 → truthy (spk_public spk) = true →
  truthy (spk_signature spk) = true →
  ∃ n, skey_node spk = Ok n ∧ tag n = u "skey" ∧ _read_int_be n (u "id") = Ok (spk_key_id spk) ∧
    _read_child_bytes n (u "value") = Ok (spk_public spk) ∧
    _read_child_bytes n (u "signature") = Ok (spk_signature spk).
Proof.
  intros Hk Hp Hs. destruct (id3_ok (spk_key_id spk)) as (d & E & Ed & Td); [lia|].
  unfold skey_node. rewrite E. rbind. eexists. split; [done|]. split; [done|]. unfold _read_int_be. split_and!.
  - erewrite read_child_some by (first [by node_lit|done]). rbind.
    cbn [content_bytes content]. by rewrite Ed, Z.mod_small by lia.
  - by erewrite read_child_some by (first [by node_lit|done]).
  - by erewrite read_child_some by (first [by node_lit|done]).
Qed.

Section Fetch.
Context {X : X25519} {XL : X25519Laws X} {E : XEdDSA} {EL : XEdDSALaws X E}.

Lemma public_truthy k : truthy (x25519_public k) = true.
Proof. pose proof (length_x25519_public k). by destruct (x25519_public k). Qed.

(** The at most one [<key>] of the reply reads back as the optional one-time key. *)
Lemma optional_key_read (o : option (Z * bytes)) : from_option (λ ko, 0 ≤ ko.1 < 2 ^ 24) True o →
  let opk := (λ ko, generate_pre_key ko.1 ko.2) <$> o in
  ∃ key, mapR opk_node (option_list opk) = Ok (option_list key) ∧
    Forall (λ n, tag n = u "key") (option_list key) ∧
    match key with None => Ok (None, None) | Some otk =>
      otk_id ← _read_int_be otk (u "id"); otk_pub ← _read_child_bytes otk (u "value");
      Ok (Some otk_id, Some otk_pub) end = Ok (opk_key_id <$> opk, opk_public <$> opk).
Proof.
  intros Ho opk. subst opk. destruct o as [[i k]|]; cbn in Ho; cbn [fmap option_fmap option_map]; [|by exists None].
  destruct (opk_node_read (generate_pre_key i k)) as (n & En & Tn & N1 & N2); [done|apply public_truthy|].
  exists (Some n). cbn [fst snd]. change (mapR opk_node (option_list (Some (generate_pre_key i k)))) with
    (y ← opk_node (generate_pre_key i k); ys ← mapR opk_node []; Ok (y :: ys)). rewrite En. split; [done|].
  split; [by constructor|]. by rewrite N1, N2.
Qed.

(** A peer that fetches a device's pre-keys gets the bundle of the keys the device
    generated and uploaded: from the uploaded [<skey>] and [<key>] nodes
    [parse_prekey_response] rebuilds exactly the device's identity, signed
    pre-key and one-time pre-key, with ids below 2^24, and accepts the signature. *)
Theorem uploaded_bundle_fetched (b s z reg : bytes) (spk_id : Z) (o : option (Z * bytes))
    (spk : SignedPreKey) (jid : JID) :
  length b = 32%nat → 0 ≤ spk_id < 2 ^ 24 → from_option (λ ko, 0 ≤ ko.1 < 2 ^ 24) True o →
  signed_prekey_generate (identity_generate b) spk_id s z = Ok spk →
  let opk := (λ ko, generate_pre_key ko.1 ko.2) <$> o in
  ∃ skey key, skey_node spk = Ok skey ∧ mapR opk_node (option_list opk) = Ok (option_list key) ∧
    parse_prekey_response (prekey_reply jid reg (ik_public (identity_generate b)) skey key) jid =
      Ok (bundle_of (identity_generate b) spk opk).
Proof.
  intros Hb Hid Ho Hspk opk. unfold signed_prekey_generate, identity_sign in Hspk.
  cbn [ik_private identity_generate] in Hspk.
  apply bind_Ok_inv in Hspk as (m & Em & (sig & Es & [= <-])%bind_Ok_inv).
  pose proof public_truthy as Ht.
  assert (truthy sig = true) as Hsig by (apply length_xeddsa_sign in Es; by destruct sig).
  destruct (skey_node_read (mkSignedPreKey spk_id s (x25519_public s) sig)) as (sn & Esn & Tsn & R1 & R2 & R3);
    [done|apply Ht|done|].
  destruct (optional_key_read o Ho) as (key & Ek & Tk & Rk). fold opk in Ek, Rk.
  exists sn, key. split; [done|]. split; [done|].
  unfold parse_prekey_response, prekey_reply. node_lit. rbind.
  cbn [get_children content]. rewrite filter_cons, decide_True by done. cbn [head]. rbind.
  cbn [ik_public identity_generate app].
  set (un := mkNode (u "user") _ _).
  assert (jid_mismatch (get_attr un (u "jid")) jid = false) as ->.
  { unfold jid_mismatch, get_attr, un. cbn [attrs]. dict_lit. cbn. by rewrite bool_decide_true. }
  assert (_read_child_bytes un (u "identity") = Ok (x25519_public b)) as ->.
  { by erewrite read_child_some by (first [by unfold un; node_lit|apply Ht]). }
  assert (get_child un (u "skey") = Some sn) as ->.
  { unfold un. node_lit. rewrite get_child_cons, Tsn, decide_True by done. done. }
  assert (read_one_time_key un = Ok (opk_key_id <$> opk, opk_public <$> opk)) as ->.
  { rewrite <-Rk. unfold read_one_time_key, un. node_lit.
    rewrite get_child_cons, Tsn, decide_False by (vm_compute; discriminate).
    destruct key as [n|]; [|done]. change (option_list (Some n)) with [n] in *. rewrite get_child_cons.
    by apply Forall_cons in Tk as [-> _]. }
  clearbody un. rbind. rewrite length_x25519_public. cbn [Z.of_nat Pos.of_succ_nat Pos.succ Z.eqb Pos.eqb negb].
  rewrite R1, R2, R3. rbind. unfold verify_signature. cbn [b_signed_pre_key_public].
  cbn [spk_public spk_signature b_identity_key b_signed_pre_key_signature]. rewrite Em. rbind.
  by rewrite (xeddsa_verify_sign b m z sig).
Qed.
End Fetch.

Lemma uploaded_bundle_fetched_witness :
  let k i := replicate 32 (mkb i) in let j := mkJID (u "15551234") (u "s.whatsapp.net") 0 in
  let bob := identity_generate (X := toy_x25519) (k 3) in
  ∃ spk skey key, signed_prekey_generate (X := toy_x25519) (E := toy_xeddsa) bob 7 (k 4) (replicate 64 (mkb 0)) = Ok spk ∧
    skey_node spk = Ok skey ∧
    parse_prekey_response (E := toy_xeddsa) (prekey_reply j [] (ik_public bob) skey key) j =
      Ok (bundle_of bob spk (Some (generate_pre_key (X := toy_x25519) 9 (k 5)))).
Proof.
  cbn zeta.
  destruct (uploaded_bundle_fetched (X := toy_x25519) (E := toy_xeddsa) (replicate 32 (mkb 3)) (replicate 32 (mkb 4))
    (replicate 64 (mkb 0)) [] 7 (Some (9, replicate 32 (mkb 5))) _ (mkJID (u "15551234") (u "s.whatsapp.net") 0)
    ltac:(reflexivity) ltac:(lia) ltac:(cbn; lia) ltac:(vm_compute; reflexivity)) as (skey & key & H1 & _ & H3).
  eexists _, skey, key. split; [vm_compute; reflexivity|]. split; [exact H1|exact H3].
Defined.

(** Every bundle [parse_prekey_response] accepts has a 32-byte identity key that signed
    the signed pre-key, and came from a reply whose JID attribute, when structured,
    names the expected user; a rejected reply raises [PairingFailed], or
    [SignalCryptoError] for a signed pre-key that is not a public key. *)
Theorem parse_prekey_response_checked {X : X25519} {E : XEdDSA} (iq : Node) (jid : JID) :
  match parse_prekey_response iq jid with
  | Ok b => length (b_identity_key b) = 32%nat ∧ verify_signature b = Ok true ∧
      (is_Some (b_one_time_pre_key_id b) ↔ is_Some (b_one_time_pre_key_public b)) ∧
      ∃ lst user, get_child iq (u "list") = Some lst ∧ user ∈ get_children lst (Some (u "user")) ∧
        (∀ j, get_attr user (u "jid") = Some (AJid j) → Jid.user j = Jid.user jid)
  | Raise e => e = PairingFailed ∨ e = SignalCryptoError
  end.
Proof.
  assert (∀ n t e, _read_child_bytes n t = Raise e → e = PairingFailed) as Hr.
  { intros n t e. unfold _read_child_bytes. destruct (get_child n t); rbind; [|congruence].
    destruct (truthy _); cbn; congruence. }
  assert (∀ n t e, _read_int_be n t = Raise e → e = PairingFailed) as Hi.
  { intros n t e. unfold _read_int_be. destruct (_read_child_bytes n t) eqn:E1; rbind; [done|].
    intros [= <-]. by eapply Hr. }
  unfold parse_prekey_response. destruct (get_child iq (u "list")) as [lst|]; rbind; [|by left].
  destruct (head _) as [un|] eqn:Eh; rbind; [|by left]. apply head_Some_elem_of in Eh.
  destruct (jid_mismatch _ _) eqn:Ej; [by left|].
  destruct (_read_child_bytes un (u "identity")) eqn:E1; rbind; [|left; by eapply Hr].
  destruct (Z.of_nat _ =? 32) eqn:El; cbn [negb]; [|by left].
  destruct (get_child un (u "skey")) as [sn|]; rbind; [|by left].
  destruct (_read_int_be sn _) eqn:E2; rbind; [|left; by eapply Hi].
  destruct (_read_child_bytes sn (u "value")) eqn:E3; rbind; [|left; by eapply Hr].
  destruct (_read_child_bytes sn (u "signature")) eqn:E4; rbind; [|left; by eapply Hr].
  assert (∀ r, read_one_time_key un = r → match r with Ok (i, k) => is_Some i ↔ is_Some k | Raise e => e = PairingFailed end) as Ho.
  { intros r <-. unfold read_one_time_key. destruct (get_child un (u "key")) as [kn|]; [|done].
    destruct (_read_int_be kn _) eqn:E5; rbind; [|by eapply Hi].
    destruct (_read_child_bytes kn _) eqn:E6; rbind; [|by eapply Hr]. by split. }
  destruct (read_one_time_key un) as [[oi ok]|e]; rbind; specialize (Ho _ eq_refl); [|by left].
  destruct (verify_signature _) as [[]|e] eqn:Ev; rbind; cbn [negb]; [|by left|].
  - cbn [b_identity_key b_one_time_pre_key_id b_one_time_pre_key_public].
    split; [zbool; lia|]. split; [done|]. split; [apply Ho|]. exists lst, un. split_and!; [done..|].
    intros j Hj. rewrite Hj in Ej. cbn in Ej. by case_bool_decide.
  - right. unfold verify_signature in Ev. apply bind_Raise_inv in Ev as [Ev|(m & _ & ?)]; [|done].
    by eapply signal_pubkey_error.
Qed.

(** ** Uploading a batch *)

Section Upload.
Context {X : X25519}.

Lemma generate_batch_cons base sk sks (s : InMemoryPreKeyStore) :
  generate_batch base (sk :: sks) s =
    match generate_batch (base + 1) sks
            (mkMemPreKeys (dict_set (base + 1) (generate_pre_key (base + 1) sk) (mem_prekeys s))) with
    | (s', Ok opks) => (s', Ok (generate_pre_key (base + 1) sk :: opks))
    | (s', Raise e) => (s', Raise e)
    end.
Proof. done. Qed.

Lemma generate_batch_ids (sks : list bytes) base (s : InMemoryPreKeyStore) :
  ∃ s', generate_batch base sks s = (s', Ok (imap (λ i sk, generate_pre_key (base + Z.of_nat i + 1) sk) sks)) ∧
    ∀ k, dict_get k (mem_prekeys s') =
      (if decide (base < k ≤ base + Z.of_nat (length sks))
       then generate_pre_key k <$> sks !! Z.to_nat (k - base - 1)
       else dict_get k (mem_prekeys s)).
Proof.
  revert base s. induction sks as [|sk sks IH]; intros base s.
  { exists s. split; [done|]. intros k. case_decide as Hk; [cbn in Hk; lia|done]. }
  rewrite generate_batch_cons.
  destruct (IH (base + 1) (mkMemPreKeys (dict_set (base + 1) (generate_pre_key (base + 1) sk) (mem_prekeys s))))
    as (s' & -> & Hs). exists s'. split.
  - do 2 f_equal. rewrite imap_cons. f_equal; [f_equal; lia|]. apply imap_ext. intros i x _. cbn. f_equal. lia.
  - intros k. rewrite Hs. cbn [mem_prekeys length]. repeat case_decide; try lia.
    + replace (Z.to_nat (k - base - 1)) with (S (Z.to_nat (k - (base + 1) - 1))) by lia. done.
    + assert (k = base + 1) as -> by lia. rewrite dict_get_set_eq.
      by replace (Z.to_nat (base + 1 - base - 1)) with 0%nat by lia.
    + rewrite dict_get_set_ne by lia. done.
Qed.

Lemma batch_ids base (sks : list bytes) :
  opk_key_id <$> imap (λ i sk, generate_pre_key (base + Z.of_nat i + 1) sk) sks =
    seqZ (base + 1) (Z.of_nat (length sks)).
Proof.
  apply list_eq. intros i. rewrite fmap_imap, list_lookup_imap. destruct (sks !! i) eqn:Ei.
  - apply lookup_lt_Some in Ei. rewrite lookup_seqZ_lt by lia. cbn. f_equal. lia.
  - apply lookup_ge_None in Ei. by rewrite lookup_seqZ_ge by lia.
Qed.

(** An upload generates consecutive ids above every id in the pool, so no stored key is
    overwritten, and afterwards the pool holds the old keys and the new ones. *)
Theorem upload_ids_fresh (sks : list bytes) (s : InMemoryPreKeyStore) :
  ∃ s' opks, upload_batch sks s = (s', Ok opks) ∧
    opk_key_id <$> opks = seqZ (pk_max_id s + 1) (Z.of_nat (length sks)) ∧
    Forall (λ o, pk_load s (opk_key_id o) = Ok None ∧ pk_load s' (opk_key_id o) = Ok (Some o)) opks ∧
    ∀ k o, pk_load s k = Ok (Some o) → pk_load s' k = Ok (Some o).
Proof.
  unfold upload_batch. destruct (generate_batch_ids sks (pk_max_id s) s) as (s' & -> & Hs).
  eexists s', _. split; [done|]. split_and!.
  - apply batch_ids.
  - apply Forall_forall. intros o (i & sk & -> & Hi)%elem_of_lookup_imap. cbn [opk_key_id generate_pre_key].
    pose proof (lookup_lt_Some _ _ _ Hi). split; [apply mem_above_max; lia|].
    cbn [pk_load mem_prekey_store]. rewrite Hs, decide_True by lia.
    replace (Z.to_nat _) with i by lia. by rewrite Hi.
  - intros k o Hk. cbn [pk_load mem_prekey_store]. rewrite Hs, decide_False; [done|]. intros Hl.
    rewrite mem_above_max in Hk by lia. done.
Qed.
Lemma generate_batch_ok sks base (s s' : InMemoryPreKeyStore) r :
  generate_batch base sks s = (s', r) → dict_ok (mem_prekeys s) → dict_ok (mem_prekeys s').
Proof.
  revert base s r. induction sks as [|sk sks IH]; intros base s r; [by intros [= <- _]|].
  rewrite generate_batch_cons. destruct (generate_batch _ _ _) as [s1 r1] eqn:E1. intros E Hd.
  assert (s' = s1) as -> by (destruct r1; congruence). eapply IH; [exact E1|]. by apply dict_set_ok.
Qed.

Lemma mem_delete_many (ids : list Z) (s : InMemoryPreKeyStore) : dict_ok (mem_prekeys s) →
  ∃ s', run_prekey_ops (DeletePreKey <$> ids) s = (s', Ok tt) ∧
    ∀ k, dict_get k (mem_prekeys s') = if decide (k ∈ ids) then None else dict_get k (mem_prekeys s).
Proof.
  revert s. induction ids as [|i ids IH]; intros s Hd; [by exists s|].
  destruct (IH (mkMemPreKeys (dict_del i (mem_prekeys s)))) as (s' & Es & Hs); [by apply dict_del_ok|].
  exists s'. split; [exact Es|]. intros k. rewrite Hs. cbn [mem_prekeys].
  destruct (decide (k = i)) as [->|Hne].
  - rewrite dict_get_del_eq by done. rewrite (decide_True (P := i ∈ i :: ids)) by set_solver. by case_decide.
  - rewrite dict_get_del_ne by done. repeat case_decide; set_solver.
Qed.

Lemma mem_max_ext (s s' : InMemoryPreKeyStore) :
  (∀ k, dict_get k (mem_prekeys s) = dict_get k (mem_prekeys s')) → pk_max_id s = pk_max_id s'.
Proof.
  intros H. cbn. f_equal. apply max_of_ext. intros k. pose proof (H k) as Hk.
  destruct (decide (k ∈ dict_keys (mem_prekeys s))) as [Hin|Hin], (decide (k ∈ dict_keys (mem_prekeys s'))) as [Hin'|Hin'];
    [done|apply dict_get_None in Hin'|apply dict_get_None in Hin|done].
  - rewrite Hin' in Hk. by apply dict_get_None in Hk.
  - rewrite Hin in Hk. symmetry in Hk. by apply dict_get_None in Hk.
Qed.

(** Ids are reused: once the keys of an upload have all been consumed, which deletes them,
    the next upload hands out the very same ids, whatever the pool held before. *)
Theorem reupload_reuses_ids (sks sks' : list bytes) (s : InMemoryPreKeyStore) :
  dict_ok (mem_prekeys s) → length sks = length sks' →
  ∃ s1 opks s2 s3 opks', upload_batch sks s = (s1, Ok opks) ∧
    run_prekey_ops (DeletePreKey ∘ opk_key_id <$> opks) s1 = (s2, Ok tt) ∧
    upload_batch sks' s2 = (s3, Ok opks') ∧ opk_key_id <$> opks' = opk_key_id <$> opks.
Proof.
  intros Hd Hl. unfold upload_batch at 1. destruct (generate_batch_ids sks (pk_max_id s) s) as (s1 & E1 & H1).
  rewrite E1. pose proof (generate_batch_ok _ _ _ _ _ E1 Hd) as Hd1. set (opks := imap _ sks) in *.
  destruct (mem_delete_many (opk_key_id <$> opks) s1 Hd1) as (s2 & E2 & H2).
  assert (pk_max_id s2 = pk_max_id s) as Em.
  { apply mem_max_ext. intros k. rewrite H2. unfold opks. rewrite batch_ids. case_decide as Hk; rewrite elem_of_seqZ in Hk.
    - symmetry. pose proof (mem_above_max s k) as Hm. cbn [pk_load mem_prekey_store] in Hm. naive_solver lia.
    - rewrite H1, decide_False by lia. done. }
  destruct (generate_batch_ids sks' (pk_max_id s2) s2) as (s3 & E3 & _).
  eexists s1, opks, s2, s3, _. split; [done|]. split; [by rewrite list_fmap_compose|]. split; [exact E3|].
  unfold opks. by rewrite !batch_ids, Em, Hl.
Qed.
End Upload.

Lemma reupload_reuses_ids_witness :
  let k i := replicate 32 (mkb i) in
  ∃ s1 opks s2 s3 opks', upload_batch (X := toy_x25519) [k 1; k 2] (mkMemPreKeys []) = (s1, Ok opks) ∧
    run_prekey_ops (DeletePreKey ∘ opk_key_id <$> opks) s1 = (s2, Ok tt) ∧
    upload_batch (X := toy_x25519) [k 3; k 4] s2 = (s3, Ok opks') ∧ opk_key_id <$> opks' = opk_key_id <$> opks.
Proof. apply (reupload_reuses_ids (X := toy_x25519)); [constructor|reflexivity]. Defined.
