(* ===== verification/Primes.v ===== *)
(** * Primality certificates

    Pocklington's criterion, with a checker that evaluates it, and certificates for
    the two primes of Curve25519 in [src/src/pywhats/signal/experimental/_ed25519.py]: the
    field modulus and the order of the base point. *)

From S2P Require Import Prelude.
From Stdlib Require Import Zdivisibility Zmod.

#[local] Open Scope Z_scope.

(** ** Trial division, for the leaves *)

Fixpoint no_divisor (fuel : nat) (k n : Z) : bool :=
  match fuel with
  | O => false
  | S fuel => if n <? k * k then true else negb (n mod k =? 0) && no_divisor fuel (k + 1) n
  end.

Lemma no_divisor_spec fuel k n : 0 < k → no_divisor fuel k n = true →
  ∀ j, k ≤ j → j * j ≤ n → ¬ (j | n).
Proof.
  revert k. induction fuel as [|fuel IH]; intros k Hk; cbn [no_divisor]; [done|].
  destruct (Z.ltb_spec n (k * k)); [nia|]. intros [Hm Hr]%andb_true_iff j Hj Hjn.
  destruct (decide (j = k)) as [->|]; [|apply (IH (k + 1)); [lia|done|lia|done]].
  intros Hd%Z.mod_divide; [|lia]. zbool. lia.
Qed.

(** A number with no divisor up to its square root is prime. *)
Lemma prime_sqrt n : 1 < n → (∀ j, 1 < j → j * j ≤ n → ¬ (j | n)) → Z.prime n.
Proof.
  intros Hn H. split; [done|]. intros k Hk [m Hm].
  destruct (Z.le_gt_cases (k * k) n) as [Hs|Hs]; [apply (H k); [lia|done|by exists m]|].
  apply (H m); [nia|nia|]. exists k. lia.
Qed.

Definition small_prime (n : Z) : bool := (1 <? n) && no_divisor 1100 2 n.

Lemma small_prime_ok n : small_prime n = true → Z.prime n.
Proof.
  intros [H1 H2]%andb_true_iff. zbool. apply prime_sqrt; [done|]. intros j Hj.
  apply (no_divisor_spec 1100 2 n); [lia|done|lia].
Qed.

(** ** Pocklington's criterion *)

Lemma prime_divisor n : 1 < n → ∃ r, Z.prime r ∧ (r | n).
Proof.
  intros Hn. assert (0 ≤ n) as H0 by lia. revert Hn. pattern n. apply (Z_lt_induction); [|done].
  clear n H0. intros n IH Hn.
  destruct (Znumtheory.prime_dec n) as [Hp|Hp].
  - exists n. split; [by apply Znumtheory.prime_alt|done].
  - destruct (Znumtheory.not_prime_divide n Hn Hp) as (k & Hk & Hd).
    destruct (IH k) as (r & Hr & Hrk); [lia|lia|]. exists r. split; [done|]. by transitivity k.
Qed.

Lemma pow_one_coprime r b e m : 1 < r → 0 ≤ e → 0 ≤ m → Z.coprime b r → Z.coprime e m →
  b ^ e mod r = 1 → b ^ m mod r = 1 → b mod r = 1.
Proof.
  intros Hr He Hm Hb Hc E1 E2. set (X := Zmod.of_Z r b).
  assert (∀ k, 0 ≤ k → b ^ k mod r = 1 → Zmod.pow X k = Zmod.one) as K.
  { intros k Hk E. apply Zmod.to_Z_inj. rewrite Zmod.to_Z_pow_nonneg_r by done.
    unfold X. rewrite Zmod.to_Z_of_Z, Z.mod_pow_l, E. symmetry. apply Zmod.to_Z_1_pos. lia. }
  assert (Z.gcd (Zmod.to_Z X) r = 1) as Hg.
  { unfold X. rewrite Zmod.to_Z_of_Z. apply Z.coprime_mod_l_iff, Hb. }
  apply Z.Bezout_coprime_iff in Hc as (u & v & Huv).
  assert (Zmod.pow X 1 = Zmod.one) as E.
  { rewrite <-Huv, (Z.mul_comm u), (Z.mul_comm v), Zmod.pow_add_r_coprime, !Zmod.pow_mul_r_coprime by done.
    rewrite !K by done. by rewrite !Zmod.pow_1_l, Zmod.mul_1_l. }
  rewrite Zmod.pow_1_r in E. apply (f_equal Zmod.to_Z) in E. unfold X in E.
  rewrite Zmod.to_Z_of_Z, Zmod.to_Z_1_pos in E by lia. done.
Qed.

Lemma prod_divide (qs : list Z) m : NoDup qs → Forall Z.prime qs → Forall (λ q, (q | m)) qs →
  (foldr Z.mul 1 qs | m).
Proof.
  intros Hd Hp Hm. induction qs as [|q qs IH]; cbn [foldr]; [apply Z.divide_1_l|].
  apply NoDup_cons in Hd as [Hn Hd]. apply Forall_cons in Hp as [Hq Hp]. apply Forall_cons in Hm as [Hqm Hm].
  assert (Z.coprime q (foldr Z.mul 1 qs)) as Hc.
  { clear IH Hm Hqm Hd. induction qs as [|q' qs IH]; cbn [foldr]; [apply Z.coprime_1_r|].
    apply Forall_cons in Hp as [Hq' Hp]. apply Z.coprime_mul_r; [|apply IH; [set_solver|done]].
    apply Z.coprime_prime_l; [done|]. intros ->%Z.divide_prime_prime; [set_solver|done|done]. }
  destruct (IH Hd Hp Hm) as [k ->]. apply Z.mul_divide_mono_r.
  apply (Z.gauss _ (foldr Z.mul 1 qs)); [by rewrite Z.mul_comm|]. exact Hc.
Qed.

Lemma prod_primes_pos (qs : list Z) : Forall Z.prime qs → 0 < foldr Z.mul 1 qs.
Proof. induction 1 as [|q qs Hq%Z.prime_ge_2 _ IH]; cbn [foldr]; nia. Qed.

Theorem pocklington n a (qs : list Z) :
  1 < n → NoDup qs → Forall Z.prime qs → Forall (λ q, (q | n - 1)) qs →
  n < foldr Z.mul 1 qs * foldr Z.mul 1 qs →
  a ^ (n - 1) mod n = 1 → Forall (λ q, Z.gcd (a ^ ((n - 1) / q) - 1) n = 1) qs → Z.prime n.
Proof.
  intros Hn Hd Hp Hq Hf Ha Hg. apply prime_sqrt; [done|]. intros j Hj Hjn Hdj.
  destruct (prime_divisor j Hj) as (r & Hr & Hrj). assert ((r | n)) as Hrn by (by transitivity j).
  pose proof (Z.prime_ge_2 _ Hr). assert (r ≤ j) by (by apply Z.divide_pos_le; [lia|]).
  assert (∀ x y, x mod n = y → x mod r = y mod r) as Hmod.
  { intros x y <-. symmetry. by apply Z.mod_mod_divide. }
  assert (Forall (λ q, (q | r - 1)) qs) as Hall.
  { rewrite Forall_forall in *. intros q Hin. specialize (Hp q Hin). specialize (Hq q Hin). specialize (Hg q Hin).
    pose proof (Z.prime_ge_2 _ Hp). destruct Hq as [k Hk]. rewrite Hk, Z.div_mul in Hg by lia.
    destruct (Z.BoolSpec_divide q (r - 1)) as [|Hnd]; [done|]. exfalso.
    assert (0 ≤ k) by nia.
    assert ((a ^ k) ^ q mod r = 1) as E1.
    { rewrite <-Z.pow_mul_r, <-Hk by lia. rewrite (Hmod _ 1) by done. apply Z.mod_small. lia. }
    assert (a ^ k mod r ≠ 0) as Hnz.
    { intros Hz. rewrite <-(Z.mod_pow_l (a ^ k)), Hz, Z.pow_0_l, Z.mod_0_l in E1 by lia. done. }
    assert (a ^ k mod r = 1) as E.
    { apply (pow_one_coprime r (a ^ k) q (r - 1)); [lia|lia|lia| | |done|by apply Z.fermat_nz].
      - unfold Z.coprime. rewrite Z.gcd_comm. apply Z.coprime_prime_l; [done|]. by rewrite <-Z.mod_divide by lia.
      - by apply Z.coprime_prime_l. }
    assert ((r | Z.gcd (a ^ k - 1) n)) as Hc.
    { apply Z.gcd_greatest; [|done]. apply Z.mod_divide; [lia|].
      rewrite Zminus_mod, E, (Z.mod_small 1) by lia. done. }
    rewrite Hg in Hc. apply Z.divide_pos_le in Hc; lia. }
  apply prod_divide in Hall; [|done..]. apply Z.divide_pos_le in Hall; [|lia].
  pose proof (prod_primes_pos qs Hp). nia.
Qed.

(** ** Certificates: prime factors of [n - 1] that pass the test with base 2 *)

(** [b ^ e] up to multiples of the modulus, one reduction per bit; [red] need
    only preserve residues. *)
Fixpoint pow_red (red : Z → Z) (b : Z) (e : positive) : Z :=
  match e with
  | xH => b
  | xO e => red (Z.square (pow_red red b e))
  | xI e => red (b * Z.square (pow_red red b e))
  end.

Definition pow_mod (red : Z → Z) (b e n : Z) : Z :=
  match e with Zpos e => pow_red red b e mod n | _ => 1 mod n end.

Lemma pow_mod_ok red b e n : 0 ≤ e → (∀ x, red x mod n = x mod n) → pow_mod red b e n = b ^ e mod n.
Proof.
  intros He Hr. destruct e as [|e|e]; [done| |lia]. cbn [pow_mod].
  induction e as [e IH|e IH|]; cbn [pow_red]; [..|by rewrite Z.pow_1_r]; rewrite Hr, Z.square_spec;
    specialize (IH ltac:(lia)).
  - rewrite (Pos2Z.inj_xI e), Z.pow_add_r, Z.pow_1_r, (Z.mul_comm 2 (Z.pos e)), Z.pow_mul_r, Z.pow_2_r by lia.
    by rewrite <-(Zmult_mod_idemp_r (_ * _)), (Zmult_mod (pow_red _ _ _)), IH, <-Zmult_mod, Zmult_mod_idemp_r,
      Z.mul_comm.
  - rewrite (Pos2Z.inj_xO e), (Z.mul_comm 2), Z.pow_mul_r, Z.pow_2_r by lia.
    by rewrite Zmult_mod, IH, <-Zmult_mod.
Qed.

(** Barrett reduction: subtract an estimate of the quotient, times [n], where [mu] is
    [2 ^ (2 * k + 8) / n]. *)
Definition barrett (n k mu x : Z) : Z := x - Z.shiftr (Z.shiftr x (k - 8) * mu) (k + 16) * n.

Lemma barrett_mod n k mu x : barrett n k mu x mod n = x mod n.
Proof.
  unfold barrett. set (q := Z.shiftr _ (k + 16)). replace (x - q * n) with (x + - q * n) by lia. apply Z_mod_plus_full.
Qed.

(** Folding the high bits, for a modulus [2 ^ k - c]. *)
Definition fold_bits (k c x : Z) : Z := Z.land x (Z.ones k) + c * Z.shiftr x k.

Lemma fold_bits_mod k c x : 0 ≤ k → fold_bits k c x mod (2 ^ k - c) = x mod (2 ^ k - c).
Proof.
  intros Hk. unfold fold_bits. rewrite Z.land_ones, Z.shiftr_div_pow2 by done.
  rewrite (Z.div_mod x (2 ^ k)) at 3 by lia.
  replace (2 ^ k * (x `div` 2 ^ k) + x `mod` 2 ^ k) with
    (x `mod` 2 ^ k + c * (x `div` 2 ^ k) + x `div` 2 ^ k * (2 ^ k - c)) by lia.
  by rewrite Z_mod_plus_full.
Qed.

Definition cert_step (red : Z → Z) (n : Z) (qs : list Z) : bool :=
  (1 <? n) && bool_decide (NoDup qs) && forallb (λ q, (n - 1) mod q =? 0) qs
  && (n <? foldr Z.mul 1 qs * foldr Z.mul 1 qs) && (pow_mod red 2 (n - 1) n =? 1)
  && forallb (λ q, Z.gcd (pow_mod red 2 ((n - 1) / q) n - 1) n =? 1) qs.

Lemma cert_step_ok red n qs : (∀ x, red x mod n = x mod n) → cert_step red n qs = true →
  Forall Z.prime qs → Z.prime n.
Proof.
  intros Hr. unfold cert_step. rewrite !andb_true_iff.
  intros [[[[[H1 H2%bool_decide_eq_true] H3] H4] H5] H6] Hp. zbool.
  rewrite forallb_forall in H3, H6. pose proof Hp as Hp'. rewrite Forall_forall in Hp'.
  apply (pocklington n 2 qs); [done|done|done| |done| |].
  - apply Forall_forall. intros q Hq. pose proof (Z.prime_ge_2 _ (Hp' q Hq)).
    apply list_elem_of_In in Hq. apply H3 in Hq. zbool. by apply Z.mod_divide; [lia|].
  - rewrite <-(pow_mod_ok red) by (lia || done). done.
  - apply Forall_forall. intros q Hq. pose proof (Z.prime_ge_2 _ (Hp' q Hq)).
    apply list_elem_of_In in Hq. apply H6 in Hq. zbool.
    rewrite pow_mod_ok in Hq by (done || apply Z.div_pos; lia).
    by rewrite <-(Z.gcd_mod_l (_ - 1)), <-Zminus_mod_idemp_l, Z.gcd_mod_l.
Qed.

(** Any [mu] preserves residues; the one computed here keeps them small. *)
Lemma cert_barrett n qs :
  (let k := Z.log2 n + 1 in let mu := 2 ^ (2 * k + 8) / n in cert_step (barrett n k mu) n qs) = true →
  Forall Z.prime qs → Z.prime n.
Proof. cbn zeta. apply cert_step_ok, barrett_mod. Qed.

Lemma cert_fold k c qs : 0 ≤ k → cert_step (λ x, fold_bits k c (fold_bits k c x)) (2 ^ k - c) qs = true →
  Forall Z.prime qs → Z.prime (2 ^ k - c).
Proof. intros Hk. apply cert_step_ok. intros x. by rewrite !fold_bits_mod. Qed.

Ltac small_primes := apply small_prime_ok; vm_compute; reflexivity.
Ltac factors := repeat first [apply Forall_nil_2 | apply Forall_cons_2]; try small_primes.
Ltac certify qs := apply (cert_barrett _ qs); [vm_cast_no_check (@eq_refl bool true)|factors].
Ltac certify_fold k c qs :=
  apply (cert_fold k c qs); [lia|vm_cast_no_check (@eq_refl bool true)|factors].

(** The chain below the field modulus. *)

Lemma prime_q1 : Z.prime 8574133. Proof. certify [991; 103]. Qed.
Lemma prime_q2 : Z.prime 1919519569386763. Proof. certify [8574133; 127]. apply prime_q1. Qed.
Lemma prime_q3 : Z.prime 2773320623. Proof. certify [569003]. Qed.
Lemma prime_q4 : Z.prime 72106336199. Proof. certify [2773320623]. apply prime_q3. Qed.
Lemma prime_q5 : Z.prime 75445702479781427272750846543864801.
Proof. certify [1919519569386763; 72106336199]; [apply prime_q2|apply prime_q4]. Qed.
Lemma prime_q6 : Z.prime 31757755568855353. Proof. certify [430751; 4153]. Qed.
Lemma prime_q7 : Z.prime 74058212732561358302231226437062788676166966415465897661863160754340907.
Proof. certify [75445702479781427272750846543864801; 31757755568855353]; [apply prime_q5|apply prime_q6]. Qed.

Lemma prime_25519 : Z.prime (2 ^ 255 - 19).
Proof.
  certify_fold 255 19 [74058212732561358302231226437062788676166966415465897661863160754340907]. apply prime_q7.
Qed.

(** The chain below the group order. *)

Lemma prime_l1 : Z.prime 1224481. Proof. certify [2551]. Qed.
Lemma prime_l2 : Z.prime 1257559732178653. Proof. certify [1224481; 531581]. apply prime_l1. Qed.
Lemma prime_l3 : Z.prime 4434155615661930479. Proof. certify [1257559732178653]. apply prime_l2. Qed.
Lemma prime_l4 : Z.prime 172054593956031949258510691. Proof. certify [4434155615661930479]. apply prime_l3. Qed.
Lemma prime_l5 : Z.prime 19757330305831588566944191468367130476339.
Proof. certify [172054593956031949258510691]. apply prime_l4. Qed.
Lemma prime_l6 : Z.prime 276602624281642239937218680557139826668747.
Proof. certify [19757330305831588566944191468367130476339]. apply prime_l5. Qed.

Lemma prime_group_order : Z.prime (2 ^ 252 + 27742317777372353535851937790883648493).
Proof.
  change (Z.prime (2 ^ 252 - (- 27742317777372353535851937790883648493))).
  certify_fold 252 (- 27742317777372353535851937790883648493)
    [276602624281642239937218680557139826668747]. apply prime_l6.
Qed.

(** Folding twice, the reduction used for the field modulus. *)
Definition fold_p (x : Z) : Z := fold_bits 255 19 (fold_bits 255 19 x).

Lemma fold_p_mod x : fold_p x mod (2 ^ 255 - 19) = x mod (2 ^ 255 - 19).
Proof. unfold fold_p. by rewrite !fold_bits_mod. Qed.

(** Two non-residues of the field modulus, by Euler's criterion. *)
Lemma two_nonresidue : 2 ^ ((2 ^ 255 - 20) / 2) mod (2 ^ 255 - 19) = 2 ^ 255 - 20.
Proof. rewrite <-(pow_mod_ok fold_p) by (apply fold_p_mod || done). vm_cast_no_check (@eq_refl Z (2 ^ 255 - 20)). Qed.

Lemma d_nonresidue : (121665 * 121666) ^ ((2 ^ 255 - 20) / 2) mod (2 ^ 255 - 19) = 2 ^ 255 - 20.
Proof. rewrite <-(pow_mod_ok fold_p) by (apply fold_p_mod || done). vm_cast_no_check (@eq_refl Z (2 ^ 255 - 20)). Qed.
