(* ===== verification/EdwardsGroup.v ===== *)
(** * The group of a twisted Edwards curve

    The mathematics behind [src/src/pywhats/signal/experimental/_ed25519.py]: over a field with
    a square root [i] of [-1] in which [d] is not a square, the addition law of
    [- x^2 + y^2 = 1 + d x^2 y^2] has no exceptions and makes the points a
    commutative group. *)

From S2P Require Import Prelude.
From Stdlib Require Import Field.

Section Edwards.
Context {F : Type} {Fdec : EqDecision F} {O I : F} {add mul sub : F → F → F} {opp : F → F} {div : F → F → F} {inv : F → F}.
Context (Fth : field_theory O I add mul sub opp div inv eq).
Context (d i : F).
Hypothesis char2 : add I I ≠ O.
Hypothesis i_square : mul i i = opp I.
Hypothesis d_nonsquare : ∀ s, mul s s ≠ d.

Declare Scope field_scope.
Delimit Scope field_scope with F.
#[local] Open Scope field_scope.
#[local] Notation "0" := O : field_scope.
#[local] Notation "1" := I : field_scope.
#[local] Infix "+" := add : field_scope.
#[local] Infix "*" := mul : field_scope.
#[local] Infix "-" := sub : field_scope.
#[local] Infix "/" := div : field_scope.
#[local] Notation "- x" := (opp x) : field_scope.

Add Field edwards_field : Fth.

(** An affine point. *)
Definition on_curve (P : F * F) : Prop :=
  - (P.1 * P.1) + P.2 * P.2 = 1 + d * (P.1 * P.1) * (P.2 * P.2).

Definition ed_zero : F * F := (0, 1).
Definition ed_neg (P : F * F) : F * F := (- P.1, P.2).

Definition ed_add (P Q : F * F) : F * F :=
  let '(x1, y1) := P in let '(x2, y2) := Q in
  ((x1 * y2 + y1 * x2) / (1 + d * x1 * x2 * y1 * y2),
   (y1 * y2 + x1 * x2) / (1 - d * x1 * x2 * y1 * y2)).

Lemma mul_eq_0 a b : a * b = 0 → a ≠ 0 → b = 0.
Proof.
  intros H Ha. replace b with (a * b / a) by (field; done). rewrite H. field. done.
Qed.

Lemma mul_nz a b : a ≠ 0 → b ≠ 0 → a * b ≠ 0.
Proof. intros Ha Hb H. by apply mul_eq_0 in H. Qed.

Lemma not_square_quot a b : b ≠ 0 → d * (b * b) = a * a → False.
Proof.
  intros Hb H. apply (d_nonsquare (a / b)).
  replace (a / b * (a / b)) with (a * a / (b * b)) by (field; done). rewrite <-H. field. done.
Qed.

(** The curve equation as a rewriting rule for [ring]. *)
Lemma curve_rule x y : on_curve (x, y) → d * x * x * y * y = y * y - x * x - 1.
Proof.
  unfold on_curve. cbn. intros H. replace (d * x * x * y * y) with (1 + d * (x * x) * (y * y) - 1) by ring.
  rewrite <-H. ring.
Qed.

(** The addition law is complete: no denominator vanishes. *)
Lemma ed_complete x1 y1 x2 y2 : on_curve (x1, y1) → on_curve (x2, y2) →
  d * x1 * x2 * y1 * y2 * (d * x1 * x2 * y1 * y2) ≠ 1.
Proof.
  intros H1%curve_rule H2%curve_rule He.
  assert (x1 * y1 ≠ 0) as Hxy.
  { intros Hz. apply (F_1_neq_0 Fth). rewrite <-He.
    replace (d * x1 * x2 * y1 * y2) with (d * x2 * y2 * (x1 * y1)) by ring. rewrite Hz. ring. }
  set (e := d * x1 * x2 * y1 * y2) in *.
  assert (∀ s, s * s = 1 → i * x2 + s * y2 ≠ 0 → False) as K.
  { intros s Hs Hn. apply (not_square_quot (i * x1 + s * e * y1) (x1 * y1 * (i * x2 + s * y2))).
    { by apply mul_nz. }
    assert (s * e * y1 * (s * e * y1) = y1 * y1) as E1.
    { replace (s * e * y1 * (s * e * y1)) with (s * s * (e * e) * (y1 * y1)) by ring.
      rewrite Hs, He. ring. }
    replace ((i * x1 + s * e * y1) * (i * x1 + s * e * y1)) with
      (i * i * (x1 * x1) + (1 + 1) * i * s * e * x1 * y1 + s * e * y1 * (s * e * y1)) by ring.
    rewrite E1, i_square.
    replace (d * (x1 * y1 * (i * x2 + s * y2) * (x1 * y1 * (i * x2 + s * y2)))) with
      (d * x1 * x1 * y1 * y1 * (i * i * (x2 * x2) + s * s * (y2 * y2)) + (1 + 1) * i * s * x1 * y1 * e)
      by (unfold e; ring).
    rewrite Hs, i_square.
    replace (d * x1 * x1 * y1 * y1 * (- (1) * (x2 * x2) + 1 * (y2 * y2))) with
      (d * x1 * x1 * y1 * y1 * (1 + d * x2 * x2 * y2 * y2)) by (rewrite H2; ring).
    replace (d * x1 * x1 * y1 * y1 * (1 + d * x2 * x2 * y2 * y2)) with
      (d * x1 * x1 * y1 * y1 + e * e) by (unfold e; ring).
    rewrite He, H1. ring. }
  destruct (decide (i * x2 + 1 * y2 = 0)) as [Ea|Ea]; [|apply (K 1); [ring|done]].
  destruct (decide (i * x2 + - (1) * y2 = 0)) as [Eb|Eb]; [|apply (K (- (1))); [ring|done]].
  assert (y2 = 0) as Ey.
  { apply (mul_eq_0 (1 + 1)); [|done].
    replace ((1 + 1) * y2) with (i * x2 + 1 * y2 - (i * x2 + - (1) * y2)) by ring. rewrite Ea, Eb. ring. }
  apply (F_1_neq_0 Fth). rewrite <-He. unfold e. rewrite Ey. ring.
Qed.

Section Sum.
Context (x1 y1 x2 y2 : F) (H1 : on_curve (x1, y1)) (H2 : on_curve (x2, y2)).

Lemma denom_plus : 1 + d * x1 * x2 * y1 * y2 ≠ 0.
Proof.
  intros E. apply (ed_complete x1 y1 x2 y2 H1 H2). set (e := d * x1 * x2 * y1 * y2) in *.
  replace (e * e) with ((1 + e) * (e - 1) + 1) by ring. rewrite E. ring.
Qed.

Lemma denom_minus : 1 - d * x1 * x2 * y1 * y2 ≠ 0.
Proof.
  intros E. apply (ed_complete x1 y1 x2 y2 H1 H2). set (e := d * x1 * x2 * y1 * y2) in *.
  replace (e * e) with (1 - (1 - e) * (1 + e)) by ring. rewrite E. ring.
Qed.

Lemma ed_add_on_curve : on_curve (ed_add (x1, y1) (x2, y2)).
Proof.
  pose proof denom_plus. pose proof denom_minus. pose proof (curve_rule _ _ H1) as R1.
  pose proof (curve_rule _ _ H2) as R2. unfold on_curve, ed_add. cbn [fst snd].
  field_simplify_eq; [|done..]. ring [R1 R2].
Qed.
End Sum.

Lemma ed_add_closed P Q : on_curve P → on_curve Q → on_curve (ed_add P Q).
Proof. destruct P, Q. apply ed_add_on_curve. Qed.

Lemma ed_zero_on_curve : on_curve ed_zero.
Proof. unfold on_curve, ed_zero. cbn. ring. Qed.

Lemma ed_neg_on_curve P : on_curve P → on_curve (ed_neg P).
Proof. destruct P as [x y]. unfold on_curve, ed_neg. cbn. intros H. ring_simplify in H. ring_simplify. done. Qed.

Lemma ed_add_comm P Q : ed_add P Q = ed_add Q P.
Proof. destruct P as [x1 y1], Q as [x2 y2]. unfold ed_add. f_equal; f_equal; ring. Qed.

Lemma ed_add_zero P : ed_add P ed_zero = P.
Proof. destruct P as [x y]. unfold ed_add, ed_zero. f_equal; field; intros H; apply (F_1_neq_0 Fth); rewrite <-H; ring. Qed.

Lemma ed_add_neg P : on_curve P → ed_add P (ed_neg P) = ed_zero.
Proof.
  destruct P as [x y]. intros H. pose proof (ed_neg_on_curve _ H) as Hn. unfold ed_neg in *. cbn [fst snd] in *.
  pose proof (denom_plus _ _ _ _ H Hn). pose proof (denom_minus _ _ _ _ H Hn).
  pose proof (curve_rule _ _ H) as R. unfold ed_add, ed_zero. f_equal.
  - field. done.
  - field_simplify_eq; [|done]. ring [R].
Qed.

Lemma frac_eq a b a' b' : b ≠ 0 → b' ≠ 0 → a * b' = a' * b → a / b = a' / b'.
Proof.
  intros Hb Hb' H. replace (a / b) with (a * b' / (b * b')) by (field; done).
  rewrite H. field. done.
Qed.

Lemma ed_add_assoc P Q R : on_curve P → on_curve Q → on_curve R →
  ed_add P (ed_add Q R) = ed_add (ed_add P Q) R.
Proof.
  destruct P as [x1 y1], Q as [x2 y2], R as [x3 y3]. intros H1 H2 H3.
  pose proof (ed_add_on_curve _ _ _ _ H1 H2) as H12. pose proof (ed_add_on_curve _ _ _ _ H2 H3) as H23.
  unfold ed_add in *. cbn [fst snd] in *.
  pose proof (denom_plus _ _ _ _ H1 H2). pose proof (denom_minus _ _ _ _ H1 H2).
  pose proof (denom_plus _ _ _ _ H2 H3). pose proof (denom_minus _ _ _ _ H2 H3).
  pose proof (denom_plus _ _ _ _ H12 H3) as Da. pose proof (denom_minus _ _ _ _ H12 H3) as Db.
  pose proof (denom_plus _ _ _ _ H1 H23) as Dc. pose proof (denom_minus _ _ _ _ H1 H23) as Dd.
  pose proof (curve_rule _ _ H1) as R1. pose proof (curve_rule _ _ H2) as R2. pose proof (curve_rule _ _ H3) as R3.
  f_equal.
  - apply (frac_eq _ _ _ _ Dc Da). clear Da Db Dc Dd. field_simplify_eq; [|by split_and!]. ring [R1 R2 R3].
  - apply (frac_eq _ _ _ _ Dd Db). clear Da Db Dc Dd. field_simplify_eq; [|by split_and!]. ring [R1 R2 R3].
Qed.
(** ** Points as a type: the laws hold without side conditions *)

#[local] Instance on_curve_dec P : Decision (on_curve P).
Proof. unfold on_curve. apply _. Defined.

Definition point : Type := dsig on_curve.

Definition padd (P Q : point) : point :=
  dexist (ed_add (`P) (`Q)) (ed_add_closed _ _ (proj2_dsig P) (proj2_dsig Q)).
Definition pzero : point := dexist ed_zero ed_zero_on_curve.
Definition pneg (P : point) : point := dexist (ed_neg (`P)) (ed_neg_on_curve _ (proj2_dsig P)).

Lemma point_eq (P Q : point) : P = Q ↔ `P = `Q.
Proof. apply dsig_eq. Qed.

Lemma padd_comm P Q : padd P Q = padd Q P.
Proof. apply point_eq, ed_add_comm. Qed.
Lemma padd_assoc P Q R : padd P (padd Q R) = padd (padd P Q) R.
Proof. apply point_eq, ed_add_assoc; apply proj2_dsig. Qed.
Lemma padd_zero P : padd P pzero = P.
Proof. apply point_eq, ed_add_zero. Qed.
Lemma padd_neg P : padd P (pneg P) = pzero.
Proof. apply point_eq, ed_add_neg, proj2_dsig. Qed.
End Edwards.

(** ** Multiples in a commutative group *)

Class CommGroup (G : Type) := {
  gop : G → G → G;
  gzero : G;
  gneg : G → G;
  gop_comm a b : gop a b = gop b a;
  gop_assoc a b c : gop a (gop b c) = gop (gop a b) c;
  gop_zero a : gop a gzero = a;
  gop_neg a : gop a (gneg a) = gzero
}.

Section Multiples.
Context {G : Type} {CG : CommGroup G}.
Implicit Types (a b : G) (m n : nat).

(** [n] times [a]. *)
Fixpoint gmul n a : G := match n with O => gzero | S n => gop a (gmul n a) end.

Lemma gzero_op a : gop gzero a = a.
Proof. by rewrite gop_comm, gop_zero. Qed.

Lemma gmul_add m n a : gmul (m + n) a = gop (gmul m a) (gmul n a).
Proof. induction m as [|m IH]; cbn; [by rewrite gzero_op|]. by rewrite IH, gop_assoc. Qed.

Lemma gmul_zero n : gmul n gzero = gzero.
Proof. induction n as [|n IH]; cbn; [done|]. by rewrite IH, gop_zero. Qed.

Lemma gmul_mul m n a : gmul (m * n) a = gmul m (gmul n a).
Proof. induction m as [|m IH]; cbn; [done|]. by rewrite gmul_add, IH. Qed.

Lemma gmul_op n a b : gmul n (gop a b) = gop (gmul n a) (gmul n b).
Proof.
  induction n as [|n IH]; cbn; [by rewrite gop_zero|]. rewrite IH, !gop_assoc. f_equal.
  by rewrite <-!gop_assoc, (gop_comm b).
Qed.

(** Only the multiplier modulo the order counts. *)
Lemma gmul_mod o n a : o ≠ 0%nat → gmul o a = gzero → gmul (n mod o) a = gmul n a.
Proof.
  intros Ho Ha. rewrite (Nat.div_mod_eq n o) at 2.
  by rewrite gmul_add, (Nat.mul_comm o), gmul_mul, Ha, gmul_zero, gzero_op.
Qed.

Lemma gop_cancel a b c : gop a b = gop a c → b = c.
Proof.
  intros H. rewrite <-(gzero_op b), <-(gzero_op c), <-(gop_neg a), (gop_comm a), <-!gop_assoc. by rewrite H.
Qed.

Lemma gneg_unique a b : gop a b = gzero → b = gneg a.
Proof. intros H. apply (gop_cancel a). by rewrite H, gop_neg. Qed.

Lemma gneg_mul n a : gneg (gmul n a) = gmul n (gneg a).
Proof. symmetry. apply gneg_unique. by rewrite <-gmul_op, gop_neg, gmul_zero. Qed.

Lemma gneg_neg a : gneg (gneg a) = a.
Proof. symmetry. apply gneg_unique. by rewrite gop_comm, gop_neg. Qed.
End Multiples.
