(* ===== verification/Sha512.v ===== *)
(** * [hashlib.sha512] of the Python standard library (FIPS 180-4), executable

    XEdDSA hashes with it; only its being a function is used by the theorems. *)

From S2P Require Import Prelude Sha256.

Definition w64 (z : Z) : Z := Z.land z 0xFFFFFFFFFFFFFFFF.
Definition rotr64 (n x : Z) : Z := Z.lor (Z.shiftr x n) (w64 (Z.shiftl x (64 - n))).

Definition primes80 : list Z := Z.of_nat <$> take 80 (filter (λ n, is_prime n = true) (seq 2 410)).

Definition sha512_k : list Z :=
  Eval vm_compute in (λ p, w64 (cbrt 70 0 (p * 2 ^ 192))) <$> primes80.

Definition sha512_iv : list Z :=
  Eval vm_compute in (λ p, w64 (Z.sqrt (p * 2 ^ 128))) <$> take 8 primes80.

Definition sched_next64 (w : list Z) : Z :=
  match w with
  | [w0; w1; _; _; _; _; _; _; _; w9; _; _; _; _; w14; _] =>
      let s0 := Z.lxor (Z.lxor (rotr64 1 w1) (rotr64 8 w1)) (Z.shiftr w1 7) in
      let s1 := Z.lxor (Z.lxor (rotr64 19 w14) (rotr64 61 w14)) (Z.shiftr w14 6) in
      w64 (w0 + s0 + w9 + s1)
  | _ => 0
  end.

Definition sha512_round (st : list Z) (k w : Z) : list Z :=
  match st with
  | [a; b; c; d; e; f; g; h] =>
      let s1 := Z.lxor (Z.lxor (rotr64 14 e) (rotr64 18 e)) (rotr64 41 e) in
      let ch := Z.lxor (Z.land e f) (Z.land (Z.lxor e 0xFFFFFFFFFFFFFFFF) g) in
      let t1 := h + s1 + ch + k + w in
      let s0 := Z.lxor (Z.lxor (rotr64 28 a) (rotr64 34 a)) (rotr64 39 a) in
      let maj := Z.lxor (Z.lxor (Z.land a b) (Z.land a c)) (Z.land b c) in
      [w64 (t1 + s0 + maj); a; b; c; w64 (d + t1); e; f; g]
  | _ => st
  end.

Fixpoint sha512_rounds (ks : list Z) (w st : list Z) : list Z :=
  match ks, w with
  | k :: ks, w0 :: w' => sha512_rounds ks (w' ++ [sched_next64 w]) (sha512_round st k w0)
  | _, _ => st
  end.

Definition compress512 (st : list Z) (block : bytes) : list Z :=
  zip_with (λ a b, w64 (a + b)) st (sha512_rounds sha512_k (be_val <$> chunks 8 block) st).

Definition sha512_pad (m : bytes) : bytes :=
  let n := Z.of_nat (length m) in
  m ++ mkb 0x80 :: replicate (Z.to_nat ((111 - n) mod 128)) (mkb 0) ++ be_bytes 16 (8 * n).

Definition sha512 (m : bytes) : bytes :=
  foldl compress512 sha512_iv (chunks 128 (sha512_pad m)) ≫= be_bytes 8.

(** The published digest of ["abc"]. *)
Example sha512_abc : be_val (sha512 (mkb <$> [97; 98; 99])) =
  0xDDAF35A193617ABACC417349AE20413112E6FA4E89A97EA20A9EEEE64B55D39A2192992A274FC1A836BA3C23A3FEEBBD454D4423643CE80E2A9AC94FA54CA49F.
Proof. vm_compute. reflexivity. Qed.

#[global] Opaque sha512.
