(* ===== verification/Ed25519.v ===== *)
(** * Ed25519 point arithmetic ([src/src/pywhats/signal/experimental/_ed25519.py])

    The module's integers are Python's; [pow(b, e, m)] is modular exponentiation by
    squaring. Every [% p] is kept where the source has it. *)

From S2P Require Import Prelude.

(** [pow(b, e, m)] for [e >= 0] *)
Fixpoint powmod_pos (b : Z) (e : positive) (m : Z) : Z :=
  match e with
  | xH => b
  | xO e => let r := powmod_pos b e m in (r * r) mod m
  | xI e => let r := powmod_pos b e m in ((r * r) mod m * b) mod m
  end.

Definition powmod (b e m : Z) : Z :=
  match e with Zpos e => powmod_pos (b mod m) e m | _ => 1 mod m end.

Definition p : Z := 2 ^ 255 - 19.
Definition q : Z := 2 ^ 252 + 27742317777372353535851937790883648493.
Definition d : Z := Eval vm_compute in ((- 121665 * powmod 121666 (p - 2) p) mod p).
Definition _By : Z := Eval vm_compute in ((4 * powmod 5 (p - 2) p) mod p).

Definition _inv (x : Z) : Z := powmod x (p - 2) p.

(** [ValueError] when [y] is out of range or not on the curve. *)
Definition _recover_x (y sign : Z) : result Z :=
  if p <=? y then Raise ValueError
  else
    let xx := ((y * y - 1) * _inv (d * y * y + 1)) mod p in
    let x := powmod xx ((p + 3) / 8) p in
    let x := if negb ((x * x - xx) mod p =? 0) then (x * powmod 2 ((p - 1) / 4) p) mod p else x in
    if negb ((x * x - xx) mod p =? 0) then Raise ValueError
    else Ok (if negb (Z.land x 1 =? sign) then p - x else x).

(** Extended coordinates [(X, Y, Z, T)] with [T = XY/Z]. *)
Definition Point : Type := Z * Z * Z * Z.

Definition _Bx : Z := Eval vm_compute in (ok_or 0 (_recover_x _By 0)).
Definition B : Point := Eval vm_compute in (_Bx mod p, _By mod p, 1, (_Bx * _By) mod p).

Definition _point_add (P Q : Point) : Point :=
  let '(x1, y1, z1, t1) := P in
  let '(x2, y2, z2, t2) := Q in
  let A := ((y1 - x1) * (y2 - x2)) mod p in
  let Bv := ((y1 + x1) * (y2 + x2)) mod p in
  let C := (t1 * 2 * d * t2) mod p in
  let D := (z1 * 2 * z2) mod p in
  let E := (Bv - A) mod p in
  let F := (D - C) mod p in
  let G := (D + C) mod p in
  let H := (Bv + A) mod p in
  ((E * F) mod p, (G * H) mod p, (F * G) mod p, (E * H) mod p).

(** The [while s > 0] loop, on the bits of [s]: at the last bit [P] is no longer used. *)
Fixpoint scalar_loop (s : positive) (P Q : Point) : Point :=
  match s with
  | xH => _point_add Q P
  | xO s => scalar_loop s (_point_add P P) Q
  | xI s => scalar_loop s (_point_add P P) (_point_add Q P)
  end.

Definition _scalar_mult (s : Z) (P : Point) : Point :=
  let Q := (0, 1, 1, 0) in
  match s with Zpos s => scalar_loop s P Q | _ => Q end.

Definition _point_equal (P Q : Point) : bool :=
  let '(x1, y1, z1, _) := P in
  let '(x2, y2, z2, _) := Q in
  if negb ((x1 * z2 - x2 * z1) mod p =? 0) then false
  else if negb ((y1 * z2 - y2 * z1) mod p =? 0) then false
  else true.

Definition _point_compress (P : Point) : result bytes :=
  let '(x, y, z, _) := P in
  let zi := _inv z in
  let x := (x * zi) mod p in
  let y := (y * zi) mod p in
  to_bytes_little 32 (Z.lor y (Z.shiftl (Z.land x 1) 255)).

Definition _point_decompress (data : bytes) : option Point :=
  if negb (Z.of_nat (length data) =? 32) then None
  else
    let y := le_val data in
    let sign := Z.land (Z.shiftr y 255) 1 in
    let y := Z.land y (Z.shiftl 1 255 - 1) in
    match _recover_x y sign with
    | Raise _ => None
    | Ok x => Some (x, y, 1, (x * y) mod p)
    end.

Definition scalar_mult_base (s : Z) : Point := _scalar_mult (s mod q) B.
Definition encode_point (P : Point) : result bytes := _point_compress P.
Definition decode_point (b : bytes) : option Point := _point_decompress b.
Definition point_equal (P Q : Point) : bool := _point_equal P Q.
Definition point_add (P Q : Point) : Point := _point_add P Q.

Definition point_negate (P : Point) : Point :=
  let '(x, y, z, t) := P in ((- x) mod p, y, z, (- t) mod p).

Definition mont_u_to_ed_y (u : Z) : Z := ((u - 1) * _inv (u + 1)) mod p.

(** [a[0] &= 248; a[31] &= 127; a[31] |= 64]; a short key raises [IndexError]. *)
Definition clamp_scalar (k : bytes) : result Z :=
  a0 ← some_or (k !! 0%nat) IndexError;
  a31 ← some_or (k !! 31%nat) IndexError;
  let a := <[0%nat := mkb (Z.land (b2z a0) 248)]> k in
  let a := <[31%nat := mkb (Z.lor (Z.land (b2z a31) 127) 64)]> a in
  Ok (le_val a).
