(* ===== verification/Curve25519.v ===== *)
(** * The points of [_ed25519.py] as a group

    [src/src/pywhats/signal/experimental/_ed25519.py] computes in the group of the curve over
    the field of [2^255 - 19] elements: extended coordinates represent affine
    points, [_point_add] adds them, [_scalar_mult] multiplies, and a compressed
    point decompresses to itself. *)

From S2P Require Import Prelude Primes EdwardsGroup Ed25519.
From Stdlib Require Import Zmod Field.

(** ** The field *)

Abbreviation Fp := (Zmod.Zmod p).
Definition fp (z : Z) : Fp := Zmod.of_Z p z.

Lemma p_prime : Z.prime p.
Proof. exact prime_25519. Qed.

Lemma p_val : p = 2 ^ 255 - 19.
Proof. done. Qed.

#[global] Opaque p.

#[global] Instance Fp_eq_dec : EqDecision Fp.
Proof.
  intros x y. destruct (decide (Zmod.to_Z x = Zmod.to_Z y)) as [H|H]; [left|right].
  - by apply Zmod.to_Z_inj.
  - congruence.
Defined.

Definition Fp_field := Zmod.field_theory p p_prime.

Declare Scope fp_scope.
Delimit Scope fp_scope with fp.
#[global] Open Scope fp_scope.
Notation "0" := (@Zmod.zero p) : fp_scope.
Notation "1" := (@Zmod.one p) : fp_scope.
Infix "+" := (@Zmod.add p) : fp_scope.
Infix "*" := (@Zmod.mul p) : fp_scope.
Infix "-" := (@Zmod.sub p) : fp_scope.
Infix "/" := (@Zmod.mdiv p) : fp_scope.
Notation "- x" := (@Zmod.opp p x) : fp_scope.
#[global] Close Scope fp_scope.

Add Field fp_field : Fp_field.

Lemma fp_mod z : fp (z mod p) = fp z.
Proof. apply Zmod.of_Z_mod. Qed.
Lemma fp_add x y : fp (x + y) = (fp x + fp y)%fp.
Proof. apply Zmod.of_Z_add. Qed.
Lemma fp_sub x y : fp (x - y) = (fp x - fp y)%fp.
Proof. apply Zmod.of_Z_sub. Qed.
Lemma fp_mul x y : fp (x * y) = (fp x * fp y)%fp.
Proof. apply Zmod.of_Z_mul. Qed.
Lemma fp_opp x : fp (- x) = (- fp x)%fp.
Proof. apply Zmod.of_Z_opp. Qed.
Lemma fp_0 : fp 0 = 0%fp.
Proof. apply Zmod.of_Z_0. Qed.
Lemma fp_1 : fp 1 = 1%fp.
Proof. apply Zmod.of_Z_1. Qed.
Lemma fp_2 : fp 2 = (1 + 1)%fp.
Proof. change 2 with (1 + 1). by rewrite fp_add, fp_1. Qed.

Create Rewrite HintDb fp.
#[global] Hint Rewrite fp_mod fp_add fp_sub fp_mul fp_opp fp_0 fp_1 fp_2 : fp.

Lemma fp_eq x y : fp x = fp y ↔ x mod p = y mod p.
Proof. apply Zmod.of_Z_inj. Qed.

Lemma fp_inj x y : 0 ≤ x < p → 0 ≤ y < p → fp x = fp y → x = y.
Proof. intros Hx Hy H%fp_eq. by rewrite !Z.mod_small in H. Qed.

Lemma fp_pow b e : 0 ≤ e → fp (b ^ e) = Zmod.pow (fp b) e.
Proof.
  intros He. apply Zmod.to_Z_inj. rewrite Zmod.to_Z_pow_nonneg_r by done. unfold fp.
  by rewrite !Zmod.to_Z_of_Z, Z.mod_pow_l.
Qed.

Lemma powmod_ok b e : 0 ≤ e → powmod b e p = b ^ e mod p.
Proof.
  intros He. pose proof p_val. destruct e as [|e|e]; [done| |lia]. cbn [powmod].
  induction e as [e IH|e IH|]; cbn [powmod_pos]; [..|by rewrite Z.pow_1_r]; rewrite IH by lia.
  - rewrite (Pos2Z.inj_xI e), Z.pow_add_r, Z.pow_1_r, (Z.mul_comm 2 (Z.pos e)), Z.pow_mul_r, Z.pow_2_r by lia.
    by rewrite <-(Zmult_mod (b ^ _) (b ^ _)), <-Zmult_mod.
  - rewrite (Pos2Z.inj_xO e), (Z.mul_comm 2), Z.pow_mul_r, Z.pow_2_r by lia. by rewrite <-Zmult_mod.
Qed.

Lemma fp_powmod b e : 0 ≤ e → fp (powmod b e p) = Zmod.pow (fp b) e.
Proof. intros He. by rewrite powmod_ok, fp_mod, fp_pow. Qed.

Lemma fp_inv x : fp (_inv x) = Zmod.inv (fp x).
Proof.
  unfold _inv. pose proof p_val. rewrite fp_powmod by lia. destruct (decide (fp x = 0%fp)) as [->|Hx].
  - rewrite Zmod.pow_0_l by lia. by rewrite Zmod.inv_0.
  - by apply Zmod.fermat_inv, p_prime.
Qed.
#[global] Hint Rewrite fp_inv : fp.

Lemma fp_nz x : 0 < x < p → fp x ≠ 0%fp.
Proof. intros Hx. apply Zmod.of_Z_nz. rewrite Z.mod_small; lia. Qed.

Lemma fp_char2 : (1 + 1)%fp ≠ 0%fp.
Proof. rewrite <-fp_2. apply fp_nz. pose proof p_val. lia. Qed.

(** ** A square root of -1, and [d] is not a square *)

Definition fi : Fp := fp (powmod 2 ((p - 1) / 4) p).

Lemma euler_nonresidue b : b ^ ((2 ^ 255 - 20) / 2) mod (2 ^ 255 - 19) = 2 ^ 255 - 20 →
  Zmod.pow (fp b) ((p - 1) / 2) = (- (1))%fp.
Proof.
  intros H. assert ((p - 1) / 2 = (2 ^ 255 - 20) / 2) as -> by (by rewrite p_val).
  rewrite <-fp_pow, <-fp_mod by (by vm_compute). rewrite p_val at 2.
  replace (b ^ ((2 ^ 255 - 20) / 2) mod (2 ^ 255 - 19)) with (p - 1) by (by rewrite H, p_val).
  assert (fp p = 0%fp) as Hp by (by rewrite <-fp_mod, Z.mod_same, fp_0 by (by rewrite p_val)).
  rewrite fp_sub, Hp, fp_1. ring.
Qed.

Lemma pow_half_square (x : Fp) : x ≠ 0%fp → Zmod.pow (x * x)%fp ((p - 1) / 2) = 1%fp.
Proof.
  intros Hx. pose proof p_val as Hp. rewrite <-Zmod.pow_2_r, <-Zmod.pow_mul_r_nonneg by (try apply Z.div_pos; lia).
  replace (2 * ((p - 1) / 2)) with (Z.pred p) by (rewrite Hp; by vm_compute).
  by apply Zmod.fermat_nz, p_prime.
Qed.

Lemma fi_square : (fi * fi = - (1))%fp.
Proof.
  unfold fi. rewrite fp_powmod by (by vm_compute). rewrite <-Zmod.pow_2_r, <-Zmod.pow_mul_r_nonneg by (by vm_compute).
  replace ((p - 1) / 4 * 2) with ((p - 1) / 2) by (by rewrite p_val; vm_compute).
  apply euler_nonresidue, two_nonresidue.
Qed.

Lemma fp_one_neq_opp : (1 ≠ - (1))%fp.
Proof. intros H. apply fp_char2. rewrite H at 1. ring. Qed.

Definition fd : Fp := fp d.

Lemma fd_def : (fd * fp 121666 = - fp 121665)%fp.
Proof. unfold fd. rewrite <-fp_mul, <-fp_opp. apply fp_eq. vm_compute. reflexivity. Qed.

Lemma fd_nonsquare (s : Fp) : (s * s ≠ fd)%fp.
Proof.
  intros Hs. pose proof (euler_nonresidue _ d_nonresidue) as He.
  set (t := (s * fp 121666 * fi)%fp).
  assert (t * t = fp (121665 * 121666))%fp as Ht.
  { unfold t. replace (s * fp 121666 * fi * (s * fp 121666 * fi))%fp with (s * s * fp 121666 * fp 121666 * (fi * fi))%fp by ring.
    rewrite Hs, fi_square, fd_def, fp_mul. ring. }
  assert (fp (121665 * 121666) ≠ 0%fp) as Hn by (apply fp_nz; rewrite p_val; lia).
  rewrite <-Ht, pow_half_square in He; [by apply fp_one_neq_opp|].
  intros H0. apply Hn. rewrite <-Ht, H0. ring.
Qed.

(** ** The group *)

Definition E25519 : Type := @point Fp _ 1%fp Zmod.add Zmod.mul Zmod.opp fd.

#[global] Instance E25519_eq_dec : EqDecision E25519.
Proof. unfold E25519, point. apply _. Defined.

#[global] Instance ed_group : CommGroup E25519 := {|
  gop := padd Fp_field fd fi fp_char2 fi_square fd_nonsquare;
  gzero := pzero Fp_field fd;
  gneg := pneg Fp_field fd;
  gop_comm := padd_comm Fp_field fd fi fp_char2 fi_square fd_nonsquare;
  gop_assoc := padd_assoc Fp_field fd fi fp_char2 fi_square fd_nonsquare;
  gop_zero := padd_zero Fp_field fd fi fp_char2 fi_square fd_nonsquare;
  gop_neg := padd_neg Fp_field fd fi fp_char2 fi_square fd_nonsquare
|}.

(** Affine coordinates of a point. *)
Definition ax (a : E25519) : Fp := (`a).1.
Definition ay (a : E25519) : Fp := (`a).2.

Lemma E25519_eq (a b : E25519) : ax a = ax b → ay a = ay b → a = b.
Proof. intros Hx Hy. apply point_eq. unfold ax, ay in *. destruct (`a), (`b). cbn in *. congruence. Qed.

Lemma E25519_curve (a : E25519) : on_curve (mul := Zmod.mul) (opp := Zmod.opp) (add := Zmod.add) (I := 1%fp) fd (ax a, ay a).
Proof. pose proof (proj2_dsig a) as H. unfold ax, ay. by destruct (`a). Qed.

(** ** Extended coordinates *)

(** [P] stands for the affine point [a]. *)
Definition rep (P : Point) (a : E25519) : Prop :=
  let '(x, y, z, t) := P in
  (fp z ≠ 0 ∧ fp x = ax a * fp z ∧ fp y = ay a * fp z ∧ fp t = ax a * ay a * fp z)%fp.

Lemma fp_d : fp d = fd.
Proof. done. Qed.
#[global] Hint Rewrite fp_d : fp.

Section Sum.
Context (a b : E25519).

Lemma ax_gop : (ax (gop a b) = (ax a * ay b + ay a * ax b) / (1 + fd * ax a * ax b * ay a * ay b))%fp.
Proof. unfold ax, ay. cbn [gop ed_group]. unfold padd. cbn. by destruct (`a), (`b). Qed.

Lemma ay_gop : (ay (gop a b) = (ay a * ay b + ax a * ax b) / (1 - fd * ax a * ax b * ay a * ay b))%fp.
Proof. unfold ax, ay. cbn [gop ed_group]. unfold padd. cbn. by destruct (`a), (`b). Qed.

Lemma gop_plus : (1 + fd * ax a * ax b * ay a * ay b ≠ 0)%fp.
Proof. exact (denom_plus Fp_field fd fi fp_char2 fi_square fd_nonsquare _ _ _ _ (E25519_curve a) (E25519_curve b)). Qed.

Lemma gop_minus : (1 - fd * ax a * ax b * ay a * ay b ≠ 0)%fp.
Proof. exact (denom_minus Fp_field fd fi fp_char2 fi_square fd_nonsquare _ _ _ _ (E25519_curve a) (E25519_curve b)). Qed.
End Sum.

Ltac fp_nonzero := repeat first [assumption | apply (mul_nz Fp_field)].

(** [_point_add] adds the affine points. *)
Lemma rep_add P Q a b : rep P a → rep Q b → rep (_point_add P Q) (gop a b).
Proof.
  destruct P as [[[x1 y1] z1] t1], Q as [[[x2 y2] z2] t2]. intros (Z1 & X1 & Y1 & T1) (Z2 & X2 & Y2 & T2).
  pose proof (gop_plus a b) as Dp. pose proof (gop_minus a b) as Dm.
  unfold _point_add, rep. rewrite ax_gop, ay_gop. autorewrite with fp. rewrite X1, X2, Y1, Y2, T1, T2.
  set (u1 := ax a) in *. set (v1 := ay a) in *. set (u2 := ax b) in *. set (v2 := ay b) in *.
  clearbody u1 v1 u2 v2. set (w1 := fp z1) in *. set (w2 := fp z2) in *. clearbody w1 w2.
  set (D1 := (1 + fd * _ * _ * _ * _)%fp) in *. set (D2 := (1 - fd * _ * _ * _ * _)%fp) in *.
  replace (w1 * (1 + 1) * w2 - u1 * v1 * w1 * (1 + 1) * fd * (u2 * v2 * w2))%fp with ((1 + 1) * w1 * w2 * D2)%fp
    by (unfold D2; ring).
  replace (w1 * (1 + 1) * w2 + u1 * v1 * w1 * (1 + 1) * fd * (u2 * v2 * w2))%fp with ((1 + 1) * w1 * w2 * D1)%fp
    by (unfold D1; ring).
  clearbody D1 D2. pose proof fp_char2 as H2. split_and!; [fp_nonzero|field; done..].
Qed.

Lemma rep_zero : rep (0, 1, 1, 0) gzero.
Proof.
  unfold rep. autorewrite with fp. unfold ax, ay. cbn [gzero ed_group]. unfold pzero. cbn.
  split_and!; [|ring..]. apply (F_1_neq_0 Fp_field).
Qed.

Lemma rep_neg P a : rep P a → rep (point_negate P) (gneg a).
Proof.
  destruct P as [[[x y] z] t]. intros (Z1 & X1 & Y1 & T1). unfold point_negate, rep. autorewrite with fp.
  rewrite X1, Y1, T1. unfold ax, ay. cbn [gneg ed_group]. unfold pneg, ed_neg. cbn.
  destruct (`a) as [u v]. cbn. split_and!; [done|ring|done|ring].
Qed.

(** One step of the loop, on the multiples. *)
Lemma gmul_xI (s : positive) (a b : E25519) :
  gop (gop b a) (gmul (Pos.to_nat s) (gop a a)) = gop b (gmul (Pos.to_nat s~1) a).
Proof. rewrite Pos2Nat.inj_xI. cbn [gmul]. rewrite <-gop_assoc, Nat.mul_comm, gmul_mul. cbn [gmul]. by rewrite gop_zero. Qed.

Lemma gmul_xO (s : positive) (a b : E25519) :
  gop b (gmul (Pos.to_nat s) (gop a a)) = gop b (gmul (Pos.to_nat s~0) a).
Proof. rewrite Pos2Nat.inj_xO, Nat.mul_comm, gmul_mul. cbn [gmul]. by rewrite gop_zero. Qed.

(** [_scalar_mult] multiplies. *)
Lemma rep_loop s P Q a b : rep P a → rep Q b → rep (scalar_loop s P Q) (gop b (gmul (Pos.to_nat s) a)).
Proof.
  revert P Q a b. induction s as [s IH|s IH|]; intros P Q a b Ha Hb; cbn [scalar_loop].
  - rewrite <-gmul_xI. apply IH; by apply rep_add.
  - rewrite <-gmul_xO. apply IH; [by apply rep_add|done].
  - change (Pos.to_nat 1) with 1%nat. cbn [gmul]. rewrite gop_zero. by apply rep_add.
Qed.

Lemma rep_scalar_mult s P a : rep P a → rep (_scalar_mult s P) (gmul (Z.to_nat s) a).
Proof.
  intros Ha. unfold _scalar_mult. destruct s as [|s|s]; [apply rep_zero| |apply rep_zero].
  rewrite <-(gzero_op (gmul _ _)). apply rep_loop; [done|apply rep_zero].
Qed.

(** ** The base point and its order *)

Lemma B_on_curve : on_curve (mul := Zmod.mul) (opp := Zmod.opp) (add := Zmod.add) (I := 1%fp) fd (fp _Bx, fp _By).
Proof.
  unfold on_curve, fd. cbn [fst snd]. rewrite <-fp_1, <-!fp_mul, <-!fp_opp, <-!fp_add.
  apply fp_eq. vm_compute. reflexivity.
Qed.

Definition base : E25519 := dexist _ B_on_curve.

Lemma rep_B : rep B base.
Proof.
  unfold rep, B. unfold ax, ay, base. cbn [proj1_sig dexist fst snd]. rewrite <-!fp_mul. split_and!.
  - rewrite fp_1. apply (F_1_neq_0 Fp_field).
  - apply fp_eq. vm_compute. reflexivity.
  - apply fp_eq. vm_compute. reflexivity.
  - apply fp_eq. vm_compute. reflexivity.
Qed.

(** A cheaper computation of the same multiple: reductions by folding, a dedicated
    doubling, no final subtraction. *)
Definition fast_add (P Q : Point) : Point :=
  let '(x1, y1, z1, t1) := P in
  let '(x2, y2, z2, t2) := Q in
  let A := fold_p ((y1 - x1) * (y2 - x2)) in
  let Bv := fold_p ((y1 + x1) * (y2 + x2)) in
  let C := fold_p (fold_p (t1 * t2) * (2 * d)) in
  let D := fold_p (z1 * (2 * z2)) in
  let E := Bv - A in
  let F := D - C in
  let G := D + C in
  let H := Bv + A in
  (fold_p (E * F), fold_p (G * H), fold_p (F * G), fold_p (E * H)).

Definition fast_double (P : Point) : Point :=
  let '(x, y, z, t) := P in
  let A := fold_p (Z.square x) in
  let Bv := fold_p (Z.square y) in
  let C := 2 * fold_p (Z.square z) in
  let E := fold_p (Z.square (x + y)) - (A + Bv) in
  let G := Bv - A in
  let F := C - G in
  let H := A + Bv in
  (fold_p (E * F), fold_p (G * H), fold_p (F * G), fold_p (E * H)).

Fixpoint fast_loop (s : positive) (P Q : Point) : Point :=
  match s with
  | xH => fast_add Q P
  | xO s => fast_loop s (fast_double P) Q
  | xI s => fast_loop s (fast_double P) (fast_add Q P)
  end.

Lemma fp_fold x : fp (fold_p x) = fp x.
Proof. apply fp_eq. rewrite p_val. apply fold_p_mod. Qed.

Lemma fast_add_ok P Q a b : rep P a → rep Q b → rep (fast_add P Q) (gop a b).
Proof.
  destruct P as [[[x1 y1] z1] t1], Q as [[[x2 y2] z2] t2]. intros (Z1 & X1 & Y1 & T1) (Z2 & X2 & Y2 & T2).
  pose proof (gop_plus a b) as Dp. pose proof (gop_minus a b) as Dm.
  unfold fast_add, rep. rewrite ax_gop, ay_gop. repeat (rewrite !fp_fold || autorewrite with fp). rewrite X1, X2, Y1, Y2, T1, T2.
  set (u1 := ax a) in *. set (v1 := ay a) in *. set (u2 := ax b) in *. set (v2 := ay b) in *.
  clearbody u1 v1 u2 v2. set (w1 := fp z1) in *. set (w2 := fp z2) in *. clearbody w1 w2.
  set (D1 := (1 + fd * _ * _ * _ * _)%fp) in *. set (D2 := (1 - fd * _ * _ * _ * _)%fp) in *.
  set (F := (_ * ((1 + 1) * _) - _)%fp). set (G := (_ * ((1 + 1) * _) + _)%fp).
  replace F with ((1 + 1) * w1 * w2 * D2)%fp by (unfold F, D2; ring).
  replace G with ((1 + 1) * w1 * w2 * D1)%fp by (unfold G, D1; ring).
  clearbody D1 D2. pose proof fp_char2 as H2. split_and!; [fp_nonzero|field; done..].
Qed.

Lemma fast_double_ok P a : rep P a → rep (fast_double P) (gop a a).
Proof.
  destruct P as [[[x1 y1] z1] t1]. intros (Z1 & X1 & Y1 & T1).
  pose proof (gop_plus a a) as Dp. pose proof (gop_minus a a) as Dm.
  pose proof (curve_rule Fp_field fd _ _ (E25519_curve a)) as R.
  unfold fast_double, rep. rewrite ax_gop, ay_gop. rewrite !Z.square_spec.
  repeat (rewrite !fp_fold || autorewrite with fp). rewrite X1, Y1.
  set (u1 := ax a) in *. set (v1 := ay a) in *. clearbody u1 v1. set (w1 := fp z1) in *. clearbody w1.
  assert (fd * u1 * u1 * v1 * v1 = v1 * v1 - u1 * u1 - 1)%fp as R' by exact R. clear R. rewrite R' in Dp, Dm |- *.
  set (D1 := (1 + (v1 * v1 - _ - _))%fp) in *. set (D2 := (1 - (v1 * v1 - _ - _))%fp) in *.
  set (F := ((1 + 1) * _ - _)%fp). set (G := (v1 * w1 * _ - _)%fp) in F |- *.
  assert (F = w1 * w1 * D2)%fp as -> by (unfold F, G, D2; ring).
  assert (G = w1 * w1 * D1)%fp as -> by (unfold G, D1; ring).
  clearbody D1 D2. split_and!; [fp_nonzero|field; done..].
Qed.

Lemma rep_fast_loop s P Q a b : rep P a → rep Q b → rep (fast_loop s P Q) (gop b (gmul (Pos.to_nat s) a)).
Proof.
  revert P Q a b. induction s as [s IH|s IH|]; intros P Q a b Ha Hb; cbn [fast_loop].
  - rewrite <-gmul_xI. apply IH; [by apply fast_double_ok|by apply fast_add_ok].
  - rewrite <-gmul_xO. apply IH; [by apply fast_double_ok|done].
  - change (Pos.to_nat 1) with 1%nat. cbn [gmul]. rewrite gop_zero. by apply fast_add_ok.
Qed.

(** Multiplying the base point by [n] leads to the neutral element. *)
Definition order_check (n : Z) : bool :=
  match n with
  | Zpos s => let '(x, y, z, _) := fast_loop s B (0, 1, 1, 0) in
              (x mod (2 ^ 255 - 19) =? 0) && ((y - z) mod (2 ^ 255 - 19) =? 0)
  | _ => false
  end.

Lemma gzero_rep P a : rep P a → let '(x, y, z, _) := P in x mod p = 0 → (y - z) mod p = 0 → a = gzero.
Proof.
  destruct P as [[[x y] z] t]. intros (Hz & Hx & Hy & _) Ex Ey.
  assert (fp x = 0%fp) as Fx by (by rewrite <-fp_mod, Ex, fp_0).
  assert (fp y - fp z = 0)%fp as Fy by (by rewrite <-fp_sub, <-fp_mod, Ey, fp_0).
  rewrite Hx in Fx. rewrite Hy in Fy.
  apply E25519_eq; unfold ax, ay in *; cbn [gzero ed_group]; unfold pzero; cbn; fold (ax a) (ay a) in *.
  - apply (mul_eq_0 Fp_field (fp z)); [by rewrite <-Fx; ring|done].
  - assert (ay a - 1 = 0)%fp as E by (apply (mul_eq_0 Fp_field (fp z)); [rewrite <-Fy; ring|done]).
    replace (ay a) with (ay a - 1 + 1)%fp by ring. rewrite E. ring.
Qed.

Lemma order_check_sound n : order_check n = true → gmul (Z.to_nat n) base = gzero.
Proof.
  destruct n as [|s|s]; [done| |done]. unfold order_check.
  pose proof (rep_fast_loop s _ _ _ _ rep_B rep_zero) as Hr. rewrite gzero_op in Hr. rewrite Z2Nat.inj_pos.
  generalize dependent (gmul (Pos.to_nat s) base). generalize (fast_loop s B (0, 1, 1, 0)).
  intros P a Hr. apply gzero_rep in Hr. destruct P as [[[x y] z] t]. intros [Ex Ey]%andb_true_iff. zbool.
  rewrite p_val in Hr. auto.
Qed.

Lemma order_check_q : order_check q = true.
Proof. vm_cast_no_check (@eq_refl bool true). Qed.

Lemma q_prime : Z.prime q.
Proof. exact prime_group_order. Qed.

#[global] Opaque q.

Lemma base_order : gmul (Z.to_nat q) base = gzero.
Proof. apply order_check_sound, order_check_q. Qed.
