(* ===== verification/EdCodec.v ===== *)
(** * Compressed points of [_ed25519.py]

    [encode_point] is a function of the affine point alone, [_recover_x] finds the
    point of a given [y] and sign, and so [decode_point] undoes [encode_point]. *)

From S2P Require Import Prelude Primes EdwardsGroup Ed25519 Curve25519.
From Stdlib Require Import Zmod Field.

Add Field fp_field : Fp_field.
#[local] Opaque Zmod.mul Zmod.add Zmod.sub Zmod.opp Zmod.of_Z Zmod.pow powmod.

(** ** Affine coordinates as integers *)

Definition xv (a : E25519) : Z := Zmod.to_Z (ax a).
Definition yv (a : E25519) : Z := Zmod.to_Z (ay a).

Lemma p_range : 2 ^ 254 < p < 2 ^ 255.
Proof. rewrite p_val. lia. Qed.

Lemma fv_range (x : Fp) : 0 ≤ Zmod.to_Z x < p.
Proof. apply Zmod.unsigned_pos_bound. pose proof p_range. lia. Qed.

Lemma fp_fv (x : Fp) : fp (Zmod.to_Z x) = x.
Proof. apply Zmod.of_Z_unsigned. Qed.

Lemma mod_fp_eq z (x : Fp) : fp z = x → z mod p = Zmod.to_Z x.
Proof.
  intros <-. pose proof p_range. pose proof (Z.mod_pos_bound z p).
  apply fp_inj; [lia|apply fv_range|]. by rewrite fp_mod, fp_fv.
Qed.

(** The bytes of the coordinate [v] with the bit [s] on top. *)
Definition ed_bytes (v s : Z) : bytes := le_bytes 32 (v + 2 ^ 255 * s).

Definition enc (a : E25519) : bytes := ed_bytes (yv a) (xv a mod 2).

Lemma encode_rep P a : rep P a → encode_point P = Ok (enc a).
Proof.
  destruct P as [[[x y] z] t]. intros (Hz & Hx & Hy & _). unfold encode_point, _point_compress.
  assert ((x * _inv z) mod p = xv a) as ->.
  { apply mod_fp_eq. autorewrite with fp. rewrite Hx. field. done. }
  assert ((y * _inv z) mod p = yv a) as ->.
  { apply mod_fp_eq. autorewrite with fp. rewrite Hy. field. done. }
  pose proof (fv_range (ay a)) as Hr. fold (yv a) in Hr. pose proof p_range. pose proof (Z.mod_pos_bound (xv a) 2).
  rewrite land_1, Z.lor_comm, lor_shiftl_add by lia. unfold to_bytes_little, enc, ed_bytes.
  replace (_ && _)%bool with true by (symmetry; apply andb_true_iff; change (256 ^ Z.of_nat 32) with (2 ^ 256); lia).
  do 2 f_equal. lia.
Qed.

(** [encode_point] never raises [OverflowError]. *)
Lemma encode_point_total P : ∃ b, encode_point P = Ok b.
Proof.
  destruct P as [[[x y] z] t]. unfold encode_point, _point_compress.
  set (x' := (x * _) mod p). set (y' := (y * _) mod p). pose proof p_range.
  assert (0 ≤ y' < p) as Hy by (apply Z.mod_pos_bound; lia). clearbody x' y'. pose proof (Z.mod_pos_bound x' 2).
  rewrite land_1, Z.lor_comm, lor_shiftl_add by lia. unfold to_bytes_little. eexists.
  replace (_ && _)%bool with true by (symmetry; apply andb_true_iff; change (256 ^ Z.of_nat 32) with (2 ^ 256); lia).
  reflexivity.
Qed.

(** ** Square roots *)

Lemma fp_mul_eq_0 (x y : Fp) : (x * y = 0 → x = 0 ∨ y = 0)%fp.
Proof. apply Zmod.mul_0_iff_prime, p_prime. Qed.

Lemma fp_square_eq (x y : Fp) : (x * x = y * y → x = y ∨ x = - y)%fp.
Proof.
  intros H. destruct (fp_mul_eq_0 (x - y)%fp (x + y)%fp) as [E|E].
  - replace ((x - y) * (x + y))%fp with (x * x - y * y)%fp by ring. rewrite H. ring.
  - left. replace x with (x - y + y)%fp by ring. rewrite E. ring.
  - right. replace x with (x + y - y)%fp by ring. rewrite E. ring.
Qed.

(** [xx ** ((p + 3) // 8)] squares to [xx] or [-xx] when [xx] is a square. *)
Lemma fourth_root (x : Fp) : let w := Zmod.pow (x * x)%fp ((p + 3) / 8) in (w * w = x * x ∨ w * w = - (x * x))%fp.
Proof.
  intros w. destruct (decide (x = 0%fp)) as [->|Hx].
  { left. unfold w. replace (0 * 0)%fp with 0%fp by ring. rewrite Zmod.pow_0_l by (rewrite p_val; by vm_compute). ring. }
  apply fp_square_eq. pose proof (pow_half_square x Hx) as H1. set (xx := (x * x)%fp) in *.
  assert (w * w * (w * w) = Zmod.pow xx ((p + 3) / 8 * 4))%fp as ->.
  { rewrite Zmod.pow_mul_r_nonneg by (rewrite ?p_val; by vm_compute). fold w.
    change 4 with (2 * 2)%Z. rewrite Zmod.pow_mul_r_nonneg, !Zmod.pow_2_r by lia. ring. }
  replace ((p + 3) / 8 * 4)%Z with ((p - 1) / 2 + 2)%Z by (rewrite p_val; by vm_compute).
  rewrite Zmod.pow_add_r_nonneg, H1, Zmod.pow_2_r by (rewrite ?p_val; by vm_compute). ring.
Qed.

(** ** The [x] of a [y] *)

Lemma curve_denom (y : Fp) : (fd * y * y + 1 ≠ 0)%fp.
Proof.
  intros H. destruct (decide (y = 0%fp)) as [->|Hy].
  - apply (F_1_neq_0 Fp_field). rewrite <-H. ring.
  - apply (not_square_quot Fp_field fd fd_nonsquare fi y Hy). rewrite fi_square.
    replace (fd * (y * y))%fp with (fd * y * y + 1 - 1)%fp by ring. rewrite H. ring.
Qed.

Lemma curve_xx (a : E25519) : ((ay a * ay a - 1) / (fd * ay a * ay a + 1) = ax a * ax a)%fp.
Proof.
  pose proof (curve_denom (ay a)). pose proof (curve_rule Fp_field fd _ _ (E25519_curve a)) as R.
  field_simplify_eq; [|done]. ring [R].
Qed.

Lemma p_odd : p mod 2 = 1.
Proof. by rewrite p_val. Qed.

Lemma parity_flip x s : 0 ≤ s < 2 → x mod 2 ≠ s → (p - x) mod 2 = s.
Proof.
  intros Hs Hx. rewrite Zminus_mod, p_odd. pose proof (Z.mod_pos_bound x 2).
  assert (x mod 2 = 1 - s) as -> by lia. replace (1 - (1 - s)) with s by lia. by rewrite Z.mod_small.
Qed.

(** The end of [_recover_x]: a candidate [w], corrected by the root [c] of [-1]. *)
Definition recover_tail (xx w c sign : Z) : result Z :=
  let x := if negb ((w * w - xx) mod p =? 0) then (w * c) mod p else w in
  if negb ((x * x - xx) mod p =? 0) then Raise ValueError
  else Ok (if negb (Z.land x 1 =? sign) then p - x else x).

Lemma root_check (xx x : Z) (X : Fp) : fp xx = (X * X)%fp → (x * x - xx) mod p = 0 ↔ (fp x * fp x = X * X)%fp.
Proof. intros <-. rewrite <-fp_mul, fp_eq. by rewrite <-(Z.cong_iff_0 _ _ p). Qed.

Lemma root_candidate (xx w c : Z) (X : Fp) : 0 ≤ w < p → fp xx = (X * X)%fp → fp c = fi →
  (fp w * fp w = X * X ∨ fp w * fp w = - (X * X))%fp →
  let x := if negb ((w * w - xx) mod p =? 0) then (w * c) mod p else w in
  0 ≤ x < p ∧ (fp x * fp x = X * X)%fp.
Proof.
  intros Hw Hxx Hc F4 x. unfold x. destruct (Z.eqb_spec ((w * w - xx) mod p) 0) as [E|E]; cbn [negb].
  - split; [exact Hw|]. exact (proj1 (root_check xx w X Hxx) E).
  - pose proof (root_check xx w X Hxx) as K. split; [apply Z.mod_pos_bound; lia|].
    destruct F4 as [F4|F4]; [by destruct E; apply K|].
    rewrite fp_mod, fp_mul, Hc. replace (fp w * fi * (fp w * fi))%fp with (fp w * fp w * (fi * fi))%fp by ring.
    rewrite F4, fi_square. ring.
Qed.

Lemma recover_tail_ok (xx w c s : Z) (X : Fp) : 0 ≤ s < 2 → 0 ≤ w < p → fp xx = (X * X)%fp → fp c = fi →
  (fp w * fp w = X * X ∨ fp w * fp w = - (X * X))%fp →
  ∃ r, recover_tail xx w c s = Ok r ∧ (fp r = X ∨ fp r = (- X)%fp) ∧ r mod 2 = s ∧ 0 ≤ r ≤ p.
Proof.
  intros Hs Hw Hxx Hc F4. destruct (root_candidate xx w c X Hw Hxx Hc F4) as [Hx Hx2]. unfold recover_tail.
  set (x := if negb _ then _ else _) in *. clearbody x.
  replace ((x * x - xx) mod p =? 0) with true by (symmetry; apply Z.eqb_eq, (root_check xx x X Hxx), Hx2). cbn [negb].
  rewrite land_1. destruct (Z.eqb_spec (x mod 2) s) as [E|E]; cbn [negb]; (eexists; split; [reflexivity|]).
  - split_and!; [exact (fp_square_eq _ _ Hx2)|lia..].
  - assert (fp (p - x) = - fp x)%fp as ->.
    { assert (fp p = 0%fp) as P0 by (rewrite <-fp_mod, Z.mod_same by lia; apply fp_0). rewrite fp_sub, P0. ring. }
    split_and!; [|by apply parity_flip|lia..].
    apply fp_square_eq in Hx2 as [-> | ->]; [right; reflexivity|left; ring].
Qed.

Lemma recover_x_tail y s : _recover_x y s =
  let xx := ((y * y - 1) * _inv (d * y * y + 1)) mod p in
  if p <=? y then Raise ValueError
  else recover_tail xx (powmod xx ((p + 3) / 8) p) (powmod 2 ((p - 1) / 4) p) s.
Proof. reflexivity. Qed.

(** [_recover_x] finds the point with the given [y], or its opposite: the one whose
    [x] has the given parity. *)
Lemma recover_x_ok (a : E25519) s : 0 ≤ s < 2 →
  ∃ r, _recover_x (yv a) s = Ok r ∧ (fp r = ax a ∨ fp r = (- ax a)%fp) ∧ r mod 2 = s ∧ 0 ≤ r ≤ p.
Proof.
  intros Hs. rewrite recover_x_tail. cbn zeta. pose proof (fv_range (ay a)) as Hy. fold (yv a) in Hy.
  replace (p <=? yv a) with false by lia.
  set (xx := ((yv a * yv a - 1) * _inv _) mod p). assert (fp xx = ax a * ax a)%fp as Hxx.
  { unfold xx. autorewrite with fp. unfold yv. rewrite !fp_fv, <-curve_xx. symmetry. apply (Fdiv_def Fp_field). }
  assert (0 ≤ (p + 3) / 8) as He by (apply Z.div_pos; lia).
  apply recover_tail_ok; [exact Hs| |exact Hxx|reflexivity|].
  - rewrite powmod_ok by done. apply Z.mod_pos_bound. lia.
  - rewrite fp_powmod, Hxx by done. apply fourth_root.
Qed.

(** ** Decoding *)

Lemma le_val_ed_bytes v s : 0 ≤ v < 2 ^ 255 → 0 ≤ s < 2 → le_val (ed_bytes v s) = v + 2 ^ 255 * s.
Proof.
  intros Hv Hs. unfold ed_bytes. rewrite le_val_bytes. apply Z.mod_small. change (256 ^ Z.of_nat 32) with (2 ^ 256). lia.
Qed.

Lemma yv_range a : 0 ≤ yv a < 2 ^ 255.
Proof. pose proof (fv_range (ay a)). pose proof p_range. unfold yv. lia. Qed.

Lemma decompress_ed_bytes v s : 0 ≤ v < 2 ^ 255 → 0 ≤ s < 2 →
  _point_decompress (ed_bytes v s) =
  match _recover_x v s with Raise _ => None | Ok x => Some (x, v, 1, (x * v) mod p) end.
Proof.
  intros Hv Hs. unfold _point_decompress. rewrite le_val_ed_bytes by done. unfold ed_bytes.
  rewrite length_le_bytes. cbn [negb]. change (Z.of_nat 32 =? 32) with true. cbn [negb].
  assert (Z.land (Z.shiftr (v + 2 ^ 255 * s) 255) 1 = s) as ->.
  { rewrite land_1, Z.shiftr_div_pow2, Z.mul_comm, Z.div_add, Z.div_small by lia. by apply Z.mod_small. }
  assert (Z.land (v + 2 ^ 255 * s) (Z.shiftl 1 255 - 1) = v) as ->; [|done].
  change (Z.shiftl 1 255 - 1) with (Z.ones 255). rewrite Z.land_ones, Z.mul_comm, Z_mod_plus_full by lia.
  by apply Z.mod_small.
Qed.

Lemma ax_neg (a : E25519) : ax (gneg a) = (- ax a)%fp.
Proof. unfold ax. cbn [gneg ed_group]. unfold pneg, ed_neg. reflexivity. Qed.

Lemma ay_neg (a : E25519) : ay (gneg a) = ay a.
Proof. unfold ay. cbn [gneg ed_group]. unfold pneg, ed_neg. reflexivity. Qed.

(** Decompressing finds the point with the given [y], or its opposite. *)
Lemma decode_sign (a : E25519) s : 0 ≤ s < 2 →
  ∃ P a', decode_point (ed_bytes (yv a) s) = Some P ∧ rep P a' ∧ (a' = a ∨ a' = gneg a) ∧
          (ax a' = 0%fp ∨ xv a' mod 2 = s) ∧ (s = 0 → xv a' mod 2 = 0).
Proof.
  intros Hs. destruct (recover_x_ok a s Hs) as (r & Hr & Hx & Hm & Hp). unfold decode_point.
  rewrite decompress_ed_bytes, Hr by (auto using yv_range).
  assert (∃ a', fp r = ax a' ∧ ay a' = ay a ∧ (a' = a ∨ a' = gneg a)) as (a' & Ha & Hy & Ha').
  { destruct Hx as [Hx|Hx]; [exists a; auto|exists (gneg a)]. rewrite ax_neg, ay_neg. auto. }
  exists (r, yv a, 1, (r * yv a) mod p), a'. split_and!; [reflexivity| |exact Ha'|..].
  - unfold rep. autorewrite with fp. unfold yv. rewrite fp_fv, Ha, <-Hy.
    split_and!; [apply (F_1_neq_0 Fp_field)|ring..].
  - destruct (decide (r = p)) as [->|Hrp].
    + left. rewrite <-Ha, <-fp_mod, Z.mod_same by (pose proof p_range; lia). apply fp_0.
    + right. unfold xv. rewrite <-(mod_fp_eq _ _ Ha), (Z.mod_small r) by lia. exact Hm.
  - intros ->. unfold xv. rewrite <-(mod_fp_eq _ _ Ha), (Z.mod_small r); [exact Hm|].
    destruct (decide (r = p)) as [->|]; [|lia]. rewrite p_odd in Hm. discriminate.
Qed.

Lemma xv_neg (a : E25519) : ax a ≠ 0%fp → xv (gneg a) mod 2 ≠ xv a mod 2.
Proof.
  intros Ha. unfold xv. rewrite ax_neg, Zmod.to_Z_opp. pose proof (fv_range (ax a)) as Hr.
  assert (Zmod.to_Z (ax a) ≠ 0) as Hn.
  { intros H. apply Ha. rewrite <-(fp_fv (ax a)), H. apply fp_0. }
  assert ((- Zmod.to_Z (ax a)) mod p = p - Zmod.to_Z (ax a)) as ->.
  { symmetry. apply Z.mod_unique with (-1); lia. }
  set (x := Zmod.to_Z (ax a)) in *. clearbody x. intros H. rewrite Zminus_mod, p_odd in H.
  pose proof (Z.mod_pos_bound x 2). assert (x mod 2 = 0 ∨ x mod 2 = 1) as [E|E] by lia; rewrite E in H; discriminate.
Qed.

Lemma neg_ax_0 (a : E25519) : ax a = 0%fp → gneg a = a.
Proof. intros H. apply E25519_eq; [rewrite ax_neg, H; ring|apply ay_neg]. Qed.

(** A point is known by its [y] and the parity of its [x]. *)
Lemma parity_unique (a a' : E25519) : (a' = a ∨ a' = gneg a) → xv a' mod 2 = xv a mod 2 → a' = a.
Proof.
  intros [-> | ->] H; [reflexivity|]. destruct (decide (ax a = 0%fp)) as [Ha|Ha]; [by apply neg_ax_0|].
  by apply xv_neg in Ha.
Qed.

(** [decode_point] undoes [encode_point]. *)
Lemma decode_enc (a : E25519) : ∃ P, decode_point (enc a) = Some P ∧ rep P a.
Proof.
  assert (0 ≤ xv a mod 2 < 2) as Hs by (apply Z.mod_pos_bound; lia).
  destruct (decode_sign a (xv a mod 2) Hs) as (P & a' & HP & HR & Ha & Hx & _). exists P. split; [exact HP|].
  replace a with a'; [exact HR|]. destruct Hx as [Hx|Hx]; [|by apply parity_unique].
  destruct Ha as [-> | ->]; [reflexivity|]. apply neg_ax_0. rewrite ax_neg in Hx.
  replace (ax a) with (- - ax a)%fp by ring. rewrite Hx. ring.
Qed.

(** ** The Montgomery form *)

(** The [u] of an Edwards point, [(1 + y) / (1 - y)] (RFC 7748, 4.1). *)
Definition u_coordinate (P : Point) : Z :=
  let '(x, y, z, t) := P in ((z + y) * _inv (z - y)) mod p.

Lemma ay_1 (a : E25519) : ay a = 1%fp → a = gzero.
Proof.
  intros Hy. pose proof (curve_xx a) as H. rewrite Hy in H. pose proof (curve_denom 1%fp) as Hd.
  assert (ax a * ax a = 0)%fp as Hx by (rewrite <-H; field; exact Hd).
  apply fp_mul_eq_0 in Hx. apply E25519_eq; [by destruct Hx|exact Hy].
Qed.

(** [mont_u_to_ed_y] undoes it, except at the neutral element. *)
Lemma mont_u_coordinate P a : rep P a → a ≠ gzero → mont_u_to_ed_y (u_coordinate P) = yv a.
Proof.
  destruct P as [[[x y] z] t]. intros (Hz & _ & Hy & _) Hn. unfold mont_u_to_ed_y, u_coordinate.
  apply mod_fp_eq. autorewrite with fp. rewrite Hy.
  assert (1 - ay a ≠ 0)%fp as Hd.
  { intros E. apply Hn, ay_1. replace (ay a) with (1 - (1 - ay a))%fp by ring. rewrite E. ring. }
  pose proof fp_char2 as H2. set (v := ay a) in *. set (w := fp z) in *. clearbody v w.
  set (U := ((w + v * w) * Zmod.inv (w - v * w))%fp).
  assert (U - 1 = (1 + 1) * v / (1 - v) ∧ U + 1 = (1 + 1) / (1 - v))%fp as [-> ->].
  { unfold U. replace (w - v * w)%fp with ((1 - v) * w)%fp by ring. split; field; split; assumption. }
  field. split; assumption.
Qed.

(** [point_equal] compares the affine points. *)
Lemma point_equal_rep P Q a b : rep P a → rep Q b → point_equal P Q = bool_decide (a = b).
Proof.
  destruct P as [[[x1 y1] z1] t1], Q as [[[x2 y2] z2] t2]. intros (Z1 & X1 & Y1 & _) (Z2 & X2 & Y2 & _).
  assert (∀ u v w z (s t : Fp), fp z ≠ 0%fp → fp w ≠ 0%fp → fp u = (s * fp z)%fp → fp v = (t * fp w)%fp →
    (u * w - v * z) mod p = 0 ↔ s = t) as K.
  { intros u v w z s t Hz Hw Hu Hv. rewrite <-(Z.cong_iff_0 _ _ p), <-fp_eq, !fp_mul, Hu, Hv. split; [|intros ->; ring].
    intros H. assert ((s - t) * (fp z * fp w) = 0)%fp as E.
    { replace ((s - t) * (fp z * fp w))%fp with (s * fp z * fp w - t * fp w * fp z)%fp by ring. rewrite H. ring. }
    destruct (fp_mul_eq_0 _ _ E) as [E'|[E'|E']%fp_mul_eq_0]; [|contradiction..].
    replace s with (s - t + t)%fp by ring. rewrite E'. ring. }
  unfold point_equal, _point_equal. pose proof (K _ _ _ _ _ _ Z1 Z2 X1 X2) as Kx. pose proof (K _ _ _ _ _ _ Z1 Z2 Y1 Y2) as Ky.
  symmetry. destruct (Z.eqb_spec ((x1 * z2 - x2 * z1) mod p) 0) as [Ex|Ex]; cbn [negb].
  - destruct (Z.eqb_spec ((y1 * z2 - y2 * z1) mod p) 0) as [Ey|Ey]; cbn [negb].
    + apply bool_decide_true, E25519_eq; [by apply Kx|by apply Ky].
    + apply bool_decide_false. intros ->. apply Ey, Ky. reflexivity.
  - apply bool_decide_false. intros ->. apply Ex, Kx. reflexivity.
Qed.
