(* ===== verification/Xeddsa.v ===== *)
(** * XEdDSA ([src/src/pywhats/signal/experimental/keys.py], [_ed25519.py])

    [xeddsa_sign] and [xeddsa_verify] as the source has them, on the executable curve
    arithmetic and the executable SHA-512. A signature verifies under the X25519 public
    key of its private key, and so the pair implements the interface [XEdDSA] that the
    session protocols use. *)

From S2P Require Import Prelude Sha512 Crypto SignalKeys EdwardsGroup Primes Ed25519 Curve25519 EdCodec.

Definition _XEDDSA_HASH1_PREFIX : bytes := mkb 0xFE :: replicate 31 (mkb 0xFF).

(** [b[i] = f(b[i])] on a [bytearray]. *)
Definition byte_update (i : nat) (f : Z → Z) (b : bytes) : result bytes :=
  x ← some_or (b !! i) IndexError;
  Ok (<[i := mkb (f (b2z x))]> b).

Definition _calc_ed_keypair (k_scalar : Z) : result (bytes * Z) :=
  E_enc ← encode_point (scalar_mult_base k_scalar);
  e31 ← some_or (E_enc !! 31%nat) IndexError;
  let sign_bit := Z.land (Z.shiftr (b2z e31) 7) 1 in
  let a := if sign_bit =? 1 then (- k_scalar) mod q else k_scalar mod q in
  A_bytes ← byte_update 31 (λ x, Z.land x 0x7F) E_enc;
  Ok (A_bytes, a).

(** [random_z] is the caller's, or the 64 bytes drawn when there is none. *)
Definition xeddsa_sign (x25519_private message random_z : bytes) : result bytes :=
  if negb (Z.of_nat (length x25519_private) =? 32) then Raise SignalCryptoError
  else if negb (Z.of_nat (length random_z) =? 64) then Raise SignalCryptoError
  else
    k_scalar ← clamp_scalar x25519_private;
    kp ← _calc_ed_keypair k_scalar;
    let '(A, a) := kp in
    a_bytes ← to_bytes_little 32 a;
    let r := le_val (sha512 (_XEDDSA_HASH1_PREFIX ++ a_bytes ++ message ++ random_z)) mod q in
    R_enc ← encode_point (scalar_mult_base r);
    let h := le_val (sha512 (R_enc ++ A ++ message)) mod q in
    let s := (r + h * a) mod q in
    s_bytes ← to_bytes_little 32 s;
    Ok (R_enc ++ s_bytes).

Definition xeddsa_verify (x25519_public message signature : bytes) : result bool :=
  if negb (Z.of_nat (length x25519_public) =? 32) || negb (Z.of_nat (length signature) =? 64) then Ok false
  else
    let u := Z.land (le_val x25519_public) (Z.shiftl 1 255 - 1) in
    if p <=? u then Ok false
    else
      let R_bytes := take 32 signature in
      let s_bytes := drop 32 signature in
      s31 ← some_or (s_bytes !! 31%nat) IndexError;
      let a_sign_bit := Z.land (Z.shiftr (b2z s31) 7) 1 in
      s_bytes ← byte_update 31 (λ x, Z.land x 0x7F) s_bytes;
      s31 ← some_or (s_bytes !! 31%nat) IndexError;
      if negb (Z.land (b2z s31) 0xE0 =? 0) then Ok false
      else
        let s := le_val s_bytes mod q in
        let y := mont_u_to_ed_y u in
        A_bytes ← to_bytes_little 32 y;
        A_bytes ← byte_update 31 (λ x, Z.lor x (Z.shiftl a_sign_bit 7)) A_bytes;
        match decode_point A_bytes with
        | None => Ok false
        | Some A =>
            match decode_point R_bytes with
            | None => Ok false
            | Some _ =>
                let h := le_val (sha512 (R_bytes ++ A_bytes ++ message)) mod q in
                let sB := scalar_mult_base s in
                let hA := _scalar_mult h A in
                let Rcheck := point_add sB (point_negate hA) in
                R_check ← encode_point Rcheck;
                Ok (bool_decide (R_bytes = R_check))
            end
        end.

(** ** Bytes of a coordinate *)

Lemma le_bytes_snoc n z : le_bytes (S n) z = le_bytes n z ++ [mkb (z / 256 ^ Z.of_nat n)].
Proof.
  revert z. induction n as [|n IH]; intros z; [cbn; by rewrite Z.div_1_r|].
  change (le_bytes (S (S n)) z) with (mkb z :: le_bytes (S n) (z / 256)). rewrite IH.
  cbn [le_bytes app]. do 4 f_equal. rewrite Z.div_div by lia. f_equal. rewrite Nat2Z.inj_succ, Z.pow_succ_r; lia.
Qed.

Lemma le_bytes_mod n z : le_bytes n (z mod 256 ^ Z.of_nat n) = le_bytes n z.
Proof. rewrite <-le_val_bytes. rewrite <-(length_le_bytes n z) at 1. apply le_bytes_val. Qed.

#[local] Opaque le_bytes.

Lemma ed_bytes_split v s : 0 ≤ s < 2 →
  ed_bytes v s = le_bytes 31 v ++ [mkb (v / 2 ^ 248 + 128 * s)].
Proof.
  intros Hs. unfold ed_bytes. rewrite le_bytes_snoc. change (256 ^ Z.of_nat 31) with (2 ^ 248). f_equal.
  - rewrite <-le_bytes_mod, <-(le_bytes_mod 31 v). f_equal. change (256 ^ Z.of_nat 31) with (2 ^ 248).
    replace (v + 2 ^ 255 * s) with (v + 128 * s * 2 ^ 248) by lia. apply Z_mod_plus_full.
  - do 2 f_equal. replace (v + 2 ^ 255 * s) with (v + 128 * s * 2 ^ 248) by lia. apply Z.div_add. lia.
Qed.

Lemma byte_update_snoc r b f : length r = 31%nat → byte_update 31 f (r ++ [b]) = Ok (r ++ [mkb (f (b2z b))]).
Proof.
  intros <-. unfold byte_update. rewrite list_lookup_middle by done. cbn. by rewrite insert_app_r_alt, Nat.sub_diag by done.
Qed.

Lemma byte_update_total i f b : (i < length b)%nat →
  ∃ x b', b !! i = Some x ∧ byte_update i f b = Ok b' ∧ length b' = length b.
Proof.
  intros Hi. apply lookup_lt_is_Some in Hi as [x Hx]. exists x. eexists. unfold byte_update. rewrite Hx.
  split_and!; [reflexivity..|apply length_insert].
Qed.

Section Top.
Context (v s : Z) (Hv : 0 ≤ v < 2 ^ 255) (Hs : 0 ≤ s < 2).

Lemma top_byte : ed_bytes v s !! 31%nat = Some (mkb (v / 2 ^ 248 + 128 * s)).
Proof. rewrite ed_bytes_split by done. apply list_lookup_middle. by rewrite length_le_bytes. Qed.

Lemma top_range : 0 ≤ v / 2 ^ 248 < 128.
Proof. split; [apply Z.div_pos; lia|apply Z.div_lt_upper_bound; lia]. Qed.

Lemma top_val : b2z (mkb (v / 2 ^ 248 + 128 * s)) = v / 2 ^ 248 + 128 * s.
Proof. pose proof top_range. rewrite b2z_mkb. apply Z.mod_small. lia. Qed.

Lemma top_sign : Z.land (Z.shiftr (b2z (mkb (v / 2 ^ 248 + 128 * s))) 7) 1 = s.
Proof.
  pose proof top_range. rewrite top_val, land_1, Z.shiftr_div_pow2 by lia. change (2 ^ 7) with 128.
  rewrite (Z.mul_comm 128), Z.div_add, Z.div_small by lia. by apply Z.mod_small.
Qed.

Lemma top_clear : byte_update 31 (λ x, Z.land x 0x7F) (ed_bytes v s) = Ok (ed_bytes v 0).
Proof.
  pose proof top_range. rewrite (ed_bytes_split v s), (ed_bytes_split v 0), byte_update_snoc by (rewrite ?length_le_bytes; lia).
  do 4 f_equal. rewrite top_val, land_7F, (Z.mul_comm 128), Z_mod_plus_full, Z.mod_small by lia. lia.
Qed.

Lemma top_set : byte_update 31 (λ x, Z.lor x (Z.shiftl s 7)) (ed_bytes v 0) = Ok (ed_bytes v s).
Proof.
  pose proof top_range. rewrite (ed_bytes_split v s), (ed_bytes_split v 0), byte_update_snoc by (rewrite ?length_le_bytes; lia).
  do 4 f_equal. rewrite b2z_mkb, Z.mod_small, Z.lor_comm, lor_shiftl_add; lia.
Qed.
End Top.

(** ** Clamped scalars *)

Lemma byte_forall (f : Z → bool) : forallb f (seqZ 0 256) = true → ∀ b, f (b2z b) = true.
Proof.
  intros H b. rewrite forallb_forall in H. apply H, list_elem_of_In, elem_of_seqZ. pose proof (b2z_range b). lia.
Qed.

Lemma clamp_low b : Z.land (b2z b) 248 mod 8 = 0 ∧ 0 ≤ Z.land (b2z b) 248 < 256.
Proof.
  pose proof (byte_forall (λ z, (Z.land z 248 mod 8 =? 0) && (0 <=? Z.land z 248) && (Z.land z 248 <? 256))%bool) as H.
  specialize (H ltac:(vm_compute; reflexivity) b). cbn beta in H. apply andb_true_iff in H as [[H1 H2]%andb_true_iff H3]. zbool. lia.
Qed.

Lemma clamp_high b : 64 ≤ Z.lor (Z.land (b2z b) 127) 64 < 128.
Proof.
  pose proof (byte_forall (λ z, (64 <=? Z.lor (Z.land z 127) 64) && (Z.lor (Z.land z 127) 64 <? 128))%bool) as H.
  specialize (H ltac:(vm_compute; reflexivity) b). cbn beta in H. apply andb_true_iff in H as [H1 H2]. zbool. lia.
Qed.

Lemma le_val_snoc l b : le_val (l ++ [b]) = le_val l + 256 ^ Z.of_nat (length l) * b2z b.
Proof.
  induction l as [|c l IH]; cbn [app le_val length]; [lia|]. rewrite IH, Nat2Z.inj_succ, Z.pow_succ_r by lia. ring.
Qed.

(** [clamp_scalar]: a multiple of 8 with bit 254 set and bit 255 clear. *)
Lemma clamp_scalar_ok k : length k = 32%nat →
  ∃ j, clamp_scalar k = Ok (8 * j) ∧ 2 ^ 251 ≤ j < 2 ^ 252.
Proof.
  intros Hk. destruct k as [|b0 k]; [done|]. destruct k as [|b31 k _] using rev_ind; [done|].
  cbn in Hk. rewrite length_app in Hk. cbn in Hk. assert (length k = 30%nat) as Hk' by lia.
  unfold clamp_scalar. change ((b0 :: k ++ [b31]) !! 31%nat) with ((k ++ [b31]) !! 30%nat).
  rewrite (list_lookup_middle k [] b31 30) by done. cbn -[le_val insert]. 
  change (<[0%nat:=?x]> (b0 :: ?l)) with (x :: l). change (<[31%nat:=?x]> (?y :: ?l)) with (y :: <[30%nat:=x]> l).
  rewrite insert_app_r_alt, Hk', Nat.sub_diag by lia. change (<[0%nat:=?x]> [b31]) with [x].
  cbn [le_val]. rewrite le_val_snoc, Hk', !b2z_mkb. change (256 ^ Z.of_nat 30) with (2 ^ 240).
  pose proof (clamp_low b0) as [H0 H0']. pose proof (clamp_high b31) as H31. pose proof (le_val_range k) as Hr.
  rewrite Hk' in Hr. change (256 ^ Z.of_nat 30) with (2 ^ 240) in Hr.
  rewrite !(Z.mod_small (_ _)) by lia. set (x := Z.land _ 248) in *. set (y := Z.lor _ 64) in *. clearbody x y.
  exists (x / 8 + 32 * (le_val k + 2 ^ 240 * y)). split; [f_equal|]; pose proof (Z.div_mod x 8); nia.
Qed.

(** ** Multiples of the base point *)

Definition bmul (s : Z) : E25519 := gmul (Z.to_nat (s mod q)) base.

Lemma q_range : 2 ^ 252 < q < 2 ^ 253.
Proof. by vm_compute. Qed.

Lemma rep_scalar_mult_base s : rep (scalar_mult_base s) (bmul s).
Proof. apply rep_scalar_mult, rep_B. Qed.

Lemma gmul_base n : gmul n base = bmul (Z.of_nat n).
Proof.
  unfold bmul. pose proof q_range. rewrite Z2Nat.inj_mod, Nat2Z.id by lia. symmetry. apply gmul_mod; [lia|].
  apply base_order.
Qed.

Lemma bmul_mod s : bmul (s mod q) = bmul s.
Proof. unfold bmul. by rewrite Zmod_mod. Qed.

Lemma bmul_add s t : bmul (s + t) = gop (bmul s) (bmul t).
Proof.
  unfold bmul at 2 3. rewrite <-gmul_add, gmul_base. unfold bmul. f_equal. pose proof q_range.
  pose proof (Z.mod_pos_bound s q). pose proof (Z.mod_pos_bound t q).
  rewrite Nat2Z.inj_add, !Z2Nat.id by lia. by rewrite <-Z.add_mod by lia.
Qed.

Lemma bmul_mul s t : 0 ≤ s → bmul (s * t) = gmul (Z.to_nat s) (bmul t).
Proof.
  intros Hs. unfold bmul at 2. rewrite <-gmul_mul, gmul_base. unfold bmul. f_equal. pose proof q_range.
  pose proof (Z.mod_pos_bound t q). rewrite Nat2Z.inj_mul, !Z2Nat.id by lia. by rewrite Z.mul_mod_idemp_r by lia.
Qed.

Lemma bmul_opp s : bmul (- s) = gneg (bmul s).
Proof.
  apply gneg_unique. rewrite <-bmul_add, Z.add_opp_diag_r. unfold bmul. by rewrite Z.mod_0_l by (pose proof q_range; lia).
Qed.

Lemma base_nonzero : base ≠ gzero.
Proof.
  intros H. apply (f_equal ay) in H.
  assert (fp _By = fp 1) as E by (rewrite fp_1; exact H). apply fp_eq in E. vm_compute in E. discriminate.
Qed.

(** The multiple by a scalar that is not a multiple of [q] is not the neutral element. *)
Lemma bmul_nonzero s : ¬ (q | s) → bmul s ≠ gzero.
Proof.
  intros Hs H. apply base_nonzero. pose proof q_range as Hq.
  destruct (Z.gcd_bezout q s 1) as (u & v & E); [by apply (Z.coprime_prime_l q s q_prime)|].
  assert (bmul (v mod q * s) = gzero) as H0 by (rewrite bmul_mul, H, gmul_zero by (apply Z.mod_pos_bound; lia); done).
  rewrite <-bmul_mod, Z.mul_mod_idemp_l in H0 by lia. replace (v * s) with (1 + - u * q) in H0 by lia.
  rewrite Z_mod_plus_full, bmul_mod in H0. rewrite <-H0. change 1 with (Z.of_nat 1). rewrite <-gmul_base. cbn [gmul].
  by rewrite gop_zero.
Qed.

Lemma bmul_inj s t : bmul s = bmul t ↔ s mod q = t mod q.
Proof.
  pose proof q_range as Hq. split; [|intros H; unfold bmul; by rewrite H].
  intros H. apply Z.cong_iff_0. destruct (decide ((s - t) mod q = 0)) as [|Hn]; [done|].
  destruct (bmul_nonzero (s - t)); [by rewrite <-Z.mod_divide by lia|].
  unfold Z.sub. by rewrite bmul_add, bmul_opp, H, gop_neg.
Qed.

Lemma bmul_clamped j : 2 ^ 251 ≤ j < 2 ^ 252 → bmul (8 * j) ≠ gzero.
Proof.
  intros Hj. pose proof q_range as Hq. apply bmul_nonzero.
  intros [H|H]%(Z.divide_prime_mul _ _ _ q_prime); apply Z.divide_pos_le in H; lia.
Qed.

(** ** Signing *)

Lemma gneg_twist (e a b : E25519) : (a = e ∨ a = gneg e) → (b = e ∨ b = gneg e) → b = a ∨ b = gneg a.
Proof. intros [-> | ->] [-> | ->]; rewrite ?gneg_neg; auto. Qed.

Lemma calc_ed_keypair_ok k :
  ∃ a, _calc_ed_keypair k = Ok (ed_bytes (yv (bmul k)) 0, a) ∧ 0 ≤ a < q ∧
       (bmul a = bmul k ∨ bmul a = gneg (bmul k)) ∧ xv (bmul a) mod 2 = 0.
Proof.
  unfold _calc_ed_keypair. rewrite (encode_rep _ _ (rep_scalar_mult_base k)). cbn -[ed_bytes byte_update].
  pose proof q_range. set (E := bmul k). unfold enc. pose proof (yv_range E) as Hy.
  assert (0 ≤ xv E mod 2 < 2) as Hs by (apply Z.mod_pos_bound; lia).
  rewrite top_byte by done. cbn -[ed_bytes byte_update Z.land Z.shiftr]. rewrite top_sign, top_clear by done.
  cbn -[ed_bytes Z.land Z.shiftr]. eexists. split; [reflexivity|].
  destruct (Z.eqb_spec (xv E mod 2) 1) as [E1|E1].
  - rewrite bmul_mod, bmul_opp. fold E. split_and!; [apply Z.mod_pos_bound; lia..|by right|].
    assert (ax E ≠ 0%fp) as Hx.
    { intros H0. unfold xv in E1. rewrite H0 in E1. vm_compute in E1. discriminate. }
    pose proof (xv_neg E Hx). pose proof (Z.mod_pos_bound (xv (gneg E)) 2). lia.
  - rewrite bmul_mod. fold E. split_and!; [apply Z.mod_pos_bound; lia..|by left|lia].
Qed.

Lemma top_small v : 0 ≤ v < 2 ^ 253 → Z.land (v / 2 ^ 248) 0xE0 = 0.
Proof.
  intros Hv. assert (0 ≤ v / 2 ^ 248 < 32) as H by (split; [apply Z.div_pos; lia|apply Z.div_lt_upper_bound; lia]).
  set (x := v / _) in *. clearbody x. rewrite <-(Z.mod_small x (2 ^ 5)), <-(Z.land_ones x 5), <-Z.land_assoc by lia.
  change (Z.land (Z.ones 5) 0xE0) with 0. apply Z.land_0_r.
Qed.

Lemma length_ed_bytes v s : length (ed_bytes v s) = 32%nat.
Proof. apply length_le_bytes. Qed.

Lemma length_enc e : length (enc e) = 32%nat.
Proof. apply length_le_bytes. Qed.

Lemma mont_range u : 0 ≤ mont_u_to_ed_y u < p.
Proof. apply Z.mod_pos_bound. pose proof p_range. lia. Qed.

Lemma to_bytes_32 x : 0 ≤ x < 2 ^ 255 → to_bytes_little 32 x = Ok (ed_bytes x 0).
Proof.
  intros Hx. unfold to_bytes_little, ed_bytes. change (256 ^ Z.of_nat 32) with (2 ^ 256).
  replace (_ && _)%bool with true by (symmetry; apply andb_true_iff; lia). do 2 f_equal. lia.
Qed.

#[local] Opaque le_val ed_bytes mont_u_to_ed_y decode_point encode_point sha512 scalar_mult_base _scalar_mult enc
  byte_update to_bytes_little Z.land Z.shiftr Z.lor Z.shiftl point_add point_negate.

Lemma bind_Ok {A B} (a : A) (f : A → result B) : (Ok a ≫= f) = f a.
Proof. reflexivity. Qed.

(** The signature of the clamped scalar [k]: a commitment and a scalar that solves the equation. *)
Lemma xeddsa_sign_shape sk m z : length sk = 32%nat → length z = 64%nat →
  ∃ j a r, clamp_scalar sk = Ok (8 * j) ∧ 2 ^ 251 ≤ j < 2 ^ 252 ∧ 0 ≤ a < q ∧
    (bmul a = bmul (8 * j) ∨ bmul a = gneg (bmul (8 * j))) ∧ xv (bmul a) mod 2 = 0 ∧
    let h := le_val (sha512 (enc (bmul r) ++ ed_bytes (yv (bmul (8 * j))) 0 ++ m)) mod q in
    xeddsa_sign sk m z = Ok (enc (bmul r) ++ ed_bytes ((r + h * a) mod q) 0).
Proof.
  intros Hsk Hz. unfold xeddsa_sign. rewrite Hsk, Hz. pose proof q_range as Hq.
  change (Z.of_nat 32 =? 32) with true. change (Z.of_nat 64 =? 64) with true. cbn [negb].
  destruct (clamp_scalar_ok sk Hsk) as (j & Hj & Hjr). rewrite Hj.
  destruct (calc_ed_keypair_ok (8 * j)) as (a & Ha & Hr & He & Hp).
  rewrite bind_Ok, Ha, bind_Ok, to_bytes_32, bind_Ok by lia.
  set (r := le_val _ mod q). rewrite (encode_rep _ _ (rep_scalar_mult_base r)), bind_Ok.
  set (s := (r + _) mod q). assert (0 ≤ s < q) as Hs by (apply Z.mod_pos_bound; lia).
  rewrite to_bytes_32, bind_Ok by lia. exists j, a, r. split_and!; first [assumption|lia|reflexivity].
Qed.

(** ** Verifying *)

(** The check of a signature that solves the equation. *)
Lemma verify_equation (A : Point) (a r h s : Z) : 0 ≤ h → s = (r + h * a) mod q → rep A (bmul a) →
  encode_point (point_add (scalar_mult_base s) (point_negate (_scalar_mult h A))) = Ok (enc (bmul r)).
Proof.
  intros Hh -> HA. erewrite encode_rep; [reflexivity|].
  replace (bmul r) with (gop (bmul ((r + h * a) mod q)) (gneg (gmul (Z.to_nat h) (bmul a)))).
  - apply rep_add; [apply rep_scalar_mult_base|]. by apply rep_neg, rep_scalar_mult.
  - rewrite bmul_mod, bmul_add, bmul_mul, <-gop_assoc, gop_neg, gop_zero by done. reflexivity.
Qed.

Lemma xeddsa_verify_accepts (E : E25519) (P : Point) (a r : Z) m :
  rep P E → E ≠ gzero → 0 ≤ a < q → (bmul a = E ∨ bmul a = gneg E) → xv (bmul a) mod 2 = 0 →
  let h := le_val (sha512 (enc (bmul r) ++ ed_bytes (yv E) 0 ++ m)) mod q in
  xeddsa_verify (le_bytes 32 (u_coordinate P)) m (enc (bmul r) ++ ed_bytes ((r + h * a) mod q) 0) = Ok true.
Proof.
  intros HP HE Ha HaE Hpar h. pose proof q_range as Hq. pose proof p_range as Hp.
  assert (0 ≤ h < q) as Hh by (apply Z.mod_pos_bound; lia). unfold xeddsa_verify.
  pose proof (length_enc (bmul r)) as HR.
  rewrite length_app, HR, length_ed_bytes, length_le_bytes. change (negb (Z.of_nat 32 =? 32) || negb (Z.of_nat (32 + 32) =? 64))%bool with false.
  cbv iota. assert (0 ≤ u_coordinate P < p) as Hu by (destruct P as [[[? ?] ?] ?]; apply Z.mod_pos_bound; lia).
  assert (Z.land (le_val (le_bytes 32 (u_coordinate P))) (Z.shiftl 1 255 - 1) = u_coordinate P) as ->.
  { change (Z.shiftl 1 255 - 1) with (Z.ones 255). rewrite le_val_bytes, Z.land_ones by lia.
    change (256 ^ Z.of_nat 32) with (2 ^ 256). rewrite !Z.mod_small; lia. }
  replace (p <=? u_coordinate P) with false by lia. rewrite take_app_length', drop_app_length' by done.
  set (s := (r + h * a) mod q). assert (0 ≤ s < q) as Hs by (apply Z.mod_pos_bound; lia).
  rewrite top_byte by lia. cbn. rewrite top_sign, top_clear by lia. cbn. rewrite top_byte by lia. cbn.
  pose proof (top_val s 0 ltac:(lia) ltac:(lia)) as Ht. rewrite Z.mul_0_r, Z.add_0_r in Ht |- *.
  rewrite Ht, top_small, (mont_u_coordinate P E HP HE) by lia. change (negb (0 =? 0)) with false. cbv iota.
  pose proof (yv_range E). rewrite to_bytes_32 by done. rbind. rewrite top_set by lia. rbind.
  destruct (decode_sign E 0) as (A & a' & -> & HA & Ha' & _ & Hx); [lia|].
  assert (a' = bmul a) as ->.
  { apply parity_unique; [by apply (gneg_twist E)|]. rewrite Hpar. by apply Hx. }
  destruct (decode_enc (bmul r)) as (R & -> & _).
  rewrite le_val_ed_bytes, Z.mul_0_r, Z.add_0_r, (Z.mod_small s) by lia.
  fold h. rewrite (verify_equation A a r h s); [|lia|reflexivity|done]. rbind. by rewrite bool_decide_true.
Qed.

(** No signature makes [xeddsa_verify] raise. *)
Lemma xeddsa_verify_total pub m sig : ∃ b, xeddsa_verify pub m sig = Ok b.
Proof.
  unfold xeddsa_verify. destruct (_ || _)%bool eqn:El; [by exists false|]. apply orb_false_iff in El as [_ El].
  destruct (Z.eqb_spec (Z.of_nat (length sig)) 64) as [Hl|]; [|done].
  destruct (p <=? _); [by exists false|]. rbind.
  destruct (byte_update_total 31 (λ x, Z.land x 0x7F) (drop 32 sig)) as (x & b & -> & -> & Hb); [rewrite length_drop; lia|].
  rbind. destruct (byte_update_total 31 (λ x, x) b) as (y & b' & -> & _ & _); [rewrite Hb, length_drop; lia|]. rbind.
  destruct (negb (Z.land _ 0xE0 =? 0)); [by exists false|]. set (v := mont_u_to_ed_y _).
  assert (0 ≤ v < p) as Hv by exact (mont_range _).
  rewrite to_bytes_32 by (pose proof p_range; lia). rbind.
  destruct (byte_update_total 31 (λ z, Z.lor z (Z.shiftl (Z.land (Z.shiftr (b2z x) 7) 1) 7)) (ed_bytes v 0))
    as (w & c & _ & -> & _); [rewrite length_ed_bytes; lia|]. rbind.
  destruct (decode_point c) as [A|]; [|by exists false]. destruct (decode_point (take 32 sig)); [|by exists false].
  edestruct (encode_point_total) as (R & HR). rewrite HR. rbind. by eexists.
Qed.

(** ** The interface *)

(** The public key of a private key is the [u] of a multiple of the base point (RFC 7748,
    sections 4.1 and 5). *)
Class X25519Curve (X : X25519) : Prop :=
  x25519_public_curve sk k : length sk = 32%nat → clamp_scalar sk = Ok k →
    x25519_public sk = le_bytes 32 (u_coordinate (scalar_mult_base k)).

(** An X25519 whose public keys are computed on the curve. *)
Definition curve_x25519 : X25519 := {|
  x25519_public := λ sk, le_bytes 32 (u_coordinate (scalar_mult_base (ok_or 0 (clamp_scalar sk))));
  x25519_exchange := λ _ _, Raise ValueError
|}.

#[global] Instance curve_x25519_curve : X25519Curve curve_x25519.
Proof. intros sk k Hsk Hk. cbn -[le_bytes]. by rewrite Hk. Qed.

Definition ed_xeddsa : XEdDSA := {|
  SignalKeys.xeddsa_sign := xeddsa_sign;
  SignalKeys.xeddsa_verify := λ pub m s, ok_or false (xeddsa_verify pub m s)
|}.

Section Interface.
Context {X : X25519} {XC : X25519Curve X}.

Lemma sign_then_verify sk m z : length sk = 32%nat → length z = 64%nat →
  ∃ s, xeddsa_sign sk m z = Ok s ∧ length s = 64%nat ∧ xeddsa_verify (x25519_public sk) m s = Ok true.
Proof.
  intros Hsk Hz. destruct (xeddsa_sign_shape sk m z Hsk Hz) as (j & a & r & Hj & Hjr & Ha & Hae & Hp & Hs).
  rewrite Hs. eexists. split; [reflexivity|]. split; [by rewrite length_app, length_enc, length_ed_bytes|].
  rewrite (x25519_public_curve _ _ Hsk Hj). apply xeddsa_verify_accepts; try assumption.
  - apply rep_scalar_mult_base.
  - by apply bmul_clamped.
Qed.

Lemma xeddsa_sign_lengths sk m z s : xeddsa_sign sk m z = Ok s → length sk = 32%nat ∧ length z = 64%nat.
Proof.
  unfold xeddsa_sign. destruct (Z.eqb_spec (Z.of_nat (length sk)) 32); [|done].
  destruct (Z.eqb_spec (Z.of_nat (length z)) 64); [|done]. lia.
Qed.

#[global] Instance ed_xeddsa_laws : XEdDSALaws X ed_xeddsa.
Proof.
  split; cbn [SignalKeys.xeddsa_sign SignalKeys.xeddsa_verify ed_xeddsa].
  - intros k m z s H. destruct (xeddsa_sign_lengths _ _ _ _ H) as [Hk Hz].
    destruct (sign_then_verify k m z Hk Hz) as (s' & Hs & Hl & _). congruence.
  - intros k m z s H. destruct (xeddsa_sign_lengths _ _ _ _ H) as [Hk Hz].
    destruct (sign_then_verify k m z Hk Hz) as (s' & Hs & _ & Hv). assert (s = s') as -> by congruence. by rewrite Hv.
  - intros k m z Hk Hz. destruct (sign_then_verify k m z Hk Hz) as (s & -> & _). done.
Qed.

(** The points that [scalar_mult_base] computes form a group: the scalars count
    modulo [q], [point_add] adds them, [point_negate] negates them, two are [point_equal]
    exactly when their scalars agree modulo [q], and compressing and decompressing a
    point gives an equal one. *)
Theorem base_points_group s t :
  point_equal (scalar_mult_base s) (scalar_mult_base t) = bool_decide (s mod q = t mod q) ∧
  point_equal (point_add (scalar_mult_base s) (scalar_mult_base t)) (scalar_mult_base (s + t)) = true ∧
  point_equal (point_negate (scalar_mult_base s)) (scalar_mult_base (- s)) = true ∧
  ∃ b P, encode_point (scalar_mult_base s) = Ok b ∧ decode_point b = Some P ∧
         point_equal P (scalar_mult_base s) = true.
Proof.
  pose proof (rep_scalar_mult_base s) as Hs. pose proof (rep_scalar_mult_base t) as Ht. split_and!.
  - rewrite (point_equal_rep _ _ _ _ Hs Ht). apply bool_decide_ext, bmul_inj.
  - rewrite (point_equal_rep _ _ _ _ (rep_add _ _ _ _ Hs Ht) (rep_scalar_mult_base _)).
    by apply bool_decide_true; rewrite bmul_add.
  - rewrite (point_equal_rep _ _ _ _ (rep_neg _ _ Hs) (rep_scalar_mult_base _)).
    by apply bool_decide_true; rewrite bmul_opp.
  - destruct (decode_enc (bmul s)) as (P & HP & HR). exists (enc (bmul s)), P.
    split_and!; [by apply encode_rep|exact HP|]. rewrite (point_equal_rep _ _ _ _ HR Hs). by apply bool_decide_true.
Qed.

(** C31: a signature that [xeddsa_sign] makes with a 32-byte X25519 private key has 64
    bytes, and [xeddsa_verify] accepts it, for the same message, under the X25519 public
    key of that private key. *)
Theorem xeddsa_signature_verifies sk m z : length sk = 32%nat → length z = 64%nat →
  ∃ s, xeddsa_sign sk m z = Ok s ∧ length s = 64%nat ∧ xeddsa_verify (x25519_public sk) m s = Ok true.
Proof. apply sign_then_verify. Qed.
End Interface.

Lemma xeddsa_signature_verifies_witness :
  ∃ s, xeddsa_sign (replicate 32 (mkb 7)) [mkb 5; mkb 1] (replicate 64 (mkb 9)) = Ok s ∧ length s = 64%nat ∧
    xeddsa_verify (x25519_public (X25519 := curve_x25519) (replicate 32 (mkb 7))) [mkb 5; mkb 1] s = Ok true.
Proof. apply (xeddsa_signature_verifies (X := curve_x25519)); reflexivity. Defined.
