(* ===== verification/Noise.v ===== *)
(** * The Noise XX handshake ([src/src/pywhats/socket/noise.py], [socket/crypto.py])

    The cipher, symmetric and handshake states of the client, its driver and the
    encrypted transport, with the responder of the repository's own fake server
    ([src/tests/fakeserver/noise.py]), which subclasses the same handshake state. A
    coroutine that talks to a frame channel is a [proc]. *)

From S2P Require Import Prelude PyStr Sha256 Crypto.

(** ** [socket/crypto.py] *)

Definition DHLEN : nat := 32.
Definition HASHLEN : nat := 32.

Section Primitives.
Context {X : X25519} {A : Aead}.

(** [load_private_key(priv).public_key()], raw *)
Definition private_to_public (priv : bytes) : result bytes :=
  if negb (Z.of_nat (length priv) =? Z.of_nat DHLEN) then Raise ValueError else Ok (x25519_public priv).

Definition dh (priv pub : bytes) : result bytes :=
  if negb (Z.of_nat (length priv) =? Z.of_nat DHLEN) then Raise ValueError
  else if negb (Z.of_nat (length pub) =? Z.of_nat DHLEN) then Raise ValueError
  else x25519_exchange priv pub.

Definition hash_sha256 (data : bytes) : bytes := sha256 data.

Definition hkdf (chaining_key input_key_material : bytes) (num_outputs : Z) : result (list bytes) :=
  if negb ((num_outputs =? 2) || (num_outputs =? 3)) then Raise ValueError
  else
    let temp_key := hmac_sha256 chaining_key input_key_material in
    let output1 := hmac_sha256 temp_key [mkb 1] in
    let output2 := hmac_sha256 temp_key (output1 ++ [mkb 2]) in
    if num_outputs =? 2 then Ok [output1; output2]
    else Ok [output1; output2; hmac_sha256 temp_key (output2 ++ [mkb 3])].

Definition build_nonce_chachapoly (counter : Z) : result bytes :=
  if (counter <? 0) || (0xFFFFFFFFFFFFFFFF <? counter) then Raise ValueError
  else n ← to_bytes_little 8 counter; Ok (replicate 4 (mkb 0) ++ n).

Definition build_nonce_aesgcm (counter : Z) : result bytes :=
  if (counter <? 0) || (0xFFFFFFFFFFFFFFFF <? counter) then Raise ValueError
  else n ← to_bytes_big 8 counter; Ok (replicate 4 (mkb 0) ++ n).

Definition aead_encrypt (cipher_name : str) (key : bytes) (counter : Z) (ad plaintext : bytes) : result bytes :=
  if decide (cipher_name = u "ChaChaPoly") then
    nonce ← build_nonce_chachapoly counter; chachapoly_encrypt key nonce plaintext ad
  else if decide (cipher_name = u "AESGCM") then
    nonce ← build_nonce_aesgcm counter; aesgcm_encrypt key nonce plaintext ad
  else Raise ValueError.

Definition aead_decrypt (cipher_name : str) (key : bytes) (counter : Z) (ad ciphertext : bytes) : result bytes :=
  if decide (cipher_name = u "ChaChaPoly") then
    nonce ← build_nonce_chachapoly counter; chachapoly_decrypt key nonce ciphertext ad
  else if decide (cipher_name = u "AESGCM") then
    nonce ← build_nonce_aesgcm counter; aesgcm_decrypt key nonce ciphertext ad
  else Raise ValueError.

(** ** [CipherState] *)

Record CipherState := mkCS { cs_cipher : str; cs_k : option bytes; cs_n : Z }.

Definition CipherState_init (cipher : str) : result CipherState :=
  if bool_decide (cipher = u "ChaChaPoly" ∨ cipher = u "AESGCM") then Ok (mkCS cipher None 0)
  else Raise ValueError.

Definition initialize_key (key : option bytes) : SE CipherState unit := λ cs,
  match key with
  | Some k => if negb (Z.of_nat (length k) =? 32) then (cs, Raise ValueError)
              else (mkCS (cs_cipher cs) key 0, Ok tt)
  | None => (mkCS (cs_cipher cs) None 0, Ok tt)
  end.

Definition has_key (cs : CipherState) : bool := bool_decide (is_Some (cs_k cs)).

Definition set_nonce (nonce : Z) : SE CipherState unit := λ cs, (mkCS (cs_cipher cs) (cs_k cs) nonce, Ok tt).

Definition encrypt_with_ad (ad plaintext : bytes) : SE CipherState bytes := λ cs,
  match cs_k cs with
  | None => (cs, Ok plaintext)
  | Some k => match aead_encrypt (cs_cipher cs) k (cs_n cs) ad plaintext with
              | Raise e => (cs, Raise e)
              | Ok ct => (mkCS (cs_cipher cs) (cs_k cs) (cs_n cs + 1), Ok ct)
              end
  end.

Definition decrypt_with_ad (ad ciphertext : bytes) : SE CipherState bytes := λ cs,
  match cs_k cs with
  | None => (cs, Ok ciphertext)
  | Some k => match aead_decrypt (cs_cipher cs) k (cs_n cs) ad ciphertext with
              | Raise e => (cs, Raise (if decide (e = InvalidTag) then HandshakeError else e))
              | Ok pt => (mkCS (cs_cipher cs) (cs_k cs) (cs_n cs + 1), Ok pt)
              end
  end.

(** The overwriting of a [bytearray] key is not modelled: the keys are [bytes]. *)
Definition rekey : SE CipherState unit := λ cs,
  match cs_k cs with
  | None => (cs, Raise HandshakeError)
  | Some k => match aead_encrypt (cs_cipher cs) k (Z.shiftl 1 64 - 1) [] (replicate 32 (mkb 0)) with
              | Raise e => (cs, Raise e)
              | Ok new_key_ct => (mkCS (cs_cipher cs) (Some (take 32 new_key_ct)) (cs_n cs), Ok tt)
              end
  end.

(** ** [SymmetricState] *)

Record SymmetricState := mkSS { ss_cs : CipherState; ss_cipher : str; ss_h : bytes; ss_ck : bytes }.

Definition SymmetricState_init (protocol_name : bytes) (cipher : str) : result SymmetricState :=
  cs ← CipherState_init cipher;
  let h := if (length protocol_name <=? HASHLEN)%nat
           then protocol_name ++ replicate (HASHLEN - length protocol_name) (mkb 0)
           else hash_sha256 protocol_name in
  let '(cs, r) := initialize_key None cs in
  _ ← r;
  Ok (mkSS cs cipher h h).

(** A method of the cipher state, called on the field. *)
Definition on_cs {B} (m : SE CipherState B) : SE SymmetricState B := λ ss,
  let '(cs, r) := m (ss_cs ss) in (mkSS cs (ss_cipher ss) (ss_h ss) (ss_ck ss), r).

(** The two outputs of [hkdf(.., 2)]. *)
Definition hkdf2 (ck ikm : bytes) : result (bytes * bytes) :=
  l ← hkdf ck ikm 2;
  match l with [a; b] => Ok (a, b) | _ => Raise ValueError end.

Definition mix_key (input_key_material : bytes) : SE SymmetricState unit := λ ss,
  match hkdf2 (ss_ck ss) input_key_material with
  | Raise e => (ss, Raise e)
  | Ok (ck, temp_k) => on_cs (initialize_key (Some temp_k)) (mkSS (ss_cs ss) (ss_cipher ss) (ss_h ss) ck)
  end.

Definition mix_hash (data : bytes) : SE SymmetricState unit := λ ss,
  (mkSS (ss_cs ss) (ss_cipher ss) (hash_sha256 (ss_h ss ++ data)) (ss_ck ss), Ok tt).

Definition encrypt_and_hash (plaintext : bytes) : SE SymmetricState bytes := λ ss,
  (ct ← on_cs (encrypt_with_ad (ss_h ss) plaintext); _ ← mix_hash ct; mret ct) ss.

Definition decrypt_and_hash (ciphertext : bytes) : SE SymmetricState bytes := λ ss,
  (pt ← on_cs (decrypt_with_ad (ss_h ss) ciphertext); _ ← mix_hash ciphertext; mret pt) ss.

Definition keyed_cipher (cipher : str) (key : bytes) : result CipherState :=
  c ← CipherState_init cipher;
  let '(c, r) := initialize_key (Some key) c in
  _ ← r; Ok c.

Definition split (ss : SymmetricState) : result (CipherState * CipherState) :=
  ks ← hkdf2 (ss_ck ss) [];
  c1 ← keyed_cipher (ss_cipher ss) (fst ks);
  c2 ← keyed_cipher (ss_cipher ss) (snd ks);
  Ok (c1, c2).

(** ** [HandshakeState] *)

(** The tokens of a message pattern. *)
Inductive token := Te | Ts | Tee | Tes | Tse.

Definition _XX_INITIATOR_MESSAGES : list (list token) := [[Te]; [Te; Tee; Ts; Tes]; [Ts; Tse]].

Record _Keypair := mkKP { kp_private : bytes; kp_public : bytes }.

Record HandshakeState := mkHS {
  hs_ss : SymmetricState;
  hs_s : _Keypair;
  hs_e : option _Keypair;
  hs_re : option bytes;
  hs_rs : option bytes;
  hs_messages : list (list token)
}.

Definition HandshakeState_init (protocol_name : bytes) (cipher : str) (prologue local_static_private : bytes)
    : result HandshakeState :=
  ss ← SymmetricState_init protocol_name cipher;
  let '(ss, r) := mix_hash prologue ss in
  _ ← r;
  pub ← private_to_public local_static_private;
  Ok (mkHS ss (mkKP local_static_private pub) None None None _XX_INITIATOR_MESSAGES).

Definition on_ss {B} (m : SE SymmetricState B) : SE HandshakeState B := λ hs,
  let '(ss, r) := m (hs_ss hs) in
  (mkHS ss (hs_s hs) (hs_e hs) (hs_re hs) (hs_rs hs) (hs_messages hs), r).

(** [HandshakeState] or its subclass [_ResponderHandshakeState], which overrides two methods. *)
Inductive role := Initiator | Responder.

Definition _dh_es (r : role) (hs : HandshakeState) : result bytes :=
  match r with
  | Initiator => e ← some_or (hs_e hs) AssertionError; rs ← some_or (hs_rs hs) AssertionError; dh (kp_private e) rs
  | Responder => re ← some_or (hs_re hs) AssertionError; dh (kp_private (hs_s hs)) re
  end.

Definition _dh_se (r : role) (hs : HandshakeState) : result bytes :=
  match r with
  | Initiator => re ← some_or (hs_re hs) AssertionError; dh (kp_private (hs_s hs)) re
  | Responder => e ← some_or (hs_e hs) AssertionError; rs ← some_or (hs_rs hs) AssertionError; dh (kp_private e) rs
  end.

Definition _dh_ee (hs : HandshakeState) : result bytes :=
  e ← some_or (hs_e hs) AssertionError; re ← some_or (hs_re hs) AssertionError; dh (kp_private e) re.

(** [self._ss.mix_key(self._dh_xx())] *)
Definition mix_dh (f : HandshakeState → result bytes) : SE HandshakeState unit := λ hs,
  match f hs with Raise e => (hs, Raise e) | Ok k => on_ss (mix_key k) hs end.

Definition set_e (kp : _Keypair) : SE HandshakeState unit := λ hs,
  (mkHS (hs_ss hs) (hs_s hs) (Some kp) (hs_re hs) (hs_rs hs) (hs_messages hs), Ok tt).
Definition set_re (re : bytes) : SE HandshakeState unit := λ hs,
  (mkHS (hs_ss hs) (hs_s hs) (hs_e hs) (Some re) (hs_rs hs) (hs_messages hs), Ok tt).
Definition set_rs (rs : bytes) : SE HandshakeState unit := λ hs,
  (mkHS (hs_ss hs) (hs_s hs) (hs_e hs) (hs_re hs) (Some rs) (hs_messages hs), Ok tt).

(** [if not self._messages: raise ...; tokens = self._messages.pop(0)] *)
Definition pop_message : SE HandshakeState (list token) := λ hs,
  match hs_messages hs with
  | [] => (hs, Raise HandshakeError)
  | t :: ts => (mkHS (hs_ss hs) (hs_s hs) (hs_e hs) (hs_re hs) (hs_rs hs) ts, Ok t)
  end.

(** [if not self._messages: split = self._ss.split()] *)
Definition maybe_split : SE HandshakeState (option (CipherState * CipherState)) := λ hs,
  match hs_messages hs with
  | [] => (hs, cs ← split (hs_ss hs); Ok (Some cs))
  | _ => (hs, Ok None)
  end.

(** [priv] is the caller's ephemeral key, or the freshly generated one. *)
Definition write_token (r : role) (priv : bytes) (out : bytes) (t : token) : SE HandshakeState bytes :=
  match t with
  | Te => pub ← se_lift (private_to_public priv);
          _ ← set_e (mkKP priv pub);
          _ ← on_ss (mix_hash pub);
          mret (out ++ pub)
  | Ts => s ← se_asks hs_s;
          c ← on_ss (encrypt_and_hash (kp_public s));
          mret (out ++ c)
  | Tee => _ ← mix_dh _dh_ee; mret out
  | Tes => _ ← mix_dh (_dh_es r); mret out
  | Tse => _ ← mix_dh (_dh_se r); mret out
  end.

Definition keyed (hs : HandshakeState) : bool := has_key (ss_cs (hs_ss hs)).

Definition write_message (r : role) (priv payload : bytes)
    : SE HandshakeState (bytes * option (CipherState * CipherState)) :=
  tokens ← pop_message;
  out ← se_fold (write_token r priv) [] tokens;
  hk ← se_asks keyed;
  out ← (if truthy payload || (hk : bool) then c ← on_ss (encrypt_and_hash payload); mret (out ++ c) else mret out);
  sp ← maybe_split;
  mret (out, sp).

Definition _TAG_LEN : nat := 16.

(** The accumulator is the offset into the message. *)
Definition read_token (r : role) (message : bytes) (offset : nat) (t : token) : SE HandshakeState nat :=
  match t with
  | Te => if (length message - offset <? DHLEN)%nat then se_raise HandshakeError
          else let re := slice offset (offset + DHLEN) message in
               _ ← set_re re;
               _ ← on_ss (mix_hash re);
               mret (offset + DHLEN)%nat
  | Ts => have_key ← se_asks keyed;
          let need := (DHLEN + if (have_key : bool) then _TAG_LEN else 0)%nat in
          if (length message - offset <? need)%nat then se_raise HandshakeError
          else let chunk := slice offset (offset + need) message in
               rs ← on_ss (decrypt_and_hash chunk);
               _ ← set_rs rs;
               if negb (Z.of_nat (length rs) =? Z.of_nat DHLEN) then se_raise HandshakeError
               else mret (offset + need)%nat
  | Tee => _ ← mix_dh _dh_ee; mret offset
  | Tes => _ ← mix_dh (_dh_es r); mret offset
  | Tse => _ ← mix_dh (_dh_se r); mret offset
  end.

Definition read_message (r : role) (message : bytes)
    : SE HandshakeState (bytes * option (CipherState * CipherState)) :=
  tokens ← pop_message;
  offset ← se_fold (read_token r message) 0%nat tokens;
  hk ← se_asks keyed;
  let remaining := drop offset message in
  payload ← (if truthy remaining || (hk : bool) then on_ss (decrypt_and_hash remaining) else mret []);
  sp ← maybe_split;
  mret (payload, sp).

(** ** Coroutines over a frame channel *)

(** What a coroutine does next: end, [await channel.send_frame(frame)], or
    [await channel.recv_frame()]; either await may raise. *)
Inductive proc (T : Type) : Type :=
  | PDone (r : result T)
  | PSend (frame : bytes) (k : result unit → proc T)
  | PRecv (k : result bytes → proc T).
#[global] Arguments PDone {T} r.
#[global] Arguments PSend {T} frame k.
#[global] Arguments PRecv {T} k.

(** ** [NoiseTransport] *)

Record NoiseTransport := mkNT { nt_send : CipherState; nt_recv : CipherState; nt_h : bytes }.

Definition _REKEY_INTERVAL : Z := Z.shiftl 1 31.

(** [if self._send.nonce >= _REKEY_INTERVAL: rekey(); set_nonce(0)] *)
Definition rekey_due : SE CipherState unit :=
  n ← se_asks cs_n;
  if _REKEY_INTERVAL <=? n then _ ← rekey; set_nonce 0 else mret tt.

Definition on_send {B} (m : SE CipherState B) : SE NoiseTransport B := λ nt,
  let '(cs, r) := m (nt_send nt) in (mkNT cs (nt_recv nt) (nt_h nt), r).
Definition on_recv {B} (m : SE CipherState B) : SE NoiseTransport B := λ nt,
  let '(cs, r) := m (nt_recv nt) in (mkNT (nt_send nt) cs (nt_h nt), r).

(** [send], under its lock: the ciphertext it hands to [channel.send_frame]. *)
Definition transport_send (plaintext : bytes) : SE NoiseTransport bytes :=
  _ ← on_send rekey_due; on_send (encrypt_with_ad [] plaintext).

(** [recv], under its lock: [frame] is what [channel.recv_frame] gives. *)
Definition transport_recv (frame : result bytes) : SE NoiseTransport bytes :=
  _ ← on_recv rekey_due; f ← se_lift frame; on_recv (decrypt_with_ad [] f).
End Primitives.

(** ** [HandshakeMessage]: generated code, a parameter *)

Record Hello := mkHello { h_ephemeral : bytes; h_static : bytes; h_payload : bytes }.

(** A sub-message that is absent reads as one with empty fields. *)
Record HandshakeMessage := mkHM {
  client_hello : option Hello; server_hello : option Hello; client_finish : option Hello }.

Definition sub (h : option Hello) : Hello := default (mkHello [] [] []) h.

Class HandshakeCodec := {
  hm_serialize : HandshakeMessage → bytes;
  hm_parse : bytes → result HandshakeMessage
}.

Class HandshakeCodecLaws (C : HandshakeCodec) : Prop :=
  hm_parse_serialize m : hm_parse (hm_serialize m) = Ok m.

(** *** A toy codec: the bits of stdpp's encoding of the message, one per byte *)

Fixpoint pos_bytes (n : positive) : bytes :=
  match n with xH => [] | xO n => mkb 0 :: pos_bytes n | xI n => mkb 1 :: pos_bytes n end.
Fixpoint bytes_pos (b : bytes) : positive :=
  match b with [] => xH | x :: b => if decide (x = mkb 1) then xI (bytes_pos b) else xO (bytes_pos b) end.

Definition hello_tuple (h : Hello) : bytes * bytes * bytes := (h_ephemeral h, h_static h, h_payload h).
Definition tuple_hello (t : bytes * bytes * bytes) : Hello := mkHello t.1.1 t.1.2 t.2.

Definition toy_handshake_codec : HandshakeCodec := {|
  hm_serialize := λ m, pos_bytes (encode (hello_tuple <$> client_hello m, hello_tuple <$> server_hello m,
                                         hello_tuple <$> client_finish m));
  hm_parse := λ b, match decode (bytes_pos b) with
                   | Some (x, y, z) => Ok (mkHM (tuple_hello <$> x) (tuple_hello <$> y) (tuple_hello <$> z))
                   | None => Raise ProtobufError
                   end
|}.

#[global] Instance toy_handshake_codec_laws : HandshakeCodecLaws toy_handshake_codec.
Proof.
  assert (∀ n, bytes_pos (pos_bytes n) = n) as K by
    (induction n as [n IH|n IH|]; cbn [pos_bytes bytes_pos];
     rewrite ?(decide_True (P := mkb 1 = mkb 1)), ?(decide_False (P := mkb 0 = mkb 1)), ?IH by done; done).
  intros [x y z]. cbn. rewrite K, decode_encode. by destruct x as [[]|], y as [[]|], z as [[]|].
Qed.

(** ** [NoiseHandshake] *)

Definition NOISE_PROTOCOL_CHACHA : bytes := mkb <$> u "Noise_XX_25519_ChaChaPoly_SHA256".
Definition NOISE_PROTOCOL_AESGCM : bytes := mkb <$> u "Noise_XX_25519_AESGCM_SHA256".
Definition DEFAULT_PROLOGUE : bytes := mkb <$> (u "WA" ++ [6; 3]).

Section Handshake.
Context {X : X25519} {A : Aead} {C : HandshakeCodec}.

(** The constructor: the cipher is chosen by the protocol name. *)
Definition NoiseHandshake_init (client_static_private prologue protocol_name : bytes) : result HandshakeState :=
  cipher ← (if decide (protocol_name = NOISE_PROTOCOL_CHACHA) then Ok (u "ChaChaPoly")
            else if decide (protocol_name = NOISE_PROTOCOL_AESGCM) then Ok (u "AESGCM")
            else Raise ValueError);
  HandshakeState_init protocol_name cipher prologue client_static_private.

(** The constructor of the fake server's side. *)
Definition ServerHandshake_init (server_static_private prologue protocol_name : bytes) : result HandshakeState :=
  HandshakeState_init protocol_name
    (if decide (protocol_name = NOISE_PROTOCOL_AESGCM) then u "AESGCM" else u "ChaChaPoly")
    prologue server_static_private.

(** [except HandshakeError: raise] and [except Exception as e: raise HandshakeError(...) from e] *)
Definition handshake_failed {T} (e : exn) : proc T :=
  PDone (Raise (if decide (e = HandshakeError) then e else HandshakeError)).

(** [perform]; [eph] is the ephemeral private key that leg 1 generates, [eph'] one that
    a later leg would. *)
Definition perform (eph eph' client_payload : bytes) (st : HandshakeState) : proc NoiseTransport :=
  let '(st, r) := write_message Initiator eph [] st in
  match r with
  | Raise e => handshake_failed e
  | Ok (leg1_bytes, Some _) => handshake_failed HandshakeError
  | Ok (leg1_bytes, None) =>
      PSend (hm_serialize (mkHM (Some (mkHello (take DHLEN leg1_bytes) [] [])) None None)) (λ r,
      match r with
      | Raise e => handshake_failed e
      | Ok _ => PRecv (λ r,
        match r with
        | Raise e => handshake_failed e
        | Ok resp_bytes =>
            match hm_parse resp_bytes with
            | Raise _ => handshake_failed HandshakeError
            | Ok resp =>
                let hello := sub (server_hello resp) in
                if negb (truthy (h_ephemeral hello)) then handshake_failed HandshakeError
                else
                  let leg2_wire := h_ephemeral hello ++ h_static hello ++ h_payload hello in
                  let '(st, r) := read_message Initiator leg2_wire st in
                  match r with
                  | Raise e => handshake_failed e
                  | Ok (_, Some _) => handshake_failed HandshakeError
                  | Ok (_, None) =>
                      let '(st, r) := write_message Initiator eph' client_payload st in
                      match r with
                      | Raise e => handshake_failed e
                      | Ok (_, None) => handshake_failed HandshakeError
                      | Ok (leg3_bytes, Some (c1, c2)) =>
                          let static_len := (DHLEN + _TAG_LEN)%nat in
                          PSend (hm_serialize (mkHM None None
                                   (Some (mkHello [] (take static_len leg3_bytes) (drop static_len leg3_bytes))))) (λ r,
                          match r with
                          | Raise e => handshake_failed e
                          | Ok _ => PDone (Ok (mkNT c1 c2 (ss_h (hs_ss st))))
                          end)
                      end
                  end
            end
        end)
      end)
  end.

(** [ServerHandshake.perform] of the fake server; its errors are not wrapped. *)
Definition server_perform (eph server_payload : bytes) (st : HandshakeState) : proc (NoiseTransport * bytes) :=
  PRecv (λ r,
  match r ≫= hm_parse with
  | Raise e => PDone (Raise e)
  | Ok hm1 =>
      let '(st, r) := read_message Responder (h_ephemeral (sub (client_hello hm1))) st in
      match r with
      | Raise e => PDone (Raise e)
      | Ok (_, Some _) => PDone (Raise AssertionError)
      | Ok (_, None) =>
          let '(st, r) := write_message Responder eph server_payload st in
          match r with
          | Raise e => PDone (Raise e)
          | Ok (_, Some _) => PDone (Raise AssertionError)
          | Ok (leg2_bytes, None) =>
              PSend (hm_serialize (mkHM None (Some (mkHello (take DHLEN leg2_bytes)
                       (slice DHLEN (DHLEN + DHLEN + _TAG_LEN) leg2_bytes)
                       (drop (DHLEN + DHLEN + _TAG_LEN) leg2_bytes))) None)) (λ r,
              match r with
              | Raise e => PDone (Raise e)
              | Ok _ => PRecv (λ r,
                match r ≫= hm_parse with
                | Raise e => PDone (Raise e)
                | Ok hm3 =>
                    let finish := sub (client_finish hm3) in
                    let '(st, r) := read_message Responder (h_static finish ++ h_payload finish) st in
                    match r with
                    | Raise e => PDone (Raise e)
                    | Ok (_, None) => PDone (Raise AssertionError)
                    | Ok (client_payload, Some (c1, c2)) =>
                        PDone (Ok (mkNT c2 c1 (ss_h (hs_ss st)), client_payload))
                    end
                end)
              end)
          end
      end
  end).
End Handshake.
