(* ===== verification/NoiseProofs.v ===== *)
(** * The handshake agrees, and the transport stays in step

    Client and server of Noise.v over a pipe: the handshake completes on both sides
    with mirrored cipher states and equal transcript hashes, whatever the order of
    steps, and afterwards every message decrypts to what was sent, through rekeying. *)

From S2P Require Import Prelude PyStr Sha256 Crypto Noise.

(** ** Two coroutines over a pipe *)

Section Pipe.
Context {S T : Type}.

(** Both coroutines and the frames under way in each direction. *)
Definition pipe : Type := proc S * proc T * list bytes * list bytes.

Inductive pipe_step : pipe → pipe → Prop :=
  | left_send f k q l r : pipe_step (PSend f k, q, l, r) (k (Ok tt), q, l ++ [f], r)
  | left_recv f k q l r : pipe_step (PRecv k, q, l, f :: r) (k (Ok f), q, l, r)
  | right_send f k p l r : pipe_step (p, PSend f k, l, r) (p, k (Ok tt), l, r ++ [f])
  | right_recv f k p l r : pipe_step (p, PRecv k, f :: l, r) (p, k (Ok f), l, r).

(** Steps of the two sides commute. *)
Lemma pipe_diamond c d e : pipe_step c d → pipe_step c e →
  d = e ∨ ∃ w, pipe_step d w ∧ pipe_step e w.
Proof.
  intros H1 H2. destruct H1; inversion H2; subst; auto; right; cbn;
    eexists; (split; [|constructor]); try constructor.
Qed.

Lemma pipe_descent n : ∀ c f d, nsteps pipe_step n c f → (∀ x, ¬ pipe_step f x) → pipe_step c d →
  ∃ m, nsteps pipe_step m d f.
Proof.
  induction n as [|n IH]; intros c f d Hn Hf Hd; [inversion Hn; subst; by apply Hf in Hd|].
  inversion Hn as [|? ? x ? Hcx Hxf]; subst. destruct (pipe_diamond _ _ _ Hcx Hd) as [->|(w & Hxw & Hdw)]; [eauto|].
  destruct (IH _ _ _ Hxf Hf Hxw) as [m Hm]. exists (Datatypes.S m). by econstructor.
Qed.

(** If some schedule ends, every schedule can be continued to the same end. *)
Lemma pipe_end c f : rtc pipe_step c f → (∀ x, ¬ pipe_step f x) → ∀ d, rtc pipe_step c d → rtc pipe_step d f.
Proof.
  intros Hcf Hf d Hcd. apply rtc_nsteps in Hcf as [n Hn]. revert n Hn.
  induction Hcd as [c|c x d Hcx Hxd IH]; intros n Hn; [by eapply rtc_nsteps; eauto|].
  destruct (pipe_descent _ _ _ _ Hn Hf Hcx) as [m Hm]. eauto.
Qed.
End Pipe.

(** ** One encryption *)

Section Noise.
Context {X : X25519} {XL : X25519Laws X} {A : Aead} {AL : AeadLaws A}.

Definition cipher_name (c : str) : Prop := c = u "ChaChaPoly" ∨ c = u "AESGCM".

Lemma nonce_length c : 0 ≤ c < 2 ^ 64 →
  (∃ n, build_nonce_chachapoly c = Ok n ∧ length n = 12%nat) ∧ (∃ n, build_nonce_aesgcm c = Ok n ∧ length n = 12%nat).
Proof.
  intros Hc. unfold build_nonce_chachapoly, build_nonce_aesgcm, to_bytes_little, to_bytes_big.
  change (256 ^ Z.of_nat 8) with (2 ^ 64). replace ((c <? 0) || _)%bool with false by lia.
  replace ((0 <=? c) && _)%bool with true by lia. split; (eexists; split; [reflexivity|]); cbn -[le_bytes be_bytes].
  - by rewrite length_le_bytes.
  - by rewrite length_be_bytes.
Qed.

Lemma aead_round c k n ad p : cipher_name c → length k = 32%nat → 0 ≤ n < 2 ^ 64 → aead_fits ad p →
  ∃ ct, aead_encrypt c k n ad p = Ok ct ∧ length ct = (length p + 16)%nat ∧ aead_decrypt c k n ad ct = Ok p.
Proof.
  intros Hc Hk Hn Hf. destruct (nonce_length n Hn) as [(n1 & E1 & L1) (n2 & E2 & L2)].
  unfold aead_encrypt, aead_decrypt. destruct Hc as [-> | ->].
  - rewrite !decide_True by done. rewrite E1. apply (aead_enc_dec (AeadOk := chachapoly_ok)); done.
  - rewrite !decide_False, !decide_True, E2 by done. apply (aead_enc_dec (AeadOk := aesgcm_ok)); done.
Qed.

Lemma aead_reject c k n ad ct e : cipher_name c → length k = 32%nat → 0 ≤ n < 2 ^ 64 →
  Z.of_nat (length ad) < 2 ^ 31 → Z.of_nat (length ct) < 2 ^ 31 → aead_decrypt c k n ad ct = Raise e → e = InvalidTag.
Proof.
  intros Hc Hk Hn Had Hct. destruct (nonce_length n Hn) as [(n1 & E1 & L1) (n2 & E2 & L2)].
  unfold aead_decrypt. destruct Hc as [-> | ->].
  - rewrite decide_True, E1 by done. by apply (aead_dec_error (AeadOk := chachapoly_ok)).
  - rewrite decide_False, decide_True, E2 by done. by apply (aead_dec_error (AeadOk := aesgcm_ok)).
Qed.

(** A cipher state with a usable key. *)
Record cs_keyed (cs : CipherState) : Prop := {
  csk_name : cipher_name (cs_cipher cs);
  csk_key : ∃ k, cs_k cs = Some k ∧ length k = 32%nat
}.

Definition cs_next (cs : CipherState) : CipherState := mkCS (cs_cipher cs) (cs_k cs) (cs_n cs + 1).

Lemma cs_round cs ad p : cs_keyed cs → 0 ≤ cs_n cs < 2 ^ 64 → aead_fits ad p →
  ∃ ct, encrypt_with_ad ad p cs = (cs_next cs, Ok ct) ∧ length ct = (length p + 16)%nat ∧
        decrypt_with_ad ad ct cs = (cs_next cs, Ok p).
Proof.
  intros [Hn (k & Hk & Hl)] Hr Hf. destruct (aead_round _ _ _ _ _ Hn Hl Hr Hf) as (ct & He & Hlen & Hd).
  exists ct. unfold encrypt_with_ad, decrypt_with_ad, cs_next. by rewrite Hk, He, Hd.
Qed.

(** ** Symmetric states *)

(** A state during a handshake: a hash, and a cipher that is not yet keyed or usable. *)
Record ss_ok (ss : SymmetricState) : Prop := {
  sso_name : cipher_name (ss_cipher ss);
  sso_same : cs_cipher (ss_cs ss) = ss_cipher ss;
  sso_hash : length (ss_h ss) = 32%nat;
  sso_n : 0 ≤ cs_n (ss_cs ss) < 2 ^ 32
}.

Definition ss_keyed (ss : SymmetricState) : Prop := ∃ k, cs_k (ss_cs ss) = Some k ∧ length k = 32%nat.

Definition mixed_hash (d : bytes) (ss : SymmetricState) : SymmetricState :=
  mkSS (ss_cs ss) (ss_cipher ss) (hash_sha256 (ss_h ss ++ d)) (ss_ck ss).

Definition mixed_key (k : bytes) (ss : SymmetricState) : SymmetricState :=
  let t := hmac_sha256 (ss_ck ss) k in
  let ck := hmac_sha256 t [mkb 1] in
  mkSS (mkCS (cs_cipher (ss_cs ss)) (Some (hmac_sha256 t (ck ++ [mkb 2]))) 0) (ss_cipher ss) (ss_h ss) ck.

Lemma mix_hash_eq d ss : mix_hash d ss = (mixed_hash d ss, Ok tt).
Proof. done. Qed.

Lemma mix_key_eq k ss : mix_key k ss = (mixed_key k ss, Ok tt).
Proof.
  unfold mix_key, mixed_key, hkdf2, hkdf. cbn -[hmac_sha256]. unfold on_cs, initialize_key. cbn -[hmac_sha256].
  by rewrite length_hmac_sha256.
Qed.

Lemma mixed_hash_ok d ss : ss_ok ss → ss_ok (mixed_hash d ss).
Proof. intros []. split; cbn; try done. apply length_sha256. Qed.

Lemma mixed_key_ok k ss : ss_ok ss → ss_ok (mixed_key k ss) ∧ ss_keyed (mixed_key k ss) ∧ cs_n (ss_cs (mixed_key k ss)) = 0.
Proof.
  intros []. split_and!; [split; cbn; try done; lia| |done]. eexists. split; [reflexivity|]. apply length_hmac_sha256.
Qed.

(** The state after a keyed encryption whose ciphertext is [c]. *)
Definition ss_sent (c : bytes) (ss : SymmetricState) : SymmetricState :=
  mixed_hash c (mkSS (cs_next (ss_cs ss)) (ss_cipher ss) (ss_h ss) (ss_ck ss)).

Lemma ss_sent_ok c ss : ss_ok ss → ss_keyed ss → cs_n (ss_cs ss) < 2 ^ 31 → ss_ok (ss_sent c ss) ∧ ss_keyed (ss_sent c ss).
Proof. intros [] Hk Hn. split; [|exact Hk]. split; cbn; try done; [apply length_sha256|lia]. Qed.

Lemma ss_round ss p : ss_ok ss → ss_keyed ss → Z.of_nat (length p) < 2 ^ 31 - 16 →
  ∃ c, encrypt_and_hash p ss = (ss_sent c ss, Ok c) ∧ length c = (length p + 16)%nat ∧
       decrypt_and_hash c ss = (ss_sent c ss, Ok p).
Proof.
  intros [Hn Hs Hh Hr] (k & Hk & Hl) Hp. destruct (cs_round (ss_cs ss) (ss_h ss) p) as (c & He & Hc & Hd).
  - split; [by rewrite Hs|eauto].
  - lia.
  - split; [rewrite Hh; lia|done].
  - exists c. unfold encrypt_and_hash, decrypt_and_hash, mbind, se_bind, on_cs. by rewrite He, Hd.
Qed.

Lemma split_ok ss : ss_ok ss → ∃ c1 c2, split ss = Ok (c1, c2) ∧
  cs_keyed c1 ∧ cs_keyed c2 ∧ cs_n c1 = 0 ∧ cs_n c2 = 0.
Proof.
  intros [Hn _ _ _]. unfold split, hkdf2, hkdf, keyed_cipher, CipherState_init. cbn -[hmac_sha256 u].
  rewrite !bool_decide_true by exact Hn. cbn -[hmac_sha256 u]. unfold initialize_key. rewrite !length_hmac_sha256.
  cbn -[hmac_sha256 u]. do 2 eexists. split_and!; [reflexivity|split; [done|]..|done|done];
    (eexists; split; [reflexivity|apply length_hmac_sha256]).
Qed.

(** ** Messages *)

Lemma private_to_public_eq k : length k = 32%nat → private_to_public k = Ok (x25519_public k).
Proof. intros H. unfold private_to_public. by rewrite H. Qed.

Section Tokens.
Context (ss : SymmetricState) (s : _Keypair) (e : option _Keypair) (re rs : option bytes) (ms : list (list token)).
Let hs := mkHS ss s e re rs ms.

Lemma write_e r k out : length k = 32%nat →
  write_token r k out Te hs = (mkHS (mixed_hash (x25519_public k) ss) s (Some (mkKP k (x25519_public k))) re rs ms,
                               Ok (out ++ x25519_public k)).
Proof. intros Hk. unfold write_token. erewrite se_bind_eq by (unfold se_lift; by rewrite private_to_public_eq). done. Qed.

Lemma mix_dh_eq f k : f hs = Ok k → mix_dh f hs = (mkHS (mixed_key k ss) s e re rs ms, Ok tt).
Proof. intros H. unfold mix_dh. rewrite H. unfold on_ss. cbn [hs hs_ss]. by rewrite mix_key_eq. Qed.

Lemma write_s r k out c ss' : encrypt_and_hash (kp_public s) ss = (ss', Ok c) →
  write_token r k out Ts hs = (mkHS ss' s e re rs ms, Ok (out ++ c)).
Proof.
  intros H. unfold write_token. erewrite se_bind_eq by reflexivity. erewrite se_bind_eq; [reflexivity|].
  unfold on_ss. cbn. by rewrite H.
Qed.

Lemma read_e r m off : (off + 32 ≤ length m)%nat →
  read_token r m off Te hs = (mkHS (mixed_hash (slice off (off + 32) m) ss) s e (Some (slice off (off + 32) m)) rs ms,
                              Ok (off + 32)%nat).
Proof.
  intros Hm. unfold read_token. replace (length m - off <? DHLEN)%nat with false; [done|].
  symmetry. apply Nat.ltb_ge. unfold DHLEN. lia.
Qed.

Lemma read_s r m off p ss' : ss_keyed ss → (off + 48 ≤ length m)%nat → length p = 32%nat →
  decrypt_and_hash (slice off (off + 48) m) ss = (ss', Ok p) →
  read_token r m off Ts hs = (mkHS ss' s e re (Some p) ms, Ok (off + 48)%nat).
Proof.
  intros (k & Hk & _) Hm Hp H. unfold read_token. erewrite se_bind_eq by reflexivity. unfold keyed, has_key. cbn [hs hs_ss].
  rewrite Hk, bool_decide_true by done. change (DHLEN + _TAG_LEN)%nat with 48%nat.
  replace (length m - off <? 48)%nat with false by (symmetry; apply Nat.ltb_ge; lia).
  erewrite se_bind_eq; [|unfold on_ss; cbn; by rewrite H]. erewrite se_bind_eq by reflexivity. by rewrite Hp.
Qed.

Lemma write_payload (m : SE HandshakeState bytes) h0 out p c ss' : ss_keyed ss → m h0 = (hs, Ok out) → encrypt_and_hash p ss = (ss', Ok c) →
  (out ← m; hk ← se_asks keyed;
   out ← (if truthy p || (hk : bool) then c ← on_ss (encrypt_and_hash p); mret (out ++ c) else mret out);
   sp ← maybe_split; mret (out, sp)) h0 =
  (sp ← maybe_split; mret (out ++ c, sp)) (mkHS ss' s e re rs ms).
Proof.
  intros (k & Hk & _) Hm He. erewrite se_bind_eq by exact Hm. erewrite se_bind_eq by reflexivity.
  unfold keyed, has_key. cbn [hs hs_ss]. rewrite Hk, bool_decide_true, orb_true_r by done.
  erewrite se_bind_eq; [reflexivity|]. erewrite se_bind_eq; [reflexivity|]. unfold on_ss. cbn. by rewrite He.
Qed.

Lemma read_payload (m : SE HandshakeState nat) h0 msg off p ss' : ss_keyed ss → m h0 = (hs, Ok off) → decrypt_and_hash (drop off msg) ss = (ss', Ok p) →
  (off ← m; hk ← se_asks keyed;
   let remaining := drop off msg in
   payload ← (if truthy remaining || (hk : bool) then on_ss (decrypt_and_hash remaining) else mret []);
   sp ← maybe_split; mret (payload, sp)) h0 =
  (sp ← maybe_split; mret (p, sp)) (mkHS ss' s e re rs ms).
Proof.
  intros (k & Hk & _) Hm He. erewrite se_bind_eq by exact Hm. erewrite se_bind_eq by reflexivity.
  unfold keyed, has_key. cbn [hs hs_ss]. rewrite Hk, bool_decide_true, orb_true_r by done.
  erewrite se_bind_eq; [reflexivity|]. unfold on_ss. cbn. by rewrite He.
Qed.
End Tokens.

(** One token of a pattern. *)
Lemma fold_token {S B C} (f : B → C → SE S B) acc x l s s' acc' :
  f acc x s = (s', Ok acc') → se_fold f acc (x :: l) s = se_fold f acc' l s'.
Proof. intros H. exact (se_bind_eq (f acc x) (λ a, se_fold f a l) _ _ _ H). Qed.

Lemma write_dh r k out t f ss s e re rs ms key :
  (t, f) ∈ [(Tee, _dh_ee); (Tes, _dh_es r); (Tse, _dh_se r)] → f (mkHS ss s e re rs ms) = Ok key →
  write_token r k out t (mkHS ss s e re rs ms) = (mkHS (mixed_key key ss) s e re rs ms, Ok out).
Proof.
  intros Ht Hf. pose proof (mix_dh_eq ss s e re rs ms f key Hf) as K.
  rewrite !elem_of_cons, elem_of_nil in Ht. destruct Ht as [[= -> ->]|[[= -> ->]|[[= -> ->]|[]]]];
    (unfold write_token; by erewrite se_bind_eq by exact K).
Qed.

Lemma read_dh r m off t f ss s e re rs ms key :
  (t, f) ∈ [(Tee, _dh_ee); (Tes, _dh_es r); (Tse, _dh_se r)] → f (mkHS ss s e re rs ms) = Ok key →
  read_token r m off t (mkHS ss s e re rs ms) = (mkHS (mixed_key key ss) s e re rs ms, Ok off).
Proof.
  intros Ht Hf. pose proof (mix_dh_eq ss s e re rs ms f key Hf) as K.
  rewrite !elem_of_cons, elem_of_nil in Ht. destruct Ht as [[= -> ->]|[[= -> ->]|[[= -> ->]|[]]]];
    (unfold read_token; by erewrite se_bind_eq by exact K).
Qed.

Ltac token_in := rewrite !elem_of_cons; auto.

(** [-> e], when no key is set and the payload is empty. *)
Lemma leg1_write ss s e re rs m ms k : length k = 32%nat → cs_k (ss_cs ss) = None →
  write_message Initiator k [] (mkHS ss s e re rs ([Te] :: m :: ms)) =
  (mkHS (mixed_hash (x25519_public k) ss) s (Some (mkKP k (x25519_public k))) re rs (m :: ms), Ok (x25519_public k, None)).
Proof.
  intros Hk Hn. unfold write_message. erewrite se_bind_eq by reflexivity.
  erewrite se_bind_eq; [|erewrite fold_token by (by apply write_e); reflexivity].
  erewrite se_bind_eq by reflexivity. unfold keyed, has_key. cbn. by rewrite Hn.
Qed.

Lemma leg1_read ss s e re rs m ms w : length w = 32%nat → cs_k (ss_cs ss) = None →
  read_message Responder w (mkHS ss s e re rs ([Te] :: m :: ms)) =
  (mkHS (mixed_hash w ss) s e (Some w) rs (m :: ms), Ok ([], None)).
Proof.
  intros Hw Hn. unfold read_message. erewrite se_bind_eq by reflexivity.
  erewrite se_bind_eq; [|erewrite fold_token by (apply read_e; lia); reflexivity].
  unfold slice. rewrite drop_0, take_ge by lia. erewrite se_bind_eq by reflexivity.
  rewrite (drop_ge w) by lia. unfold keyed, has_key. cbn. by rewrite Hn.
Qed.

(** [<- e, ee, s, es] *)
Lemma leg2 ss sk se k1 k2 eS cpub rsS kpC ce reC rsC p m ms :
  length sk = 32%nat → length se = 32%nat → Z.of_nat (length p) < 2 ^ 31 - 16 → ss_ok ss →
  dh se cpub = Ok k1 → dh (kp_private ce) (x25519_public se) = Ok k1 →
  dh sk cpub = Ok k2 → dh (kp_private ce) (x25519_public sk) = Ok k2 →
  let kpS := mkKP sk (x25519_public sk) in
  let leg := [Te; Tee; Ts; Tes] in
  ∃ w ss', write_message Responder se p (mkHS ss kpS eS (Some cpub) rsS (leg :: m :: ms)) =
    (mkHS ss' kpS (Some (mkKP se (x25519_public se))) (Some cpub) rsS (m :: ms), Ok (w, None)) ∧
  read_message Initiator w (mkHS ss kpC (Some ce) reC rsC (leg :: m :: ms)) =
    (mkHS ss' kpC (Some ce) (Some (x25519_public se)) (Some (x25519_public sk)) (m :: ms), Ok (p, None)) ∧
  take 32 w = x25519_public se ∧ ss_ok ss' ∧ ss_keyed ss' ∧ cs_n (ss_cs ss') = 1.
Proof.
  intros Lk Le Lp Hok D1 D1' D2 D2' kpS leg. subst leg.
  pose proof (length_x25519_public sk) as Lsk. pose proof (length_x25519_public se) as Lse.
  destruct (mixed_key_ok k1 _ (mixed_hash_ok (x25519_public se) _ Hok)) as (Ok1 & K1 & N1).
  set (ss1 := mixed_key k1 (mixed_hash (x25519_public se) ss)) in *.
  destruct (ss_round ss1 (x25519_public sk) Ok1 K1) as (c1 & E1 & Lc1 & R1); [lia|].
  destruct (ss_sent_ok c1 ss1 Ok1 K1) as [Ok2 K2]; [lia|].
  destruct (mixed_key_ok k2 _ Ok2) as (Ok3 & K3 & N3). set (ss3 := mixed_key k2 (ss_sent c1 ss1)) in *.
  destruct (ss_round ss3 p Ok3 K3 Lp) as (c2 & E2 & Lc2 & R2).
  destruct (ss_sent_ok c2 ss3 Ok3 K3) as [Ok4 K4]; [lia|].
  assert (slice 0 32 (x25519_public se ++ c1 ++ c2) = x25519_public se) as S0.
  { unfold slice. rewrite drop_0. by apply take_app_length'. }
  assert (slice 32 80 (x25519_public se ++ c1 ++ c2) = c1) as S1.
  { unfold slice. rewrite drop_app_length' by done. apply take_app_length'. lia. }
  assert (drop 80 (x25519_public se ++ c1 ++ c2) = c2) as S2.
  { rewrite app_assoc. apply drop_app_length'. rewrite length_app. lia. }
  exists (x25519_public se ++ c1 ++ c2), (ss_sent c2 ss3). split_and!.
  - unfold write_message. erewrite se_bind_eq by reflexivity.
    cbn [hs_ss hs_s hs_e hs_re hs_rs hs_messages]. erewrite write_payload; [| exact K3 | |exact E2].
    2: { erewrite fold_token by (by apply write_e). erewrite fold_token by (eapply write_dh; [token_in|exact D1]).
         erewrite fold_token by (by apply write_s). by erewrite fold_token by (eapply write_dh; [token_in|exact D2]). }
    cbn. by rewrite <-app_assoc.
  - unfold read_message. erewrite se_bind_eq by reflexivity.
    cbn [hs_ss hs_s hs_e hs_re hs_rs hs_messages]. erewrite (read_payload _ _ _ _ _ _ _ _ _ 80%nat).
    2: exact K3.
    2: {
      erewrite fold_token by (apply read_e; rewrite !length_app; lia). cbn [Nat.add]. rewrite S0.
      erewrite fold_token by (eapply read_dh; [token_in|exact D1']).
      erewrite fold_token by (eapply read_s; [done|rewrite !length_app; lia|exact Lsk|change (32 + 48)%nat with 80%nat; rewrite S1; exact R1]).
      by erewrite fold_token by (eapply read_dh; [token_in|exact D2']). }
    + reflexivity.
    + rewrite S2. exact R2.
  - by rewrite take_app_length'.
  - exact Ok4.
  - exact K4.
  - cbn. cbn in N3. lia.
Qed.

(** [-> s, se] *)
Lemma leg3 ss sk k re kpS ce rsC reS rsS p :
  length sk = 32%nat → Z.of_nat (length p) < 2 ^ 31 - 16 → ss_ok ss → ss_keyed ss → cs_n (ss_cs ss) = 1 →
  dh sk re = Ok k → dh (kp_private kpS) (x25519_public sk) = Ok k → ∀ eph kp,
  let kpC := mkKP sk (x25519_public sk) in
  let leg := [Ts; Tse] in
  ∃ w ss' c1 c2, write_message Initiator eph p (mkHS ss kpC ce (Some re) rsC [leg]) =
    (mkHS ss' kpC ce (Some re) rsC [], Ok (w, Some (c1, c2))) ∧
  read_message Responder w (mkHS ss kp (Some kpS) reS rsS [leg]) =
    (mkHS ss' kp (Some kpS) reS (Some (x25519_public sk)) [], Ok (p, Some (c1, c2))) ∧
  cs_keyed c1 ∧ cs_keyed c2 ∧ cs_n c1 = 0 ∧ cs_n c2 = 0.
Proof.
  intros Lk Lp Ok1 K1 N1 D D' eph kp kpC leg. subst leg. pose proof (length_x25519_public sk) as Lsk.
  destruct (ss_round ss (x25519_public sk) Ok1 K1) as (c1 & E1 & Lc1 & R1); [lia|].
  destruct (ss_sent_ok c1 ss Ok1 K1) as [Ok2 K2]; [lia|].
  destruct (mixed_key_ok k _ Ok2) as (Ok3 & K3 & N3). set (ss3 := mixed_key k (ss_sent c1 ss)) in *.
  destruct (ss_round ss3 p Ok3 K3 Lp) as (c2 & E2 & Lc2 & R2).
  destruct (ss_sent_ok c2 ss3 Ok3 K3) as [Ok4 K4]; [lia|].
  destruct (split_ok _ Ok4) as (s1 & s2 & Hs & Hs').
  assert (slice 0 48 (c1 ++ c2) = c1) as S0.
  { unfold slice. rewrite drop_0. apply take_app_length'. lia. }
  assert (drop 48 (c1 ++ c2) = c2) as S1 by (apply drop_app_length'; lia).
  exists (c1 ++ c2), (ss_sent c2 ss3), s1, s2. split_and!; try apply Hs'.
  - unfold write_message. erewrite se_bind_eq by reflexivity.
    cbn [hs_ss hs_s hs_e hs_re hs_rs hs_messages]. erewrite write_payload; [|exact K3| |exact E2].
    2: { erewrite fold_token by (by apply write_s). by erewrite fold_token by (eapply write_dh; [token_in|exact D]). }
    erewrite se_bind_eq; [reflexivity|]. unfold maybe_split. cbn [hs_messages hs_ss]. by rewrite Hs.
  - unfold read_message. erewrite se_bind_eq by reflexivity.
    cbn [hs_ss hs_s hs_e hs_re hs_rs hs_messages]. erewrite (read_payload _ _ _ _ _ _ _ _ _ 48%nat).
    2: exact K3.
    2: {
      erewrite fold_token by (eapply read_s; [done|rewrite !length_app; lia|exact Lsk|change (0 + 48)%nat with 48%nat; rewrite S0; exact R1]).
      by erewrite fold_token by (eapply read_dh; [token_in|exact D']). }
    + erewrite se_bind_eq; [reflexivity|]. unfold maybe_split. cbn [hs_messages hs_ss]. by rewrite Hs.
    + rewrite S1. exact R2.
Qed.

(** ** The whole handshake *)

Lemma dh_comm a b : length a = 32%nat → length b = 32%nat →
  ∃ k, dh a (x25519_public b) = Ok k ∧ dh b (x25519_public a) = Ok k.
Proof.
  intros Ha Hb. destruct (x25519_comm a b Ha Hb) as (k & H1 & H2). exists k. unfold dh.
  by rewrite !length_x25519_public, Ha, Hb.
Qed.

Definition protocol_name (n : bytes) : Prop := n = NOISE_PROTOCOL_CHACHA ∨ n = NOISE_PROTOCOL_AESGCM.

Lemma init_eq name prologue : protocol_name name →
  ∃ ss, ss_ok ss ∧ cs_k (ss_cs ss) = None ∧ ∀ k, length k = 32%nat →
    let st := mkHS ss (mkKP k (x25519_public k)) None None None _XX_INITIATOR_MESSAGES in
    NoiseHandshake_init k prologue name = Ok st ∧ ServerHandshake_init k prologue name = Ok st.
Proof.
  intros Hn. unfold NoiseHandshake_init, ServerHandshake_init, HandshakeState_init, SymmetricState_init.
  assert (∃ c, cipher_name c ∧ (if decide (name = NOISE_PROTOCOL_CHACHA) then Ok (u "ChaChaPoly")
            else if decide (name = NOISE_PROTOCOL_AESGCM) then Ok (u "AESGCM") else Raise ValueError) = Ok c ∧
          (if decide (name = NOISE_PROTOCOL_AESGCM) then u "AESGCM" else u "ChaChaPoly") = c) as (c & Hc & E1 & E2).
  { destruct Hn as [-> | ->]; (eexists; split_and!; [|reflexivity|reflexivity]); [by left|by right]. }
  rewrite E1, E2. rbind. unfold CipherState_init. rewrite bool_decide_true by exact Hc. rbind. cbn zeta.
  set (h := if (_ <=? _)%nat then _ else _). assert (length h = 32%nat) as Lh.
  { unfold h. destruct (Nat.leb_spec (length name) HASHLEN); [|apply length_sha256].
    rewrite length_app, length_replicate. unfold HASHLEN in *. lia. }
  clearbody h. exists (mixed_hash prologue (mkSS (mkCS c None 0) c h h)). split_and!.
  - apply mixed_hash_ok. by split.
  - reflexivity.
  - intros k Hk. cbn -[x25519_public u]. by rewrite private_to_public_eq.
Qed.

Context {C : HandshakeCodec} {CL : HandshakeCodecLaws C}.

Lemma rejoin (n m : nat) (w : bytes) : take n w ++ slice n m w ++ drop m w = w ∨ (m < n)%nat.
Proof.
  destruct (decide (m < n)%nat); [by right|]. left. unfold slice.
  rewrite <-(take_drop n w) at 4. f_equal. rewrite <-(take_drop (m - n) (drop n w)) at 2. f_equal.
  rewrite drop_drop. f_equal. lia.
Qed.

(** The two transports, mirrored. *)
Record mirrored (tc ts : NoiseTransport) : Prop := {
  mir_up : nt_send tc = nt_recv ts;
  mir_down : nt_recv tc = nt_send ts;
  mir_hash : nt_h tc = nt_h ts;
  mir_send : cs_keyed (nt_send tc) ∧ 0 ≤ cs_n (nt_send tc) ≤ _REKEY_INTERVAL;
  mir_recv : cs_keyed (nt_recv tc) ∧ 0 ≤ cs_n (nt_recv tc) ≤ _REKEY_INTERVAL
}.

Lemma handshake_run name prologue sc ec ec' ks es pc ps : protocol_name name →
  length sc = 32%nat → length ec = 32%nat → length ks = 32%nat → length es = 32%nat →
  Z.of_nat (length pc) < 2 ^ 31 - 16 → Z.of_nat (length ps) < 2 ^ 31 - 16 →
  ∃ stc sts tc ts, NoiseHandshake_init sc prologue name = Ok stc ∧ ServerHandshake_init ks prologue name = Ok sts ∧
    mirrored tc ts ∧
    rtc pipe_step (perform ec ec' pc stc, server_perform es ps sts, [], [])
      (PDone (Ok tc), PDone (Ok (ts, pc)), [], []).
Proof.
  intros Hn Lsc Lec Lks Les Lpc Lps. destruct (init_eq name prologue Hn) as (ss & Hss & Hk & Hi).
  destruct (Hi sc Lsc) as [Ec _]. destruct (Hi ks Lks) as [_ Es]. rewrite Ec, Es.
  destruct (dh_comm ec es Lec Les) as (k1 & D1 & D1'). destruct (dh_comm ec ks Lec Lks) as (k2 & D2 & D2').
  destruct (dh_comm sc es Lsc Les) as (k3 & D3 & D3'). pose proof (length_x25519_public ec) as Lpe.
  unfold _XX_INITIATOR_MESSAGES.
  pose proof (mixed_hash_ok (x25519_public ec) ss Hss) as Hss1. set (ss1 := mixed_hash (x25519_public ec) ss) in *.
  destruct (leg2 ss1 ks es k1 k2 None (x25519_public ec) None (mkKP sc (x25519_public sc)) (mkKP ec (x25519_public ec))
    None None ps [Ts; Tse] [] Lks Les Lps Hss1 D1' D1 D2' D2) as (w & ss2 & W2 & R2 & Hw & Hss2 & K2 & N2).
  destruct (leg3 ss2 sc k3 (x25519_public es) (mkKP es (x25519_public es)) (Some (mkKP ec (x25519_public ec)))
    (Some (x25519_public ks)) (Some (x25519_public ec)) None pc Lsc Lpc Hss2 K2 N2 D3 D3' ec' (mkKP ks (x25519_public ks)))
    as (w3 & ss3 & c1 & c2 & W3 & R3 & K1 & K2' & N1 & N2').
  do 2 eexists. exists (mkNT c1 c2 (ss_h ss3)), (mkNT c2 c1 (ss_h ss3)).
  split_and!; [reflexivity|reflexivity|split; cbn; try done; rewrite ?N1, ?N2'; split; try done; unfold _REKEY_INTERVAL; cbn; lia|].
  unfold perform. rewrite leg1_write by done. fold ss1.
  eapply rtc_l; [apply left_send|]. cbn [app]. eapply rtc_l; [apply right_recv|].
  rbind. rewrite hm_parse_serialize. cbn [client_hello sub from_option id h_ephemeral].
  rewrite take_ge by (unfold DHLEN; lia). rewrite leg1_read by done. fold ss1. cbv beta iota. rewrite W2.
  eapply rtc_l; [apply right_send|]. cbn [app]. eapply rtc_l; [apply left_recv|].
  cbv beta iota. rewrite hm_parse_serialize. cbv beta iota zeta. cbn [server_hello sub from_option id h_ephemeral h_static h_payload].
  cbn [negb truthy]. change DHLEN with 32%nat. change (32 + 32 + _TAG_LEN)%nat with 80%nat.
  destruct (rejoin 32 80 w) as [->|]; [|lia]. rewrite Hw. destruct (x25519_public es) as [|b0 l0] eqn:Epub.
  { pose proof (length_x25519_public es) as L. by rewrite Epub in L. }
  cbn [truthy negb]. rewrite <-Epub in *. rewrite R2. cbv beta iota. rewrite W3.
  eapply rtc_l; [apply left_send|]. cbn [app]. eapply rtc_l; [apply right_recv|].
  rbind. rewrite hm_parse_serialize. cbn [client_finish sub from_option id h_static h_payload]. rewrite take_drop, R3. apply rtc_refl.
Qed.

(** ** The transport *)

(** What both directions of a connected transport do with one message. *)
Lemma rekey_due_keyed cs : cs_keyed cs → 0 ≤ cs_n cs ≤ _REKEY_INTERVAL →
  ∃ cs', rekey_due cs = (cs', Ok tt) ∧ cs_keyed cs' ∧ 0 ≤ cs_n cs' < _REKEY_INTERVAL.
Proof.
  intros [Hn (k & Hk & Hl)] Hr. unfold rekey_due. erewrite se_bind_eq by reflexivity.
  destruct (Z.leb_spec _REKEY_INTERVAL (cs_n cs)) as [Hle|Hlt].
  - destruct (aead_round (cs_cipher cs) k (Z.shiftl 1 64 - 1) [] (replicate 32 (mkb 0)) Hn Hl) as (ct & E & Lct & _).
    { by vm_compute. }
    { by vm_compute. }
    erewrite se_bind_eq; [|unfold rekey; rewrite Hk, E; reflexivity]. eexists. split; [reflexivity|].
    split; [|by vm_compute]. split; [done|]. eexists. split; [reflexivity|].
    rewrite length_take, Lct, length_replicate. lia.
  - exists cs. split_and!; [done|split; eauto|lia|done].
Qed.

(** One message: the sender's and the receiver's cipher states move alike. *)
Lemma one_message cs p : cs_keyed cs → 0 ≤ cs_n cs ≤ _REKEY_INTERVAL → Z.of_nat (length p) < 2 ^ 31 - 16 →
  ∃ cs0 cs' ct, rekey_due cs = (cs0, Ok tt) ∧ encrypt_with_ad [] p cs0 = (cs', Ok ct) ∧
    decrypt_with_ad [] ct cs0 = (cs', Ok p) ∧ cs_keyed cs' ∧ 0 ≤ cs_n cs' ≤ _REKEY_INTERVAL.
Proof.
  intros Hk Hr Hp. destruct (rekey_due_keyed cs Hk Hr) as (cs0 & E & Hk0 & Hr0).
  assert (_REKEY_INTERVAL < 2 ^ 64) as Hi by (by vm_compute).
  destruct (cs_round cs0 [] p) as (ct & He & _ & Hd); [done|lia|by split; cbn; lia|].
  exists cs0, (cs_next cs0), ct. split_and!; try done; [|cbn; lia..].
  destruct Hk0 as [Hn Hk0]. by split.
Qed.

(** The two ends and the frames under way; the events are calls of [send] and of
    [recv] that a frame is there for. *)
Inductive side := Client | Server.
Inductive event := Send (s : side) (p : bytes) | Recv (s : side).

Record connection := mkConn { cn_client : NoiseTransport; cn_server : NoiseTransport; cn_up : list bytes; cn_down : list bytes }.

(** The new connection and what the call gave: [None] when [recv] still waits. *)
Definition conn_step (c : connection) (ev : event) : connection * option (result bytes) :=
  match ev with
  | Send Client p =>
      let '(t, r) := transport_send p (cn_client c) in
      (mkConn t (cn_server c) (cn_up c ++ match r with Ok f => [f] | _ => [] end) (cn_down c), Some r)
  | Send Server p =>
      let '(t, r) := transport_send p (cn_server c) in
      (mkConn (cn_client c) t (cn_up c) (cn_down c ++ match r with Ok f => [f] | _ => [] end), Some r)
  | Recv Server =>
      match cn_up c with
      | [] => (c, None)
      | f :: fs => let '(t, r) := transport_recv (Ok f) (cn_server c) in (mkConn (cn_client c) t fs (cn_down c), Some r)
      end
  | Recv Client =>
      match cn_down c with
      | [] => (c, None)
      | f :: fs => let '(t, r) := transport_recv (Ok f) (cn_client c) in (mkConn t (cn_server c) (cn_up c) fs, Some r)
      end
  end.

(** The specification: two queues of plaintexts. *)
Definition queues : Type := list bytes * list bytes.

Definition queue_step (q : queues) (ev : event) : queues * option (option bytes) :=
  match ev with
  | Send Client p => ((q.1 ++ [p], q.2), Some None)
  | Send Server p => ((q.1, q.2 ++ [p]), Some None)
  | Recv Server => match q.1 with [] => (q, None) | p :: ps => ((ps, q.2), Some (Some p)) end
  | Recv Client => match q.2 with [] => (q, None) | p :: ps => ((q.1, ps), Some (Some p)) end
  end.

(** The outputs match: a call that waits waits, a send succeeds, a receive gives the plaintext. *)
Definition output_ok (o : option (result bytes)) (a : option (option bytes)) : Prop :=
  match a with
  | None => o = None
  | Some None => ∃ f, o = Some (Ok f)
  | Some (Some p) => o = Some (Ok p)
  end.

(** The receiver [r] is behind the sender [s] by the frames under way. *)
Fixpoint behind (s r : CipherState) (fs ps : list bytes) : Prop :=
  match fs, ps with
  | [], [] => r = s
  | f :: fs, p :: ps => ∃ r0 r', rekey_due r = (r0, Ok tt) ∧ decrypt_with_ad [] f r0 = (r', Ok p) ∧ behind s r' fs ps
  | _, _ => False
  end.

Lemma behind_snoc s s' s0 r f p fs ps : rekey_due s = (s0, Ok tt) → decrypt_with_ad [] f s0 = (s', Ok p) →
  behind s r fs ps → behind s' r (fs ++ [f]) (ps ++ [p]).
Proof.
  intros Hd He. revert r ps. induction fs as [|f' fs IH]; intros r [|p' ps] H; cbn in *; try done.
  - subst. eauto 6.
  - destruct H as (r0 & r' & ? & ? & H). eauto 6.
Qed.

Record conn_ok (c : connection) (q : queues) : Prop := {
  co_up : behind (nt_send (cn_client c)) (nt_recv (cn_server c)) (cn_up c) q.1;
  co_down : behind (nt_send (cn_server c)) (nt_recv (cn_client c)) (cn_down c) q.2;
  co_client : cs_keyed (nt_send (cn_client c)) ∧ 0 ≤ cs_n (nt_send (cn_client c)) ≤ _REKEY_INTERVAL;
  co_server : cs_keyed (nt_send (cn_server c)) ∧ 0 ≤ cs_n (nt_send (cn_server c)) ≤ _REKEY_INTERVAL
}.

Definition event_ok (ev : event) : Prop :=
  match ev with Send _ p => Z.of_nat (length p) < 2 ^ 31 - 16 | Recv _ => True end.

Lemma conn_step_ok c q ev : conn_ok c q → event_ok ev →
  conn_ok (conn_step c ev).1 (queue_step q ev).1 ∧ output_ok (conn_step c ev).2 (queue_step q ev).2.
Proof.
  destruct c as [[cs cr ch] [ss sr sh] up down], q as [pu pd]. intros [Hup Hdown [Kc Nc] [Ks Ns]] Hev. cbn in *.
  destruct ev as [[|] p|[|]]; cbn in Hev |- *.
  - destruct (one_message cs p Kc Nc Hev) as (cs0 & cs' & ct & Hr & He & Hd & Hk & Hn).
    unfold transport_send, on_send, mbind, se_bind. cbn. rewrite Hr. cbn. rewrite He. cbn.
    split; [|eauto]. split; cbn; try done. by eapply behind_snoc.
  - destruct (one_message ss p Ks Ns Hev) as (cs0 & cs' & ct & Hr & He & Hd & Hk & Hn).
    unfold transport_send, on_send, mbind, se_bind. cbn. rewrite Hr. cbn. rewrite He. cbn.
    split; [|eauto]. split; cbn; try done. by eapply behind_snoc.
  - destruct down as [|f fs], pd as [|p ps]; try done. destruct Hdown as (r0 & r' & Hr & Hd & Hb).
    unfold transport_recv, on_recv, mbind, se_bind, se_lift. cbn. rewrite Hr. cbn. rewrite Hd. cbn. done.
  - destruct up as [|f fs], pu as [|p ps]; try done. destruct Hup as (r0 & r' & Hr & Hd & Hb).
    unfold transport_recv, on_recv, mbind, se_bind, se_lift. cbn. rewrite Hr. cbn. rewrite Hd. cbn. done.
Qed.

(** The outputs of a sequence of events. *)
Fixpoint conn_run (c : connection) (evs : list event) : connection * list (option (result bytes)) :=
  match evs with
  | [] => (c, [])
  | ev :: evs => let '(c, o) := conn_step c ev in let '(c, os) := conn_run c evs in (c, o :: os)
  end.

Fixpoint queue_run (q : queues) (evs : list event) : queues * list (option (option bytes)) :=
  match evs with
  | [] => (q, [])
  | ev :: evs => let '(q, o) := queue_step q ev in let '(q, os) := queue_run q evs in (q, o :: os)
  end.

Lemma conn_run_ok evs : ∀ c q, conn_ok c q → Forall event_ok evs →
  conn_ok (conn_run c evs).1 (queue_run q evs).1 ∧ Forall2 output_ok (conn_run c evs).2 (queue_run q evs).2.
Proof.
  induction evs as [|ev evs IH]; intros c q Hc Hev; [by split; [|constructor]|].
  apply Forall_cons in Hev as [He Hev]. destruct (conn_step_ok c q ev Hc He) as [Hc' Ho]. cbn [conn_run queue_run].
  destruct (conn_step c ev) as [c1 o1], (queue_step q ev) as [q1 a1]. destruct (IH c1 q1 Hc' Hev) as [H1 H2].
  destruct (conn_run c1 evs) as [c2 os], (queue_run q1 evs) as [q2 as']. cbn in *. auto.
Qed.

Lemma mirrored_ok tc ts : mirrored tc ts → conn_ok (mkConn tc ts [] []) ([], []).
Proof. intros [Hu Hd _ Hs Hr]. split; cbn; [done..|]. by rewrite <-Hd. Qed.
End Noise.

(** ** What a coroutine can end with *)

(** Some answers of the channel make the coroutine end with the result. *)
Inductive outcome {T} : proc T → result T → Prop :=
  | out_done r : outcome (PDone r) r
  | out_send f k a r : outcome (k a) r → outcome (PSend f k) r
  | out_recv k a r : outcome (k a) r → outcome (PRecv k) r.

Lemma failed_outcome {T} e (r : result T) : outcome (handshake_failed e) r → r = Raise HandshakeError.
Proof. unfold handshake_failed. case_decide as D; inversion 1; subst; done. Qed.

(** Follow a coroutine to its end. *)
Ltac outcomes :=
  repeat match goal with
  | H : outcome (handshake_failed _) _ |- _ => right; by apply failed_outcome in H
  | H : outcome (PDone _) _ |- _ => inversion H; subst; by left; eexists
  | H : outcome (PSend _ _) _ |- _ => inversion H; subst; clear H
  | H : outcome (PRecv _) _ |- _ => inversion H; subst; clear H
  | H : outcome (match ?x with _ => _ end) _ |- _ => destruct x
  end.

(** ** Properties *)

(** C32: for both protocol names, a client and the responder that run the handshake over
    a pipe complete it with the same transcript hash and mirrored cipher states, and the
    responder receives the client's payload; every schedule of their steps can be
    continued to that end. *)
Theorem noise_handshake_agreement {X : X25519} {XL : X25519Laws X} {A : Aead} {AL : AeadLaws A}
    {C : HandshakeCodec} {CL : HandshakeCodecLaws C}
    name prologue sc ec ec' ks es pc ps : protocol_name name →
  length sc = 32%nat → length ec = 32%nat → length ks = 32%nat → length es = 32%nat →
  Z.of_nat (length pc) < 2 ^ 31 - 16 → Z.of_nat (length ps) < 2 ^ 31 - 16 →
  ∃ stc sts tc ts, NoiseHandshake_init sc prologue name = Ok stc ∧ ServerHandshake_init ks prologue name = Ok sts ∧
    nt_send tc = nt_recv ts ∧ nt_recv tc = nt_send ts ∧ nt_h tc = nt_h ts ∧
    ∀ c, rtc pipe_step (perform ec ec' pc stc, server_perform es ps sts, [], []) c →
         rtc pipe_step c (PDone (Ok tc), PDone (Ok (ts, pc)), [], []).
Proof.
  intros Hn L1 L2 L3 L4 Lc Ls.
  destruct (handshake_run name prologue sc ec ec' ks es pc ps Hn L1 L2 L3 L4 Lc Ls) as (stc & sts & tc & ts & E1 & E2 & [] & Hr).
  exists stc, sts, tc, ts. split_and!; try done. apply pipe_end; [exact Hr|]. intros x Hx. inversion Hx.
Qed.

Lemma noise_handshake_agreement_witness :
  let k n := replicate 32 (mkb n) in
  ∃ stc sts tc ts, NoiseHandshake_init (X := toy_x25519) (k 1) DEFAULT_PROLOGUE NOISE_PROTOCOL_AESGCM = Ok stc ∧
    ServerHandshake_init (X := toy_x25519) (k 3) DEFAULT_PROLOGUE NOISE_PROTOCOL_AESGCM = Ok sts ∧
    nt_send tc = nt_recv ts ∧ nt_recv tc = nt_send ts ∧ nt_h tc = nt_h ts ∧
    ∀ c, rtc pipe_step (perform (X := toy_x25519) (A := toy_aead) (C := toy_handshake_codec) (k 2) (k 5) [mkb 7] stc,
                        server_perform (X := toy_x25519) (A := toy_aead) (C := toy_handshake_codec) (k 4) [mkb 8; mkb 9] sts, [], []) c →
         rtc pipe_step c (PDone (Ok tc), PDone (Ok (ts, [mkb 7])), [], []).
Proof.
  intros k. apply (noise_handshake_agreement (X := toy_x25519) (A := toy_aead) (C := toy_handshake_codec));
    [by right|reflexivity..].
Defined.

(** C6: after a handshake the connection refines two first-in first-out queues of
    plaintexts: whatever calls the two ends make, a [recv] waits exactly when nothing is
    under way to it and otherwise returns the oldest message sent, across every rekeying,
    and a cipher's nonce never passes [2 ** 31]. *)
Theorem noise_transport_fifo {A : Aead} {AL : AeadLaws A} tc ts evs : mirrored tc ts → Forall event_ok evs →
  Forall2 output_ok (conn_run (mkConn tc ts [] []) evs).2 (queue_run ([], []) evs).2 ∧
  let c := (conn_run (mkConn tc ts [] []) evs).1 in
  0 ≤ cs_n (nt_send (cn_client c)) ≤ 2 ^ 31 ∧ 0 ≤ cs_n (nt_send (cn_server c)) ≤ 2 ^ 31.
Proof.
  intros Hm Hev. destruct (conn_run_ok evs _ _ (mirrored_ok _ _ Hm) Hev) as [[_ _ [_ Hc] [_ Hs]] Ho]. auto.
Qed.

Lemma noise_transport_fifo_witness :
  let cs n := mkCS (u "ChaChaPoly") (Some (replicate 32 (mkb n))) (2 ^ 31) in
  let tc := mkNT (cs 1) (cs 2) [] in let ts := mkNT (cs 2) (cs 1) [] in
  let evs := [Send Client [mkb 1]; Recv Client; Send Client []; Send Server [mkb 3]; Recv Server; Recv Client; Recv Server] in
  Forall2 output_ok (conn_run (A := toy_aead) (mkConn tc ts [] []) evs).2 (queue_run ([], []) evs).2 ∧
  let c := (conn_run (A := toy_aead) (mkConn tc ts [] []) evs).1 in
  0 ≤ cs_n (nt_send (cn_client c)) ≤ 2 ^ 31 ∧ 0 ≤ cs_n (nt_send (cn_server c)) ≤ 2 ^ 31.
Proof.
  intros cs tc ts evs. apply (noise_transport_fifo (A := toy_aead)).
  - split; cbn; try done; (split; [split; [by left|eexists; split; reflexivity]|by vm_compute]).
  - repeat constructor.
Defined.

(** Whatever the channel and the peer do, [perform] ends with a transport or raises
    [HandshakeError], never another exception. *)
Lemma perform_errors {X : X25519} {A : Aead} {C : HandshakeCodec} eph eph' payload st r :
  outcome (perform eph eph' payload st) r → (∃ t, r = Ok t) ∨ r = Raise HandshakeError.
Proof.
  unfold perform. intros H. outcomes.
Qed.
