(* ===== verification/FrameSocket.v ===== *)
(** * The framed websocket ([src/src/pywhats/socket/transport.py])

    [NoiseSocket] as a state machine: the callers of [send_frame], [recv_frame],
    [connect] and [disconnect], and the reader task with its bounded queue, step in any
    order. An event that cannot happen in a state is disabled. *)

From S2P Require Import Prelude.

Definition _MAX_FRAME_LEN : Z := Z.shiftl 1 24 - 1.

Inductive item := Frame (b : bytes) | Sentinel.

(** ** The state *)

Record NoiseSocket := mkSock {
  ws_open : bool;                 (* [_ws is not None] *)
  sk_closed : bool;               (* [_closed] *)
  sk_close_exc : bool;            (* [_close_exc is not None] *)
  sk_inbound : list item;         (* [_inbound] *)
  sk_maxsize : nat;               (* its [maxsize] *)
  sk_reader : option (list bytes); (* the running reader task, with the frames it still has to queue *)
  sk_putting : nat;               (* calls of [disconnect] that await their final [put] *)
  sk_intro : bytes                (* [_intro_prefix] *)
}.

Definition NoiseSocket_init (queue_maxsize : nat) : NoiseSocket :=
  mkSock false false false [] queue_maxsize None 0 [].

Definition is_connected (s : NoiseSocket) : bool := ws_open s && negb (sk_closed s).

(** [asyncio.Queue.full()]: a [maxsize] of 0 means no bound. *)
Definition full (s : NoiseSocket) : bool := negb (sk_maxsize s =? 0)%nat && (sk_maxsize s <=? length (sk_inbound s))%nat.

Definition put_item (i : item) (s : NoiseSocket) : NoiseSocket :=
  mkSock (ws_open s) (sk_closed s) (sk_close_exc s) (sk_inbound s ++ [i]) (sk_maxsize s) (sk_reader s) (sk_putting s) (sk_intro s).

(** ** Framing *)

Definition frame (payload : bytes) : bytes := be_bytes 3 (Z.of_nat (length payload)) ++ payload.

(** [send_frame] up to the lock, and under it: the bytes given to [ws.send]. *)
Definition send_check (payload : bytes) (s : NoiseSocket) : result unit :=
  if negb (ws_open s) || sk_closed s then Raise NotConnected
  else if _MAX_FRAME_LEN <? Z.of_nat (length payload) then Raise ValueError
  else Ok tt.

(** What [await ws.send(..)] does: succeed, raise the websocket's own [ConnectionClosed], or
    raise something else. *)
Inductive ws_result := WsOk | WsClosed | WsError (e : exn).

Definition send_locked (payload : bytes) (sent : ws_result) : SE NoiseSocket bytes := λ s,
  if negb (ws_open s) then (s, Raise NotConnected)
  else
    let out := sk_intro s ++ frame payload in
    let s := mkSock (ws_open s) (sk_closed s) (sk_close_exc s) (sk_inbound s) (sk_maxsize s) (sk_reader s) (sk_putting s) [] in
    match sent with
    | WsOk => (s, Ok out)
    | WsClosed => (mkSock (ws_open s) (sk_closed s) true (sk_inbound s) (sk_maxsize s) (sk_reader s) (sk_putting s) (sk_intro s),
                   Raise ConnectionClosed)
    | WsError e => (s, Raise e)
    end.

Definition send_frame (payload : bytes) (sent : ws_result) : SE NoiseSocket bytes := λ s,
  match send_check payload s with
  | Raise e => (s, Raise e)
  | Ok _ => send_locked payload sent s
  end.

(** The [while off + 3 <= len(data)] loop; the result is [off] and [frames]. [fuel] bounds
    its rounds: every round moves [off] by at least 3. *)
Fixpoint parse_frames (fuel : nat) (data : bytes) (off : nat) (frames : list bytes) : nat * list bytes :=
  match fuel with
  | O => (off, frames)
  | S fuel =>
      if (off + 3 <=? length data)%nat then
        let declared := Z.to_nat (be_val (slice off (off + 3) data)) in
        if (length data <? off + 3 + declared)%nat then (off, frames)
        else parse_frames fuel data (off + 3 + declared) (frames ++ [slice (off + 3) (off + 3 + declared) data])
      else (off, frames)
  end.

(** What the reader does with one websocket message. *)
Inductive delivery := Deliver (frames : list bytes) | CloseFrame | Ignore.

Definition read_message (data : bytes) : delivery :=
  let '(off, frames) := parse_frames (length data) data 0 [] in
  if (3 <=? length data)%nat && (off =? length data)%nat && truthy frames then Deliver frames
  else
    let short := (3 <=? length data)%nat && (length data <=? 6)%nat in
    if short && bool_decide (head data = Some (mkb 0x88)) then CloseFrame
    else if short && bool_decide (head data ∈ [Some (mkb 0x89); Some (mkb 0x8A)]) then Ignore
    else Deliver [data].

(** ** The tasks *)

(** The [finally] of [_reader_loop]; the sentinel is dropped when the queue is full. *)
Definition reader_finally (s : NoiseSocket) : NoiseSocket :=
  let s := mkSock (ws_open s) true (sk_close_exc s) (sk_inbound s) (sk_maxsize s) None (sk_putting s) (sk_intro s) in
  if full s then s else put_item Sentinel s.

(** The loop ends with a recorded reason. *)
Definition reader_end (s : NoiseSocket) : NoiseSocket :=
  reader_finally (mkSock (ws_open s) (sk_closed s) true (sk_inbound s) (sk_maxsize s) (sk_reader s) (sk_putting s) (sk_intro s)).

Inductive sock_event :=
  | EvConnect (r : result unit)       (* [connect()]; what opening the websocket does *)
  | EvSend (payload : bytes) (sent : ws_result)
  | EvRecv                            (* [recv_frame()] *)
  | EvMessage (data : bytes)          (* the reader takes a websocket message *)
  | EvPut                             (* the reader's [put] of a frame goes through *)
  | EvEnd                             (* the websocket closes, fails, or reaches its end *)
  | EvDisconnect                      (* [disconnect()] up to its final [put] *)
  | EvDisconnectPut.                  (* that [put] goes through *)

(** What the caller sees. *)
Inductive sock_output :=
  | Silent
  | Raised (e : exn)
  | Sent (b : bytes)
  | Received (b : bytes)
  | Waits.

Definition connect (r : result unit) (s : NoiseSocket) : NoiseSocket * sock_output :=
  if ws_open s then (s, Raised RuntimeError)
  else match r with
  | Ok _ => (mkSock true false false (sk_inbound s) (sk_maxsize s) (Some []) (sk_putting s) (sk_intro s), Silent)
  | Raise e => (s, Raised e)
  end.

(** [recv_frame]: with an empty queue [get] waits. *)
Definition recv_frame (s : NoiseSocket) : NoiseSocket * sock_output :=
  match sk_inbound s with
  | [] => if sk_closed s && sk_close_exc s then (s, Raised ConnectionClosed) else (s, Waits)
  | i :: l =>
      let s := mkSock (ws_open s) (sk_closed s) (sk_close_exc s) l (sk_maxsize s) (sk_reader s) (sk_putting s) (sk_intro s) in
      match i with Sentinel => (s, Raised ConnectionClosed) | Frame b => (s, Received b) end
  end.

(** [disconnect] up to its final [put]: the reader task is cancelled and runs its [finally].
    (A task cancelled before its first step has no [finally] to run; the sentinel it is given
    here comes on top of the one that [disconnect] itself puts.) *)
Definition disconnect (s : NoiseSocket) : NoiseSocket :=
  if sk_closed s && negb (ws_open s) then s
  else
    let s := mkSock false true (sk_close_exc s) (sk_inbound s) (sk_maxsize s) (sk_reader s) (sk_putting s) (sk_intro s) in
    let s := match sk_reader s with Some _ => reader_finally s | None => s end in
    mkSock (ws_open s) (sk_closed s) (sk_close_exc s) (sk_inbound s) (sk_maxsize s) (sk_reader s) (S (sk_putting s)) (sk_intro s).

Definition with_reader (r : option (list bytes)) (s : NoiseSocket) : NoiseSocket :=
  mkSock (ws_open s) (sk_closed s) (sk_close_exc s) (sk_inbound s) (sk_maxsize s) r (sk_putting s) (sk_intro s).

Definition sock_step (s : NoiseSocket) (ev : sock_event) : option (NoiseSocket * sock_output) :=
  match ev with
  | EvConnect r => Some (connect r s)
  | EvSend payload sent =>
      let '(s, r) := send_frame payload sent s in Some (s, match r with Ok b => Sent b | Raise e => Raised e end)
  | EvRecv => Some (recv_frame s)
  | EvMessage data =>
      match sk_reader s with
      | Some [] =>
          Some (match read_message data with
                | Deliver frames => with_reader (Some frames) s
                | CloseFrame => reader_end s
                | Ignore => s
                end, Silent)
      | _ => None
      end
  | EvPut =>
      match sk_reader s with
      | Some (f :: fs) => if full s then None else Some (put_item (Frame f) (with_reader (Some fs) s), Silent)
      | _ => None
      end
  | EvEnd => match sk_reader s with Some [] => Some (reader_end s, Silent) | _ => None end
  | EvDisconnect => Some (disconnect s, Silent)
  | EvDisconnectPut =>
      match sk_putting s with
      | O => None
      | S n => if full s then None
               else Some (mkSock (ws_open s) (sk_closed s) (sk_close_exc s) (sk_inbound s ++ [Sentinel]) (sk_maxsize s)
                            (sk_reader s) n (sk_intro s), Silent)
      end
  end.

(** A run of events and its outputs; [None] when an event is disabled. *)
Fixpoint sock_run (s : NoiseSocket) (evs : list sock_event) : option (NoiseSocket * list sock_output) :=
  match evs with
  | [] => Some (s, [])
  | ev :: evs =>
      match sock_step s ev with
      | None => None
      | Some (s, o) => match sock_run s evs with None => None | Some (s, os) => Some (s, o :: os) end
      end
  end.

(** ** The keepalive task, when enabled *)

Inductive ping_outcome := Pong | PingTimeout | PingClosed.

(** One round: the count of missed pongs, or [None] when the task ends. *)
Definition keepalive_round (max_missed_pongs missed : Z) (o : ping_outcome) (s : NoiseSocket) : NoiseSocket * option Z :=
  let noted := mkSock (ws_open s) (sk_closed s) true (sk_inbound s) (sk_maxsize s) (sk_reader s) (sk_putting s) (sk_intro s) in
  if negb (ws_open s) || sk_closed s then (s, None)
  else match o with
  | Pong => (s, Some 0)
  | PingTimeout => if max_missed_pongs <=? missed + 1 then (noted, None) else (s, Some (missed + 1))
  | PingClosed => (noted, None)
  end.

(** ** Framing undoes itself *)

Lemma length_frame p : length (frame p) = (3 + length p)%nat.
Proof. unfold frame. by rewrite length_app, length_be_bytes. Qed.

(** More fuel than rounds changes nothing. *)
Lemma parse_frames_fuel fuel fuel' data off fs : (length data - off <= 3 * fuel)%nat → (fuel <= fuel')%nat →
  parse_frames fuel' data off fs = parse_frames fuel data off fs.
Proof.
  revert fuel' off fs. induction fuel as [|fuel IH]; intros fuel' off fs Hl Hf; destruct fuel' as [|fuel']; try done; try lia.
  - cbn [parse_frames]. destruct (Nat.leb_spec (off + 3) (length data)); [lia|done].
  - cbn [parse_frames]. destruct (Nat.leb_spec (off + 3) (length data)); [|done].
    destruct (Nat.ltb_spec (length data) (off + 3 + Z.to_nat (be_val (slice off (off + 3) data)))); [done|].
    apply IH; lia.
Qed.

(** One round on a whole frame. *)
Lemma parse_frame fuel pre p rest fs : Z.of_nat (length p) <= _MAX_FRAME_LEN →
  parse_frames (S fuel) (pre ++ frame p ++ rest) (length pre) fs =
  parse_frames fuel (pre ++ frame p ++ rest) (length pre + length (frame p)) (fs ++ [p]).
Proof.
  intros Hp. cbn [parse_frames].
  assert (slice (length pre) (length pre + 3) (pre ++ frame p ++ rest) = be_bytes 3 (Z.of_nat (length p))) as ->.
  { unfold slice, frame. rewrite drop_app_length, <-app_assoc. replace (length pre + 3 - length pre)%nat with 3%nat by lia.
    by apply take_app_length'; rewrite length_be_bytes. }
  rewrite be_val_bytes by (change _MAX_FRAME_LEN with (2 ^ 24 - 1) in Hp; change (256 ^ Z.of_nat 3) with (2 ^ 24); lia). rewrite Nat2Z.id, !length_app, length_frame.
  destruct (Nat.leb_spec (length pre + 3) (length pre + (3 + length p + length rest))); [|lia].
  destruct (Nat.ltb_spec (length pre + (3 + length p + length rest)) (length pre + 3 + length p)); [lia|].
  f_equal; [lia|]. do 2 f_equal. unfold slice, frame.
  rewrite drop_app_ge by lia. replace (length pre + 3 - length pre)%nat with 3%nat by lia.
  rewrite <-app_assoc, drop_app_length' by (by rewrite length_be_bytes). apply take_app_length'. lia.
Qed.

Lemma parse_frames_all ps : ∀ fuel pre fs, Forall (λ p, Z.of_nat (length p) <= _MAX_FRAME_LEN) ps →
  (length ps <= fuel)%nat →
  parse_frames fuel (pre ++ (ps ≫= frame)) (length pre) fs = (length (pre ++ (ps ≫= frame)), fs ++ ps).
Proof.
  induction ps as [|p ps IH]; intros fuel pre fs Hps Hf.
  - cbn. rewrite !app_nil_r. destruct fuel; cbn; [done|]. by destruct (Nat.leb_spec (length pre + 3) (length pre)); [lia|].
  - apply Forall_cons in Hps as [Hp Hps]. destruct fuel as [|fuel]; [cbn in Hf; lia|].
    rewrite bind_cons, parse_frame, <-length_app by done. rewrite (app_assoc pre), IH by (done || cbn in Hf; lia).
    by rewrite <-!app_assoc.
Qed.

Lemma parse_frames_sound fuel data : ∀ off fs off' fs', (off <= length data)%nat →
  parse_frames fuel data off fs = (off', fs') →
  ∃ ps, fs' = fs ++ ps ∧ (off <= off' <= length data)%nat ∧ slice off off' data = ps ≫= frame.
Proof.
  induction fuel as [|fuel IH]; intros off fs off' fs' Ho H; cbn [parse_frames] in H.
  { simplify_eq. exists []. unfold slice. rewrite app_nil_r, Nat.sub_diag. split_and!; [done|lia..|done]. }
  assert (∀ o : nat, (o, fs) = (off', fs') → o = off → ∃ ps, fs' = fs ++ ps ∧ (off <= off' <= length data)%nat ∧ slice off off' data = ps ≫= frame) as Stop.
  { intros o [= -> ->] ->. exists []. unfold slice. rewrite app_nil_r, Nat.sub_diag. split_and!; [done|lia..|done]. }
  destruct (Nat.leb_spec (off + 3) (length data)) as [H3|H3]; [|by eapply Stop].
  set (dec := Z.to_nat _) in H. destruct (Nat.ltb_spec (length data) (off + 3 + dec)) as [Hd|Hd]; [by eapply Stop|].
  apply IH in H as (ps & -> & Hoff & Hs); [|lia].
  exists (slice (off + 3) (off + 3 + dec) data :: ps). split_and!; [by rewrite <-app_assoc|lia..|].
  rewrite bind_cons, <-Hs. unfold frame.
  assert (length (slice (off + 3) (off + 3 + dec) data) = dec) as Hl by (unfold slice; rewrite length_take, length_drop; lia).
  rewrite Hl. unfold dec at 1. rewrite Z2Nat.id by apply be_val_range.
  assert (length (slice off (off + 3) data) = 3%nat) as H3' by (unfold slice; rewrite length_take, length_drop; lia).
  rewrite <-H3' at 1. rewrite be_bytes_val. rewrite !slice_app by lia. done.
Qed.

Lemma length_frames ps : (length ps <= length (ps ≫= frame))%nat.
Proof. induction ps as [|p ps IH]; [done|]. rewrite bind_cons, length_app, length_frame. cbn [length]. lia. Qed.

Lemma read_message_frames ps : truthy ps = true → Forall (λ p, Z.of_nat (length p) <= _MAX_FRAME_LEN) ps →
  read_message (ps ≫= frame) = Deliver ps.
Proof.
  intros Hne Hps. unfold read_message.
  pose proof (parse_frames_all ps (length (ps ≫= frame)) [] [] Hps (length_frames ps)) as K. cbn [app length] in K.
  rewrite K, Nat.eqb_refl, Hne. destruct ps as [|p ps]; [done|]. rewrite bind_cons, length_app, length_frame.
  by destruct (Nat.leb_spec 3 (3 + length p + length (ps ≫= frame))); [|lia].
Qed.

Lemma read_message_sound data fs : read_message data = Deliver fs → fs ≫= frame = data ∨ fs = [data].
Proof.
  unfold read_message. destruct (parse_frames _ _ _ _) as [off frames] eqn:E.
  apply parse_frames_sound in E as (ps & -> & Ho & Hs); [|lia]. cbn [app].
  destruct (_ && truthy ps)%bool eqn:Eb.
  - intros [= <-]. left. apply andb_true_iff in Eb as [[_ Eo]%andb_true_iff _]. apply Nat.eqb_eq in Eo as ->.
    rewrite <-Hs. unfold slice. rewrite drop_0, Nat.sub_0_r. by rewrite take_ge.
  - repeat case_match; intros; simplify_eq; auto.
Qed.

(** ** Frames arrive in order *)

Definition frames_of (l : list item) : list bytes := l ≫= λ i, match i with Frame b => [b] | Sentinel => [] end.

(** Frames that were delivered and not yet received. *)
Definition under_way (s : NoiseSocket) : list bytes := frames_of (sk_inbound s) ++ default [] (sk_reader s).

Definition arrived (ev : sock_event) : list bytes :=
  match ev with EvMessage d => match read_message d with Deliver fs => fs | _ => [] end | _ => [] end.

Definition received (o : sock_output) : list bytes := match o with Received b => [b] | _ => [] end.

(** A task runs only while the websocket is there. *)
Definition reader_ok (s : NoiseSocket) : Prop := ws_open s = false → sk_reader s = None.

Lemma frames_of_app l k : frames_of (l ++ k) = frames_of l ++ frames_of k.
Proof. apply bind_app. Qed.

Lemma finally_under_way s : sk_reader s = Some [] → under_way (reader_finally s) = under_way s.
Proof.
  intros H. unfold under_way, reader_finally, full, put_item. rewrite H. cbn.
  destruct (_ && _)%bool; cbn; rewrite ?frames_of_app, !app_nil_r; done.
Qed.

Lemma send_frame_frame p sent s : let s' := (send_frame p sent s).1 in
  sk_inbound s' = sk_inbound s ∧ sk_reader s' = sk_reader s ∧ ws_open s' = ws_open s ∧ sk_closed s' = sk_closed s ∧
  sk_putting s' = sk_putting s ∧ (sk_close_exc s = true → sk_close_exc s' = true).
Proof. unfold send_frame, send_locked. destruct (send_check p s), (ws_open s) eqn:Ew, sent; cbn; rewrite ?Ew; done. Qed.

(** Projections of the states of the development compute. *)
Ltac sock := cbn [ws_open sk_closed sk_close_exc sk_inbound sk_maxsize sk_reader sk_putting sk_intro].

Lemma step_under_way s ev s' o : reader_ok s → ev ≠ EvDisconnect → sock_step s ev = Some (s', o) →
  reader_ok s' ∧ received o ++ under_way s' = under_way s ++ arrived ev.
Proof.
  intros Hr Hne H. destruct ev as [r|p sent| |d| | | |]; cbn [sock_step arrived] in H |- *; rewrite ?app_nil_r.
  - unfold connect in H. destruct (ws_open s) eqn:Ew; [by simplify_eq|]. unfold reader_ok, under_way in *.
    rewrite Hr by done. destruct r; simplify_eq; cbn; rewrite ?Hr by done; done.
  - pose proof (send_frame_frame p sent s) as F. destruct (send_frame p sent s) as [s1 r]. simplify_eq.
    cbn in F. destruct F as (Fi & Fr & Fw & _). unfold reader_ok, under_way. rewrite Fi, Fr, Fw. by destruct r.
  - unfold recv_frame in H. unfold under_way. destruct (sk_inbound s) as [|[b|] l] eqn:Ei.
    + destruct (_ && _)%bool; simplify_eq; (split; [exact Hr|by rewrite Ei]).
    + simplify_eq. by split.
    + simplify_eq. by split.
  - destruct (sk_reader s) as [[|]|] eqn:Er; try done. simplify_eq. destruct (read_message d) eqn:Em.
    + split; [|unfold under_way; cbn; by rewrite Er, app_nil_r].
      intros Hw. specialize (Hr Hw). congruence.
    + split; [unfold reader_ok, reader_end, reader_finally; by destruct (full _)|].
      rewrite app_nil_r. cbn [received app]. unfold reader_end. rewrite finally_under_way; [done|]. by sock.
    + by rewrite app_nil_r.
  - destruct (sk_reader s) as [[|f fs]|] eqn:Er; try done. destruct (full s); [done|]. simplify_eq.
    split; [intros Hw; specialize (Hr Hw); congruence|].
    unfold under_way. cbn. by rewrite frames_of_app, Er, <-app_assoc.
  - destruct (sk_reader s) as [[|]|] eqn:Er; try done. simplify_eq.
    split; [unfold reader_ok, reader_end, reader_finally; by destruct (full _)|].
    cbn [received app]. unfold reader_end. rewrite finally_under_way; [done|]. by sock.
  - done.
  - destruct (sk_putting s); [done|]. destruct (full s); [done|]. simplify_eq. split; [exact Hr|].
    unfold under_way. cbn. by rewrite frames_of_app, app_nil_r.
Qed.

Lemma run_under_way evs : ∀ s s' outs, reader_ok s → Forall (.≠ EvDisconnect) evs → sock_run s evs = Some (s', outs) →
  (outs ≫= received) ++ under_way s' = under_way s ++ (evs ≫= arrived).
Proof.
  induction evs as [|ev evs IH]; intros s s' outs Hr Hev H; cbn [sock_run] in H; [simplify_eq; by rewrite app_nil_r|].
  apply Forall_cons in Hev as [He Hev]. destruct (sock_step s ev) as [[s1 o]|] eqn:Es; [|done].
  destruct (sock_run s1 evs) as [[s2 os]|] eqn:Er; [|done]. simplify_eq.
  destruct (step_under_way _ _ _ _ Hr He Es) as [Hr1 H1]. rewrite !bind_cons, <-app_assoc, (IH _ _ _ Hr1 Hev Er).
  by rewrite !app_assoc, H1.
Qed.

(** ** A closed socket does not keep its receiver waiting *)

(** Whether a [recv_frame] has reported the close since it happened. *)
Definition told_step (told : bool) (s : NoiseSocket) (ev : sock_event) (o : sock_output) : bool :=
  match ev, o with
  | EvConnect _, Silent => false
  | EvRecv, Raised ConnectionClosed => told || sk_closed s
  | _, _ => told
  end.

Fixpoint told_run (told : bool) (s : NoiseSocket) (evs : list sock_event) : bool :=
  match evs with
  | [] => told
  | ev :: evs => match sock_step s ev with
                 | None => told
                 | Some (s', o) => told_run (told_step told s ev o) s' evs
                 end
  end.

(** Closed by the peer or a failure, a reason is recorded; closed by [disconnect], a
    sentinel is queued or about to be, unless the receiver was told already. *)
Definition wake_ok (told : bool) (s : NoiseSocket) : Prop :=
  sk_closed s = true → sk_close_exc s = true ∨ told = true ∨ Sentinel ∈ sk_inbound s ∨ (0 < sk_putting s)%nat.

Lemma reader_end_wake told s : wake_ok told (reader_end s).
Proof. intros _. left. unfold reader_end, reader_finally. by destruct (full _). Qed.

Lemma step_wake told s ev s' o : wake_ok told s → sock_step s ev = Some (s', o) → wake_ok (told_step told s ev o) s'.
Proof.
  intros Hw H. destruct ev as [r|p sent| |d| | | |]; cbn [sock_step] in H.
  - unfold connect in H. destruct (ws_open s); [by simplify_eq|]. destruct r; simplify_eq; [|done]. by intros [=].
  - pose proof (send_frame_frame p sent s) as F. destruct (send_frame p sent s) as [s1 r]. simplify_eq.
    cbn in F. destruct F as (Fi & _ & _ & Fc & Fp & Fe). unfold wake_ok in *. rewrite Fi, Fc, Fp.
    intros Hc. destruct (Hw Hc) as [|]; [auto|]. right. by destruct r.
  - unfold recv_frame in H. unfold wake_ok in *. destruct (sk_inbound s) as [|[b|] l] eqn:Ei.
    + destruct (_ && _)%bool eqn:Ec; simplify_eq; [|by rewrite Ei]. apply andb_true_iff in Ec as [_ Ee]. auto.
    + simplify_eq. cbn. intros Hc. specialize (Hw Hc). set_solver.
    + simplify_eq. cbn. intros ->. rewrite orb_true_r. auto.
  - destruct (sk_reader s) as [[|]|]; try done. simplify_eq. destruct (read_message d); [done| |done]. apply reader_end_wake.
  - destruct (sk_reader s) as [[|f fs]|]; try done. destruct (full s); [done|]. simplify_eq. unfold wake_ok in *. cbn.
    intros Hc. specialize (Hw Hc). set_solver.
  - destruct (sk_reader s) as [[|]|]; try done. simplify_eq. apply reader_end_wake.
  - simplify_eq. unfold disconnect. destruct (sk_closed s && negb (ws_open s))%bool eqn:Ec; [done|]. intros _. right. right. right. sock. lia.
  - destruct (sk_putting s) eqn:Ep; [done|]. destruct (full s); [done|]. simplify_eq. unfold wake_ok. cbn. intros _. set_solver.
Qed.

Lemma run_wake evs : ∀ told s s' outs, wake_ok told s → sock_run s evs = Some (s', outs) → wake_ok (told_run told s evs) s'.
Proof.
  induction evs as [|ev evs IH]; intros told s s' outs Hw H; cbn [sock_run told_run] in *; [by simplify_eq|].
  destruct (sock_step s ev) as [[s1 o]|] eqn:Es; [|done]. destruct (sock_run s1 evs) as [[s2 os]|] eqn:Er; [|done].
  simplify_eq. eapply IH; [|done]. by eapply step_wake.
Qed.

(** ** Properties *)

(** C33: the reader returns exactly the payloads that [send_frame] framed, when a websocket
    message is any number of whole frames; whatever a message is, it is delivered as the
    frames it consists of or as a whole; and as long as nobody disconnects, [recv_frame]
    returns what was delivered, in order: the received frames, then those queued, then
    those the reader still holds are all that arrived. *)
Theorem frames_in_order ps data n evs s outs :
  truthy ps = true → Forall (λ p, Z.of_nat (length p) <= _MAX_FRAME_LEN) ps →
  Forall (.≠ EvDisconnect) evs → sock_run (NoiseSocket_init n) evs = Some (s, outs) →
  read_message (ps ≫= frame) = Deliver ps ∧
  (∀ fs, read_message data = Deliver fs → fs ≫= frame = data ∨ fs = [data]) ∧
  (outs ≫= received) ++ under_way s = evs ≫= arrived.
Proof.
  intros Hne Hps Hev H. split_and!; [by apply read_message_frames|apply read_message_sound|].
  rewrite (run_under_way _ (NoiseSocket_init n) _ _ ltac:(done) Hev H). reflexivity.
Qed.

Lemma frames_in_order_witness :
  let ps := [[mkb 1; mkb 2]; []; [mkb 3]] in
  let evs := [EvConnect (Ok tt); EvMessage (ps ≫= frame); EvPut; EvRecv; EvPut; EvPut; EvRecv; EvRecv; EvRecv] in
  ∃ s outs, sock_run (NoiseSocket_init 2) evs = Some (s, outs) ∧
  read_message (ps ≫= frame) = Deliver ps ∧
  (∀ fs, read_message [mkb 9] = Deliver fs → fs ≫= frame = [mkb 9] ∨ fs = [[mkb 9]]) ∧
  (outs ≫= received) ++ under_way s = evs ≫= arrived.
Proof.
  intros ps evs. do 2 eexists. split; [vm_compute; reflexivity|].
  apply (frames_in_order ps [mkb 9] 2 evs); [reflexivity|by repeat constructor|by repeat constructor|vm_compute; reflexivity].
Defined.

(** C34: once the socket is closed, by either side and at any moment, a [recv_frame] that
    finds no frame raises [ConnectionClosed] instead of waiting: it waits only if the
    close was already reported, or for the sentinel of a [disconnect] that can be queued
    at once and that wakes it. *)
Theorem closed_socket_wakes n evs s outs : sock_run (NoiseSocket_init n) evs = Some (s, outs) →
  sk_closed s = true → (recv_frame s).2 = Waits →
  told_run false (NoiseSocket_init n) evs = true ∨
  ∃ s', sock_step s EvDisconnectPut = Some (s', Silent) ∧ (recv_frame s').2 = Raised ConnectionClosed.
Proof.
  intros H Hc Hwait. assert (wake_ok false (NoiseSocket_init n)) as H0 by (by intros [=]).
  pose proof (run_wake _ _ _ _ _ H0 H Hc) as Hw. unfold recv_frame in Hwait.
  destruct (sk_inbound s) as [|[b|] l] eqn:Ei; try done. rewrite Hc in Hwait.
  destruct (sk_close_exc s) eqn:Ee; [done|]. destruct Hw as [|[|[Hs|Hp]]]; [done|by left|by apply elem_of_nil in Hs|].
  right. cbn [sock_step]. destruct (sk_putting s); [lia|]. unfold full. rewrite Ei.
  destruct (sk_maxsize s); cbn; eexists; (split; [reflexivity|done]).
Qed.

Lemma closed_socket_wakes_witness :
  let evs := [EvConnect (Ok tt); EvDisconnect; EvRecv; EvDisconnectPut; EvRecv] in
  ∃ s, sock_run (NoiseSocket_init 1) (take 3 evs) = Some (s, [Silent; Silent; Raised ConnectionClosed]) ∧
    sk_closed s = true ∧ (recv_frame s).2 = Waits ∧
    (told_run false (NoiseSocket_init 1) (take 3 evs) = true ∨
     ∃ s', sock_step s EvDisconnectPut = Some (s', Silent) ∧ (recv_frame s').2 = Raised ConnectionClosed).
Proof.
  intros evs. eexists. split; [reflexivity|]. split; [reflexivity|]. split; [reflexivity|].
  by eapply (closed_socket_wakes 1).
Defined.

(** The sentinel of [disconnect] outlives it: after reconnecting, the first [recv_frame]
    reports a closed connection although the socket is connected. *)
Example reconnect_stale_sentinel : ∃ s,
  sock_run (NoiseSocket_init 256) [EvConnect (Ok tt); EvDisconnect; EvDisconnectPut; EvConnect (Ok tt); EvRecv] =
    Some (s, [Silent; Silent; Silent; Silent; Raised ConnectionClosed]) ∧ is_connected s = true.
Proof. eexists. split; reflexivity. Qed.
