(* ===== verification/Outbox.v ===== *)
(** * Message padding, message ids and the ack router
    ([src/src/pywhats/messaging/padding.py], [ids.py], [router.py]) *)

From S2P Require Import Prelude PyStr.
From stdpp Require Import sorting.
#[local] Open Scope Z_scope.

(** ** [padding.py] *)
Module Padding.

(** [rnd] is the byte that [os.urandom(1)] draws. *)
Definition pad_random_max16 (rnd : byte) (plaintext : bytes) : bytes :=
  let pad_len := Z.land (b2z rnd) 0x0F + 1 in
  plaintext ++ replicate (Z.to_nat pad_len) (mkb pad_len).

Definition unpad_random_max16 (padded : bytes) : result bytes :=
  match last padded with
  | None => Raise ValueError
  | Some b =>
      let pad_len := b2z b in
      if (pad_len <? 1) || (16 <? pad_len) || (Z.of_nat (length padded) <? pad_len) then Raise ValueError
      else if existsb (λ b, negb (b2z b =? pad_len)) (suffix_from (Z.to_nat pad_len) padded) then Raise ValueError
      else Ok (prefix_upto (Z.to_nat pad_len) padded)
  end.

Lemma last_replicate {A} n (x : A) : last (replicate (S n) x) = Some x.
Proof. induction n as [|n IH]; [done|]. cbn [replicate] in *. by rewrite last_cons, IH. Qed.

Lemma existsb_replicate {A} (f : A → bool) n x : f x = false → existsb f (replicate n x) = false.
Proof. intros H. induction n as [|n IH]; [done|]. cbn. by rewrite H, IH. Qed.

(** [unpad_random_max16] accepts exactly the padded messages. *)
Lemma unpad_spec padded p :
  unpad_random_max16 padded = Ok p ↔ ∃ n, (1 <= n <= 16)%nat ∧ padded = p ++ replicate n (mkb (Z.of_nat n)).
Proof.
  unfold unpad_random_max16. split.
  - destruct (last padded) as [b|] eqn:El; [|done]. pose proof (b2z_range b).
    destruct (_ || _)%bool eqn:Eb; [done|]. apply orb_false_iff in Eb as [[E1 E2]%orb_false_iff E3]. zbool.
    destruct (existsb _ _) eqn:Ex; [done|]. intros [= <-]. exists (Z.to_nat (b2z b)). split; [lia|].
    rewrite Z2Nat.id, mkb_b2z by lia. unfold prefix_upto, suffix_from in *.
    rewrite <-(take_drop (length padded - Z.to_nat (b2z b)) padded) at 1. f_equal.
    set (l := drop _ padded) in *. assert (length l = Z.to_nat (b2z b)) as Hl by (unfold l; rewrite length_drop; lia).
    clearbody l. rewrite <-Hl. clear Hl. induction l as [|x l IH]; [done|]. cbn in Ex. apply orb_false_iff in Ex as [Hx Ex].
    cbn. f_equal; [|auto]. apply b2z_inj. apply negb_false_iff in Hx. zbool. lia.
  - intros (n & Hn & ->). destruct n as [|n]; [lia|]. rewrite last_app, last_replicate. cbv beta iota zeta.
    rewrite b2z_mkb, Z.mod_small by lia.
    rewrite length_app, length_replicate.
    rewrite !(proj2 (Z.ltb_ge _ _)), Nat2Z.id by lia. cbn [orb].
    unfold suffix_from, prefix_upto. rewrite length_app, length_replicate, Nat.add_sub, take_app_length, drop_app_length.
    rewrite existsb_replicate; [done|]. rewrite b2z_mkb, Z.mod_small by lia. by rewrite Z.eqb_refl.
Qed.

Lemma unpad_pad rnd p : unpad_random_max16 (pad_random_max16 rnd p) = Ok p.
Proof.
  apply unpad_spec. unfold pad_random_max16. rewrite land_0F. pose proof (Z.mod_pos_bound (b2z rnd) 16).
  exists (Z.to_nat (b2z rnd mod 16 + 1)). split; [lia|]. by rewrite Z2Nat.id by lia.
Qed.

Lemma unpad_error padded e : unpad_random_max16 padded = Raise e → e = ValueError.
Proof. unfold unpad_random_max16. repeat case_match; congruence. Qed.
End Padding.

(** ** [ids.py] *)
Module MessageIds.

(** Readings of [time.monotonic()], in nanoseconds. *)
Definition _DEDUPE_TTL : Z := 3600 * 10 ^ 9.
Definition _DEDUPE_MAX : Z := 4096.
Definition _ID_BYTES : nat := 8.

(** [_recent] and [_recent_set]. *)
Record Ring := mkRing { _recent : list (str * Z); _recent_set : gset str }.

Definition empty_ring : Ring := mkRing [] ∅.

(** [_sweep_expired] *)
Fixpoint sweep (now : Z) (recent : list (str * Z)) (set : gset str) : Ring :=
  match recent with
  | (id, t) :: rest => if _DEDUPE_TTL <? now - t then sweep now rest (set ∖ {[id]}) else mkRing recent set
  | [] => mkRing [] set
  end.
Definition _sweep_expired (now : Z) (r : Ring) : Ring := sweep now (_recent r) (_recent_set r).

Definition upper_hex_digit (z : Z) : Z := if z <? 10 then 48 + z else 55 + z.

(** [b.hex().upper()] *)
Definition hex_upper (b : bytes) : str := b ≫= λ x, [upper_hex_digit (b2z x / 16); upper_hex_digit (b2z x mod 16)].

(** The [for _ in range(16)] loop; [draws] are the results of [token_bytes], in order. *)
Fixpoint try_candidates (now : Z) (draws : list bytes) (r : Ring) : Ring * result str :=
  match draws with
  | [] => (r, Raise RuntimeError)
  | d :: draws =>
      let candidate := hex_upper d in
      if decide (candidate ∈ _recent_set r) then try_candidates now draws r
      else
        let recent := _recent r ++ [(candidate, now)] in
        let set := _recent_set r ∪ {[candidate]} in
        let r := if _DEDUPE_MAX <? Z.of_nat (length recent) then
                   match recent with
                   | (oldest, _) :: rest => mkRing rest (set ∖ {[oldest]})
                   | [] => mkRing recent set
                   end
                 else mkRing recent set in
        (r, Ok candidate)
  end.

(** The part under the lock; [now] is what the caller read from the clock before it took the
    lock, and [draws] has the 16 results of [token_bytes] that the call may use. *)
Definition new_message_id (now : Z) (draws : list bytes) : SE Ring str := λ r,
  try_candidates now (take 16 draws) (_sweep_expired now r).

(** The set is the ids of the ring, which are distinct and at most 4096. *)
Record ring_ok (r : Ring) : Prop := {
  ring_set : ∀ id, id ∈ _recent_set r ↔ id ∈ (_recent r).*1;
  ring_nodup : NoDup (_recent r).*1;
  ring_bound : Z.of_nat (length (_recent r)) <= _DEDUPE_MAX
}.

Lemma empty_ring_ok : ring_ok empty_ring.
Proof. split; cbn; [set_solver|constructor|done]. Qed.

Lemma pop_ok id t rest set : ring_ok (mkRing ((id, t) :: rest) set) → ring_ok (mkRing rest (set ∖ {[id]})).
Proof.
  intros [Hs Hn Hb]. cbn in *. apply NoDup_cons in Hn as [Hid Hn]. split; cbn; [|done|lia].
  intros x. rewrite elem_of_difference, elem_of_singleton, Hs, elem_of_cons. naive_solver.
Qed.

(** What sweeping removes is a prefix of entries that are too old. *)
Lemma sweep_ok now recent set : ring_ok (mkRing recent set) →
  let r := sweep now recent set in
  ring_ok r ∧ ∃ old, recent = old ++ _recent r ∧ Forall (λ e, _DEDUPE_TTL < now - e.2) old.
Proof.
  revert set. induction recent as [|[id t] rest IH]; intros set Hr; cbn [sweep]; [by split; [|exists []]|].
  destruct (Z.ltb_spec _DEDUPE_TTL (now - t)) as [Ht|Ht]; [|by split; [|exists []]].
  destruct (IH _ (pop_ok _ _ _ _ Hr)) as (H1 & old & H2 & H3). split; [done|]. exists ((id, t) :: old).
  split; [cbn; by f_equal|by constructor].
Qed.

(** A call that returns an id appends it and drops a prefix: entries too old, and one
    more when the ring is full. *)
Lemma new_id_ok now draws r r' res : ring_ok r → new_message_id now draws r = (r', res) →
  ring_ok r' ∧ ∃ old, Forall (λ e, _DEDUPE_TTL < now - e.2) old ∧
    match res with
    | Raise e => e = RuntimeError ∧ _recent r = old ++ _recent r'
    | Ok id => ∃ kept, _recent r = old ++ kept ∧ (id ∉ kept.*1) ∧
        (_recent r' = kept ++ [(id, now)] ∨
         (Z.of_nat (length kept) = _DEDUPE_MAX ∧ ∃ e kept', kept = e :: kept' ∧ _recent r' = kept' ++ [(id, now)]))
    end.
Proof.
  intros Hr. unfold new_message_id, _sweep_expired. destruct r as [recent set]. cbn [_recent _recent_set].
  destruct (sweep_ok now _ _ Hr) as (H1 & old & H2 & H3). set (s := sweep now recent set) in *. clearbody s.
  generalize (take 16 draws). clear draws. intros draws. induction draws as [|d draws IH]; cbn [try_candidates]; intros H.
  { simplify_eq. split; [done|]. exists old. by split_and!. }
  case_decide as Hd; [by apply IH|]. destruct H1 as [Hs Hn Hb]. rewrite Hs in Hd.
  assert (NoDup (_recent s ++ [(hex_upper d, now)]).*1) as Hn'.
  { rewrite fmap_app. apply NoDup_app. split_and!; [done|set_solver|apply NoDup_singleton]. }
  destruct (Z.ltb_spec _DEDUPE_MAX (Z.of_nat (length (_recent s ++ [(hex_upper d, now)])))) as [Hl|Hl];
    rewrite length_app in Hl; cbn [length] in Hl.
  - destruct (_recent s) as [|[o t] rest] eqn:Er; [cbn in Hl; unfold _DEDUPE_MAX in Hl; lia|]. cbn [app] in H. simplify_eq.
    split.
    + cbn in Hn'. apply NoDup_cons in Hn' as [Ho Hn']. split; cbn; [|done|].
      * intros id. rewrite elem_of_difference, elem_of_union, !elem_of_singleton, Hs, fmap_app. cbn.
        rewrite fmap_app in Ho. cbn in Ho. set_solver.
      * rewrite length_app. cbn in *. lia.
    + exists old. split; [done|]. exists ((o, t) :: rest). split_and!; [done|done|]. right. split; [cbn in *; lia|]. eauto.
  - simplify_eq. split.
    + split; cbn; [|done|rewrite length_app; cbn; lia].
      intros id. rewrite elem_of_union, elem_of_singleton, Hs, fmap_app. cbn. set_solver.
    + exists old. split; [done|]. exists (_recent s). auto.
Qed.

(** A sequence of calls, in the order in which they hold the lock: the clock reading and the
    random draws of each. The ids issued, with the readings of their callers. *)
Fixpoint issue (calls : list (Z * list bytes)) (r : Ring) : Ring * list (str * Z) :=
  match calls with
  | [] => (r, [])
  | (now, draws) :: calls =>
      let '(r, res) := new_message_id now draws r in
      let '(r, ids) := issue calls r in
      (r, match res with Ok id => (id, now) :: ids | Raise _ => ids end)
  end.

(** An entry that the ring has forgotten: too old, or followed by 4096 others. *)
Definition forgotten (now : Z) (hist : list (str * Z)) (i : nat) (e : str * Z) : Prop :=
  _DEDUPE_TTL < now - e.2 ∨ (i + 4096 < length hist)%nat.

Definition remembers (now : Z) (hist : list (str * Z)) (r : Ring) : Prop :=
  ∃ dropped, hist = dropped ++ _recent r ∧ ∀ i e, dropped !! i = Some e → forgotten now hist i e.

Lemma forgotten_mono now now' hist l i e : now <= now' → forgotten now hist i e → forgotten now' (hist ++ l) i e.
Proof. intros Hn [H|H]; [left; lia|right]. rewrite length_app. lia. Qed.

(** [high] is the latest reading so far; the clock may have been read [lag] before it. *)
Lemma remembers_step high now' hist r draws r' res : ring_ok r → remembers high hist r →
  new_message_id now' draws r = (r', res) →
  let high' := high `max` now' in
  ring_ok r' ∧ match res with
  | Raise _ => remembers high' hist r'
  | Ok id => remembers high' (hist ++ [(id, now')]) r' ∧ ∀ i e, hist !! i = Some e → e.1 = id → forgotten high' hist i e
  end.
Proof.
  intros Hr (dropped & -> & Hd) H high'. destruct (new_id_ok _ _ _ _ _ Hr H) as (Hr' & old & Hold & Hres). split; [done|].
  assert (high <= high' ∧ now' <= high') as [Hh Hn] by (unfold high'; lia). clearbody high'.
  assert (∀ i e, (dropped ++ old) !! i = Some e → forgotten high' (dropped ++ _recent r) i e) as Hdo.
  { intros i e [Hi|[_ Hi]]%lookup_app_Some.
    - rewrite <-(app_nil_r (dropped ++ _)). by apply (forgotten_mono high), Hd.
    - left. apply (Forall_lookup_1 _ _ _ _ Hold) in Hi. lia. }
  destruct res as [id|e]; cycle 1.
  { destruct Hres as [_ Hres]. exists (dropped ++ old). split; [by rewrite Hres, app_assoc|done]. }
  destruct Hres as (kept & Hk & Hid & Hres). split.
  - destruct Hres as [Hres|(Hl & e & kept' & -> & Hres)].
    + exists (dropped ++ old). split; [by rewrite Hk, Hres, <-!app_assoc|].
      intros i e Hi. apply (forgotten_mono high'); [lia|by apply Hdo].
    + exists (dropped ++ old ++ [e]). split; [by rewrite Hk, Hres, <-!app_assoc|].
      intros i x. rewrite app_assoc. intros [Hi|[Hge Hi]]%lookup_app_Some.
      * apply (forgotten_mono high'); [lia|by apply Hdo].
      * right. apply list_lookup_singleton_Some in Hi as [Hi _]. rewrite Hk, !length_app in *. unfold _DEDUPE_MAX in Hl. cbn in *. lia.
  - intros i e Hi He. rewrite Hk, app_assoc in Hi. apply lookup_app_Some in Hi as [Hi|[_ Hi]].
    + by apply Hdo.
    + destruct Hid. rewrite <-He. apply list_elem_of_fmap_2. by eapply list_elem_of_lookup_2.
Qed.

(** Each caller read the clock at most [lag] before any earlier caller in the order of the lock. *)
Definition lagging (lag : Z) (times : list Z) : Prop := StronglySorted (λ t t', t - lag <= t') times.

Lemma lagging_sorted times : Sorted Z.le times → lagging 0 times.
Proof.
  intros H. apply Sorted_StronglySorted in H; [|intros ? ? ?; lia].
  induction H as [|t times H IH Hf]; constructor; [exact IH|]. eapply Forall_impl; [exact Hf|]. intros; cbn in *; lia.
Qed.

Lemma issue_ok lag calls : ∀ high hist r r' ids, ring_ok r → remembers high hist r →
  Forall (λ c, high - lag <= c.1) calls → lagging lag calls.*1 → issue calls r = (r', ids) →
  ∀ i j e e', (hist ++ ids) !! i = Some e → (hist ++ ids) !! j = Some e' → (length hist <= j)%nat → (i < j)%nat → e.1 = e'.1 →
    _DEDUPE_TTL < e'.2 - e.2 + (0 `max` lag) ∨ (i + 4096 < j)%nat.
Proof.
  induction calls as [|[now' draws] calls IH]; intros high hist r r' ids Hr Hm Hn Hs H; cbn [issue] in H.
  { simplify_eq. intros i j e e'. rewrite app_nil_r. intros _ Hj%lookup_lt_Some. lia. }
  apply Forall_cons in Hn as [Hnow Hn]. cbn in Hnow. destruct (new_message_id now' draws r) as [r1 res] eqn:E.
  destruct (issue calls r1) as [r2 ids2] eqn:Ei. destruct (remembers_step _ _ _ _ _ _ _ Hr Hm E) as [Hr1 Hres].
  unfold lagging in Hs. cbn in Hs. apply StronglySorted_inv in Hs as [Hs Hf]. rewrite Forall_fmap in Hf.
  assert (Forall (λ c : Z * list bytes, high `max` now' - lag <= c.1) calls) as Hn'.
  { eapply Forall_impl; [apply Forall_and; exact (conj Hn Hf)|]. intros c [H1 H2]. cbn in *. lia. }
  destruct res as [id|ex]; simplify_eq; [|by eapply IH].
  destruct Hres as [Hm1 Hold]. intros i j e e' Hi Hj Hge Hij He. pose proof (IH _ _ _ _ _ Hr1 Hm1 Hn' Hs Ei i j e e') as IH'.
  rewrite <-app_assoc in IH'. cbn [app] in IH'. destruct (decide (j = length hist)) as [->|Hne]; [|apply IH'; try done; rewrite length_app; cbn; lia].
  rewrite list_lookup_middle in Hj by done.
  injection Hj as <-. cbn [fst snd] in *. rewrite lookup_app_l in Hi by done.
  destruct (Hold i e Hi He) as [Ht|Ht]; [left|by right]. lia.
Qed.

(** C35: the ids that any sequence of calls issues, in the order in which the calls hold the
    lock: two equal ones have at least 4096 other ids between them, or their callers read
    the clock more than an hour apart. A caller reads it before it takes the lock, so it may
    come after a caller that read it later: if the readings are never more than [lag] out of
    order, an hour less [lag] apart (an hour, when they are in order). So it is whatever the
    random source returns; a call that cannot issue such an id raises [RuntimeError]. *)
Theorem message_ids_distinct lag calls r ids : 0 <= lag → lagging lag calls.*1 → issue calls empty_ring = (r, ids) →
  (∀ i j e e', ids !! i = Some e → ids !! j = Some e' → (i < j)%nat → e.1 = e'.1 →
     _DEDUPE_TTL - lag < e'.2 - e.2 ∨ (4096 <= j - i - 1)%nat) ∧
  ∀ now draws r' ex, new_message_id now draws r = (r', Raise ex) → ex = RuntimeError.
Proof.
  intros Hlag Hs H. split.
  - intros i j e e' Hi Hj Hij He.
    assert (_DEDUPE_TTL < e'.2 - e.2 + (0 `max` lag) ∨ (i + 4096 < j)%nat) as Hd; [|destruct Hd; [left|right]; lia].
    apply (issue_ok lag calls (match calls with c :: _ => c.1 | [] => 0 end) [] empty_ring r ids empty_ring_ok); try done; [by exists []| |cbn; lia].
    destruct calls as [|c calls]; [constructor|]. constructor; [lia|]. unfold lagging in Hs. cbn in Hs.
    apply StronglySorted_inv in Hs as [_ Hs]. by rewrite Forall_fmap in Hs.
  - intros now draws r' ex. unfold new_message_id. generalize (_sweep_expired now r).
    induction (take 16 draws) as [|d ds IH]; intros r0 H'; cbn [try_candidates] in H'; [congruence|].
    case_decide; [by eapply IH|]. repeat case_match; congruence.
Qed.

(** *** An id that is issued again *)

Lemma new_id_takes now d r : ring_ok r → hex_upper d ∉ (_recent r).*1 → ∃ r', new_message_id now [d] r = (r', Ok (hex_upper d)).
Proof.
  intros Hr Hd. unfold new_message_id, _sweep_expired. destruct r as [recent set]. cbn [_recent _recent_set] in *.
  destruct (sweep_ok now _ _ Hr) as (Hs & old & Hold & _). cbn [try_candidates take].
  rewrite decide_False; [by eauto|]. rewrite (ring_set _ Hs). intros Hin. apply Hd. rewrite Hold, fmap_app. set_solver.
Qed.

(** A source that never repeats is taken at its word. *)
Lemma issue_fresh ds : ∀ hist r, ring_ok r → remembers 0 hist r → NoDup (hist.*1 ++ (hex_upper <$> ds)) →
  ∃ r', issue ((λ d, (0, [d])) <$> ds) r = (r', (λ d, (hex_upper d, 0)) <$> ds) ∧
    ring_ok r' ∧ remembers 0 (hist ++ ((λ d, (hex_upper d, 0)) <$> ds)) r'.
Proof.
  induction ds as [|d ds IH]; intros hist r Hr Hm Hn; [exists r; by rewrite app_nil_r|].
  destruct (new_id_takes 0 d r Hr) as [r1 E].
  { destruct Hm as (dropped & -> & _). cbn in Hn. apply NoDup_app in Hn as (_ & Hn & _). rewrite fmap_app in Hn. set_solver. }
  destruct (remembers_step _ _ _ _ _ _ _ Hr Hm E) as (Hr1 & Hm1 & _).
  destruct (IH _ r1 Hr1 Hm1) as (r2 & E2 & Hr2 & Hm2).
  { rewrite fmap_app, <-app_assoc. exact Hn. }
  exists r2. rewrite !fmap_cons. cbn [issue]. rewrite E, E2. split; [done|]. split; [done|]. by rewrite <-app_assoc in Hm2.
Qed.

Lemma issue_snoc calls now c x r2 : ∀ r0 r1 ids, issue calls r0 = (r1, ids) → new_message_id now c r1 = (r2, Ok x) →
  issue (calls ++ [(now, c)]) r0 = (r2, ids ++ [(x, now)]).
Proof.
  induction calls as [|[now' l] calls IH]; intros r0 r1 ids H Hx; cbn in *; [injection H as -> <-; by rewrite Hx|].
  destruct (new_message_id now' l r0) as [r3 res]. destruct (issue calls r3) as [r4 ids4] eqn:E4.
  injection H as -> <-. rewrite (IH _ _ _ E4 Hx). by destruct res.
Qed.

Definition counted_draws : list bytes := (λ n, be_bytes 8 (Z.of_nat n)) <$> seq 0 4097.

Lemma hex_digit_inj x y : 0 <= x → 0 <= y → upper_hex_digit x = upper_hex_digit y → x = y.
Proof. unfold upper_hex_digit. destruct (Z.ltb_spec x 10), (Z.ltb_spec y 10); lia. Qed.

Lemma hex_upper_inj : Inj (=) (=) hex_upper.
Proof.
  intros a. induction a as [|x a IH]; intros [|y b]; cbn; try done. intros [= H1 H2 H].
  pose proof (b2z_range x). pose proof (b2z_range y).
  apply hex_digit_inj in H1; [|by apply Z.div_pos; lia..]. apply hex_digit_inj in H2; [|by apply Z.mod_pos_bound; lia..].
  f_equal; [|by apply IH]. apply b2z_inj. rewrite (Z.div_mod (b2z x) 16), (Z.div_mod (b2z y) 16) by lia. lia.
Qed.

(** The ring holds 4096 ids, not an hour of them: after 4096 others, all at one moment, the
    first id is issued again. *)
Lemma evicted_id_repeats : ∃ calls r ids x, Forall (λ c, c.1 = 0) calls ∧ issue calls empty_ring = (r, ids) ∧
  ids !! 0%nat = Some (x, 0) ∧ ids !! 4097%nat = Some (x, 0).
Proof.
  assert (NoDup (hex_upper <$> counted_draws)) as Hn.
  { apply (NoDup_fmap_2 _ (Inj0 := hex_upper_inj)), NoDup_fmap_2_strong; [|apply NoDup_seq].
    intros x y [_ Hx]%elem_of_seq [_ Hy]%elem_of_seq H.
    apply (f_equal be_val) in H. rewrite !be_val_bytes in H by lia. lia. }
  assert (length counted_draws = 4097%nat) as Hl by (unfold counted_draws; by rewrite length_fmap, length_seq).
  revert Hn Hl. generalize counted_draws. intros l Hn Hl. destruct l as [|d ds] eqn:Ed; [done|]. rewrite <-Ed in *.
  destruct (issue_fresh l [] empty_ring empty_ring_ok) as (r & E & Hr & dropped & Hh & _); [by exists []|exact Hn|].
  destruct (new_id_takes 0 d r Hr) as [r2 E2].
  { assert (length ((λ d, (hex_upper d, 0)) <$> l) = 4097%nat) as Hl' by by rewrite length_fmap.
    cbn [app] in Hh. rewrite Hh, length_app in Hl'. pose proof (ring_bound r Hr) as Hb. unfold _DEDUPE_MAX in Hb.
    destruct dropped as [|e dropped]; [cbn in Hl'; lia|]. rewrite Ed in Hh, Hn. cbn in Hh. injection Hh as <- Hh.
    cbn in Hn. apply NoDup_cons in Hn as [Hn _]. intros Hin. apply Hn.
    replace (hex_upper <$> ds) with (((λ d, (hex_upper d, 0)) <$> ds).*1) by by rewrite <-list_fmap_compose.
    rewrite Hh, fmap_app. apply elem_of_app. by right. }
  exists (((λ d, (0, [d])) <$> l) ++ [(0, [d])]), r2,
    (((λ d, (hex_upper d, 0)) <$> l) ++ [(hex_upper d, 0)]), (hex_upper d).
  split; [|split; [exact (issue_snoc _ _ _ _ _ _ _ _ E E2)|]].
  - apply Forall_app. split; [by apply Forall_fmap, Forall_forall|by repeat constructor].
  - split; [by rewrite Ed|]. apply list_lookup_middle. by rewrite length_fmap.
Qed.

Lemma message_ids_distinct_witness :
  let calls := [(7, [replicate 8 (mkb 1)]); (5, [replicate 8 (mkb 1); replicate 8 (mkb 2)]);
                (_DEDUPE_TTL + 8, [replicate 8 (mkb 1)])] in
  length (issue calls empty_ring).2 = 3%nat ∧
  (∀ i j e e', (issue calls empty_ring).2 !! i = Some e → (issue calls empty_ring).2 !! j = Some e' → (i < j)%nat → e.1 = e'.1 →
     _DEDUPE_TTL - 2 < e'.2 - e.2 ∨ (4096 <= j - i - 1)%nat) ∧
  ∀ now draws r' ex, new_message_id now draws (issue calls empty_ring).1 = (r', Raise ex) → ex = RuntimeError.
Proof.
  intros calls. split; [vm_compute; reflexivity|].
  apply (message_ids_distinct 2 calls); [lia| |apply surjective_pairing].
  repeat constructor; cbn; unfold _DEDUPE_TTL; lia.
Defined.
End MessageIds.

(** ** [router.py] *)
Module Router.

Record RetrySignal := mkRetry { retry_attrs : list (str * str) }.

(** The state of an [asyncio.Future]. *)
Inductive future := Pending | Resolved (r : option RetrySignal) | Cancelled.

(** The dictionary [_pending] holds references to the futures, which their awaiters share. *)
Record AckRouter := mkRouter { _pending : list (str * nat); futures : list future }.

Definition AckRouter_init : AckRouter := mkRouter [] [].

(** [if fut is not None and not fut.done(): ..] *)
Definition settle (f : future) (n : nat) (fs : list future) : list future :=
  match fs !! n with Some Pending => <[n := f]> fs | _ => fs end.

Definition register (message_id : str) : SE AckRouter nat := λ r,
  match dict_get message_id (_pending r) with
  | Some _ => (r, Raise ValueError)
  | None => let n := length (futures r) in
            (mkRouter (dict_set message_id n (_pending r)) (futures r ++ [Pending]), Ok n)
  end.

(** [self._pending.pop(message_id, None)], and then the future is settled. *)
Definition pop_settle (f : future) (message_id : str) (r : AckRouter) : AckRouter :=
  mkRouter (dict_del message_id (_pending r))
           match dict_get message_id (_pending r) with Some n => settle f n (futures r) | None => futures r end.

Definition cancel : str → AckRouter → AckRouter := pop_settle Cancelled.
Definition resolve_ack : str → AckRouter → AckRouter := pop_settle (Resolved None).
Definition resolve_retry (message_id : str) (attrs : list (str * str)) : AckRouter → AckRouter :=
  pop_settle (Resolved (Some (mkRetry attrs))) message_id.

Definition pending_ids (r : AckRouter) : list str := dict_keys (_pending r).

(** Calls in any order; [Abandon n] is the awaiter of a future being cancelled. *)
Inductive event :=
  | Register (id : str) | Cancel (id : str) | Ack (id : str) | Retry (id : str) (attrs : list (str * str)) | Abandon (n : nat).

Definition step (r : AckRouter) (ev : event) : AckRouter :=
  match ev with
  | Register id => (register id r).1
  | Cancel id => cancel id r
  | Ack id => resolve_ack id r
  | Retry id attrs => resolve_retry id attrs r
  | Abandon n => mkRouter (_pending r) (settle Cancelled n (futures r))
  end.

Definition run : AckRouter → list event → AckRouter := foldl step.

(** What the first event about a future makes of it. *)
Fixpoint verdict (id : str) (n : nat) (evs : list event) : future :=
  match evs with
  | [] => Pending
  | ev :: evs =>
      match ev with
      | Register _ => verdict id n evs
      | Cancel id' => if decide (id' = id) then Cancelled else verdict id n evs
      | Ack id' => if decide (id' = id) then Resolved None else verdict id n evs
      | Retry id' attrs => if decide (id' = id) then Resolved (Some (mkRetry attrs)) else verdict id n evs
      | Abandon n' => if decide (n' = n) then Cancelled else verdict id n evs
      end
  end.

(** The ids are distinct, and so are the futures they stand for. *)
Record router_ok (r : AckRouter) : Prop := {
  ro_dict : dict_ok (_pending r);
  ro_bound : ∀ id n, dict_get id (_pending r) = Some n → (n < length (futures r))%nat;
  ro_inj : ∀ id id' n, dict_get id (_pending r) = Some n → dict_get id' (_pending r) = Some n → id = id'
}.

Lemma length_settle f n fs : length (settle f n fs) = length fs.
Proof. unfold settle. destruct (fs !! n) as [[]|]; by rewrite ?length_insert. Qed.

Lemma settle_eq f n fs : fs !! n = Some Pending → settle f n fs !! n = Some f.
Proof. intros H. unfold settle. rewrite H. apply list_lookup_insert_eq. by eapply lookup_lt_Some. Qed.

Lemma settle_ne f n m fs : n ≠ m → settle f n fs !! m = fs !! m.
Proof. intros H. unfold settle. destruct (fs !! n) as [[]|]; try done. by apply list_lookup_insert_ne. Qed.

Lemma settle_done f g n m fs : fs !! m = Some g → g ≠ Pending → settle f n fs !! m = Some g.
Proof.
  intros H Hg. destruct (decide (n = m)) as [->|]; [|by rewrite settle_ne]. unfold settle. rewrite H. by destruct g.
Qed.

Lemma pop_settle_ok f id r : router_ok r → router_ok (pop_settle f id r).
Proof.
  intros [Hd Hb Hi]. assert (∀ id' n, dict_get id' (dict_del id (_pending r)) = Some n → dict_get id' (_pending r) = Some n) as K.
  { intros id' n. destruct (decide (id = id')) as [->|]; [by rewrite dict_get_del_eq|by rewrite dict_get_del_ne]. }
  split; cbn.
  - by apply dict_del_ok.
  - intros id' n H%K%Hb. destruct (dict_get id _); by rewrite ?length_settle.
  - intros id' id'' n H1%K H2%K. eauto.
Qed.

Lemma step_ok r ev : router_ok r → router_ok (step r ev).
Proof.
  intros Hr. destruct ev as [id|id|id|id attrs|n]; cbn [step]; try by apply pop_settle_ok.
  - destruct Hr as [Hd Hb Hi]. unfold register. destruct (dict_get id (_pending r)) eqn:E; [by split|].
    assert (∀ id' n, dict_get id' (dict_set id (length (futures r)) (_pending r)) = Some n →
      id' = id ∧ n = length (futures r) ∨ id' ≠ id ∧ dict_get id' (_pending r) = Some n) as K.
    { intros id' n. destruct (decide (id = id')) as [->|]; [rewrite dict_get_set_eq|rewrite dict_get_set_ne by done]; naive_solver. }
    split; cbn.
    + by apply dict_set_ok.
    + intros id' n. rewrite length_app. cbn. intros [[_ ->]|[_ H%Hb]]%K; lia.
    + intros id' id'' n [[-> ->]|[_ H1]]%K [[-> Hx]|[_ H2]]%K; try done; [|apply Hb in H1; lia|eauto].
      apply Hb in H2. lia.
  - destruct Hr as [Hd Hb Hi]. split; cbn; [done| |done]. intros id n'. rewrite length_settle. apply Hb.
Qed.

Lemma step_done r ev n f : futures r !! n = Some f → f ≠ Pending → futures (step r ev) !! n = Some f.
Proof.
  intros H Hf. destruct ev as [id|id|id|id attrs|m]; cbn [step].
  1: { unfold register. destruct (dict_get id (_pending r)); [done|]. cbn. by apply lookup_app_l_Some. }
  all: unfold cancel, resolve_ack, resolve_retry, pop_settle; cbn; try (destruct (dict_get id (_pending r)); [|done]);
    by apply settle_done.
Qed.

Lemma run_done evs : ∀ r n f, futures r !! n = Some f → f ≠ Pending → futures (run r evs) !! n = Some f.
Proof. induction evs as [|ev evs IH]; intros r n f H Hf; [done|]. cbn. apply IH; [|done]. by apply step_done. Qed.

Lemma pop_settle_eq f id r n : dict_get id (_pending r) = Some n → futures r !! n = Some Pending →
  futures (pop_settle f id r) !! n = Some f.
Proof. intros Hd Hf. unfold pop_settle. cbn. rewrite Hd. by apply settle_eq. Qed.

Lemma pop_settle_ne f id id' r n : router_ok r → id' ≠ id → dict_get id (_pending r) = Some n →
  dict_get id (_pending (pop_settle f id' r)) = Some n ∧ futures (pop_settle f id' r) !! n = futures r !! n.
Proof.
  intros [_ _ Hi] Hne Hd. unfold pop_settle. cbn. rewrite dict_get_del_ne by done. split; [done|].
  destruct (dict_get id' (_pending r)) as [m|] eqn:E; [|done]. apply settle_ne. intros ->. apply Hne. eauto.
Qed.

Lemma run_verdict evs : ∀ r id n, router_ok r → dict_get id (_pending r) = Some n → futures r !! n = Some Pending →
  futures (run r evs) !! n = Some (verdict id n evs).
Proof.
  induction evs as [|ev evs IH]; intros r id n Hr Hd Hf; [done|]. pose proof (step_ok r ev Hr) as Hr'. cbn [run foldl].
  assert (∀ f id', ev = Cancel id' ∧ f = Cancelled ∨ ev = Ack id' ∧ f = Resolved None ∨ (∃ a, ev = Retry id' a ∧ f = Resolved (Some (mkRetry a))) →
    futures (foldl step (pop_settle f id' r) evs) !! n = Some (if decide (id' = id) then f else verdict id n evs)) as K.
  { intros f id' Hev. case_decide as Hid.
    - subst id'. apply (run_done evs); [by apply pop_settle_eq|]. destruct Hev as [[_ ->]|[[_ ->]|(? & _ & ->)]]; done.
    - destruct (pop_settle_ne f id id' r n Hr Hid Hd) as [H1 H2]. apply IH; [by apply pop_settle_ok|done|by rewrite H2]. }
  destruct ev as [id'|id'|id'|id' attrs|m]; cbn [step verdict] in *; [|apply K; naive_solver..|].
  - apply IH; [done| |]; unfold register; destruct (dict_get id' (_pending r)) eqn:E; try done; cbn.
    + rewrite dict_get_set_ne; [done|congruence].
    + by apply lookup_app_l_Some.
  - case_decide as Hm.
    + subst m. apply (run_done evs); [|done]. by apply settle_eq.
    + apply IH; [done|done|]. cbn. by rewrite settle_ne.
Qed.

Lemma run_ok evs : ∀ r, router_ok r → router_ok (run r evs).
Proof. induction evs as [|ev evs IH]; intros r Hr; [done|]. apply IH, step_ok, Hr. Qed.

Lemma init_ok : router_ok AckRouter_init.
Proof. split; cbn; [constructor|done|done]. Qed.

(** An id that is not pending stays so until it is registered. *)
Lemma run_absent evs : ∀ r id, router_ok r → dict_get id (_pending r) = None → (Register id ∉ evs) →
  dict_get id (_pending (run r evs)) = None.
Proof.
  induction evs as [|ev evs IH]; intros r id Hr Hd Hn; [done|]. apply not_elem_of_cons in Hn as [Hev Hn].
  apply (IH (step r ev)); [by apply step_ok| |done].
  assert (∀ f id', dict_get id (_pending (pop_settle f id' r)) = None) as K.
  { intros f id'. cbn. destruct (decide (id' = id)) as [->|]; [apply dict_get_del_eq, Hr|by rewrite dict_get_del_ne]. }
  destruct ev as [id'|id'|id'|id' a|n]; cbn [step]; try apply K; [|done].
  unfold register. destruct (dict_get id' _); [done|]. cbn. rewrite dict_get_set_ne; [done|]. by intros ->.
Qed.

(** A pending id whose future gets a result is pending no more. *)
Lemma run_resolved evs : ∀ r id n x, router_ok r → dict_get id (_pending r) = Some n → futures r !! n = Some Pending →
  (Register id ∉ evs) → futures (run r evs) !! n = Some (Resolved x) → dict_get id (_pending (run r evs)) = None.
Proof.
  induction evs as [|ev evs IH]; intros r id n x Hr Hd Hf Hn Hx; [cbn in Hx; congruence|].
  apply not_elem_of_cons in Hn as [Hev Hn]. pose proof (step_ok r ev Hr) as Hr'. cbn [run foldl] in *.
  assert (∀ f id', id' = id ∨ futures (foldl step (pop_settle f id' r) evs) !! n = Some (Resolved x) →
    step r ev = pop_settle f id' r → dict_get id (_pending (foldl step (pop_settle f id' r) evs)) = None) as K.
  { intros f id' Hid Hs. rewrite Hs in Hr'. destruct (decide (id' = id)) as [->|Hne].
    - apply (run_absent evs); [done| |done]. cbn. apply dict_get_del_eq, Hr.
    - destruct Hid as [?|Hid]; [done|]. destruct (pop_settle_ne f id id' r n Hr Hne Hd) as [H1 H2].
      eapply IH; [done|exact H1|by rewrite H2|done|exact Hid]. }
  destruct ev as [id'|id'|id'|id' a|m]; cbn [step] in *; try (eapply K; [right; exact Hx|done]).
  - eapply IH; [done| | |done|exact Hx]; unfold register; destruct (dict_get id' _) eqn:E; try done; cbn.
    + rewrite dict_get_set_ne; [done|]. by intros ->.
    + by apply lookup_app_l_Some.
  - destruct (decide (m = n)) as [->|Hm].
    + rewrite (run_done evs _ n Cancelled) in Hx; [done| |done]. by apply settle_eq.
    + eapply IH; [done|exact Hd| |done|exact Hx]. cbn. by rewrite settle_ne.
Qed.

(** Whatever else happens on the router, the future that [register] returns ends as
    the first later event about its id or about itself says: an ack resolves it with
    [None], a retry with its attributes, a cancellation cancels it; later events leave it
    alone, and registering a pending id raises [ValueError] without any change. *)
Theorem router_first_event before after id r n : 
  register id (run AckRouter_init before) = (r, Ok n) →
  futures (run r after) !! n = Some (verdict id n after) ∧
  register id r = (r, Raise ValueError).
Proof.
  intros H. assert (router_ok (run AckRouter_init before)) as Hok.
  { apply run_ok, init_ok. }
  unfold register in H. destruct (dict_get id _) eqn:E; [done|]. simplify_eq. set (r0 := run _ _) in *. split.
  - apply run_verdict.
    + pose proof (step_ok r0 (Register id) Hok) as K. cbn in K. unfold register in K. by rewrite E in K.
    + cbn. apply dict_get_set_eq.
    + cbn. by rewrite lookup_app_r, Nat.sub_diag by done.
  - unfold register. cbn. by rewrite dict_get_set_eq.
Qed.

Lemma router_first_event_witness :
  let r := (register (u "B") (run AckRouter_init [Register (u "A"); Ack (u "A")])).1 in
  futures (run r [Ack (u "A"); Retry (u "B") []; Ack (u "B")]) !! 1%nat =
    Some (verdict (u "B") 1 [Ack (u "A"); Retry (u "B") []; Ack (u "B")]) ∧
  register (u "B") r = (r, Raise ValueError).
Proof. intros r. by apply (router_first_event [Register (u "A"); Ack (u "A")]). Defined.
End Router.
