(* ===== verification/Media.v ===== *)
(** * Attachments ([src/src/pywhats/media/crypto.py], [media/upload.py], [media/download.py])

    Key derivation, encryption, the verified decryption pipeline, the query for the media
    hosts and the download from the first host whose file verifies. The iq round trip and
    the HTTP transfers are injected in the source and are arguments here. *)

From S2P Require Import Prelude PyStr Json Jid Node Sha256 Crypto LtHash AppCrypto Prekey.

(** ** [media/crypto.py] *)

Definition MEDIA_IMAGE : str := u "WhatsApp Image Keys".
Definition MEDIA_VIDEO : str := u "WhatsApp Video Keys".
Definition MEDIA_AUDIO : str := u "WhatsApp Audio Keys".
Definition MEDIA_DOCUMENT : str := u "WhatsApp Document Keys".
Definition MEDIA_HISTORY : str := u "WhatsApp History Keys".
Definition MEDIA_APP_STATE : str := u "WhatsApp App State Keys".

Definition MMS_TYPE : list (str * str) :=
  [(MEDIA_IMAGE, u "image"); (MEDIA_VIDEO, u "video"); (MEDIA_AUDIO, u "audio"); (MEDIA_DOCUMENT, u "document");
   (MEDIA_HISTORY, u "md-msg-hist"); (MEDIA_APP_STATE, u "md-app-state")].

Definition _MAC_LENGTH : nat := 10.

Record MediaKeys := mkMediaKeys { mk_iv : bytes; mk_cipher_key : bytes; mk_mac_key : bytes; mk_ref_key : bytes }.

Section Crypto.
Context {H : Hkdf} {A : AesCbc}.

Definition derive_media_keys (media_key : bytes) (media_type : str) : result MediaKeys :=
  info ← utf8_encode media_type;
  let okm := hkdf_expand media_key info 112 in
  Ok (mkMediaKeys (slice 0 16 okm) (slice 16 48 okm) (slice 48 80 okm) (slice 80 112 okm)).

(** The checks after decryption are those of [pkcs7_strip]. *)
Definition _aes_cbc_decrypt (key iv ciphertext : bytes) : result bytes :=
  if negb (truthy ciphertext) || negb (Z.of_nat (length ciphertext) mod 16 =? 0) then Raise ValueError
  else padded ← aes_cbc_dec key iv ciphertext; pkcs7_strip padded.

Definition decrypt_media (enc_file media_key : bytes) (media_type : str) (file_enc_sha256 file_sha256 : bytes)
    : result bytes :=
  if (length enc_file <=? _MAC_LENGTH)%nat then Raise ValueError
  else if truthy file_enc_sha256 && negb (bool_decide (sha256 enc_file = file_enc_sha256)) then Raise MediaEncSha256Mismatch
  else
    let ciphertext := prefix_upto _MAC_LENGTH enc_file in
    let mac := suffix_from _MAC_LENGTH enc_file in
    keys ← derive_media_keys media_key media_type;
    let expected := take _MAC_LENGTH (hmac_sha256 (mk_mac_key keys) (mk_iv keys ++ ciphertext)) in
    if negb (bool_decide (expected = mac)) then Raise MediaHmacMismatch
    else
      plaintext ← _aes_cbc_decrypt (mk_cipher_key keys) (mk_iv keys) ciphertext;
      if truthy file_sha256 && negb (bool_decide (sha256 plaintext = file_sha256)) then Raise MediaSha256Mismatch
      else Ok plaintext.

(** ** [media/upload.py] *)

Record EncryptedMedia := mkEncrypted {
  em_enc_data : bytes; em_media_key : bytes; em_file_enc_sha256 : bytes; em_file_sha256 : bytes; em_file_length : Z }.

Definition _pkcs7 (data : bytes) : bytes :=
  let pad := 16 - Z.of_nat (length data) mod 16 in
  data ++ replicate (Z.to_nat pad) (mkb pad).

(** [media_key] is the caller's, or the 32 random bytes drawn when there is none. *)
Definition encrypt_media (plaintext : bytes) (media_type : str) (media_key : bytes) : result EncryptedMedia :=
  keys ← derive_media_keys media_key media_type;
  let padded := _pkcs7 plaintext in
  ciphertext ← aes_cbc_enc (mk_cipher_key keys) (mk_iv keys) padded;
  let mac := take 10 (hmac_sha256 (mk_mac_key keys) (mk_iv keys ++ ciphertext)) in
  let enc_data := ciphertext ++ mac in
  Ok (mkEncrypted enc_data media_key (sha256 enc_data) (sha256 plaintext) (Z.of_nat (length plaintext))).
End Crypto.

(** [base64.urlsafe_b64encode(d).decode()]: ["-"] for ["+"] and ["_"] for ["/"]. *)
Definition urlsafe_b64encode (d : bytes) : str :=
  (λ c, if c =? 43 then 45 else if c =? 47 then 95 else c) <$> b64encode d.

(** [urllib.parse.quote_plus] of a text: its UTF-8 bytes, the unreserved ones as they are. *)
Definition unreserved (c : Z) : bool :=
  ((48 <=? c) && (c <=? 57)) || ((65 <=? c) && (c <=? 90)) || ((97 <=? c) && (c <=? 122)) ||
  (c =? 95) || (c =? 46) || (c =? 45) || (c =? 126).

Definition upper_hex (z : Z) : Z := if z <? 10 then 48 + z else 55 + z.

Definition quote_plus (s : str) : result str :=
  bs ← utf8_encode s;
  Ok (bs ≫= λ b, let c := b2z b in
    if unreserved c then [c] else if c =? 32 then [43] else [37; upper_hex (c / 16); upper_hex (c mod 16)]).

Definition build_upload_url (host mms_type : str) (file_enc_sha256 : bytes) (auth : str) : result str :=
  let token := urlsafe_b64encode file_enc_sha256 in
  a ← quote_plus auth;
  t ← quote_plus token;
  Ok (u "https://" ++ host ++ u "/mms/" ++ mms_type ++ u "/" ++ token ++ u "?" ++ u "auth=" ++ a ++ u "&token=" ++ t).

(** ** [media/download.py] *)

Record MediaConn := mkMediaConn { mc_hosts : list str; mc_auth : str; mc_ttl : Z }.

Record MediaInfo := mkMediaInfo {
  mi_direct_path : str; mi_media_key : bytes; mi_file_sha256 : bytes; mi_file_enc_sha256 : bytes;
  mi_media_type : str; mi_mms_type : str }.

Definition build_media_conn_iq (iq_id : str) : Node :=
  mkNode (u "iq") [(u "id", AStr iq_id); (u "type", AStr (u "set")); (u "xmlns", AStr (u "w:m")); (u "to", AJid PK_SERVER)]
    (CList [mkNode (u "media_conn") [] CNone]).

(** The comprehension over the [<host>] children. *)
Fixpoint host_names (hs : list Node) : result (list str) :=
  match hs with
  | [] => Ok []
  | h :: hs => n ← get_str h (u "hostname"); ns ← host_names hs; Ok (if truthy n then n :: ns else ns)
  end.

Definition parse_media_conn `{UnicodeDB} (iq : Node) : result MediaConn :=
  mc ← some_or (get_child iq (u "media_conn")) ValueError;
  hosts ← host_names (get_children mc (Some (u "host")));
  if negb (truthy hosts) then Raise ValueError
  else
    ttl_raw ← get_str mc (u "ttl");
    auth ← get_str mc (u "auth");
    ttl ← (if truthy ttl_raw then py_int ttl_raw else Ok 0);
    Ok (mkMediaConn hosts auth ttl).

Definition SLASH : Z := 47.

Definition build_download_url (host direct_path : str) (enc_file_hash : bytes) (mms_type : str) : result str :=
  if negb (bool_decide (head direct_path = Some SLASH)) then Raise ValueError
  else Ok (u "https://" ++ host ++ direct_path ++ u "&hash=" ++ urlsafe_b64encode enc_file_hash ++
           u "&mms-type=" ++ mms_type ++ u "&__wa-mms=").

Section Download.
Context {H : Hkdf} {A : AesCbc} {U : UnicodeDB}.
(** The injected iq round trip and HTTP GET, as they answer during the call. *)
Variable send_iq : Node → result Node.
Variable http_get : str → result bytes.

(** [_media_conn], with the cached answer as the state. *)
Definition _media_conn (iq_id : str) : SE (option MediaConn) MediaConn := λ c,
  match c with
  | Some conn => (c, Ok conn)
  | None => match resp ← send_iq (build_media_conn_iq iq_id); parse_media_conn resp with
            | Ok conn => (Some conn, Ok conn)
            | Raise e => (c, Raise e)
            end
  end.

(** The loop over the hosts; building the URL is outside the [try]. *)
Fixpoint try_hosts (hosts : list str) (info : MediaInfo) (mms_type : str) (last_error : option exn) : result bytes :=
  match hosts with
  | [] => Raise (default RuntimeError last_error)
  | host :: hosts =>
      url ← build_download_url host (mi_direct_path info) (mi_file_enc_sha256 info) mms_type;
      match enc_file ← http_get url;
            decrypt_media enc_file (mi_media_key info) (mi_media_type info) (mi_file_enc_sha256 info) (mi_file_sha256 info) with
      | Ok p => Ok p
      | Raise exc => try_hosts hosts info mms_type (Some exc)
      end
  end.

Definition download (iq_id : str) (info : MediaInfo) : SE (option MediaConn) bytes :=
  conn ← _media_conn iq_id;
  let mms_type := if truthy (mi_mms_type info) then mi_mms_type info
                  else default [] (dict_get (mi_media_type info) MMS_TYPE) in
  se_lift (try_hosts (mc_hosts conn) info mms_type None).
End Download.

(** ** Round trip *)

Lemma pkcs7_eq d : _pkcs7 d = pkcs7_pad d.
Proof.
  unfold _pkcs7, pkcs7_pad. assert (16 - Z.of_nat (length d) mod 16 = Z.of_nat (16 - length d mod 16)) as ->.
  { pose proof (Nat.mod_upper_bound (length d) 16). rewrite Nat2Z.inj_sub, Nat2Z.inj_mod by lia. done. }
  by rewrite Nat2Z.id.
Qed.

Section RoundTrip.
Context {H : Hkdf} {HL : HkdfLaws H} {A : AesCbc} {AL : AesCbcLaws A}.

Lemma derive_ok key type ks : derive_media_keys key type = Ok ks →
  length (mk_iv ks) = 16%nat ∧ length (mk_cipher_key ks) = 32%nat.
Proof.
  unfold derive_media_keys. intros Hd. res_inv. cbn. unfold slice, hkdf_expand.
  rewrite !length_take, !length_drop, length_hkdf by lia. lia.
Qed.

Lemma encrypt_media_shape p type key em : encrypt_media p type key = Ok em →
  ∃ ks c, derive_media_keys key type = Ok ks ∧ aes_cbc_dec (mk_cipher_key ks) (mk_iv ks) c = Ok (pkcs7_pad p) ∧
    length c = length (pkcs7_pad p) ∧
    em = mkEncrypted (c ++ take 10 (hmac_sha256 (mk_mac_key ks) (mk_iv ks ++ c))) key
           (sha256 (c ++ take 10 (hmac_sha256 (mk_mac_key ks) (mk_iv ks ++ c)))) (sha256 p) (Z.of_nat (length p)).
Proof.
  unfold encrypt_media. intros He. res_inv. exists a, a0. rewrite pkcs7_eq in Hm0.
  pose proof (aes_enc_cases (mk_cipher_key a) (mk_iv a) (pkcs7_pad p)) as Hc.
  destruct (_ && _); [|congruence]. destruct Hc as (c & E & Hl & Hd). rewrite Hm0 in E. by simplify_eq.
Qed.

Lemma encrypt_media_total p type key : is_ok (utf8_encode type) = true → ∃ em, encrypt_media p type key = Ok em.
Proof.
  intros Hu. unfold encrypt_media. destruct (derive_media_keys key type) as [ks|] eqn:E.
  - destruct (derive_ok _ _ _ E) as [Hi Hk]. rbind. rewrite pkcs7_eq.
    pose proof (aes_enc_cases (mk_cipher_key ks) (mk_iv ks) (pkcs7_pad p)) as Hc.
    unfold aes_sizes, whole_blocks in Hc. rewrite Hi, Hk in Hc. destruct (pkcs7_pad_blocks p) as [Hb _].
    rewrite (bool_decide_true (_ mod 16 = 0)%nat) in Hc by done. cbn in Hc. destruct Hc as (c & -> & _). rbind. eauto.
  - unfold derive_media_keys in E. by destruct (utf8_encode type).
Qed.

Lemma decrypt_encrypted p type key em : encrypt_media p type key = Ok em →
  decrypt_media (em_enc_data em) key type (em_file_enc_sha256 em) (em_file_sha256 em) = Ok p.
Proof.
  intros He. destruct (encrypt_media_shape _ _ _ _ He) as (ks & c & Hk & Hd & Hl & ->). cbn [em_enc_data em_file_enc_sha256 em_file_sha256].
  set (mac := take 10 _). assert (length mac = 10%nat) as Hm by (unfold mac; rewrite length_take, length_hmac_sha256; lia).
  destruct (pkcs7_pad_blocks p) as [Hb Hlt]. unfold decrypt_media. rewrite length_app, Hm.
  destruct (Nat.leb_spec (length c + 10) _MAC_LENGTH) as [Hle|_]; [unfold _MAC_LENGTH in Hle; lia|].
  rewrite (bool_decide_true (sha256 (c ++ mac) = _)), andb_false_r by done. cbv zeta. rewrite Hk. rbind.
  unfold prefix_upto, suffix_from. rewrite length_app, Hm. unfold _MAC_LENGTH. rewrite Nat.add_sub, take_app_length, drop_app_length.
  fold mac. rewrite (bool_decide_true (mac = mac)) by done. cbn [negb]. unfold _aes_cbc_decrypt.
  replace (truthy c) with true by (destruct c; [cbn in Hl; lia|done]).
  replace (Z.of_nat (length c) mod 16) with 0
    by (rewrite Hl; change 16 with (Z.of_nat 16); by rewrite <-Nat2Z.inj_mod, Hb).
  cbn [negb orb Z.eqb]. rewrite Hd. rbind. rewrite pkcs7_strip_pad. rbind.
  by rewrite (bool_decide_true (sha256 p = _)), andb_false_r.
Qed.
End RoundTrip.

(** ** What is accepted *)

Section Accepted.
Context {H : Hkdf} {A : AesCbc}.

Lemma decrypt_media_sound f key type he hp p : decrypt_media f key type he hp = Ok p →
  (truthy he = true → sha256 f = he) ∧ (truthy hp = true → sha256 p = hp) ∧
  ∃ ks c, derive_media_keys key type = Ok ks ∧ f = c ++ take 10 (hmac_sha256 (mk_mac_key ks) (mk_iv ks ++ c)).
Proof.
  unfold decrypt_media. destruct (Nat.leb_spec (length f) _MAC_LENGTH) as [|Hf]; [done|].
  destruct (truthy he && _)%bool eqn:E1; [done|]. intros Hd. apply bind_Ok_inv in Hd as (ks & Hk & Hd).
  destruct (negb _) eqn:E2 in Hd; [done|]. apply negb_false_iff, bool_decide_eq_true in E2.
  apply bind_Ok_inv in Hd as (p' & _ & Hd). destruct (truthy hp && _)%bool eqn:E3; [done|]. simplify_eq.
  apply andb_false_iff in E1, E3. split_and!.
  - intros Ht. destruct E1 as [E1|E1]; [congruence|]. by apply negb_false_iff, bool_decide_eq_true in E1.
  - intros Ht. destruct E3 as [E3|E3]; [congruence|]. by apply negb_false_iff, bool_decide_eq_true in E3.
  - exists ks, (prefix_upto _MAC_LENGTH f). split; [done|]. change 10%nat with _MAC_LENGTH. rewrite E2.
    unfold prefix_upto, suffix_from. by rewrite take_drop.
Qed.

Context {U : UnicodeDB}.

(** The file of a host, verified. *)
Definition host_gives (http_get : str → result bytes) (info : MediaInfo) (mms_type host : str) : result bytes :=
  url ← build_download_url host (mi_direct_path info) (mi_file_enc_sha256 info) mms_type;
  enc_file ← http_get url;
  decrypt_media enc_file (mi_media_key info) (mi_media_type info) (mi_file_enc_sha256 info) (mi_file_sha256 info).

Lemma try_hosts_first http_get info mms p : ∀ hosts last, try_hosts http_get hosts info mms last = Ok p →
  ∃ before host after, hosts = before ++ host :: after ∧ host_gives http_get info mms host = Ok p ∧
    Forall (λ h, is_ok (host_gives http_get info mms h) = false) before.
Proof.
  induction hosts as [|h hosts IH]; intros last Ht; cbn [try_hosts] in Ht; [done|].
  apply bind_Ok_inv in Ht as (url & Hu & Ht). destruct (enc_file ← http_get url; _) as [p'|e] eqn:E.
  - simplify_eq. exists [], h, hosts. split_and!; [done| |constructor]. unfold host_gives. by rewrite Hu.
  - destruct (IH _ Ht) as (before & host & after & -> & Hg & Hb). exists (h :: before), host, after.
    split_and!; [done|done|]. constructor; [|done]. unfold host_gives. rewrite Hu. cbn -[decrypt_media]. by rewrite E.
Qed.
End Accepted.

(** An attachment encrypted by [encrypt_media] decrypts to itself; whatever
    [decrypt_media] returns carries the MAC of the derived keys and matches both digests
    that the message gives; and [download] returns the verified file of the first host
    that has one. *)
Theorem attachment_pipeline {H : Hkdf} {HL : HkdfLaws H} {A : AesCbc} {AL : AesCbcLaws A} {U : UnicodeDB}
    p type key f he hp p' send_iq http_get iq_id info conn conn' p'' :
  is_ok (utf8_encode type) = true → decrypt_media f key type he hp = Ok p' →
  download send_iq http_get iq_id info conn = (conn', Ok p'') →
  (∃ em, encrypt_media p type key = Ok em ∧
         decrypt_media (em_enc_data em) key type (em_file_enc_sha256 em) (em_file_sha256 em) = Ok p) ∧
  ((truthy he = true → sha256 f = he) ∧ (truthy hp = true → sha256 p' = hp) ∧
   ∃ ks c, derive_media_keys key type = Ok ks ∧ f = c ++ take 10 (hmac_sha256 (mk_mac_key ks) (mk_iv ks ++ c))) ∧
  ∃ mc mms before host after, conn' = Some mc ∧ mc_hosts mc = before ++ host :: after ∧
    host_gives http_get info mms host = Ok p'' ∧
    Forall (λ h, is_ok (host_gives http_get info mms h) = false) before.
Proof.
  intros Hu Hd Hl. split; [|split; [by apply decrypt_media_sound|]].
  - destruct (encrypt_media_total p type key Hu) as [em He]. exists em. split; [done|]. by apply decrypt_encrypted.
  - unfold download in Hl. apply se_bind_Ok_inv in Hl as (c1 & mc & Hc & Hl). unfold se_lift in Hl.
    injection Hl as <- Hl. apply try_hosts_first in Hl as (before & host & after & Hh & Hg & Hb).
    do 5 eexists. split_and!; [|exact Hh|exact Hg|exact Hb].
    unfold _media_conn in Hc. destruct conn as [c|]; [by simplify_eq|]. destruct (resp ← _; _); by simplify_eq.
Qed.

(** A file and the message that refers to it. *)
Definition sample_media : EncryptedMedia :=
  Eval vm_compute in ok_or (mkEncrypted [] [] [] [] 0)
    (encrypt_media (H := toy_hkdf) (A := toy_aes) [mkb 1; mkb 2; mkb 3] MEDIA_IMAGE (replicate 32 (mkb 7))).

Lemma attachment_pipeline_witness :
  let em := sample_media in
  let info := mkMediaInfo (u "/v/t62") (em_media_key em) (em_file_sha256 em) (em_file_enc_sha256 em) MEDIA_IMAGE [] in
  let conn := mkMediaConn [u "dead.example"; u "mmg.example"] [] 0 in
  let send_iq := λ _ : Node, Raise (A := Node) RuntimeError in
  let http_get := λ url : str, if bool_decide (take 9 url = u "https://d") then Raise ConnectionClosed else Ok (em_enc_data em) in
  (∃ em, encrypt_media (H := toy_hkdf) (A := toy_aes) [mkb 9] MEDIA_IMAGE (em_media_key sample_media) = Ok em ∧
         decrypt_media (H := toy_hkdf) (A := toy_aes) (em_enc_data em) (em_media_key sample_media) MEDIA_IMAGE
           (em_file_enc_sha256 em) (em_file_sha256 em) = Ok [mkb 9]) ∧
  ((truthy (em_file_enc_sha256 em) = true → sha256 (em_enc_data em) = em_file_enc_sha256 em) ∧
   (truthy (em_file_sha256 em) = true → sha256 [mkb 1; mkb 2; mkb 3] = em_file_sha256 em) ∧
   ∃ ks c, derive_media_keys (H := toy_hkdf) (em_media_key em) MEDIA_IMAGE = Ok ks ∧
     em_enc_data em = c ++ take 10 (hmac_sha256 (mk_mac_key ks) (mk_iv ks ++ c))) ∧
  ∃ mc mms before host after, Some conn = Some mc ∧ mc_hosts mc = before ++ host :: after ∧
    host_gives (H := toy_hkdf) (A := toy_aes) http_get info mms host = Ok [mkb 1; mkb 2; mkb 3] ∧
    Forall (λ h, is_ok (host_gives (H := toy_hkdf) (A := toy_aes) http_get info mms h) = false) before.
Proof.
  intros em info conn send_iq http_get.
  apply (attachment_pipeline (H := toy_hkdf) (A := toy_aes) (U := latin1_ucd) [mkb 9] MEDIA_IMAGE (em_media_key em)
    (em_enc_data em) (em_file_enc_sha256 em) (em_file_sha256 em) [mkb 1; mkb 2; mkb 3] send_iq http_get (u "1") info (Some conn));
    vm_compute; reflexivity.
Defined.
