(* ===== verification/Stanzas.v ===== *)
(** * Stanza builders and parsers of the messaging layer
    ([src/src/pywhats/messaging/presence.py], [group.py], [usync.py], [ib.py]) *)

From S2P Require Import Prelude PyStr Jid Node Encoder.

(** ** [presence.py] *)
Module Presence.
Section Presence.
Context {U : UnicodeDB}.

(** The builders. [chat] and [sender] are structured JIDs. *)
Definition build_read_receipt (chat : JID) (message_ids : list str) (sender : option JID) (timestamp : Z) : result Node :=
  match message_ids with
  | [] => Raise ValueError
  | first :: rest =>
      t ← py_str_int timestamp;
      let attrs := [(u "id", AStr first); (u "type", AStr (u "read")); (u "to", AJid chat); (u "t", AStr t)] in
      let attrs := match sender with Some s => dict_set (u "participant") (AJid s) attrs | None => attrs end in
      let content :=
        if truthy rest
        then CList [mkNode (u "list") [] (CList ((λ mid, mkNode (u "item") [(u "id", AStr mid)] CNone) <$> rest))]
        else CNone in
      Ok (mkNode (u "receipt") attrs content)
  end.

Definition build_presence (state : str) (name : option str) : Node :=
  let attrs := [(u "type", AStr state)] in
  let attrs := match name with
               | Some n => if truthy n then dict_set (u "name") (AStr n) attrs else attrs
               | None => attrs
               end in
  mkNode (u "presence") attrs CNone.

Definition build_subscribe_presence (jid : JID) : Node :=
  mkNode (u "presence") [(u "type", AStr (u "subscribe")); (u "to", AJid jid)] CNone.

Definition build_chat_presence (own to : JID) (state : str) (media : option str) : Node :=
  let child_attrs := match media with
                     | Some m => if bool_decide (state = u "composing") && truthy m then [(u "media", AStr m)] else []
                     | None => []
                     end in
  mkNode (u "chatstate") [(u "from", AJid own); (u "to", AJid to)] (CList [mkNode state child_attrs CNone]).

(** Attributes that are neither JIDs nor non-empty strings read as the bare server. *)
Definition _jid (attr : option AttrValue) : result JID :=
  match attr with
  | Some (AJid j) => Ok j
  | Some (AStr s) => if truthy s then parse_jid s else Ok (mkJID [] (u "s.whatsapp.net") 0)
  | _ => Ok (mkJID [] (u "s.whatsapp.net") 0)
  end.

Definition _int (raw : str) : result Z :=
  match py_int raw with Ok z => Ok z | Raise e => if is_ValueError e then Ok 0 else Raise e end.

(** The events [Receipt], [Presence] and [ChatPresence]. *)
Record Receipt := mkReceipt {
  rc_from_jid : JID; rc_message_ids : list str; rc_type : str; rc_timestamp : Z; rc_participant : option JID }.
Record PresenceEv := mkPresence { pr_from_jid : JID; pr_unavailable : bool; pr_last_seen : option Z }.
Record ChatPresence := mkChatPresence { cp_from_jid : JID; cp_state : str; cp_media : str }.

Definition parse_receipt (node : Node) : result Receipt :=
  id ← get_str node (u "id");
  more ← match get_child node (u "list") with
         | Some lst => mapR (λ item, get_str item (u "id")) (get_children lst (Some (u "item")))
         | None => Ok []
         end;
  let ids := id :: more in
  from ← _jid (get_attr node (u "from"));
  type ← get_str node (u "type");
  t ← get_str node (u "t");
  timestamp ← _int t;
  participant ← match get_attr node (u "participant") with
                | Some a => j ← _jid (Some a); Ok (Some j)
                | None => Ok None
                end;
  Ok (mkReceipt from (filter (λ m, truthy m = true) ids) type timestamp participant).

Definition parse_presence (node : Node) : result PresenceEv :=
  last ← get_str node (u "last");
  last_seen ← (if truthy last && negb (bool_decide (last = u "deny")) then z ← _int last; Ok (Some z) else Ok None);
  from ← _jid (get_attr node (u "from"));
  type ← get_str node (u "type");
  Ok (mkPresence from (bool_decide (type = u "unavailable")) last_seen).

Definition parse_chat_presence (node : Node) : result ChatPresence :=
  let child := default (mkNode (u "paused") [] CNone) (head (get_children node None)) in
  from ← _jid (get_attr node (u "from"));
  media ← get_str child (u "media");
  Ok (mkChatPresence from (tag child) media).

(** A read receipt parses to what it was built from. *)
Lemma read_receipt_roundtrip `{!UnicodeDBLaws U} chat ids sender t n :
  Forall (λ m, truthy m = true) ids → 0 ≤ t → build_read_receipt chat ids sender t = Ok n →
  ∃ r, parse_receipt n = Ok r ∧ rc_message_ids r = ids ∧ rc_type r = u "read" ∧ rc_timestamp r = t ∧ rc_participant r = sender.
Proof.
  intros Hids Ht H. destruct ids as [|first rest]; [done|]. unfold build_read_receipt in H. res_inv.
  destruct (py_int_str t a Ht Hm) as [Hi _]. unfold parse_receipt.
  assert (∀ l : list str, mapR (λ item, get_str item (u "id")) ((λ mid, mkNode (u "item") [(u "id", AStr mid)] CNone) <$> l) = Ok l) as K.
  { induction l as [|x l IH]; [done|]. cbn [mapR fmap list_fmap]. rewrite IH. done. }
  assert (∀ l : list str, filter (λ c, tag c = u "item") ((λ mid, mkNode (u "item") [(u "id", AStr mid)] CNone) <$> l) =
    ((λ mid, mkNode (u "item") [(u "id", AStr mid)] CNone) <$> l)) as F.
  { induction l as [|x l IH]; [done|]. cbn [fmap list_fmap]. rewrite filter_cons, decide_True by done. by rewrite IH. }
  assert (filter (λ m, truthy m = true) (first :: rest) = first :: rest) as Hf.
  { clear -Hids. induction Hids as [|x l Hx Hl IH]; [done|]. rewrite filter_cons, decide_True by done. by rewrite IH. }
  assert (∀ P, match get_child (mkNode (u "receipt") P (if truthy rest
      then CList [mkNode (u "list") [] (CList ((λ mid, mkNode (u "item") [(u "id", AStr mid)] CNone) <$> rest))]
      else CNone)) (u "list") with
    | Some lst => mapR (λ item, get_str item (u "id")) (get_children lst (Some (u "item"))) | None => Ok [] end = Ok rest) as Hmore.
  { intros P. destruct rest as [|x l]; [done|]. cbn [truthy]. node_lit. cbn [get_children content]. by rewrite F, K. }
  rewrite Hmore. destruct sender as [s|]; unfold get_str, get_attr; cbn [attrs dict_set]; repeat (rewrite decide_False by (by vm_compute));
    dict_lit; cbn [mbind result_bind py_str_attr _jid]; unfold _int; rewrite Hi; cbn [mbind result_bind]; rewrite Hf;
    eexists; split_and!; reflexivity.
Qed.
End Presence.
End Presence.

(** ** [group.py] *)
Module Groups.
Section Groups.
Context {U : UnicodeDB}.

Definition GROUP_SERVER : str := u "g.us".

Definition build_group_info_iq (group : JID) (iq_id : str) : Node :=
  mkNode (u "iq") [(u "id", AStr iq_id); (u "type", AStr (u "get")); (u "xmlns", AStr (u "w:g2")); (u "to", AJid group)]
    (CList [mkNode (u "query") [(u "request", AStr (u "interactive"))] CNone]).

Definition _jid : option AttrValue → result JID := Presence._jid.

Record GroupParticipant := mkParticipant { gp_jid : JID; gp_is_admin : bool; gp_is_super_admin : bool }.
Record GroupInfo := mkGroupInfo {
  gi_jid : JID; gi_subject : str; gi_owner : option JID; gi_participants : list GroupParticipant;
  gi_announce : bool; gi_locked : bool }.

(** One round of the loop over the children, on [participants], [announce] and [locked]. *)
Definition group_child (acc : list GroupParticipant * bool * bool) (child : Node)
    : result (list GroupParticipant * bool * bool) :=
  let '(participants, announce, locked) := acc in
  if decide (tag child = u "participant") then
    ptype ← get_str child (u "type");
    jid ← _jid (get_attr child (u "jid"));
    Ok (participants ++ [mkParticipant jid (bool_decide (ptype = u "admin" ∨ ptype = u "superadmin"))
                           (bool_decide (ptype = u "superadmin"))], announce, locked)
  else if decide (tag child = u "announcement") then Ok (participants, true, locked)
  else if decide (tag child = u "locked") then Ok (participants, announce, true)
  else Ok acc.

Fixpoint group_children (acc : list GroupParticipant * bool * bool) (l : list Node)
    : result (list GroupParticipant * bool * bool) :=
  match l with [] => Ok acc | c :: l => acc ← group_child acc c; group_children acc l end.

Definition parse_group_info (iq : Node) : result GroupInfo :=
  group_node ← some_or (get_child iq (u "group")) ValueError;
  group_id ← get_str group_node (u "id");
  jid ← (if contains AT group_id then _jid (Some (AStr group_id)) else Ok (mkJID group_id GROUP_SERVER 0));
  acc ← group_children ([], false, false) (get_children group_node None);
  let '(participants, announce, locked) := acc in
  subject ← get_str group_node (u "subject");
  owner ← match get_attr group_node (u "creator") with
          | Some a => j ← _jid (Some a); Ok (Some j)
          | None => Ok None
          end;
  Ok (mkGroupInfo jid subject owner participants announce locked).

(** A super admin is an admin. *)
Lemma group_child_admins acc c acc' : group_child acc c = Ok acc' →
  Forall (λ p, gp_is_super_admin p = true → gp_is_admin p = true) acc.1.1 →
  Forall (λ p, gp_is_super_admin p = true → gp_is_admin p = true) acc'.1.1.
Proof.
  destruct acc as [[ps a] l]. unfold group_child. intros H Hps.
  case_decide; [|case_decide; [by simplify_eq|case_decide; by simplify_eq]]. res_inv. cbn in *. apply Forall_app. split; [done|]. constructor; [|done]. cbn. intros Hs%bool_decide_eq_true. apply bool_decide_true. by right.
Qed.

Lemma parse_group_admins iq g : parse_group_info iq = Ok g →
  Forall (λ p, gp_is_super_admin p = true → gp_is_admin p = true) (gi_participants g).
Proof.
  unfold parse_group_info. intros H. repeat (apply bind_Ok_inv in H as (? & ? & H)). destruct x2 as [[ps a] l].
  repeat (apply bind_Ok_inv in H as (? & ? & H)). simplify_eq. cbn.
  assert (∀ ns acc acc', group_children acc ns = Ok acc' →
    Forall (λ p, gp_is_super_admin p = true → gp_is_admin p = true) acc.1.1 →
    Forall (λ p, gp_is_super_admin p = true → gp_is_admin p = true) acc'.1.1) as K.
  { induction ns as [|n ns IH]; intros acc acc' Hg Hacc; cbn [group_children] in Hg; [by simplify_eq|].
    apply bind_Ok_inv in Hg as (acc1 & Hc & Hg). eapply IH; [done|]. by eapply group_child_admins. }
  by eapply (K _ _ (ps, a, l)).
Qed.
End Groups.
End Groups.

(** ** [usync.py] *)
Module Usync.
Section Usync.
Context {U : UnicodeDB}.

Record UserSyncEntry := mkEntry { us_devices : list JID; us_lid : option JID }.

Definition _base_jid (j : JID) : JID := mkJID (user j) (server j) 0.
Definition _device_jid (base : JID) (dev : Z) : JID := mkJID (user base) (server base) dev.
Definition _base_key (j : JID) : str * str := (user j, server j).
Definition _jid_from_attr : option AttrValue → result JID := Presence._jid.

(** The [for] loop with its [seen] set. *)
Fixpoint dedupe_users (seen : list (str * str)) (users : list JID) : list JID :=
  match users with
  | [] => []
  | j :: users =>
      let base := _base_jid j in
      let key := _base_key base in
      if bool_decide (key ∈ seen) || negb (truthy (user base)) then dedupe_users seen users
      else base :: dedupe_users (key :: seen) users
  end.
Definition _dedupe_base_users : list JID → list JID := dedupe_users [].

Fixpoint dedupe_devices (seen : list (str * str * Z)) (devices : list JID) : list JID :=
  match devices with
  | [] => []
  | j :: devices =>
      let key := (user j, server j, device j) in
      if bool_decide (key ∈ seen) then dedupe_devices seen devices else j :: dedupe_devices (key :: seen) devices
  end.
Definition _dedupe_devices : list JID → list JID := dedupe_devices [].

Definition build_device_query (users : list JID) (iq_id : str) : Node :=
  let user_nodes := (λ j, mkNode (u "user") [(u "jid", AJid (_base_jid j))] CNone) <$> _dedupe_base_users users in
  mkNode (u "iq")
    [(u "id", AStr iq_id); (u "type", AStr (u "get")); (u "xmlns", AStr (u "usync"));
     (u "to", AJid (mkJID [] (u "s.whatsapp.net") 0))]
    (CList [mkNode (u "usync")
      [(u "context", AStr (u "message")); (u "mode", AStr (u "query")); (u "sid", AStr iq_id);
       (u "last", AStr (u "true")); (u "index", AStr (u "0"))]
      (CList [mkNode (u "query") [] (CList [mkNode (u "devices") [(u "version", AStr (u "2"))] CNone; mkNode (u "lid") [] CNone]);
              mkNode (u "list") [] (CList user_nodes)])]).

(** [int(str(raw))], an absent attribute being [None]. *)
Definition _read_device_id (n : Node) : result (option Z) :=
  match s ← match get_attr n (u "id") with None => Ok (u "None") | Some v => py_str_attr v end; py_int s with
  | Ok z => Ok (Some z)
  | Raise e => if is_ValueError e || bool_decide (e = TypeError) then Ok None else Raise e
  end.

Definition _read_lid (n : Node) : result (option JID) :=
  match get_child n (u "lid") with
  | None => Ok None
  | Some lid =>
      parsed ← _jid_from_attr (get_attr lid (u "val"));
      Ok (if truthy (user parsed) && bool_decide (server parsed = u "lid") then Some (_base_jid parsed) else None)
  end.

(** The devices of the [<device-list>], where the id is an integer. *)
Fixpoint read_devices (base : JID) (children : list Node) : result (list JID) :=
  match children with
  | [] => Ok []
  | c :: children =>
      dev_id ← _read_device_id c;
      rest ← read_devices base children;
      Ok (match dev_id with Some d => _device_jid base d :: rest | None => rest end)
  end.

(** One round of the loop over the [<user>] nodes, on the dictionary [out]. *)
Definition read_user (out : list (JID * UserSyncEntry)) (user_node : Node) : result (list (JID * UserSyncEntry)) :=
  base ← _jid_from_attr (get_attr user_node (u "jid"));
  if negb (truthy (user base)) then Ok out
  else
    let base := _base_jid base in
    let device_list := match get_child user_node (u "devices") with
                       | Some d => get_child d (u "device-list")
                       | None => None
                       end in
    more ← match device_list with
           | Some dl => read_devices base (get_children dl (Some (u "device")))
           | None => Ok []
           end;
    lid ← _read_lid user_node;
    Ok (dict_set base (mkEntry (_dedupe_devices (_device_jid base 0 :: more)) lid) out).

Fixpoint read_users (out : list (JID * UserSyncEntry)) (l : list Node) : result (list (JID * UserSyncEntry)) :=
  match l with [] => Ok out | n :: l => out ← read_user out n; read_users out l end.

(** [{base: UserSyncEntry(devices=[base]) for base in requested.values()}] *)
Fixpoint default_entries (requested : list JID) (out : list (JID * UserSyncEntry)) : list (JID * UserSyncEntry) :=
  match requested with
  | [] => out
  | j :: requested => default_entries requested (dict_set (_base_jid j) (mkEntry [_base_jid j] None) out)
  end.

Definition parse_device_result (iq : Node) (requested_users : list JID) : result (list (JID * UserSyncEntry)) :=
  let out := default_entries requested_users [] in
  usync ← some_or (get_child iq (u "usync")) PairingFailed;
  lst ← some_or (get_child usync (u "list")) PairingFailed;
  read_users out (get_children lst (Some (u "user"))).

(** *** Well-formed results *)

(** The key is a base JID; the devices start with it, are its own and are distinct; a
    LID is a base JID of the LID server with a user. *)
Record entry_ok (e : JID * UserSyncEntry) : Prop := {
  eo_base : device e.1 = 0;
  eo_first : head (us_devices e.2) = Some e.1;
  eo_own : Forall (λ j, user j = user e.1 ∧ server j = server e.1) (us_devices e.2);
  eo_distinct : NoDup (us_devices e.2);
  eo_lid : ∀ l, us_lid e.2 = Some l → server l = u "lid" ∧ device l = 0 ∧ truthy (user l) = true
}.

Lemma dedupe_devices_spec devs : ∀ seen, NoDup (dedupe_devices seen devs) ∧
  (∀ j, j ∈ dedupe_devices seen devs ↔ j ∈ devs ∧ (user j, server j, device j) ∉ seen).
Proof.
  induction devs as [|j devs IH]; intros seen; cbn [dedupe_devices]; [split; [constructor|set_solver]|].
  case_bool_decide as Hj.
  - destruct (IH seen) as [Hn He]. split; [done|]. intros x. rewrite He, elem_of_cons. naive_solver.
  - destruct (IH ((user j, server j, device j) :: seen)) as [Hn He]. split.
    + constructor; [|done]. rewrite He. set_solver.
    + intros x. rewrite !elem_of_cons, He, not_elem_of_cons. split; [naive_solver|].
      intros [[->|Hx] Hs]; [by left|]. destruct (decide (x = j)) as [->|Hne]; [by left|right]. split; [done|]. split; [|done].
      intros [= H1 H2 H3]. apply Hne. destruct x, j. cbn in *. congruence.
Qed.

Lemma read_devices_own base l ds : read_devices base l = Ok ds → Forall (λ j, user j = user base ∧ server j = server base) ds.
Proof.
  revert ds. induction l as [|c l IH]; intros ds H; cbn [read_devices] in H; [simplify_eq; constructor|].
  apply bind_Ok_inv in H as (o & _ & H). apply bind_Ok_inv in H as (rest & Hr & H). simplify_eq.
  destruct o; [constructor; [done|]|]; by apply IH.
Qed.

Lemma read_user_ok out n out' : Forall entry_ok out → read_user out n = Ok out' → Forall entry_ok out'.
Proof.
  intros Ho H. unfold read_user in H. apply bind_Ok_inv in H as (b & _ & H). destruct (truthy (user b)) eqn:Hu; cbn [negb] in H; [|by simplify_eq].
  apply bind_Ok_inv in H as (more & Hm & H). apply bind_Ok_inv in H as (lid & Hl & H). simplify_eq.
  assert (Forall (λ j, user j = user b ∧ server j = server b) more) as Hown.
  { destruct (match get_child n (u "devices") with Some d => _ | None => None end); [by apply read_devices_own in Hm|by simplify_eq]. }
  assert (entry_ok (_base_jid b, mkEntry (_dedupe_devices (_device_jid (_base_jid b) 0 :: more)) lid)) as He.
  { destruct (dedupe_devices_spec (_device_jid (_base_jid b) 0 :: more) []) as [Hn He]. split; cbn [fst snd us_devices us_lid].
    - done.
    - done.
    - apply Forall_forall. intros j Hj%He. destruct Hj as [[->|Hj]%elem_of_cons _]; [done|]. rewrite Forall_forall in Hown. by apply Hown.
    - exact Hn.
    - intros l ->. unfold _read_lid in Hl. destruct (get_child n (u "lid")); [|done].
      apply bind_Ok_inv in Hl as (p & _ & Hl). destruct (_ && _)%bool eqn:Eb; simplify_eq.
      apply andb_true_iff in Eb as [? ?%bool_decide_eq_true]. done. }
  clear -Ho He. induction Ho as [|[k v] out Hk Ho IH]; cbn [dict_set]; [by constructor|].
  case_decide; constructor; done.
Qed.

Lemma default_entries_ok req : ∀ out, Forall entry_ok out → Forall entry_ok (default_entries req out).
Proof.
  induction req as [|j req IH]; intros out Ho; [done|]. cbn [default_entries]. apply IH.
  assert (entry_ok (_base_jid j, mkEntry [_base_jid j] None)) as He.
  { split; cbn; [done|done|by constructor|apply NoDup_singleton|done]. }
  clear -Ho He. induction Ho as [|[k v] out Hk Ho IH]; cbn [dict_set]; [by constructor|]. case_decide; constructor; done.
Qed.

Lemma read_users_keys l : ∀ out out' k, read_users out l = Ok out' → k ∈ dict_keys out → k ∈ dict_keys out'.
Proof.
  induction l as [|n l IH]; intros out out' k H Hk; cbn [read_users] in H; [by simplify_eq|].
  apply bind_Ok_inv in H as (o1 & H1 & H). eapply IH; [done|]. unfold read_user in H1.
  apply bind_Ok_inv in H1 as (b & _ & H1). destruct (negb _); [by simplify_eq|].
  apply bind_Ok_inv in H1 as (more & _ & H1). apply bind_Ok_inv in H1 as (lid & _ & H1). simplify_eq.
  rewrite dict_keys_set. case_decide; [done|]. set_solver.
Qed.

Lemma default_entries_keys req : ∀ out k, (∃ j, j ∈ req ∧ k = _base_jid j) ∨ k ∈ dict_keys out → k ∈ dict_keys (default_entries req out).
Proof.
  induction req as [|j req IH]; intros out k Hk; cbn [default_entries]; [destruct Hk as [(? & []%elem_of_nil & _)|]; done|].
  apply IH. rewrite dict_keys_set. destruct Hk as [(x & [->|Hx]%elem_of_cons & ->)|Hk]; [right|left; eauto|right];
    case_decide; set_solver.
Qed.
End Usync.

(** C36: whatever the server answers, an accepted device list is well formed: every
    requested user has an entry under its base JID, and every entry's devices start with
    that JID, belong to the same user and server and are distinct, and its LID, if any,
    is a base JID of the LID server. *)
Theorem device_lists_well_formed `{U : UnicodeDB} iq requested out : parse_device_result iq requested = Ok out →
  Forall entry_ok out ∧ ∀ j, j ∈ requested → ∃ e, dict_get (_base_jid j) out = Some e.
Proof.
  unfold parse_device_result. intros H. apply bind_Ok_inv in H as (us & _ & H). apply bind_Ok_inv in H as (lst & _ & H). split.
  - assert (∀ l out out', Forall entry_ok out → read_users out l = Ok out' → Forall entry_ok out') as K.
    { induction l as [|n l IH]; intros o o' Ho Hr; cbn [read_users] in Hr; [by simplify_eq|].
      apply bind_Ok_inv in Hr as (o1 & H1 & Hr). eapply IH; [|done]. by eapply read_user_ok. }
    eapply K; [|done]. apply default_entries_ok. constructor.
  - intros j Hj. destruct (dict_get (_base_jid j) out) eqn:E; [eauto|]. apply dict_get_None in E. destruct E.
    eapply read_users_keys; [done|]. apply default_entries_keys. eauto.
Qed.

Lemma device_lists_well_formed_witness :
  let alice := mkJID (u "1555") (u "s.whatsapp.net") 3 in
  let bob := mkJID (u "1666") (u "s.whatsapp.net") 0 in
  let dev i := mkNode (u "device") [(u "id", AStr (u i))] CNone in
  let iq := mkNode (u "iq") [] (CList [mkNode (u "usync") [] (CList [mkNode (u "list") [] (CList
      [mkNode (u "user") [(u "jid", AJid alice)] (CList
         [mkNode (u "devices") [] (CList [mkNode (u "device-list") [] (CList [dev "0"; dev "7"; dev "x"; dev "7"])]);
          mkNode (u "lid") [(u "val", AStr (u "99@lid"))] CNone])])])]) in
  let out := ok_or [] (parse_device_result (U := latin1_ucd) iq [alice; bob]) in
  Forall entry_ok out ∧ ∀ j, j ∈ [alice; bob] → ∃ e, dict_get (_base_jid j) out = Some e.
Proof.
  intros alice bob dev iq out. apply (device_lists_well_formed (U := latin1_ucd) iq). vm_compute. reflexivity.
Defined.
End Usync.

(** ** [ib.py] *)
Module Ib.

(** What the dispatcher does to its surroundings; whether it succeeds does not matter to it. *)
Inductive effect := StoreRoutingInfo (data : bytes) | SendStanza (data : bytes).

Section Ib.
Context {Zl : Zlib} {U : UnicodeDB}.

Definition _handle_edge_routing (has_sink : bool) (edge : Node) : list effect :=
  match get_child edge (u "routing_info") with
  | None => []
  | Some ri => let data := content_bytes ri in
               if truthy data && has_sink then [StoreRoutingInfo data] else []
  end.

(** The [try] covers encoding and sending. *)
Definition _handle_offline_preview (offline_batch_count : Z) : result (list effect) :=
  count ← py_str_int offline_batch_count;
  let reply := mkNode (u "ib") [] (CList [mkNode (u "offline_batch") [(u "count", AStr count)] CNone]) in
  Ok (match encode reply false with Ok d => [SendStanza d] | Raise _ => [] end).

(** The loop over the children; the other branches only log, and read what they log. *)
Fixpoint handle_children (has_sink : bool) (offline_batch_count : Z) (children : list Node) : list effect * result unit :=
  match children with
  | [] => ([], Ok tt)
  | child :: children =>
      let this :=
        if decide (tag child = u "edge_routing") then Ok (_handle_edge_routing has_sink child)
        else if decide (tag child = u "offline_preview") then _handle_offline_preview offline_batch_count
        else if decide (tag child = u "offline") then _ ← get_str child (u "count"); Ok []
        else if decide (tag child = u "dirty") then _ ← get_str child (u "type"); _ ← get_str child (u "timestamp"); Ok []
        else Ok [] in
      match this with
      | Raise e => ([], Raise e)
      | Ok es => let '(es', r) := handle_children has_sink offline_batch_count children in (es ++ es', r)
      end
  end.

Definition handle_ib (has_sink : bool) (offline_batch_count : Z) (node : Node) : list effect * result unit :=
  handle_children has_sink offline_batch_count (get_children node None).

(** Every [<offline_preview>] is answered, in order with the routing updates, unless a
    log line raises first. *)
Lemma handle_children_app sink n l1 l2 es : handle_children sink n l1 = (es, Ok tt) →
  handle_children sink n (l1 ++ l2) = let '(es', r) := handle_children sink n l2 in (es ++ es', r).
Proof.
  revert es. induction l1 as [|c l1 IH]; intros es H; cbn [handle_children app] in *.
  { simplify_eq. by destruct (handle_children sink n l2). }
  destruct (if decide (tag c = u "edge_routing") then _ else _) as [e1|]; [|done].
  destruct (handle_children sink n l1) as [es1 r1]. simplify_eq. rewrite (IH es1) by done.
  destruct (handle_children sink n l2). by rewrite app_assoc.
Qed.
End Ib.
End Ib.
