(* ===== verification/PeerSessions.v ===== *)
(** * The Signal sessions of a device with its peers

    The session handling of [src/src/pywhats/messaging/sender.py] and
    [messaging/receiver.py], which share one set of stores: encrypting for a peer, with
    X3DH when there is no session, decrypting what a peer sent, dropping and migrating
    sessions. The pre-key server is an argument, and so are the fresh private keys. *)

From S2P Require Import Prelude PyStr Jid Crypto AppCrypto SignalKeys X3dh SignalTypes Ratchet.
From S2P Require Import RatchetProofs SessionStore LidMap PeerStores.

(** ** The state *)

(** [_PendingPreKey] and [_PeerSessionMeta] of the sender. *)
Record _PendingPreKey := mkPending {
  pp_registration_id : Z;
  pp_one_time_pre_key_id : option Z;
  pp_signed_pre_key_id : Z;
  pp_base_key : bytes;
  pp_identity_key : bytes
}.

Record _PeerSessionMeta := mkMeta { pm_peer_identity : bytes; pm_pending_prekey : option _PendingPreKey }.

(** The credentials of the device: the identity provider and [own_jid]. *)
Record Device := mkDevice {
  dv_identity : IdentityKeyPair;
  dv_registration_id : Z;
  dv_signed_pre_key : SignedPreKey;
  dv_jid : JID
}.

(** The stores, and the sender's [_peer_meta]; its records have no other owner. *)
Record World (S I L K : Type) := mkWorld {
  w_sessions : S;
  w_ids : I;
  w_lids : L;
  w_prekeys : K;
  w_meta : gmap str _PeerSessionMeta
}.
Arguments mkWorld {S I L K}.
Arguments w_sessions {S I L K}.
Arguments w_ids {S I L K}.
Arguments w_lids {S I L K}.
Arguments w_prekeys {S I L K}.
Arguments w_meta {S I L K}.

(** The argument [atomic] of the receiver: [SqliteStore.transaction], which rolls the
    database back on an exception, or [nullcontext]. *)
Inductive atomicity := NullContext | Transaction.

Definition atomic {W A} (b : atomicity) (m : SE W A) : SE W A := λ w,
  match b, m w with
  | Transaction, (_, Raise e) => (w, Raise e)
  | _, r => r
  end.

(** [_make_responder_identity] of [client.py]: only the advertised signed pre-key is known. *)
Definition get_signed_pre_key (d : Device) (key_id : Z) : result SignedPreKey :=
  if negb (key_id =? spk_key_id (dv_signed_pre_key d)) then Raise ValueError else Ok (dv_signed_pre_key d).

Definition PN_SERVER : str := u "s.whatsapp.net".
Definition LID_SERVER : str := u "lid".

Section PeerSessions.
Context {S I L K : Type} {SS : SessionStore S} {IS : IdentityStore I} {LM : LidMap L} {KS : PreKeyStore K}.
Context {X : X25519} {E : XEdDSA} {HK : Hkdf} {HM : Hmac} {AES : AesCbc} {PK : Pkcs7} {W : WhisperProto}.

#[local] Abbreviation world := (World S I L K).

(** ** The stores as parts of the state *)

Definition load_session (sid : str) : SE world (option RatchetState) := λ w, (w, ss_load (w_sessions w) sid).

Definition with_sessions (s : S) (w : world) : world := mkWorld s (w_ids w) (w_lids w) (w_prekeys w) (w_meta w).

Definition save_session (sid : str) (st : RatchetState) : SE world unit := λ w,
  match ss_save (w_sessions w) sid st with
  | Ok s => (with_sessions s w, Ok tt)
  | Raise e => (w, Raise e)
  end.

Definition on_ids {A} (m : SE I A) : SE world A := λ w,
  let '(i, r) := m (w_ids w) in (mkWorld (w_sessions w) i (w_lids w) (w_prekeys w) (w_meta w), r).

Definition on_lids {A} (m : SE L A) : SE world A := λ w,
  let '(l, r) := m (w_lids w) in (mkWorld (w_sessions w) (w_ids w) l (w_prekeys w) (w_meta w), r).

Definition on_prekeys {A} (m : SE K A) : SE world A := λ w,
  let '(k, r) := m (w_prekeys w) in (mkWorld (w_sessions w) (w_ids w) (w_lids w) k (w_meta w), r).

Definition on_session_stores {A} (m : SE (S * I) A) : SE world A := λ w,
  let '((s, i), r) := m (w_sessions w, w_ids w) in (mkWorld s i (w_lids w) (w_prekeys w) (w_meta w), r).

Definition set_meta (sid : str) (meta : option _PeerSessionMeta) : SE world unit := λ w,
  (mkWorld (w_sessions w) (w_ids w) (w_lids w) (w_prekeys w) (partial_alter (λ _, meta) sid (w_meta w)), Ok tt).

(** ** Sending ([sender.py]) *)

(** [_establish_session_from_bundle]; [eph] and [dh] are the fresh private keys. *)
Definition _establish_session_from_bundle (d : Device) (eph dh : bytes) (bundle : PreKeyBundle)
    : result (RatchetState * _PeerSessionMeta) :=
  r ← x3dh_initiator (dv_identity d) bundle (identity_generate eph);
  state ← ratchet_init_alice (dh, x25519_public dh) (xi_shared_secret r) (b_signed_pre_key_public bundle);
  Ok (state, mkMeta (b_identity_key bundle)
        (Some (mkPending (dv_registration_id d) (xi_used_one_time_pre_key_id r) (xi_used_signed_pre_key_id r)
                 (xi_ephemeral_public r) (xi_identity_public r)))).

Definition _establish_session (d : Device) (fetch_prekeys : JID → result PreKeyBundle) (eph dh : bytes)
    (peer : JID) : result (RatchetState * _PeerSessionMeta) :=
  bundle ← fetch_prekeys peer; _establish_session_from_bundle d eph dh bundle.

(** The metadata of a session, rebuilt from the pinned identity after a restart. *)
Definition recall_meta (sid : str) (state : option RatchetState) : SE world (option _PeerSessionMeta) :=
  meta ← se_asks (λ w : world, w_meta w !! sid);
  match state, meta with
  | Some _, None =>
      cached ← se_asks (λ w : world, is_load (w_ids w) sid);
      match cached with
      | Some cached => let meta := Some (mkMeta cached None) in _ ← set_meta sid meta; mret meta
      | None => mret None
      end
  | _, _ => mret meta
  end.

(** The wire form: [("pkmsg", ..)] while the pre-key message is pending, else [("msg", ..)]. *)
Definition seal_message (d : Device) (meta : _PeerSessionMeta) (m : MessageHeader * bytes * bytes)
    : result (str * bytes) :=
  let '(header, ciphertext, mac_key) := m in
  let signal := mkSignalMessage header ciphertext None None in
  let own := ik_public (dv_identity d) in
  inner ← signal_encode signal own (pm_peer_identity meta) mac_key;
  match pm_pending_prekey meta with
  | Some pp =>
      let pkmsg := mkPreKeySignalMessage (pp_registration_id pp) (pp_one_time_pre_key_id pp)
                     (pp_signed_pre_key_id pp) (pp_base_key pp) (pp_identity_key pp) signal in
      data ← prekey_encode pkmsg own (pm_peer_identity meta) mac_key;
      Ok (u "pkmsg", data)
  | None => Ok (u "msg", inner)
  end.

(** [_encrypt_for_peer]; [_resolve_signal_address] returns its argument. *)
Definition _encrypt_for_peer (d : Device) (fetch_prekeys : JID → result PreKeyBundle) (eph dh : bytes)
    (peer : JID) (plaintext : bytes) : SE world (str * bytes) :=
  sid ← se_lift (session_id peer);
  state ← load_session sid;
  meta ← recall_meta sid state;
  '(state, meta) ← match state, meta with
    | Some state, Some meta => mret (state, meta)
    | _, _ =>
        '(state, meta) ← se_lift (_establish_session d fetch_prekeys eph dh peer);
        _ ← set_meta sid (Some meta);
        _ ← on_ids (is_save sid (pm_peer_identity meta));
        mret (state, meta)
    end;
  let ad := ik_public (dv_identity d) ++ pm_peer_identity meta in
  let '(state, r) := ratchet_encrypt plaintext ad state in
  m ← se_lift r;
  _ ← save_session sid state;
  se_lift (seal_message d meta m).

(** [_peer_and_lid_alt]: the peer, and its other address when the map knows it. *)
Definition _peer_and_lid_alt (peer : JID) (lids : L) : list JID :=
  peer ::
    if bool_decide (server peer = LID_SERVER) then
      match get_pn lids (user peer) with
      | Some pn_user => [mkJID pn_user PN_SERVER (device peer)]
      | None => []
      end
    else
      match get_lid lids (user peer) with
      | Some lid_user => [mkJID lid_user LID_SERVER (device peer)]
      | None => []
      end.

(** One round of the loop of [_drop_peer_session]. *)
Definition drop_candidate (_ : unit) (candidate : JID) : SE world unit :=
  sid ← se_lift (session_id candidate);
  _ ← (λ w : world, (with_sessions (ss_delete (w_sessions w) sid) w, Ok tt));
  _ ← set_meta sid None;
  on_ids (λ i, (is_delete i sid, Ok tt)).

Definition _drop_peer_session (peer : JID) : SE world unit :=
  peers ← se_asks (λ w : world, _peer_and_lid_alt peer (w_lids w));
  se_fold drop_candidate tt peers.

(** [note_incoming_decrypted] *)
Definition note_candidate (_ : unit) (candidate : JID) : SE world unit :=
  sid ← se_lift (session_id candidate);
  meta ← se_asks (λ w : world, w_meta w !! sid);
  match meta with
  | Some meta => set_meta sid (Some (mkMeta (pm_peer_identity meta) None))
  | None => mret tt
  end.

Definition note_incoming_decrypted (peer : JID) : SE world unit :=
  peers ← se_asks (λ w : world, _peer_and_lid_alt peer (w_lids w));
  se_fold note_candidate tt peers.

(** [_migrate_pn_session_to_lid] and [_remember_lid_mapping]: the metadata moves along. *)
Definition _migrate_pn_session_to_lid (pn lid : JID) : SE world unit :=
  moved ← on_session_stores (migrate_pn_session_to_lid pn lid);
  if negb moved then mret tt
  else
    pn_key ← se_lift (session_id pn);
    meta ← se_asks (λ w : world, w_meta w !! pn_key);
    _ ← set_meta pn_key None;
    match meta with
    | Some meta => lid_key ← se_lift (session_id lid); set_meta lid_key (Some meta)
    | None => mret tt
    end.

Definition _remember_lid_mapping (pn : JID) (lid : option JID) : SE world (option str) :=
  match lid with
  | None => mret None
  | Some lid =>
      if bool_decide (server pn = LID_SERVER) then mret None
      else
        _ ← on_lids (lid_set (user pn) (user lid));
        _ ← _migrate_pn_session_to_lid pn (mkJID (user lid) LID_SERVER (device pn));
        mret (Some (user lid))
  end.

(** ** Receiving ([receiver.py]) *)

Definition _migrate_known_lid_sender (b : atomicity) (sender : JID) : SE world unit :=
  if negb (bool_decide (server sender = LID_SERVER)) then mret tt
  else
    sid ← se_lift (session_id sender);
    known ← load_session sid;
    match known with
    | Some _ => mret tt
    | None =>
        pn_user ← se_asks (λ w : world, get_pn (w_lids w) (user sender));
        match pn_user with
        | None => mret tt
        | Some pn_user =>
            let pn := mkJID pn_user PN_SERVER (device sender) in
            _ ← atomic b (on_session_stores (migrate_pn_session_to_lid pn sender));
            mret tt
        end
    end.

(** The [pkmsg] branch: a session is made from the sender's keys and ours, the message
    decrypted, and the consumed key, session and identity written together. [new] is the
    key pair the ratchet draws. *)
Definition decrypt_pkmsg (b : atomicity) (d : Device) (new : bytes * bytes) (sid : str) (ciphertext : bytes)
    : SE world bytes :=
  pkmsg ← se_lift (prekey_decode ciphertext);
  spk ← se_lift (get_signed_pre_key d (pk_signed_pre_key_id pkmsg));
  opk ← match pk_one_time_pre_key_id pkmsg with
        | None => mret None
        | Some key_id =>
            o ← (λ w : world, (w, pk_load (w_prekeys w) key_id));
            match o with Some o => mret (Some o) | None => se_raise ValueError end
        end;
  r ← se_lift (x3dh_responder (dv_identity d) spk opk (pk_identity_key pkmsg) (pk_base_key pkmsg));
  let state := ratchet_init_bob (xr_shared_secret r) (spk_private spk) (spk_public spk) in
  let own := ik_public (dv_identity d) in
  let ad := pk_identity_key pkmsg ++ own in
  let '(state, r) := ratchet_decrypt new (sm_header (pk_message pkmsg)) (sm_ciphertext (pk_message pkmsg)) ad
                       (Some (verify_mac (pk_message pkmsg) (pk_identity_key pkmsg) own)) state in
  plaintext ← se_lift r;
  _ ← atomic b (
    _ ← match pk_one_time_pre_key_id pkmsg with
        | Some key_id => on_prekeys (pk_delete key_id)
        | None => mret tt
        end;
    _ ← save_session sid state;
    on_ids (is_save sid (pk_identity_key pkmsg)));
  mret plaintext.

(** The [msg] branch. *)
Definition decrypt_msg (d : Device) (new : bytes * bytes) (sid : str) (ciphertext : bytes) : SE world bytes :=
  loaded ← load_session sid;
  state ← se_lift (some_or loaded ValueError);
  peer ← se_asks (λ w : world, is_load (w_ids w) sid);
  peer_identity ← se_lift (some_or peer ValueError);
  inner ← se_lift (signal_decode ciphertext);
  let own := ik_public (dv_identity d) in
  let ad := peer_identity ++ own in
  let '(state, r) := ratchet_decrypt new (sm_header inner) (sm_ciphertext inner) ad
                       (Some (verify_mac inner peer_identity own)) state in
  plaintext ← se_lift r;
  _ ← save_session sid state;
  mret plaintext.

Definition _decrypt_enc (b : atomicity) (d : Device) (new : bytes * bytes) (sender : JID) (enc_type : str)
    (ciphertext : bytes) : SE world bytes :=
  _ ← _migrate_known_lid_sender b sender;
  sid ← se_lift (session_id sender);
  if bool_decide (enc_type = u "pkmsg") then decrypt_pkmsg b d new sid ciphertext
  else if bool_decide (enc_type = u "msg") then decrypt_msg d new sid ciphertext
  else se_raise ValueError.
End PeerSessions.
