(* ===== verification/PeerTalk.v ===== *)
(** * Two devices talk

    Sender and receiver of two devices over any implementations of the stores: from the
    first pre-key message on, what one encrypts the other decrypts, through the stored
    ratchet states; a message that does not decrypt leaves the stores as they were. *)

From S2P Require Import Prelude PyStr Jid Crypto AppCrypto SignalKeys X3dh SignalTypes Ratchet.
From S2P Require Import RatchetProofs SessionStore LidMap PeerStores PeerSessions.

(** States without skipped keys and with 32-bit counters can be stored. *)
Definition small_state (st : RatchetState) : Prop :=
  mkskipped st = [] ∧ Forall (λ z, 0 ≤ z < 2 ^ 32) (counters st).

Lemma small_storable st : small_state st → storable_state st.
Proof.
  intros [Hs Hc]. unfold storable_state. rewrite Hs. split; [constructor|].
  rewrite app_nil_r. eapply Forall_impl; [exact Hc|]. cbn. intros z Hz. split; [lia|]. by apply py_str_int_32.
Qed.

Section Talk.
Context {S I L K : Type} {SS : SessionStore S} {SL : SessionStoreLaws S} {IS : IdentityStore I}
  {IL : IdentityStoreLaws I} {LM : LidMap L} {KS : PreKeyStore K}.
Context {X : X25519} {XL : X25519Laws X} {E : XEdDSA} {EL : XEdDSALaws X E} {HK : Hkdf} {HKL : HkdfLaws HK}
  {HM : Hmac} {AES : AesCbc} {AL : AesCbcLaws AES} {PK : Pkcs7} {PL : Pkcs7Laws PK}
  {W : WhisperProto} {WL : WhisperProtoLaws W}.

#[local] Abbreviation world := (World S I L K).

(** ** One message over an established session *)

(** The world holds the session [st] with the peer of identity [pid]. *)
Record knows (pid : bytes) (sid : str) (st : RatchetState) (w : world) : Prop := {
  kn_session : ss_load (w_sessions w) sid = Ok (Some st);
  kn_identity : is_load (w_ids w) sid = Some pid;
  kn_meta : ∀ m, w_meta w !! sid = Some m → pm_peer_identity m = pid
}.

(** No pre-key message is pending for it. *)
Definition settled (sid : str) (w : world) : Prop := ∀ m, w_meta w !! sid = Some m → pm_pending_prekey m = None.

Definition holds (pid : bytes) (sid : str) (st : RatchetState) (w : world) : Prop := knows pid sid st w ∧ settled sid w.

(** What the envelopes can carry. *)
Definition wireable (h : MessageHeader) : Prop :=
  length (h_dh h) = 32%nat ∧ uint32 (h_pn h) = true ∧ uint32 (h_n h) = true.

(** The envelope [data] of a message authenticated from [a] to [b]. *)
Definition opens_as (data a b : bytes) (m : MessageHeader * bytes * bytes) : Prop :=
  ∃ inner, signal_decode data = Ok inner ∧ sm_header inner = m.1.1 ∧ sm_ciphertext inner = m.1.2 ∧
    verify_mac inner a b m.2 = Ok tt.

Lemma signal_opens h c k a b : wireable h → length a = 32%nat → length b = 32%nat →
  ∃ data, signal_encode (mkSignalMessage h c None None) a b k = Ok data ∧ opens_as data a b (h, c, k).
Proof.
  intros (Hd & Hp & Hn) Ha Hb.
  pose proof (signal_encode_ok h c a b k Hd Hp Hn Ha Hb) as Hok.
  destruct (signal_encode _ a b k) as [data|] eqn:Ee; [|done]. exists data. split; [done|].
  destruct (signal_decode_encode (mkSignalMessage h c None None) a b k data eq_refl Hd Ee) as (body & mac & Hdec & Hmac).
  eexists. split; [exact Hdec|]. split_and!; [done..|]. unfold verify_mac. cbn [sm_body sm_mac fst snd].
  rewrite Hmac. rbind. by rewrite bool_decide_true.
Qed.

Lemma save_session_ok sid st (w : world) : storable_state st → ∃ s, save_session sid st w = (with_sessions s w, Ok tt) ∧
  ss_load s sid = Ok (Some st) ∧ ∀ k, sid ≠ k → ss_load s k = ss_load (w_sessions w) k.
Proof.
  intros Hst. unfold save_session. destruct (load_save (w_sessions w) sid st Hst) as (s & -> & ? & ?). eauto.
Qed.

(** Encrypting under a session needs no server: the metadata is at hand, or rebuilt. *)
Lemma encrypt_known d fetch eph dh peer pid sid p (w : world) st st' m meta r :
  session_id peer = Ok sid → knows pid sid st w →
  match w_meta w !! sid with Some mt => meta = mt | None => meta = mkMeta pid None end →
  ratchet_encrypt p (ik_public (dv_identity d) ++ pid) st = (st', Ok m) → storable_state st' →
  seal_message d meta m = Ok r →
  ∃ w', _encrypt_for_peer d fetch eph dh peer p w = (w', Ok r) ∧ knows pid sid st' w' ∧
    w_meta w' !! sid = Some meta ∧ w_lids w' = w_lids w ∧ w_prekeys w' = w_prekeys w.
Proof.
  intros Hsid [Hs Hi Hm] Hmeta He Hst Hseal.
  unfold _encrypt_for_peer. rewrite Hsid. se_run.
  assert (load_session sid w = (w, Ok (Some st))) as Hl by (unfold load_session; by rewrite Hs). se_step Hl.
  assert (∃ w1, recall_meta sid (Some st) w = (w1, Ok (Some meta)) ∧ knows pid sid st w1 ∧ w_meta w1 !! sid = Some meta ∧
    w_lids w1 = w_lids w ∧ w_prekeys w1 = w_prekeys w) as (w1 & Er & [H1 H2 H3] & Hm1 & Hl1 & Hk1).
  { unfold recall_meta. se_run. destruct (w_meta w !! sid) as [mt|] eqn:Em.
    - subst mt. exists w. split; [done|]. split; [split; first [done|by rewrite Em]|done].
    - se_run. rewrite Hi. cbn. subst meta. eexists. split; [done|]. split; [split; cbn; try done|].
      + intros mt. rewrite lookup_partial_alter_eq. by intros [= <-].
      + cbn. by rewrite lookup_partial_alter_eq. }
  se_step Er. pose proof (H3 _ Hm1) as Hpid. rewrite Hpid, He. se_run.
  destruct (save_session_ok sid st' w1 Hst) as (s & Es & L1 & _). se_step Es.
  exists (with_sessions s w1). split; [unfold se_lift; by rewrite Hseal|]. by split; [split|].
Qed.

Lemma encrypt_established d fetch eph dh peer pid sid p (w : world) st st' m :
  session_id peer = Ok sid → holds pid sid st w →
  ratchet_encrypt p (ik_public (dv_identity d) ++ pid) st = (st', Ok m) → storable_state st' → wireable m.1.1 →
  length (ik_public (dv_identity d)) = 32%nat → length pid = 32%nat →
  ∃ w' data, _encrypt_for_peer d fetch eph dh peer p w = (w', Ok (u "msg", data)) ∧
    opens_as data (ik_public (dv_identity d)) pid m ∧ holds pid sid st' w'.
Proof.
  intros Hsid [Hk Hp] He Hst Hw Hown Hpid. destruct m as [[h c] k].
  destruct (signal_opens h c k _ pid Hw Hown Hpid) as (data & Ed & Hop).
  destruct (encrypt_known d fetch eph dh peer pid sid p w st st' (h, c, k) (mkMeta pid None) (u "msg", data))
    as (w' & E1 & Hk' & Hm' & _); try done.
  - destruct (w_meta w !! sid) as [mt|] eqn:Em; [|done]. pose proof (kn_meta _ _ _ _ Hk _ Em) as H1.
    pose proof (Hp _ Em) as H2. destruct mt; cbn in *. by subst.
  - unfold seal_message. cbn [pm_peer_identity pm_pending_prekey]. by rewrite Ed.
  - exists w', data. split; [done|]. split; [done|]. split; [done|]. intros mt. rewrite Hm'. by intros [= <-].
Qed.

(** A sender whose session is known, or whose LID has no phone number, is not migrated. *)
Lemma migrate_known_skip b sender sid (w : world) o :
  session_id sender = Ok sid → ss_load (w_sessions w) sid = Ok o →
  is_Some o ∨ server sender ≠ LID_SERVER ∨ get_pn (w_lids w) (user sender) = None →
  _migrate_known_lid_sender b sender w = (w, Ok tt).
Proof.
  intros Hsid Hl Ho. unfold _migrate_known_lid_sender.
  destruct (bool_decide_reflect (server sender = LID_SERVER)) as [Hs|Hs]; [|done]. cbn [negb]. rewrite Hsid. se_run.
  assert (load_session sid w = (w, Ok o)) as Hls by (unfold load_session; by rewrite Hl). se_step Hls.
  destruct o; [done|]. se_run. destruct Ho as [[? ?] | [? | ->]]; done.
Qed.

(** Decrypting an established message, when the ratchet reads it. *)
Lemma decrypt_established b d new sender pid sid data m p x (w : world) st st' :
  session_id sender = Ok sid → knows pid sid st w →
  opens_as data pid (ik_public (dv_identity d)) m → reads new x m p st st' → storable_state st' →
  ∃ s, _decrypt_enc b d new sender (u "msg") data w = (with_sessions s w, Ok p) ∧
    knows pid sid st' (with_sessions s w).
Proof.
  intros Hsid [Hs Hi Hm] (inner & Hd & Hh & Hc & Hv) [_ Hr] Hst. unfold _decrypt_enc.
  se_step (migrate_known_skip b sender sid w _ Hsid Hs (or_introl (mk_is_Some _ _ eq_refl))).
  rewrite Hsid. se_run. rewrite bool_decide_false by (vm_compute; discriminate). rewrite bool_decide_true by done.
  unfold decrypt_msg.
  assert (load_session sid w = (w, Ok (Some st))) as Hl by (unfold load_session; by rewrite Hs). se_step Hl.
  cbn [some_or]. se_run. rewrite Hi. cbn [some_or]. se_run. rewrite Hd. se_run. rewrite Hh, Hc, Hr by exact Hv. se_run.
  destruct (save_session_ok sid st' w Hst) as (s & Es & L1 & L2). se_step Es.
  exists s. split; [done|]. by split.
Qed.

(** Noting a decrypted message clears pending pre-key messages and nothing else. *)
Definition clears (w w' : world) : Prop :=
  w_sessions w' = w_sessions w ∧ w_ids w' = w_ids w ∧ w_lids w' = w_lids w ∧ w_prekeys w' = w_prekeys w ∧
  ∀ k, w_meta w' !! k = w_meta w !! k ∨
       ∃ m, w_meta w !! k = Some m ∧ w_meta w' !! k = Some (mkMeta (pm_peer_identity m) None).

Lemma clears_refl w : clears w w.
Proof. split_and!; try done. auto. Qed.

Lemma clears_trans w1 w2 w3 : clears w1 w2 → clears w2 w3 → clears w1 w3.
Proof.
  intros (A1 & A2 & A3 & A4 & A5) (B1 & B2 & B3 & B4 & B5). split_and!; try congruence. intros k.
  destruct (B5 k) as [->|(m & E1 & E2)]; [done|]. right. rewrite E2.
  destruct (A5 k) as [E3|(m' & E3 & E4)]; [rewrite E3 in E1; eauto|].
  rewrite E4 in E1. injection E1 as <-. eauto.
Qed.

Lemma note_candidate_ok c sid (w : world) : session_id c = Ok sid →
  ∃ w', note_candidate tt c w = (w', Ok tt) ∧ clears w w' ∧
    ∀ m, w_meta w' !! sid = Some m → pm_pending_prekey m = None.
Proof.
  intros Hsid. unfold note_candidate. rewrite Hsid. se_run.
  destruct (w_meta w !! sid) as [m|] eqn:Em; cbn.
  - eexists. split; [done|]. split.
    + split_and!; try done. intros k. cbn. destruct (decide (k = sid)) as [->|Hne].
      * right. exists m. by rewrite lookup_partial_alter_eq.
      * left. by rewrite lookup_partial_alter_ne.
    + cbn. intros m'. rewrite lookup_partial_alter_eq. by intros [= <-].
  - exists w. split; [done|]. split; [apply clears_refl|]. by rewrite Em.
Qed.

(** The session id of an address depends on the device number being printable only. *)
Lemma session_id_device j j' sid : session_id j = Ok sid → device j' = device j → ∃ sid', session_id j' = Ok sid'.
Proof. unfold session_id. intros H ->. destruct (py_str_int (device j)); [|done]. rbind. eauto. Qed.

Lemma peer_alt_device peer lids c : c ∈ _peer_and_lid_alt peer lids → device c = device peer.
Proof.
  unfold _peer_and_lid_alt. intros [-> | H]%elem_of_cons; [done|]. revert H.
  repeat case_match; rewrite ?list_elem_of_singleton, ?elem_of_nil; first [by intros -> | done].
Qed.

Lemma note_all_ok peer sid l : session_id peer = Ok sid → Forall (λ c, device c = device peer) l →
  ∀ w : world, ∃ w', se_fold note_candidate tt l w = (w', Ok tt) ∧ clears w w'.
Proof.
  intros Hsid. induction 1 as [|c l Hc _ IH]; intros w; [exists w; split; [done|apply clears_refl]|].
  destruct (session_id_device peer c sid Hsid Hc) as [sid' Hsid'].
  destruct (note_candidate_ok c sid' w Hsid') as (w1 & E1 & C1 & _). destruct (IH w1) as (w2 & E2 & C2).
  exists w2. cbn [se_fold]. se_step E1. split; [done|]. by eapply clears_trans.
Qed.

Lemma note_ok peer sid (w : world) : session_id peer = Ok sid →
  ∃ w', note_incoming_decrypted peer w = (w', Ok tt) ∧ clears w w' ∧
    ∀ m, w_meta w' !! sid = Some m → pm_pending_prekey m = None.
Proof.
  intros Hsid. unfold note_incoming_decrypted. se_run.
  assert (∃ l, _peer_and_lid_alt peer (w_lids w) = peer :: l) as [l Hl] by (unfold _peer_and_lid_alt; eauto).
  pose proof (λ c, peer_alt_device peer (w_lids w) c) as Hdev. rewrite Hl in *. cbn [se_fold].
  destruct (note_candidate_ok peer sid w Hsid) as (w1 & E1 & C1 & P1). se_step E1.
  destruct (note_all_ok peer sid l Hsid) with (w := w1) as (w2 & E2 & C2).
  { apply Forall_forall. intros c Hc. apply Hdev. by right. }
  rewrite E2. exists w2. split; [done|]. split; [by eapply clears_trans|].
  intros m Hm. destruct C2 as (_ & _ & _ & _ & C2). destruct (C2 sid) as [E3|(m' & E3 & E4)].
  - apply P1. by rewrite <-E3.
  - rewrite E4 in Hm. by injection Hm as <-.
Qed.

Lemma knows_clears pid sid st w w' : knows pid sid st w → clears w w' → knows pid sid st w'.
Proof.
  intros [Hs Hi Hm] (A1 & A2 & _ & _ & A5). split; [by rewrite A1|by rewrite A2|].
  intros m Em. destruct (A5 sid) as [Ek|(m' & E1 & E2)].
  - apply Hm. by rewrite <-Ek.
  - rewrite E2 in Em. injection Em as <-. exact (Hm _ E1).
Qed.

(** ** Whole turns *)

(** Small counters, a known ratchet key, no skipped key. *)
Record level (N : Z) (U : list bytes) (st : RatchetState) : Prop := {
  lv_skip : mkskipped st = [];
  lv_counters : Forall (λ z, 0 ≤ z ≤ N) [ns st; nr st; pn st];
  lv_max : 0 ≤ max_skip st < 2 ^ 32;
  lv_key : dhs_pub st ∈ U;
  lv_length : length (dhs_pub st) = 32%nat
}.

Lemma level_small N U st : N < 2 ^ 32 → level N U st → small_state st.
Proof.
  intros HN [Hs Hc Hm _ _]. split; [done|]. unfold counters.
  repeat (apply Forall_cons in Hc as [? Hc]). repeat (constructor; [lia|]). constructor.
Qed.

Lemma level_wireable N U st : N < 2 ^ 32 → level N U st → wireable (mkHeader (dhs_pub st) (pn st) (ns st)).
Proof.
  intros HN [_ Hc _ _ Hl]. repeat (apply Forall_cons in Hc as [? Hc]).
  split; [done|]. unfold uint32. cbn. split; apply andb_true_iff; split; zbool; lia.
Qed.

(** The sender may speak: it is ahead, or the listener is ahead and it has a chain. *)
Definition may_speak (x y : RatchetState) : Prop := ahead x y ∨ ahead y x ∧ is_Some (cks x).

Lemma speak_ok x y p ad priv' N U : may_speak x y → level N U x → level N U y → 0 ≤ N →
  length priv' = 32%nat → x25519_public priv' ∉ U →
  let U' := x25519_public priv' :: U in
  ∃ x' y' m, ratchet_encrypt p ad x = (x', Ok m) ∧ reads (priv', x25519_public priv') x m p y y' ∧
    ahead y' x' ∧ is_Some (cks x') ∧ level (N + 1) U' x' ∧ level (N + 1) U' y'.
Proof.
  intros Hm Lx Ly HN Hp Hf U'.
  assert (∀ st l, dhs_pub l ∈ U' → length (dhs_pub l) = 32%nat → mkskipped l = [] →
    counters l = st → Forall (λ z, 0 ≤ z ≤ N + 1) (take 3 st) → 0 ≤ List.nth 3 st 0 < 2 ^ 32 → level (N + 1) U' l) as Hlv.
  { intros st l H1 H2 H3 <- H4 H5. split; [done|exact H4|exact H5|done|done]. }
  pose proof (lv_counters _ _ _ Lx) as Cx. pose proof (lv_counters _ _ _ Ly) as Cy.
  pose proof (lv_max _ _ _ Lx) as Mx. pose proof (lv_max _ _ _ Ly) as My.
  repeat (apply Forall_cons in Cx as [? Cx]). repeat (apply Forall_cons in Cy as [? Cy]).
  destruct Hm as [Ha|[Ha Hc]].
  - destruct (ahead_turn_reads x y p ad priv' Ha Hp) as (x' & y' & m & E1 & R & Ha' & Hc' & [Kx Ex] & Ky & Ey).
    { intros Heq. apply Hf. rewrite Heq. apply Ly. }
    exists x', y', m. split_and!; [done..| |].
    + eapply Hlv; [rewrite Kx; right; apply Lx|rewrite Kx; apply Lx|apply (ah_skip _ _ Ha')|exact Ex|repeat constructor; lia|cbn; lia].
    + eapply Hlv; [rewrite Ky; left|rewrite Ky; apply length_x25519_public|apply (ah_skip _ _ Ha')|exact Ey|repeat constructor; lia|cbn; lia].
  - destruct (ahead_same_reads y x p ad (priv', x25519_public priv') Ha Hc)
      as (y' & x' & m & E1 & R & Ha' & Hc' & [Kx Ex] & Ky & Ey).
    exists x', y', m. split_and!; [done..| |].
    + eapply Hlv; [rewrite Kx; right; apply Lx|rewrite Kx; apply Lx|apply (ah_skip _ _ Ha')|exact Ex|repeat constructor; lia|cbn; lia].
    + eapply Hlv; [rewrite Ky; right; apply Ly|rewrite Ky; apply Ly|apply (ah_skip _ _ Ha')|exact Ey|repeat constructor; lia|cbn; lia].
Qed.

Context (b : atomicity) (fetch : JID → result PreKeyBundle) (eph dh : bytes).

(** A message is encrypted by [dx] for [dy], travels, is decrypted there by a ratchet that
    may draw [priv'], and is noted by the receiver's sender. *)
Definition deliver (dx dy : Device) (p priv' : bytes) (wx wy : world) : (world * world) * result bytes :=
  match _encrypt_for_peer dx fetch eph dh (dv_jid dy) p wx with
  | (wx, Raise e) => ((wx, wy), Raise e)
  | (wx, Ok (enc_type, data)) =>
      let '(wy, r) := (p ← _decrypt_enc b dy (priv', x25519_public priv') (dv_jid dx) enc_type data;
                       _ ← note_incoming_decrypted (dv_jid dx); mret p) wy in
      ((wx, wy), r)
  end.

Definition device_turn (da db : Device) (t : turn) (ws : world * world) : (world * world) * result bytes :=
  let '(who, p, priv') := t in
  match who with
  | Alice => deliver da db p priv' ws.1 ws.2
  | Bob => let '((wb, wa), r) := deliver db da p priv' ws.2 ws.1 in ((wa, wb), r)
  end.

Fixpoint device_talk (da db : Device) (ts : list turn) (ws : world * world) : list (result bytes) :=
  match ts with
  | [] => []
  | t :: ts => let '(ws', r) := device_turn da db t ws in r :: device_talk da db ts ws'
  end.

Lemma deliver_established dx dy kx ky sx sy wx wy p priv' N U :
  session_id (dv_jid dx) = Ok kx → session_id (dv_jid dy) = Ok ky →
  length (ik_public (dv_identity dx)) = 32%nat → length (ik_public (dv_identity dy)) = 32%nat →
  holds (ik_public (dv_identity dy)) ky sx wx → knows (ik_public (dv_identity dx)) kx sy wy →
  may_speak sx sy → level N U sx → level N U sy → 0 ≤ N → N + 1 < 2 ^ 32 →
  length priv' = 32%nat → x25519_public priv' ∉ U →
  ∃ wx' wy' sx' sy', deliver dx dy p priv' wx wy = ((wx', wy'), Ok p) ∧
    holds (ik_public (dv_identity dy)) ky sx' wx' ∧ holds (ik_public (dv_identity dx)) kx sy' wy' ∧
    ahead sy' sx' ∧ is_Some (cks sx') ∧
    level (N + 1) (x25519_public priv' :: U) sx' ∧ level (N + 1) (x25519_public priv' :: U) sy'.
Proof.
  intros Hkx Hky Hlx Hly Hx Hy Hm Lx Ly HN HN' Hp Hf.
  destruct (speak_ok sx sy p (ik_public (dv_identity dx) ++ ik_public (dv_identity dy)) priv' N U Hm Lx Ly HN Hp Hf)
    as (sx' & sy' & m & E1 & R & Ha & Hc & Lx' & Ly').
  destruct (encrypt_established dx fetch eph dh _ _ _ p wx sx sx' m Hky Hx E1) as (wx' & data & E2 & Hop & Hx').
  { eapply small_storable, level_small; [exact HN'|exact Lx']. }
  { destruct R as [-> _]. eapply level_wireable; [|exact Lx]. lia. }
  { done. } { done. }
  destruct (decrypt_established b dy (priv', x25519_public priv') _ _ _ data m p sx wy sy sy' Hkx Hy Hop R)
    as (s & E3 & Hy').
  { eapply small_storable, level_small; [exact HN'|exact Ly']. }
  destruct (note_ok (dv_jid dx) kx (with_sessions s wy) Hkx) as (wy' & E4 & C4 & P4).
  exists wx', wy', sx', sy'. split_and!; [|done| |done..].
  - unfold deliver. rewrite E2. se_step E3. se_step E4. done.
  - split; [by eapply knows_clears|exact P4].
Qed.

(** *** The first message *)

(** Alice has no session with Bob; the server hands her the bundle Bob uploaded, made of the
    keys Bob holds; what Bob remembers of Alice is not about another identity. *)
Record meeting (da db : Device) (a b' s z : bytes) (spk_id : Z) (o : option (Z * bytes)) (ka kb : str)
    (wa wb : world) : Prop := {
  me_keys : Forall (λ k, length k = 32%nat) [a; b'; s; eph; dh] ∧ from_option (λ ko, length ko.2 = 32%nat) True o;
  me_alice : dv_identity da = identity_generate a;
  me_bob : dv_identity db = identity_generate b';
  me_spk : signed_prekey_generate (identity_generate b') spk_id s z = Ok (dv_signed_pre_key db);
  me_ids : uint32 (dv_registration_id da) = true ∧ uint32 spk_id = true ∧ from_option uint32 true (fst <$> o) = true;
  me_addresses : session_id (dv_jid da) = Ok ka ∧ session_id (dv_jid db) = Ok kb;
  me_bundle : fetch (dv_jid db) = Ok (bundle_of (dv_identity db) (dv_signed_pre_key db)
                                        ((λ ko, generate_pre_key ko.1 ko.2) <$> o));
  me_new : ss_load (w_sessions wa) kb = Ok None;
  me_opk : ∀ oid k, o = Some (oid, k) → pk_load (w_prekeys wb) oid = Ok (Some (generate_pre_key oid k)) ∧
             ∃ k', pk_delete oid (w_prekeys wb) = (k', Ok tt) ∧ pk_load k' oid = Ok None;
  me_plain : ∃ old, ss_load (w_sessions wb) ka = Ok old ∧
               (is_Some old ∨ server (dv_jid da) ≠ LID_SERVER ∨ get_pn (w_lids wb) (user (dv_jid da)) = None);
  me_memory : ∀ m, w_meta wb !! ka = Some m → pm_peer_identity m = ik_public (dv_identity da)
}.

(** A pre-key envelope from [ia] to [ib], of the keys [ids]. *)
Definition prekey_opens_as (data ia ib ek : bytes) (spk_id : Z) (oid : option Z) (m : MessageHeader * bytes * bytes) : Prop :=
  ∃ pkmsg, prekey_decode data = Ok pkmsg ∧ pk_signed_pre_key_id pkmsg = spk_id ∧ pk_one_time_pre_key_id pkmsg = oid ∧
    pk_identity_key pkmsg = ia ∧ pk_base_key pkmsg = ek ∧
    sm_header (pk_message pkmsg) = m.1.1 ∧ sm_ciphertext (pk_message pkmsg) = m.1.2 ∧
    verify_mac (pk_message pkmsg) ia ib m.2 = Ok tt.

Lemma seal_pending d pid reg oid spk_id ek m :
  wireable m.1.1 → length (ik_public (dv_identity d)) = 32%nat → length pid = 32%nat → length ek = 32%nat →
  uint32 reg = true → uint32 spk_id = true → from_option uint32 true oid = true →
  ∃ data, seal_message d (mkMeta pid (Some (mkPending reg oid spk_id ek (ik_public (dv_identity d))))) m = Ok (u "pkmsg", data) ∧
    prekey_opens_as data (ik_public (dv_identity d)) pid ek spk_id oid m.
Proof.
  intros Hw Hi Hpid Hek Hr Hs Ho. destruct m as [[h c] k]. cbn [fst] in Hw.
  unfold seal_message. cbn [pm_peer_identity pm_pending_prekey pp_registration_id pp_one_time_pre_key_id
    pp_signed_pre_key_id pp_base_key pp_identity_key].
  destruct (signal_opens h c k _ pid Hw Hi Hpid) as (inner & Ei & _). rewrite Ei. rbind.
  set (pkm := mkPreKeySignalMessage _ _ _ _ _ _).
  assert (is_ok (prekey_encode pkm (ik_public (dv_identity d)) pid k) = true) as Hok.
  { apply prekey_encode_ok; subst pkm; cbn -[signal_encode]; rewrite ?Ei; done. }
  destruct (prekey_encode pkm _ _ _) as [data|] eqn:Ee; [|done]. exists data. split; [done|].
  destruct Hw as [Hd _].
  destruct (prekey_decode_encode pkm _ _ _ _ eq_refl Hd Hek Hi Ee) as (m' & Hdec & H1 & H2 & H3 & H4 & H5 & H6 & H7 & H8).
  exists m'. by split_and!.
Qed.

(** What Alice's encryption does while the pre-key message is pending. *)
Definition pending_for (d : Device) (pid ek : bytes) (spk_id : Z) (oid : option Z) : _PeerSessionMeta :=
  mkMeta pid (Some (mkPending (dv_registration_id d) oid spk_id ek (ik_public (dv_identity d)))).

(** With no session, or a pending one, the message goes out as a pre-key message. *)
Lemma encrypt_first da db a b' s z spk_id o ka kb wa wb p :
  meeting da db a b' s z spk_id o ka kb wa wb → ∃ sec sa,
  ratchet_init_alice (dh, x25519_public dh) sec (x25519_public s) = Ok sa ∧
  x3dh_responder (dv_identity db) (dv_signed_pre_key db) ((λ ko, generate_pre_key ko.1 ko.2) <$> o)
    (x25519_public a) (x25519_public eph) = Ok (mkResponder sec (x25519_public a ++ x25519_public b')) ∧
  spk_key_id (dv_signed_pre_key db) = spk_id ∧ spk_private (dv_signed_pre_key db) = s ∧
  spk_public (dv_signed_pre_key db) = x25519_public s ∧
  ∀ sa' m, ratchet_encrypt p (x25519_public a ++ x25519_public b') sa = (sa', Ok m) → wireable m.1.1 →
  storable_state sa' →
  ∃ wa' data, _encrypt_for_peer da fetch eph dh (dv_jid db) p wa = (wa', Ok (u "pkmsg", data)) ∧
    prekey_opens_as data (x25519_public a) (x25519_public b') (x25519_public eph) spk_id (fst <$> o) m ∧
    knows (x25519_public b') kb sa' wa' ∧
    w_meta wa' !! kb = Some (pending_for da (x25519_public b') (x25519_public eph) spk_id (fst <$> o)) ∧
    w_lids wa' = w_lids wa ∧ w_prekeys wa' = w_prekeys wa.
Proof.
  intros [[Hk Ho] Ha Hb Hspk (Hr & Hsi & Hoi) [_ Hkb] Hbun Hnew _ _ _].
  pose proof Hk as Hk'. repeat (apply Forall_cons in Hk' as [? Hk']).
  destruct (x3dh_agree a eph b' s z o spk_id (dv_signed_pre_key db)) as (sec & Ei & Er & K1 & K2 & K3); [|done|done|].
  { repeat constructor; done. }
  destruct (x25519_comm dh s) as (dhv & Ed & _); [done..|].
  destruct (ratchet_init_alice (dh, x25519_public dh) sec (x25519_public s)) as [sa|] eqn:Ea.
  2:{ unfold ratchet_init_alice, _dh in Ea. rewrite Ed in Ea. revert Ea. rbind. by destruct (_kdf_rk sec dhv). }
  exists sec, sa. rewrite Hb. split_and!; [done..|]. intros sa' m Henc Hw Hst.
  destruct (seal_pending da (x25519_public b') (dv_registration_id da) (fst <$> o) spk_id (x25519_public eph) m Hw)
    as (data & Es & Hop); try done.
  { rewrite Ha. apply length_x25519_public. } { apply length_x25519_public. } { apply length_x25519_public. }
  unfold _encrypt_for_peer. rewrite Hkb. se_run.
  assert (load_session kb wa = (wa, Ok None)) as Hl by (unfold load_session; by rewrite Hnew). se_step Hl.
  assert (∃ mt, recall_meta kb None wa = (wa, Ok mt)) as [mt Er'] by (unfold recall_meta; se_run; eauto).
  se_step Er'. unfold _establish_session, _establish_session_from_bundle. rewrite Hbun, Ha, Hb. rbind. rewrite Ei. rbind.
  cbn [bundle_of b_signed_pre_key_public xi_shared_secret b_identity_key identity_generate ik_public
    xi_used_one_time_pre_key_id xi_used_signed_pre_key_id xi_ephemeral_public xi_identity_public].
  rewrite K3, Ea. rbind. se_run.
  match goal with |- context [set_meta kb (Some ?mm)] => set (meta := mm) end.
  set (w1 := mkWorld (w_sessions wa) (w_ids wa) (w_lids wa) (w_prekeys wa) (<[kb := meta]> (w_meta wa))).
  assert (set_meta kb (Some meta) wa = (w1, Ok tt)) as Em by done. se_step Em.
  destruct (is_save_ok (w_ids w1) kb (x25519_public b') (length_x25519_public b')) as (ids & Eid & I1 & I2).
  assert (on_ids (is_save kb (pm_peer_identity meta)) w1 =
    (mkWorld (w_sessions w1) ids (w_lids w1) (w_prekeys w1) (w_meta w1), Ok tt)) as Eon.
  { unfold on_ids. cbn [pm_peer_identity meta]. by rewrite Eid. }
  se_step Eon. cbn [pm_peer_identity meta]. rewrite Henc. se_run.
  destruct (save_session_ok kb sa' (mkWorld (w_sessions w1) ids (w_lids w1) (w_prekeys w1) (w_meta w1)) Hst)
    as (ss & Ess & L1 & _). se_step Ess.
  eexists _, data. split; [rewrite Ha in Es; cbn [ik_public identity_generate] in Es; unfold se_lift; subst meta; by rewrite Es|].
  rewrite Ha in Hop. cbn in Hop. unfold pending_for. rewrite Ha. split; [exact Hop|].
  split_and!; [|cbn; by rewrite lookup_insert_eq|done..].
  split; cbn; [done|done|]. intros m'. rewrite lookup_insert_eq. by intros [= <-].
Qed.

(** Bob reads a pre-key message into a new session, and its one-time key is gone. *)
Lemma decrypt_first db new sender ia ek spk_id oid opk ka (w : world) old data m p x sec sb' :
  session_id sender = Ok ka →
  ss_load (w_sessions w) ka = Ok old →
  is_Some old ∨ server sender ≠ LID_SERVER ∨ get_pn (w_lids w) (user sender) = None →
  prekey_opens_as data ia (ik_public (dv_identity db)) ek spk_id oid m →
  spk_id = spk_key_id (dv_signed_pre_key db) →
  match oid with
  | Some id => ∃ k, opk = Some k ∧ pk_load (w_prekeys w) id = Ok (Some k) ∧
                    ∃ k', pk_delete id (w_prekeys w) = (k', Ok tt) ∧ pk_load k' id = Ok None
  | None => opk = None
  end →
  x3dh_responder (dv_identity db) (dv_signed_pre_key db) opk ia ek = Ok (mkResponder sec (ia ++ ik_public (dv_identity db))) →
  length ia = 32%nat →
  reads new x m p (ratchet_init_bob sec (spk_private (dv_signed_pre_key db)) (spk_public (dv_signed_pre_key db))) sb' →
  storable_state sb' →
  ∃ w', _decrypt_enc b db new sender (u "pkmsg") data w = (w', Ok p) ∧
    ss_load (w_sessions w') ka = Ok (Some sb') ∧ is_load (w_ids w') ka = Some ia ∧
    w_meta w' = w_meta w ∧ w_lids w' = w_lids w ∧ (∀ id, oid = Some id → pk_load (w_prekeys w') id = Ok None).
Proof.
  intros Hka Hl Hplain (pkm & Hdec & P1 & P2 & P3 & P4 & P5 & P6 & P7) Hspk Hopk Hr Hia [_ Hread] Hst.
  unfold _decrypt_enc. se_step (migrate_known_skip b sender ka w old Hka Hl Hplain). rewrite Hka. se_run.
  rewrite bool_decide_true by done. unfold decrypt_pkmsg. rewrite Hdec. se_run.
  unfold get_signed_pre_key. rewrite P1, Hspk, Z.eqb_refl. cbn [negb]. se_run.
  assert (∃ mo : SE world (option OneTimePreKey), mo w = (w, Ok opk) ∧
    match pk_one_time_pre_key_id pkm with
    | Some key_id => o ← (λ w : world, (w, pk_load (w_prekeys w) key_id));
                     match o with Some o => mret (Some o) | None => se_raise ValueError end
    | None => mret None
    end = mo) as (mo & Emo & ->).
  { eexists. split; [|done]. rewrite P2. destruct oid as [id|].
    - destruct Hopk as (k & -> & Hk & _). unfold mbind, se_bind. by rewrite Hk.
    - by rewrite Hopk. }
  se_step Emo. rewrite P3, P4, Hr. se_run. cbn [xr_shared_secret].
  rewrite P5, P6, Hread by exact P7. se_run.
  assert (∃ w1, (match pk_one_time_pre_key_id pkm with Some key_id => on_prekeys (pk_delete key_id) | None => mret tt end) w
    = (w1, Ok tt) ∧ w_sessions w1 = w_sessions w ∧ w_ids w1 = w_ids w ∧ w_meta w1 = w_meta w ∧ w_lids w1 = w_lids w ∧
    ∀ id, oid = Some id → pk_load (w_prekeys w1) id = Ok None) as (w1 & E1 & A1 & A2 & A3 & A4 & A5).
  { rewrite P2. destruct oid as [id|]; [|by exists w].
    destruct Hopk as (k & _ & _ & k' & Hd & Hn). eexists. split; [unfold on_prekeys; by rewrite Hd|].
    split_and!; try done. cbn. by intros ? [= <-]. }
  destruct (save_session_ok ka sb' w1 Hst) as (ss & Ess & L1 & _).
  destruct (is_save_ok (w_ids w1) ka ia Hia) as (ids & Eid & I1 & I2).
  match goal with |- context [atomic b ?mm] => assert (atomic b mm w =
    (mkWorld ss ids (w_lids w1) (w_prekeys w1) (w_meta w1), Ok tt)) as Eat end.
  { assert (∀ (A : Type) (mm : SE world A) w' v, mm w = (w', Ok v) → atomic b mm w = (w', Ok v)) as Hat
      by (intros A mm w' v Hmm; unfold atomic; rewrite Hmm; by destruct b).
    apply Hat. se_step E1. se_step Ess. unfold on_ids. cbn [w_ids with_sessions]. by rewrite Eid. }
  se_step Eat. eexists. split; [done|]. by split_and!.
Qed.

Lemma first_message da db a b' s z spk_id o ka kb wa wb p priv' :
  meeting da db a b' s z spk_id o ka kb wa wb →
  length priv' = 32%nat → NoDup (x25519_public <$> [priv'; dh; s]) →
  ∃ wa' wb' sa sb, deliver da db p priv' wa wb = ((wa', wb'), Ok p) ∧
    knows (ik_public (dv_identity db)) kb sa wa' ∧
    w_meta wa' !! kb = Some (pending_for da (ik_public (dv_identity db)) (x25519_public eph) spk_id (fst <$> o)) ∧
    holds (ik_public (dv_identity da)) ka sb wb' ∧ ahead sb sa ∧ is_Some (cks sa) ∧
    level 1 (x25519_public <$> [priv'; dh; s]) sa ∧ level 1 (x25519_public <$> [priv'; dh; s]) sb ∧
    (∀ id, fst <$> o = Some id → pk_load (w_prekeys wb') id = Ok None).
Proof.
  intros Hmeet Hp Hnd. destruct (encrypt_first da db a b' s z spk_id o ka kb wa wb p Hmeet)
    as (sec & sa0 & Ea & Er & K1 & K2 & K3 & Henc).
  destruct Hmeet as [[Hk Ho] Ha Hb Hspk Hids [Hka Hkb] Hbun Hnew Hopk (old & Hold & Hplain) Hmem].
  repeat (apply Forall_cons in Hk as [? Hk]).
  pose proof (init_ahead dh s sec sa0 ltac:(done) ltac:(done) Ea) as Hah.
  set (sb0 := ratchet_init_bob sec s (x25519_public s)) in *.
  rewrite !fmap_cons in *. apply NoDup_cons in Hnd as [Hf _].
  assert (dhs_pub sa0 = x25519_public dh ∧ counters sa0 = [0; 0; 0; DEFAULT_MAX_SKIP] ∧ mkskipped sa0 = [])
    as (D1 & C1 & M1).
  { unfold ratchet_init_alice, _dh in Ea. destruct (x25519_exchange _ _) as [dv|]; [|done]. revert Ea. rbind.
    destruct (_kdf_rk sec dv). by intros [= <-]. }
  injection C1 as C1 C2 C3 C4.
  destruct (speak_ok sa0 sb0 p (x25519_public a ++ x25519_public b') priv' 0 [x25519_public dh; x25519_public s])
    as (sa & sb & m & E1 & R & Hah' & Hc & La & Lb); [by left| | |lia|done|done|].
  { split; [done|rewrite C1, C2, C3; repeat constructor; lia|rewrite C4; done|rewrite D1; left|rewrite D1; apply length_x25519_public]. }
  { split; cbn; [done|repeat constructor; lia|done|right; left|apply length_x25519_public]. }
  destruct (Henc sa m E1) as (wa' & data & E2 & Hop & Hkn & Hmt & _).
  { destruct R as [-> _]. rewrite C1, C3, D1. split; [apply length_x25519_public|done]. }
  { eapply small_storable, level_small; [|exact La]. lia. }
  destruct (decrypt_first db (priv', x25519_public priv') (dv_jid da) (x25519_public a) (x25519_public eph) spk_id
    (fst <$> o) ((λ ko, generate_pre_key ko.1 ko.2) <$> o) ka wb old data m p sa0 sec sb) as (w' & E3 & S1 & S2 & S3 & S4 & S5); try done.
  { rewrite Hb. exact Hop. }
  { destruct o as [[id k]|]; [|done]. cbn. destruct (Hopk id k eq_refl) as (? & ?). eauto. }
  { rewrite Er, Hb. done. }
  { apply length_x25519_public. }
  { rewrite K2, K3. exact R. }
  { eapply small_storable, level_small; [|exact Lb]. lia. }
  destruct (note_ok (dv_jid da) ka w' Hka) as (wb' & E4 & Cl & P4).
  rewrite Ha, Hb in *. cbn [ik_public identity_generate] in *.
  exists wa', wb', sa, sb. split; [unfold deliver; rewrite E2; se_step E3; by se_step E4|].
  split_and!; try done.
  - split; [|exact P4]. eapply knows_clears; [|exact Cl]. split; [done|done|]. rewrite S3. exact Hmem.
  - destruct Cl as (_ & _ & _ & -> & _). exact S5.
Qed.

(** *** The conversation *)

Definition in_session (da db : Device) (ka kb : str) (N : Z) (U : list bytes) (ws : world * world) : Prop :=
  ∃ sa sb, holds (ik_public (dv_identity db)) kb sa ws.1 ∧ holds (ik_public (dv_identity da)) ka sb ws.2 ∧
    in_talk (sa, sb) ∧ level N U sa ∧ level N U sb.

Definition draws (ts : list turn) : list bytes := (λ t : turn, x25519_public t.2) <$> ts.

Definition fresh_draws (U : list bytes) (ts : list turn) : Prop :=
  Forall (λ t : turn, length t.2 = 32%nat) ts ∧ NoDup (draws ts ++ U).

Section Pair.
Context (da db : Device) (ka kb : str).
Context (Hka : session_id (dv_jid da) = Ok ka) (Hkb : session_id (dv_jid db) = Ok kb).
Context (Hla : length (ik_public (dv_identity da)) = 32%nat) (Hlb : length (ik_public (dv_identity db)) = 32%nat).

Lemma device_turn_ok t N U ws : in_session da db ka kb N U ws → 0 ≤ N → N + 1 < 2 ^ 32 →
  length t.2 = 32%nat → x25519_public t.2 ∉ U →
  ∃ ws', device_turn da db t ws = (ws', Ok t.1.2) ∧ in_session da db ka kb (N + 1) (x25519_public t.2 :: U) ws'.
Proof.
  destruct t as [[who p] priv'], ws as [wa wb]. intros (sa & sb & Ha & Hb & Ht & La & Lb) HN HN' Hp Hf.
  unfold in_talk, device_turn in *. cbn [fst snd] in *. destruct who.
  - destruct (deliver_established da db ka kb sa sb wa wb p priv' N U) as (wa' & wb' & sa' & sb' & Ed & ? & ? & ? & ? & ? & ?);
      try done; [apply Hb|unfold may_speak; naive_solver|]. rewrite Ed. eexists. split; [done|].
    exists sa', sb'. split_and!; [done..| |done|done]. right. done.
  - destruct (deliver_established db da kb ka sb sa wb wa p priv' N U) as (wb' & wa' & sb' & sa' & Ed & ? & ? & ? & ? & ? & ?);
      try done; [apply Ha|unfold may_speak; naive_solver|]. rewrite Ed. eexists. split; [done|].
    exists sa', sb'. split_and!; [done..| |done|done]. left. done.
Qed.

Lemma device_talk_ok ts : ∀ N U ws, in_session da db ka kb N U ws → 0 ≤ N →
  N + Z.of_nat (length ts) < 2 ^ 32 → fresh_draws U ts →
  device_talk da db ts ws = (λ t : turn, Ok t.1.2) <$> ts.
Proof.
  induction ts as [|t ts IH]; intros N U ws Hs HN HN' [Hf Hd]; [done|].
  apply Forall_cons in Hf as [Hl Hf]. unfold draws in Hd. rewrite fmap_cons in Hd. cbn [app] in Hd.
  apply NoDup_cons in Hd as [Hn Hd]. cbn [length] in HN'.
  destruct (device_turn_ok t N U ws Hs HN ltac:(lia) Hl) as (ws' & Et & Hs'); [set_solver|].
  cbn [device_talk]. rewrite Et, fmap_cons. f_equal. eapply IH; [exact Hs'|lia|lia|].
  split; [done|]. unfold draws. rewrite NoDup_app in Hd |- *. destruct Hd as (H1 & H2 & H3). split_and!; [done| |].
  - intros x Hx [-> | Hx']%elem_of_cons; [|by eapply H2]. apply Hn, elem_of_app. by left.
  - constructor; [|done]. intros Hx. apply Hn, elem_of_app. by right.
Qed.
End Pair.
End Talk.

(** C2: two devices that have never talked hold a conversation: Alice's first message, sealed
    as a pre-key message for the bundle Bob uploaded, opens at Bob, his reply opens at
    Alice, and from then on every message of any sequence of turns decrypts to what was
    said, the ratchet states going through the session stores and the wire envelopes. *)
Theorem devices_converse {S I L K : Type} {SS : SessionStore S} {SL : SessionStoreLaws S} {IS : IdentityStore I}
    {IL : IdentityStoreLaws I} {LM : LidMap L} {KS : PreKeyStore K}
    {X : X25519} {XL : X25519Laws X} {E : XEdDSA} {EL : XEdDSALaws X E} {HK : Hkdf} {HKL : HkdfLaws HK}
    {HM : Hmac} {AES : AesCbc} {AL : AesCbcLaws AES} {PK : Pkcs7} {PL : Pkcs7Laws PK}
    {W : WhisperProto} {WL : WhisperProtoLaws W}
    (b : atomicity) fetch eph dh da db a b' s z spk_id o ka kb (wa wb : World S I L K) p0 k0 p1 k1 ts :
  meeting fetch eph dh da db a b' s z spk_id o ka kb wa wb →
  let turns := (Alice, p0, k0) :: (Bob, p1, k1) :: ts in
  fresh_draws (x25519_public <$> [dh; s]) turns → Z.of_nat (length turns) < 2 ^ 32 →
  device_talk b fetch eph dh da db turns (wa, wb) = (λ t : turn, Ok t.1.2) <$> turns.
Proof.
  intros Hmeet turns [Hl Hd] Hn. unfold turns in *. unfold draws in Hd. rewrite !fmap_cons in Hd. cbn [app snd] in Hd.
  apply Forall_cons in Hl as [Hk0 Hl]. apply Forall_cons in Hl as [Hk1 Hl]. cbn [snd] in Hk0, Hk1.
  rewrite !NoDup_cons, NoDup_app in Hd. destruct Hd as (N0 & N1 & D1 & D2 & D3). cbn [length] in Hn.
  rewrite !elem_of_cons, elem_of_app in N0. rewrite !elem_of_app in N1.
  destruct (first_message b fetch eph dh da db a b' s z spk_id o ka kb wa wb p0 k0 Hmeet Hk0)
    as (wa1 & wb1 & sa & sb & E0 & Ka & _ & Hb & Hah & Hc & La & Lb & _).
  { rewrite fmap_cons. apply NoDup_cons. split; [|exact D3]. intros Hx. apply N0. by right; right. }
  destruct Hmeet as [_ Ha' Hb' _ _ [Hka Hkb] _ _ _ _ _].
  assert (length (ik_public (dv_identity da)) = 32%nat) as Hla by (rewrite Ha'; apply length_x25519_public).
  assert (length (ik_public (dv_identity db)) = 32%nat) as Hlb by (rewrite Hb'; apply length_x25519_public).
  destruct (deliver_established b fetch eph dh db da kb ka sb sa wb1 wa1 p1 k1 1 (x25519_public <$> [k0; dh; s]))
    as (wb2 & wa2 & sb2 & sa2 & E1 & Hb2 & Ha2 & Hah2 & Hc2 & Lb2 & La2); try done.
  { by left. }
  { rewrite fmap_cons, not_elem_of_cons. split; [|by intros ?; apply N1; right]. intros Heq. apply N0. by left. }
  cbn [device_talk device_turn]. rewrite !fmap_cons. cbn [fst snd]. rewrite E0. f_equal. cbn [fst snd]. rewrite E1. f_equal.
  eapply (device_talk_ok b fetch eph dh da db ka kb Hka Hkb Hla Hlb ts (1 + 1)); [|lia|unfold turn in *; lia|].
  - exists sa2, sb2. split_and!; [done|done|by left|exact La2|exact Lb2].
  - split; [done|]. unfold draws. apply NoDup_app. split; [done|]. rewrite !fmap_cons in *. split.
    + intros x Hx [-> | [-> | Hx']%elem_of_cons]%elem_of_cons; [apply N1; by left|apply N0; right; by left|].
      by apply (D2 x).
    + apply NoDup_cons. split; [intros [Heq | Hx]%elem_of_cons; [apply N0; by left|apply N1; by right]|].
      apply NoDup_cons. split; [intros Hx; apply N0; by right; right|done].
Qed.

(** ** A pre-key message after the first *)

Section Repeat.
Context {S I L K : Type} {SS : SessionStore S} {SL : SessionStoreLaws S} {IS : IdentityStore I}
  {IL : IdentityStoreLaws I} {LM : LidMap L} {KS : PreKeyStore K}.
Context {X : X25519} {XL : X25519Laws X} {E : XEdDSA} {EL : XEdDSALaws X E} {HK : Hkdf} {HKL : HkdfLaws HK}
  {HM : Hmac} {AES : AesCbc} {AL : AesCbcLaws AES} {PK : Pkcs7} {PL : Pkcs7Laws PK}
  {W : WhisperProto} {WL : WhisperProtoLaws W}.

(** A pre-key message for a one-time key that is gone is refused, and nothing changes. *)
Lemma decrypt_used_key b db new sender ka (w : World S I L K) st data ia ib ek spk_id oid m :
  session_id sender = Ok ka → ss_load (w_sessions w) ka = Ok (Some st) →
  prekey_opens_as data ia ib ek spk_id (Some oid) m → spk_id = spk_key_id (dv_signed_pre_key db) →
  pk_load (w_prekeys w) oid = Ok None →
  _decrypt_enc b db new sender (u "pkmsg") data w = (w, Raise ValueError).
Proof.
  intros Hka Hs (pkm & Hdec & P1 & P2 & _) Hspk Hgone. unfold _decrypt_enc.
  se_step (migrate_known_skip b sender ka w _ Hka Hs (or_introl (mk_is_Some _ _ eq_refl))). rewrite Hka. se_run.
  rewrite bool_decide_true by done. unfold decrypt_pkmsg. rewrite Hdec. se_run.
  unfold get_signed_pre_key. rewrite P1, Hspk, Z.eqb_refl. cbn [negb]. se_run. rewrite P2.
  unfold mbind, se_bind. by rewrite Hgone.
Qed.
End Repeat.

(** The sender repeats the pre-key message until it decrypts something from the peer, but
    the receiver makes a new session of every pre-key message and has deleted the
    one-time key after the first: Alice's second message before Bob's reply is rejected. *)
Theorem repeated_pkmsg_rejected {S I L K : Type} {SS : SessionStore S} {SL : SessionStoreLaws S} {IS : IdentityStore I}
    {IL : IdentityStoreLaws I} {LM : LidMap L} {KS : PreKeyStore K}
    {X : X25519} {XL : X25519Laws X} {E : XEdDSA} {EL : XEdDSALaws X E} {HK : Hkdf} {HKL : HkdfLaws HK}
    {HM : Hmac} {AES : AesCbc} {AL : AesCbcLaws AES} {PK : Pkcs7} {PL : Pkcs7Laws PK}
    {W : WhisperProto} {WL : WhisperProtoLaws W}
    (b : atomicity) fetch eph dh da db a b' s z spk_id oid ok ka kb (wa wb : World S I L K) p0 k0 p1 k1 :
  meeting fetch eph dh da db a b' s z spk_id (Some (oid, ok)) ka kb wa wb →
  fresh_draws (x25519_public <$> [dh; s]) [(Alice, p0, k0); (Alice, p1, k1)] →
  device_talk b fetch eph dh da db [(Alice, p0, k0); (Alice, p1, k1)] (wa, wb) = [Ok p0; Raise ValueError].
Proof.
  intros Hmeet [Hl Hd]. apply Forall_cons in Hl as [Hk0 Hl]. apply Forall_cons in Hl as [Hk1 _]. cbn in Hk0, Hk1, Hd.
  rewrite !NoDup_cons in Hd. destruct Hd as (N0 & N1 & D).
  destruct (first_message b fetch eph dh da db a b' s z spk_id (Some (oid, ok)) ka kb wa wb p0 k0 Hmeet Hk0)
    as (wa1 & wb1 & sa & sb & E0 & Ka & Hmt & [Kb _] & Hah & Hc & La & Lb & Hgone).
  { cbn. rewrite !NoDup_cons. split; [|exact D]. intros Hx. apply N0. by right. }
  destruct Hmeet as [[Hk _] Ha' Hb' Hspk (Hr & Hsi & Hoi) [Hka Hkb] _ _ _ _ _].
  destruct (x3dh_agree a eph b' s z None spk_id (dv_signed_pre_key db)) as (_ & _ & _ & K1 & _ & _); [|done|done|].
  { repeat (apply Forall_cons in Hk as [? Hk]). repeat constructor; done. }
  destruct (speak_ok sa sb p1 (ik_public (dv_identity da) ++ ik_public (dv_identity db)) k1 1 (x25519_public <$> [k0; dh; s]))
    as (sa' & sb' & m & E1 & R & _ & _ & La' & _); [by right|done..| |].
  { cbn. rewrite not_elem_of_cons. split; [intros Heq; apply N0; rewrite Heq; by left|done]. }
  destruct (seal_pending da (ik_public (dv_identity db)) (dv_registration_id da) (Some oid) spk_id (x25519_public eph) m)
    as (data & Es & Hop); try done.
  { destruct R as [-> _]. by eapply level_wireable; [|exact La]. }
  { rewrite Ha'. apply length_x25519_public. } { rewrite Hb'. apply length_x25519_public. } { apply length_x25519_public. }
  destruct (encrypt_known da fetch eph dh (dv_jid db) (ik_public (dv_identity db)) kb p1 wa1 sa sa' m
    (pending_for da (ik_public (dv_identity db)) (x25519_public eph) spk_id (Some oid)) (u "pkmsg", data))
    as (wa2 & E2 & _); [done|done|by rewrite Hmt|done| |done|].
  { eapply small_storable, level_small; [|exact La']. lia. }
  cbn [device_talk device_turn fst snd]. rewrite E0. cbn [fst snd]. unfold deliver. rewrite E2.
  pose proof (decrypt_used_key b db (k1, x25519_public k1) (dv_jid da) ka wb1 sb data _ _ _ _ oid m Hka
    (kn_session _ _ _ _ Kb) Hop (eq_sym K1) (Hgone oid eq_refl)) as E3.
  by rewrite (se_bind_raise _ _ _ _ _ E3).
Qed.

(** ** Failure *)

(** What a computation raises with leaves the state as a given one. *)
Definition fails_clean {W A} (m : SE W A) : Prop := ∀ w w' e, m w = (w', Raise e) → w' = w.

Lemma fails_clean_lift {W A} (r : result A) : fails_clean (se_lift (S := W) r).
Proof. intros w w' e [= <- _]. done. Qed.

Lemma fails_clean_raise {W A} e : fails_clean (se_raise (S := W) (A := A) e).
Proof. by intros w w' e' [= <- _]. Qed.

Lemma fails_clean_atomic {W A} (m : SE W A) : fails_clean (atomic Transaction m).
Proof. intros w w' e. unfold atomic. destruct (m w) as [w1 [v|e1]]; [done|]. by intros [= <- _]. Qed.

(** A computation that changes nothing, followed by one that fails clean. *)
Lemma fails_clean_read {W A B} (m : SE W A) (f : A → SE W B) :
  (∀ w, (m w).1 = w) → (∀ a, fails_clean (f a)) → fails_clean (m ≫= f).
Proof.
  intros Hm Hf w w' e. unfold mbind, se_bind. specialize (Hm w). destruct (m w) as [w1 [a|e1]]; cbn in Hm; subst w1.
  - apply Hf.
  - by intros [= <- _].
Qed.

(** Only the last step may change the state. *)
Lemma fails_clean_last {W A B} (m : SE W A) (g : A → B) : fails_clean m → fails_clean (a ← m; mret (g a)).
Proof.
  intros Hm w w' e. unfold mbind, se_bind. destruct (m w) as [w1 [a|e1]] eqn:Em; [done|].
  intros [= <- _]. by eapply Hm.
Qed.

(** C30: a message that does not decrypt does no harm: on every exception of [_decrypt_enc],
    with the SQLite stores' transaction, sessions, identities, one-time keys, the LID map
    and the sender's metadata are what they were, but for the migration of a known LID
    sender, itself all or nothing; an unknown [enc] type is a [ValueError]. *)
Theorem failed_decrypt_harmless {S I L K : Type} {SS : SessionStore S} {IS : IdentityStore I} {LM : LidMap L}
    {KS : PreKeyStore K} {X : X25519} {HK : Hkdf} {HM : Hmac} {AES : AesCbc} {PK : Pkcs7} {W : WhisperProto}
    d new sender enc_type data (w w' : World S I L K) e :
  _decrypt_enc Transaction d new sender enc_type data w = (w', Raise e) →
  w' = (_migrate_known_lid_sender Transaction sender w).1 ∧
  (server sender ≠ LID_SERVER → w' = w) ∧
  (is_ok (_migrate_known_lid_sender Transaction sender w).2 = true → is_ok (session_id sender) = true →
   enc_type ∉ [u "pkmsg"; u "msg"] → e = ValueError).
Proof.
  intros H. unfold _decrypt_enc in H.
  assert (server sender ≠ LID_SERVER → (_migrate_known_lid_sender Transaction sender w).1 = w) as Hplain.
  { intros Hs. unfold _migrate_known_lid_sender. by rewrite bool_decide_false. }
  assert (∀ sid, fails_clean (decrypt_pkmsg (L := L) Transaction d new sid data)) as Hpk.
  { intros sid. unfold decrypt_pkmsg. apply fails_clean_read; [done|]. intros pkmsg.
    apply fails_clean_read; [done|]. intros spk.
    apply fails_clean_read.
    { intros w0. destruct (pk_one_time_pre_key_id pkmsg); [|done]. unfold mbind, se_bind.
      by destruct (pk_load _ _) as [[]|]. }
    intros opk. apply fails_clean_read; [done|]. intros r. destruct (ratchet_decrypt _ _ _ _ _ _) as [st p].
    apply fails_clean_read; [done|]. intros plain. apply (fails_clean_last _ (λ _, plain)), fails_clean_atomic. }
  assert (∀ sid, fails_clean (decrypt_msg (L := L) (K := K) d new sid data)) as Hmsg.
  { intros sid. unfold decrypt_msg. apply fails_clean_read; [done|]. intros loaded.
    do 3 (apply fails_clean_read; [done|intros ?]). apply fails_clean_read; [done|]. intros inner.
    destruct (ratchet_decrypt _ _ _ _ _ _) as [st p]. apply fails_clean_read; [done|]. intros plain.
    apply (fails_clean_last _ (λ _, plain)). intros w0 w1 e1. unfold save_session. destruct (ss_save _ _ _); [done|].
    by intros [= <- _]. }
  destruct (_migrate_known_lid_sender Transaction sender w) as [w1 [[]|e1]] eqn:Em; cbn [fst] in *.
  2:{ rewrite (se_bind_raise _ _ _ _ _ Em) in H. injection H as <- <-. done. }
  rewrite (se_bind_eq _ _ _ _ _ Em) in H. unfold mbind at 1, se_bind at 1, se_lift at 1 in H.
  destruct (session_id sender) as [sid|e2]; [|by injection H as <- <-].
  assert (w' = w1 ∧ (enc_type ∉ [u "pkmsg"; u "msg"] → e = ValueError)) as [-> He]; [|split_and!; [done|exact Hplain|auto]].
  revert H. case_bool_decide as H1; [intros H; split; [by eapply Hpk|intros Hn; set_solver]|].
  case_bool_decide as H2; [intros H; split; [by eapply Hmsg|intros Hn; set_solver]|].
  by intros [= <- <-].
Qed.

(** ** Witnesses: Alice and Bob over the in-memory stores *)

Module TalkDemo.
#[export] Existing Instances toy_x25519 toy_xeddsa toy_hkdf toy_hmac toy_aes demo_pkcs7 toy_whisper latin1_ucd no_floats.

Definition key (i : Z) : bytes := replicate 32 (mkb i).
Definition dworld : Type := World InMemorySessionStore InMemoryIdentityStore InMemoryLidMap InMemoryPreKeyStore.
Definition jid (s : string) : JID := mkJID (u s) PN_SERVER 0.
Definition no_spk : SignedPreKey := mkSignedPreKey 0 [] [] [].
Definition spk : SignedPreKey :=
  ok_or no_spk (signed_prekey_generate (identity_generate (key 2)) 7 (key 3) (replicate 64 (mkb 0))).
(** Alice with the identity key [i]. *)
Definition alice_dev (i : Z) : Device := mkDevice (identity_generate (key i)) 11 no_spk (jid "alice").
Definition bob_dev : Device := mkDevice (identity_generate (key 2)) 22 spk (jid "bob").
Definition opk : Z * bytes := (9, key 4).
Definition bundle : PreKeyBundle := bundle_of (dv_identity bob_dev) spk (Some (generate_pre_key opk.1 opk.2)).
Definition fetch (j : JID) : result PreKeyBundle := if bool_decide (j = jid "bob") then Ok bundle else Raise PairingFailed.
Definition empty : dworld := mkWorld (mkMemSessions ∅) (mkMemIds ∅) (mkMemLids ∅ ∅) (mkMemPreKeys []) ∅.
Definition bob_world : dworld :=
  mkWorld (mkMemSessions ∅) (mkMemIds ∅) (mkMemLids ∅ ∅) (mkMemPreKeys [(9, generate_pre_key 9 (key 4))]) ∅.
Definition turns : list turn :=
  [(Alice, bstr "hi", key 20); (Bob, bstr "hello", key 21); (Bob, bstr "there", key 22); (Alice, bstr "bye", key 23)].
Definition talk : Device → Device → list turn → dworld * dworld → list (result bytes) :=
  device_talk Transaction fetch (key 5) (key 6).

Definition one_turn : Device → Device → turn → dworld * dworld → (dworld * dworld) * result bytes :=
  device_turn Transaction fetch (key 5) (key 6).
Definition bob_decrypts (enc_type : str) (data : bytes) : SE dworld bytes :=
  _decrypt_enc Transaction bob_dev (key 20, key 21) (jid "alice") enc_type data.

Lemma meets : meeting fetch (key 5) (key 6) (alice_dev 1) bob_dev (key 1) (key 2) (key 3) (replicate 64 (mkb 0)) 7
  (Some opk) (u "alice:0@s.whatsapp.net") (u "bob:0@s.whatsapp.net") empty bob_world.
Proof.
  split.
  - by repeat constructor.
  - done.
  - done.
  - by vm_compute.
  - by vm_compute.
  - by vm_compute.
  - by vm_compute.
  - by vm_compute.
  - intros oid k [= <- <-]. split; [by vm_compute|]. eexists. split; [by vm_compute|by vm_compute].
  - exists None. split; [by vm_compute|]. right. left. by vm_compute.
  - intros m. by vm_compute.
Qed.

(** The drawn keys have 32 bytes and distinct publics. *)
Lemma fresh ts : forallb (λ t : turn, bool_decide (length t.2 = 32%nat)) ts = true →
  bool_decide (NoDup (draws ts ++ (x25519_public <$> [key 6; key 3]))) = true →
  fresh_draws (x25519_public <$> [key 6; key 3]) ts.
Proof.
  intros Hl Hn. split; [|by apply bool_decide_eq_true in Hn]. apply Forall_forall. intros t Ht.
  rewrite forallb_forall in Hl. apply list_elem_of_In in Ht. by apply Hl, bool_decide_eq_true in Ht.
Qed.
End TalkDemo.

Lemma devices_converse_witness :
  TalkDemo.talk (TalkDemo.alice_dev 1) TalkDemo.bob_dev TalkDemo.turns (TalkDemo.empty, TalkDemo.bob_world)
  = [Ok (bstr "hi"); Ok (bstr "hello"); Ok (bstr "there"); Ok (bstr "bye")].
Proof.
  apply (devices_converse (SL := mem_session_laws (U := latin1_ucd) (F := no_floats)) _ _ _ _ _ _ _ _ _ _ _ _ _ _ _ _ (bstr "hi") (TalkDemo.key 20) (bstr "hello")
    (TalkDemo.key 21) [(Bob, bstr "there", TalkDemo.key 22); (Alice, bstr "bye", TalkDemo.key 23)] TalkDemo.meets);
    [apply TalkDemo.fresh; by vm_compute|by vm_compute].
Defined.

Lemma repeated_pkmsg_rejected_witness :
  TalkDemo.talk (TalkDemo.alice_dev 1) TalkDemo.bob_dev
    [(Alice, bstr "hi", TalkDemo.key 20); (Alice, bstr "again", TalkDemo.key 21)] (TalkDemo.empty, TalkDemo.bob_world)
  = [Ok (bstr "hi"); Raise ValueError].
Proof.
  apply (repeated_pkmsg_rejected (SL := mem_session_laws (U := latin1_ucd) (F := no_floats)) _ _ _ _ _ _ _ _ _ _ _ _ _ _ _ _ _
    (bstr "hi") (TalkDemo.key 20) (bstr "again") (TalkDemo.key 21) TalkDemo.meets).
  apply TalkDemo.fresh; by vm_compute.
Defined.

(** Bytes that are no message at all. *)
Lemma failed_decrypt_harmless_witness :
  ∃ e, TalkDemo.bob_decrypts (u "pkmsg") (bstr "noise") TalkDemo.bob_world = (TalkDemo.bob_world, Raise e).
Proof.
  destruct (TalkDemo.bob_decrypts (u "pkmsg") (bstr "noise") TalkDemo.bob_world) as [w' [p|e]] eqn:Ed;
    [vm_compute in Ed; discriminate|].
  unfold TalkDemo.bob_decrypts in Ed. destruct (failed_decrypt_harmless _ _ _ _ _ _ _ _ Ed) as (_ & H & _).
  exists e. rewrite H by (vm_compute; discriminate). reflexivity.
Defined.

(** Once Bob has written to Alice, he remembers her identity in [_peer_meta]. When Alice
    registers again under a new identity key and writes, her pre-key message opens, but it
    does not refresh that memory, and Bob's reply, authenticated to the old key, is rejected. *)
Example stale_peer_identity :
  let first := [(Alice, bstr "hi", TalkDemo.key 20); (Bob, bstr "hello", TalkDemo.key 21)] in
  let ws := foldl (λ ws t, (TalkDemo.one_turn (TalkDemo.alice_dev 1) TalkDemo.bob_dev t ws).1) (TalkDemo.empty, TalkDemo.bob_world) first in
  let wb := mkWorld (w_sessions ws.2) (w_ids ws.2) (w_lids ws.2) (w_prekeys TalkDemo.bob_world) (w_meta ws.2) in
  TalkDemo.talk (TalkDemo.alice_dev 8) TalkDemo.bob_dev
    [(Alice, bstr "new phone", TalkDemo.key 24); (Bob, bstr "ok", TalkDemo.key 25)] (TalkDemo.empty, wb)
  = [Ok (bstr "new phone"); Raise SignalCryptoError].
Proof. vm_compute. reflexivity. Qed.
