(* ===== verification/Messages.v ===== *)
(** * Message bodies
    ([src/proto/e2e.proto], the message types of [src/src/pywhats/events.py], and the functions
    of [messaging/sender.py], [messaging/receiver.py] and [client.py] that build and read them)

    A field of a protobuf message is an [option], [None] being an absent field; reading an
    absent field gives its type's default. The fields that no code reads or writes are left
    out. Messages contain messages: the ones that do take the message type as a parameter. *)

From S2P Require Import Prelude PyStr Jid Json Media.

(** ** [e2e.proto] *)

Record MessageKey := mkMessageKey {
  mk_remote_jid : option str; mk_from_me : option bool; mk_id : option str; mk_participant : option str }.

Record ImageMessage := mkImage {
  img_url : option str; img_mimetype : option str; img_caption : option str; img_file_sha256 : option bytes;
  img_file_length : option Z; img_height : option Z; img_width : option Z; img_media_key : option bytes;
  img_file_enc_sha256 : option bytes; img_direct_path : option str }.

Record DocumentMessage := mkDocument {
  doc_url : option str; doc_mimetype : option str; doc_file_sha256 : option bytes; doc_file_length : option Z;
  doc_media_key : option bytes; doc_file_name : option str; doc_file_enc_sha256 : option bytes;
  doc_direct_path : option str; doc_caption : option str }.

Record AudioMessage := mkAudio {
  aud_url : option str; aud_mimetype : option str; aud_file_sha256 : option bytes; aud_file_length : option Z;
  aud_ptt : option bool; aud_media_key : option bytes; aud_file_enc_sha256 : option bytes;
  aud_direct_path : option str }.

Record VideoMessage := mkVideo {
  vid_url : option str; vid_mimetype : option str; vid_file_sha256 : option bytes; vid_file_length : option Z;
  vid_media_key : option bytes; vid_caption : option str; vid_file_enc_sha256 : option bytes;
  vid_direct_path : option str }.

Record StickerMessage := mkSticker {
  stk_url : option str; stk_file_sha256 : option bytes; stk_file_enc_sha256 : option bytes;
  stk_media_key : option bytes; stk_mimetype : option str; stk_direct_path : option str;
  stk_file_length : option Z }.

Record SenderKeyDistributionMessage := mkSkdm {
  skdm_group_id : option str; skdm_axolotl : option bytes }.

Record ReactionMessage := mkReactionMessage {
  rm_key : option MessageKey; rm_text : option str; rm_sender_timestamp_ms : option Z }.

Record HistorySyncNotification := mkHistoryNotification {
  hn_file_sha256 : option bytes; hn_media_key : option bytes; hn_file_enc_sha256 : option bytes;
  hn_direct_path : option str }.

Record Fingerprint := mkFingerprint {
  fp_raw_id : option Z; fp_current_index : option Z; fp_device_indexes : list Z }.
Record AppStateSyncKeyData := mkKeyData {
  kd_key_data : option bytes; kd_fingerprint : option Fingerprint; kd_timestamp : option Z }.
(** An [AppStateSyncKey] of a key share; its [key_id] is a message with one field. *)
Record SharedKey := mkSharedKey {
  shk_key_id : option (option bytes); shk_key_data : option AppStateSyncKeyData }.

Record ContextInfo (M : Type) := mkContextInfo {
  ci_stanza_id : option str; ci_participant : option str; ci_quoted_message : option M }.
Arguments mkContextInfo {M}.
Arguments ci_stanza_id {M}.
Arguments ci_participant {M}.
Arguments ci_quoted_message {M}.

Record ExtendedTextMessage (M : Type) := mkExtendedText {
  etm_text : option str; etm_context_info : option (ContextInfo M) }.
Arguments mkExtendedText {M}.
Arguments etm_text {M}.
Arguments etm_context_info {M}.

Record ProtocolMessage (M : Type) := mkProtocolMessage {
  pm_key : option MessageKey; pm_type : option Z;
  pm_history_sync_notification : option HistorySyncNotification;
  pm_app_state_sync_key_share : option (list SharedKey);
  pm_edited_message : option M; pm_timestamp_ms : option Z }.
Arguments mkProtocolMessage {M}.
Arguments pm_key {M}.
Arguments pm_type {M}.
Arguments pm_history_sync_notification {M}.
Arguments pm_app_state_sync_key_share {M}.
Arguments pm_edited_message {M}.
Arguments pm_timestamp_ms {M}.

Record DeviceSentMessage (M : Type) := mkDeviceSent { ds_destination_jid : option str; ds_message : option M }.
Arguments mkDeviceSent {M}.
Arguments ds_destination_jid {M}.
Arguments ds_message {M}.

(** [Message]; [edited_message] is a [FutureProofMessage], which has one field. *)
Inductive MessageProto := mkMessageProto {
  conversation : option str;
  sender_key_distribution_message : option SenderKeyDistributionMessage;
  image_message : option ImageMessage;
  extended_text_message : option (ExtendedTextMessage MessageProto);
  document_message : option DocumentMessage;
  audio_message : option AudioMessage;
  video_message : option VideoMessage;
  protocol_message : option (ProtocolMessage MessageProto);
  sticker_message : option StickerMessage;
  device_sent_message : option (DeviceSentMessage MessageProto);
  reaction_message : option ReactionMessage;
  edited_message : option (option MessageProto)
}.

(** [MessageProto()] and the other messages without any field. *)
Definition empty_message : MessageProto :=
  mkMessageProto None None None None None None None None None None None None.
Definition empty_key : MessageKey := mkMessageKey None None None None.

(** [ProtocolMessage.Type] *)
Definition REVOKE : Z := 0.
Definition MESSAGE_EDIT : Z := 14.

(** What is read from an absent field. *)
Definition str_of : option str → str := default [].
Definition bytes_of : option bytes → bytes := default [].
Definition int_of : option Z → Z := default 0.
Definition bool_of : option bool → bool := default false.

Definition HasField {A} (o : option A) : bool := if o is Some _ then true else false.

(** Assigning to a field: text must be encodable, a number in range. *)
Definition set_str (s : str) : result (option str) := if scalar_str s then Ok (Some s) else Raise UnicodeError.
Definition set_uint (w : Z) (z : Z) : result (option Z) :=
  if (0 <=? z) && (z <? 2 ^ w) then Ok (Some z) else Raise ValueError.
Definition set_int64 (z : Z) : result (option Z) :=
  if (- 2 ^ 63 <=? z) && (z <? 2 ^ 63) then Ok (Some z) else Raise ValueError.

(** The wire format, which the generated code implements. *)
Class MessageCodec := {
  ser_Message : MessageProto → result bytes;
  parse_Message : bytes → result MessageProto;
  ser_Fingerprint : option Fingerprint → bytes
}.

Class MessageCodecLaws (C : MessageCodec) : Prop := {
  message_parse_ser m b : ser_Message m = Ok b → parse_Message b = Ok m
}.

(** ** [events.py] *)

Record MediaAttachment := mkAttachment {
  ma_kind : str; ma_direct_path : str; ma_media_key : bytes; ma_file_sha256 : bytes;
  ma_file_enc_sha256 : bytes; ma_media_type : str; ma_file_length : Z; ma_mimetype : str;
  ma_filename : str; ma_caption : str; ma_ptt : bool; ma_mms_type : str }.

Record QuotedMessage := mkQuoted { qm_stanza_id : str; qm_participant : str; qm_text : str }.

Record Message := mkMessage {
  msg_id : str; msg_chat : JID; msg_sender : JID; msg_text : str; msg_timestamp : Z; msg_from_me : bool;
  msg_media : option MediaAttachment; msg_quoted : option QuotedMessage }.

Record Reaction := mkReaction {
  re_chat : JID; re_sender : JID; re_message_id : str; re_text : str; re_key_from_me : bool; re_timestamp : Z }.

Record MessageEdit := mkEdit {
  ed_chat : JID; ed_sender : JID; ed_message_id : str; ed_text : str; ed_timestamp : Z }.

Record MessageRevoke := mkRevoke { rv_chat : JID; rv_sender : JID; rv_message_id : str; rv_timestamp : Z }.

(** ** Reading a body ([receiver.py]) *)

Definition _extract_text (proto : MessageProto) : str :=
  let conv := str_of (conversation proto) in
  if truthy conv then conv
  else str_of (etm ← extended_text_message proto; etm_text etm).

Definition _extract_media (proto : MessageProto) : option MediaAttachment :=
  match image_message proto with
  | Some img => Some (mkAttachment (u "image") (str_of (img_direct_path img)) (bytes_of (img_media_key img))
      (bytes_of (img_file_sha256 img)) (bytes_of (img_file_enc_sha256 img)) MEDIA_IMAGE
      (int_of (img_file_length img)) (str_of (img_mimetype img)) [] (str_of (img_caption img)) false [])
  | None =>
  match document_message proto with
  | Some doc => Some (mkAttachment (u "document") (str_of (doc_direct_path doc)) (bytes_of (doc_media_key doc))
      (bytes_of (doc_file_sha256 doc)) (bytes_of (doc_file_enc_sha256 doc)) MEDIA_DOCUMENT
      (int_of (doc_file_length doc)) (str_of (doc_mimetype doc)) (str_of (doc_file_name doc))
      (str_of (doc_caption doc)) false [])
  | None =>
  match audio_message proto with
  | Some aud => Some (mkAttachment (u "audio") (str_of (aud_direct_path aud)) (bytes_of (aud_media_key aud))
      (bytes_of (aud_file_sha256 aud)) (bytes_of (aud_file_enc_sha256 aud)) MEDIA_AUDIO
      (int_of (aud_file_length aud)) (str_of (aud_mimetype aud)) [] [] (bool_of (aud_ptt aud)) [])
  | None =>
  match video_message proto with
  | Some vid => Some (mkAttachment (u "video") (str_of (vid_direct_path vid)) (bytes_of (vid_media_key vid))
      (bytes_of (vid_file_sha256 vid)) (bytes_of (vid_file_enc_sha256 vid)) MEDIA_VIDEO
      (int_of (vid_file_length vid)) (str_of (vid_mimetype vid)) [] (str_of (vid_caption vid)) false [])
  | None =>
  match sticker_message proto with
  | Some stk => Some (mkAttachment (u "sticker") (str_of (stk_direct_path stk)) (bytes_of (stk_media_key stk))
      (bytes_of (stk_file_sha256 stk)) (bytes_of (stk_file_enc_sha256 stk)) MEDIA_IMAGE
      (int_of (stk_file_length stk)) (str_of (stk_mimetype stk)) [] [] false [])
  | None => None
  end end end end end.

Definition _extract_quoted (proto : MessageProto) : option QuotedMessage :=
  etm ← extended_text_message proto;
  ci ← etm_context_info etm;
  if negb (truthy (str_of (ci_stanza_id ci))) then None
  else Some (mkQuoted (str_of (ci_stanza_id ci)) (str_of (ci_participant ci))
               (from_option _extract_text [] (ci_quoted_message ci))).

(** ** Classifying a body ([sender.py]) *)

Definition _media_type_for (proto : MessageProto) : str :=
  if HasField (image_message proto) then u "image"
  else if HasField (video_message proto) then u "video"
  else match audio_message proto with
       | Some aud => if bool_of (aud_ptt aud) then u "ptt" else u "audio"
       | None =>
           if HasField (document_message proto) then u "document"
           else if HasField (sticker_message proto) then u "sticker" else []
       end.

Definition _message_type_for (proto : MessageProto) : str :=
  if HasField (reaction_message proto) then u "reaction"
  else if truthy (_media_type_for proto) then u "media"
  else u "text".

(** ** Building a body *)

(** [f"{jid.user}@{jid.server}"] *)
Definition bare_jid (j : JID) : str := user j ++ [AT] ++ server j.

(** [MessageProto(conversation=text)] *)
Definition conversation_proto (text : str) : result MessageProto :=
  c ← set_str text;
  Ok (mkMessageProto c None None None None None None None None None None None).

(** The argument [reply_to] of [send_text]. *)
Inductive ReplyTo := ReplyMessage (m : Message) | ReplyKey (k : MessageKey).

Definition _build_reply_proto (text : str) (reply_to : ReplyTo) : result MessageProto :=
  etm_text ← set_str text;
  ci ← match reply_to with
       | ReplyMessage m =>
           id ← set_str (msg_id m);
           participant ← set_str (bare_jid (msg_sender m));
           quoted ← (if truthy (msg_text m) then q ← conversation_proto (msg_text m); Ok (Some q) else Ok None);
           Ok (mkContextInfo id participant quoted)
       | ReplyKey k =>
           let participant := str_of (mk_participant k) in
           id ← set_str (str_of (mk_id k));
           participant ← (if truthy participant then set_str participant else Ok None);
           Ok (mkContextInfo id participant None)
       end;
  Ok (mkMessageProto None None None (Some (mkExtendedText etm_text (Some ci))) None None None None None None None None).

(** [client.py]: the body of a reaction; [now_ms] is [int(time.time() * 1000)]. *)
Definition reaction_proto (chat : JID) (message_id emoji : str) (from_me : bool) (now_ms : Z) : result MessageProto :=
  remote ← set_str (bare_jid chat);
  id ← set_str message_id;
  text ← set_str emoji;
  ts ← set_int64 now_ms;
  Ok (mkMessageProto None None None None None None None None None None
        (Some (mkReactionMessage (Some (mkMessageKey remote (Some from_me) id None)) text ts)) None).

(** The body that [_send_protocol_edit] sends, with the [edit] attribute of its stanza. *)
Definition protocol_edit_proto (chat : JID) (message_id : str) (from_me : bool) (new_text : option str)
    (revoke : bool) (participant : option JID) (now_ms : Z) : result (MessageProto * str) :=
  '(edited, ts, type, edit_attr) ←
    (if revoke then Ok (None, None, REVOKE, u (if from_me then "7" else "8"))
     else e ← conversation_proto (str_of new_text); t ← set_int64 now_ms; Ok (Some e, t, MESSAGE_EDIT, u "1"));
  remote ← set_str (bare_jid chat);
  id ← set_str message_id;
  part ← match participant with Some p => set_str (bare_jid p) | None => Ok None end;
  let pm := mkProtocolMessage (Some (mkMessageKey remote (Some from_me) id part)) (Some type) None None edited ts in
  let with_protocol pm := mkMessageProto None None None None None None None pm None None None in
  Ok (if revoke then with_protocol (Some pm) None
      else with_protocol None (Some (Some (with_protocol (Some pm) None))), edit_attr).

(** *** Attachments *)

(** [UploadResult] of [media/upload.py]; the server's JSON values are copied as they are. *)
Record UploadResult := mkUpload {
  up_url : json; up_direct_path : json; up_handle : json; up_media_key : bytes;
  up_file_enc_sha256 : bytes; up_file_sha256 : bytes; up_file_length : Z }.

(** Assigning a JSON value to a text field. *)
Definition set_json_str (v : json) : result (option str) :=
  match v with JStr s => set_str s | _ => Raise TypeError end.

(** [if s: msg.field = s] *)
Definition set_if (s : str) : result (option str) := if truthy s then set_str s else Ok None.

Definition image_proto (up : UploadResult) (mimetype caption : str) (width height : Z) : result MessageProto :=
  url ← set_json_str (up_url up);
  path ← set_json_str (up_direct_path up);
  len ← set_uint 64 (up_file_length up);
  mime ← set_str mimetype;
  cap ← set_if caption;
  w ← (if width =? 0 then Ok None else set_uint 32 width);
  h ← (if height =? 0 then Ok None else set_uint 32 height);
  Ok (mkMessageProto None None (Some (mkImage url mime cap (Some (up_file_sha256 up)) len h w (Some (up_media_key up))
        (Some (up_file_enc_sha256 up)) path)) None None None None None None None None None).

Definition video_proto (up : UploadResult) (mimetype caption : str) : result MessageProto :=
  url ← set_json_str (up_url up);
  path ← set_json_str (up_direct_path up);
  len ← set_uint 64 (up_file_length up);
  mime ← set_str mimetype;
  cap ← set_if caption;
  Ok (mkMessageProto None None None None None None (Some (mkVideo url mime (Some (up_file_sha256 up)) len
        (Some (up_media_key up)) cap (Some (up_file_enc_sha256 up)) path)) None None None None None).

Definition sticker_proto (up : UploadResult) (mimetype : str) : result MessageProto :=
  url ← set_json_str (up_url up);
  path ← set_json_str (up_direct_path up);
  len ← set_uint 64 (up_file_length up);
  mime ← set_str mimetype;
  Ok (mkMessageProto None None None None None None None None (Some (mkSticker url (Some (up_file_sha256 up))
        (Some (up_file_enc_sha256 up)) (Some (up_media_key up)) mime path len)) None None None).

Definition audio_proto (up : UploadResult) (mimetype : str) (ptt : bool) : result MessageProto :=
  url ← set_json_str (up_url up);
  path ← set_json_str (up_direct_path up);
  len ← set_uint 64 (up_file_length up);
  mime ← set_str mimetype;
  Ok (mkMessageProto None None None None None (Some (mkAudio url mime (Some (up_file_sha256 up)) len
        (if ptt then Some true else None) (Some (up_media_key up)) (Some (up_file_enc_sha256 up)) path))
        None None None None None None).

Definition document_proto (up : UploadResult) (mimetype filename caption : str) : result MessageProto :=
  url ← set_json_str (up_url up);
  path ← set_json_str (up_direct_path up);
  len ← set_uint 64 (up_file_length up);
  mime ← set_str mimetype;
  name ← set_if filename;
  cap ← set_if caption;
  Ok (mkMessageProto None None None None (Some (mkDocument url mime (Some (up_file_sha256 up)) len
        (Some (up_media_key up)) name (Some (up_file_enc_sha256 up)) path cap)) None None None None None None None).

(** ** A codec

    An instance of the codec for the examples: a message becomes a tree of its parts, the
    tree a number, and the number its bytes. *)

Module ToyCodec.
Inductive leaf := LS (s : option str) | LB (b : option bytes) | LZ (z : option Z) | LO (o : option bool) | LL (l : list Z).

Instance leaf_eq : EqDecision leaf. Proof. solve_decision. Defined.
Instance leaf_cnt : Countable leaf.
Proof.
  refine (inj_countable'
    (λ l, match l with LS s => inl (inl s) | LB b => inl (inr b) | LZ z => inr (inl z) | LO o => inr (inr (inl o)) | LL l => inr (inr (inr l)) end)
    (λ s, match s with inl (inl s) => LS s | inl (inr b) => LB b | inr (inl z) => LZ z | inr (inr (inl o)) => LO o | inr (inr (inr l)) => LL l end) _).
  by intros [].
Defined.

Abbreviation tree := (gen_tree leaf).
Abbreviation lf := GenLeaf.

(** A field that holds a message: [GenNode 1] when absent, [GenNode 2] when present. *)
Definition t_opt {A} (f : A → tree) (o : option A) : tree :=
  match o with Some x => GenNode 2 [f x] | None => GenNode 1 [] end.
Definition of_opt {A} (g : tree → option A) (t : tree) : option A :=
  match t with GenNode 2 [t] => g t | _ => None end.

Definition t_key '(mkMessageKey a b c d) : tree := GenNode 0 [lf (LS a); lf (LO b); lf (LS c); lf (LS d)].
Definition of_key (t : tree) : option MessageKey :=
  match t with GenNode 0 [lf (LS a); lf (LO b); lf (LS c); lf (LS d)] => Some (mkMessageKey a b c d) | _ => None end.

Definition t_image '(mkImage a b c d e f g h i j) : tree := GenNode 0 [lf (LS a); lf (LS b); lf (LS c); lf (LB d); lf (LZ e); lf (LZ f); lf (LZ g); lf (LB h); lf (LB i); lf (LS j)].
Definition of_image (t : tree) : option ImageMessage :=
  match t with GenNode 0 [lf (LS a); lf (LS b); lf (LS c); lf (LB d); lf (LZ e); lf (LZ f); lf (LZ g); lf (LB h); lf (LB i); lf (LS j)] => Some (mkImage a b c d e f g h i j) | _ => None end.

Definition t_document '(mkDocument a b c d e f g h i) : tree := GenNode 0 [lf (LS a); lf (LS b); lf (LB c); lf (LZ d); lf (LB e); lf (LS f); lf (LB g); lf (LS h); lf (LS i)].
Definition of_document (t : tree) : option DocumentMessage :=
  match t with GenNode 0 [lf (LS a); lf (LS b); lf (LB c); lf (LZ d); lf (LB e); lf (LS f); lf (LB g); lf (LS h); lf (LS i)] => Some (mkDocument a b c d e f g h i) | _ => None end.

Definition t_audio '(mkAudio a b c d e f g h) : tree := GenNode 0 [lf (LS a); lf (LS b); lf (LB c); lf (LZ d); lf (LO e); lf (LB f); lf (LB g); lf (LS h)].
Definition of_audio (t : tree) : option AudioMessage :=
  match t with GenNode 0 [lf (LS a); lf (LS b); lf (LB c); lf (LZ d); lf (LO e); lf (LB f); lf (LB g); lf (LS h)] => Some (mkAudio a b c d e f g h) | _ => None end.

Definition t_video '(mkVideo a b c d e f g h) : tree := GenNode 0 [lf (LS a); lf (LS b); lf (LB c); lf (LZ d); lf (LB e); lf (LS f); lf (LB g); lf (LS h)].
Definition of_video (t : tree) : option VideoMessage :=
  match t with GenNode 0 [lf (LS a); lf (LS b); lf (LB c); lf (LZ d); lf (LB e); lf (LS f); lf (LB g); lf (LS h)] => Some (mkVideo a b c d e f g h) | _ => None end.

Definition t_sticker '(mkSticker a b c d e f g) : tree := GenNode 0 [lf (LS a); lf (LB b); lf (LB c); lf (LB d); lf (LS e); lf (LS f); lf (LZ g)].
Definition of_sticker (t : tree) : option StickerMessage :=
  match t with GenNode 0 [lf (LS a); lf (LB b); lf (LB c); lf (LB d); lf (LS e); lf (LS f); lf (LZ g)] => Some (mkSticker a b c d e f g) | _ => None end.

Definition t_skdm '(mkSkdm a b) : tree := GenNode 0 [lf (LS a); lf (LB b)].
Definition of_skdm (t : tree) : option SenderKeyDistributionMessage :=
  match t with GenNode 0 [lf (LS a); lf (LB b)] => Some (mkSkdm a b) | _ => None end.

Definition t_history '(mkHistoryNotification a b c d) : tree := GenNode 0 [lf (LB a); lf (LB b); lf (LB c); lf (LS d)].
Definition of_history (t : tree) : option HistorySyncNotification :=
  match t with GenNode 0 [lf (LB a); lf (LB b); lf (LB c); lf (LS d)] => Some (mkHistoryNotification a b c d) | _ => None end.

Definition t_reaction '(mkReactionMessage k t z) : tree := GenNode 0 [t_opt t_key k; lf (LS t); lf (LZ z)].
Definition of_reaction (t : tree) : option ReactionMessage :=
  match t with GenNode 0 [k; lf (LS t); lf (LZ z)] => Some (mkReactionMessage (of_opt of_key k) t z) | _ => None end.

Definition t_fingerprint '(mkFingerprint a b l) : tree := GenNode 0 [lf (LZ a); lf (LZ b); lf (LL l)].
Definition of_fingerprint (t : tree) : option Fingerprint :=
  match t with GenNode 0 [lf (LZ a); lf (LZ b); lf (LL l)] => Some (mkFingerprint a b l) | _ => None end.

Definition t_data '(mkKeyData b f z) : tree := GenNode 0 [lf (LB b); t_opt t_fingerprint f; lf (LZ z)].
Definition of_data (t : tree) : option AppStateSyncKeyData :=
  match t with GenNode 0 [lf (LB b); f; lf (LZ z)] => Some (mkKeyData b (of_opt of_fingerprint f) z) | _ => None end.

Definition t_id (i : option bytes) : tree := lf (LB i).
Definition of_id (t : tree) : option (option bytes) := match t with lf (LB i) => Some i | _ => None end.

Definition t_shared '(mkSharedKey i d) : tree := GenNode 0 [t_opt t_id i; t_opt t_data d].
Definition of_shared (t : tree) : option SharedKey :=
  match t with GenNode 0 [i; d] => Some (mkSharedKey (of_opt of_id i) (of_opt of_data d)) | _ => None end.

Definition t_share (l : list SharedKey) : tree := GenNode 0 (t_shared <$> l).
Definition of_share (t : tree) : option (list SharedKey) := match t with GenNode 0 l => Some (omap of_shared l) | _ => None end.

Fixpoint to_tree (m : MessageProto) : tree :=
  match m with
  | mkMessageProto c sk im et doc au vi pr st ds re ed =>
      GenNode 0 [
        lf (LS c); t_opt t_skdm sk; t_opt t_image im; t_opt t_document doc; t_opt t_audio au; t_opt t_video vi;
        t_opt t_sticker st; t_opt t_reaction re;
        t_opt (λ '(mkExtendedText t ci), GenNode 0 [lf (LS t);
          t_opt (λ '(mkContextInfo s p q), GenNode 0 [lf (LS s); lf (LS p); t_opt to_tree q]) ci]) et;
        t_opt (λ '(mkProtocolMessage k t h a e ts), GenNode 0 [t_opt t_key k; lf (LZ t); t_opt t_history h; t_opt t_share a;
          t_opt to_tree e; lf (LZ ts)]) pr;
        t_opt (λ '(mkDeviceSent j q), GenNode 0 [lf (LS j); t_opt to_tree q]) ds;
        t_opt (λ q, GenNode 0 [t_opt to_tree q]) ed]
  end.

Fixpoint of_tree (t : tree) : option MessageProto :=
  match t with
  | GenNode 0 [lf (LS c); sk; im; doc; au; vi; st; re; et; pr; ds; ed] =>
      Some (mkMessageProto c (of_opt of_skdm sk) (of_opt of_image im)
        (of_opt (λ t, match t with
           | GenNode 0 [lf (LS t); ci] => Some (mkExtendedText t
               (of_opt (λ t, match t with
                  | GenNode 0 [lf (LS s); lf (LS p); q] => Some (mkContextInfo s p (of_opt of_tree q)) | _ => None end) ci))
           | _ => None end) et)
        (of_opt of_document doc) (of_opt of_audio au) (of_opt of_video vi)
        (of_opt (λ t, match t with
           | GenNode 0 [k; lf (LZ t); h; a; e; lf (LZ ts)] => Some (mkProtocolMessage (of_opt of_key k) t (of_opt of_history h)
               (of_opt of_share a) (of_opt of_tree e) ts)
           | _ => None end) pr)
        (of_opt of_sticker st)
        (of_opt (λ t, match t with GenNode 0 [lf (LS j); q] => Some (mkDeviceSent j (of_opt of_tree q)) | _ => None end) ds)
        (of_opt of_reaction re)
        (of_opt (λ t, match t with GenNode 0 [q] => Some (of_opt of_tree q) | _ => None end) ed))
  | _ => None
  end.

Lemma of_t_opt {A} (f : A → tree) g o : (∀ x, g (f x) = Some x) → of_opt g (t_opt f o) = o.
Proof. intros H. destruct o; cbn; [apply H|done]. Qed.

Lemma of_t_key x : of_key (t_key x) = Some x.
Proof. by destruct x. Qed.

Lemma of_t_reaction x : of_reaction (t_reaction x) = Some x.
Proof. destruct x. cbn. by rewrite of_t_opt by apply of_t_key. Qed.

Lemma of_t_shared x : of_shared (t_shared x) = Some x.
Proof.
  destruct x as [i d]. cbn. rewrite !of_t_opt; [done| |done]. intros [b f z]. cbn. rewrite of_t_opt; [done|]. by intros [].
Qed.

Lemma of_t_share l : of_share (t_share l) = Some l.
Proof. cbn. f_equal. induction l as [|x l IH]; [done|]. cbn. by rewrite of_t_shared, IH. Qed.

Lemma of_to_tree m : of_tree (to_tree m) = Some m.
Proof.
  revert m. fix IH 1. intros [c sk im et doc au vi pr st ds re ed]. cbn [to_tree of_tree].
  f_equal. f_equal.
  all: try (apply of_t_opt; intros []; reflexivity).
  - destruct et as [[t [[s p [q|]]|]]|]; cbn; try done. by rewrite IH.
  - destruct pr as [[k t h a e ts]|]; [|done]. cbn [t_opt of_opt]. f_equal. f_equal.
    + apply of_t_opt, of_t_key.
    + apply of_t_opt. by intros [].
    + apply of_t_opt, of_t_share.
    + destruct e; cbn; [apply IH|done].
  - destruct ds as [[j [q|]]|]; cbn; try done. by rewrite IH.
  - apply of_t_opt, of_t_reaction.
  - destruct ed as [[q|]|]; cbn; try done. by rewrite IH.
Qed.

Definition bytes_of_pos (p : positive) : bytes := le_bytes (Z.to_nat (Z.log2 (Zpos p) / 8 + 1)) (Zpos p).
Definition pos_of_bytes (b : bytes) : positive := Z.to_pos (le_val b).

Lemma pos_of_bytes_of p : pos_of_bytes (bytes_of_pos p) = p.
Proof.
  unfold pos_of_bytes, bytes_of_pos. pose proof (Z.log2_spec (Zpos p) eq_refl) as [_ H].
  pose proof (Z.log2_nonneg (Zpos p)). rewrite le_val_bytes, Z.mod_small.
  - done.
  - split; [lia|]. rewrite Z2Nat.id by (pose proof (Z.div_pos (Z.log2 (Z.pos p)) 8); lia).
    change 256 with (2 ^ 8). rewrite <-Z.pow_mul_r by (pose proof (Z.div_pos (Z.log2 (Z.pos p)) 8); lia).
    eapply Z.lt_le_trans; [exact H|]. apply Z.pow_le_mono_r; [lia|].
    pose proof (Z.div_mod (Z.log2 (Z.pos p)) 8). pose proof (Z.mod_pos_bound (Z.log2 (Z.pos p)) 8). lia.
Qed.

Definition toy_messages : MessageCodec := {|
  ser_Message m := Ok (bytes_of_pos (countable.encode (to_tree m)));
  parse_Message b := some_or (countable.decode (pos_of_bytes b) ≫= of_tree) ProtobufError;
  ser_Fingerprint f := from_option (λ f, bytes_of_pos (countable.encode (t_fingerprint f))) [] f
|}.

Lemma toy_messages_laws : MessageCodecLaws toy_messages.
Proof.
  split. intros m b [= <-]. cbn. by rewrite pos_of_bytes_of, decode_encode; cbn; rewrite of_to_tree.
Qed.
End ToyCodec.
