(* ===== verification/Attachments.v ===== *)
(** * Attachments from sender to recipient
    ([MediaUploader.upload] of [src/src/pywhats/media/upload.py], and
    [download_external_blob] of [media/download.py])

    Uploading a file, what the recipient of the message that refers to it gets from
    [download_media], and the blobs that app-state patches refer to. *)

From S2P Require Import Prelude PyStr Json Jid Node Sha256 Crypto AppPatches Media Messages.

Section Upload.
Context {H : Hkdf} {A : AesCbc} {U : UnicodeDB} {JS : JsonLoads}.
(** The injected iq round trip and HTTP POST, as they answer during the call. *)
Variable send_iq : Node → result Node.
Variable http_post : str → bytes → result bytes.

(** [parsed.get(key, "")] *)
Definition json_get (key : str) (parsed : json) : result json :=
  match parsed with JObj fields => Ok (default (JStr []) (dict_get key fields)) | _ => Raise AttributeError end.

(** [media_key] is the random key that [encrypt_media] draws. *)
Definition upload (media_key : bytes) (iq_id : str) (plaintext : bytes) (media_type : str) : result UploadResult :=
  enc ← encrypt_media plaintext media_type media_key;
  resp ← send_iq (build_media_conn_iq iq_id);
  conn ← parse_media_conn resp;
  let mms_type := default [] (dict_get media_type MMS_TYPE) in
  host ← some_or (head (mc_hosts conn)) IndexError;
  url ← build_upload_url host mms_type (em_file_enc_sha256 enc) (mc_auth conn);
  raw ← http_post url (em_enc_data enc);
  parsed ← json_loads raw;
  url ← json_get (u "url") parsed;
  path ← json_get (u "direct_path") parsed;
  handle ← json_get (u "handle") parsed;
  Ok (mkUpload url path handle (em_media_key enc) (em_file_enc_sha256 enc) (em_file_sha256 enc) (em_file_length enc)).
End Upload.

(** A [MediaAttachment] is a [MediaInfo]. *)
Definition attachment_info (a : MediaAttachment) : MediaInfo :=
  mkMediaInfo (ma_direct_path a) (ma_media_key a) (ma_file_sha256 a) (ma_file_enc_sha256 a) (ma_media_type a) (ma_mms_type a).

(** The bodies that [send_image] and its siblings make of an upload, and the media type
    they upload under. *)
Inductive media_body (up : UploadResult) : str → MessageProto → Prop :=
  | BImage mimetype caption width height p : image_proto up mimetype caption width height = Ok p → media_body up MEDIA_IMAGE p
  | BVideo mimetype caption p : video_proto up mimetype caption = Ok p → media_body up MEDIA_VIDEO p
  | BSticker mimetype p : sticker_proto up mimetype = Ok p → media_body up MEDIA_IMAGE p
  | BAudio mimetype ptt p : audio_proto up mimetype ptt = Ok p → media_body up MEDIA_AUDIO p
  | BDocument mimetype filename caption p : document_proto up mimetype filename caption = Ok p → media_body up MEDIA_DOCUMENT p.

(** What the CDN does: it answers a POST with the path under which it then serves the file. *)
Definition cdn_serves `{JsonLoads} (http_post : str → bytes → result bytes) (http_get : str → result bytes) : Prop :=
  ∀ url data raw, http_post url data = Ok raw →
    ∃ fields path, json_loads raw = Ok (JObj fields) ∧ dict_get (u "direct_path") fields = Some (JStr path) ∧
      head path = Some SLASH ∧
      ∀ host mms url', build_download_url host path (sha256 data) mms = Ok url' → http_get url' = Ok data.

Lemma set_str_Some s o : set_str s = Ok o → o = Some s.
Proof. unfold set_str. by case_match; intros; simplify_eq. Qed.

Lemma set_uint_Some w z o : set_uint w z = Ok o → o = Some z.
Proof. unfold set_uint. by case_match; intros; simplify_eq. Qed.

(** The recipient reads off what the upload returned. *)
Lemma extract_media_body up type p path : media_body up type p → up_direct_path up = JStr path →
  ∃ a, _extract_media p = Some a ∧
    attachment_info a = mkMediaInfo path (up_media_key up) (up_file_sha256 up) (up_file_enc_sha256 up) type [] ∧
    ma_file_length a = up_file_length up ∧ truthy (_media_type_for p) = true ∧ _message_type_for p = u "media".
Proof.
  intros Hb Hp. destruct Hb as [mimetype caption width height p Hb|mimetype caption p Hb|mimetype p Hb|mimetype ptt p Hb|
    mimetype filename caption p Hb].
  all: unfold image_proto, video_proto, sticker_proto, audio_proto, document_proto in Hb; rewrite Hp in Hb; cbn [set_json_str] in Hb.
  all: apply bind_Ok_inv in Hb as (url & _ & Hb); apply bind_Ok_inv in Hb as (o & ->%set_str_Some & Hb).
  all: apply bind_Ok_inv in Hb as (len & ->%set_uint_Some & Hb).
  all: repeat (apply bind_Ok_inv in Hb as (? & _ & Hb)); injection Hb as <-.
  all: eexists; split_and!; try reflexivity.
  all: unfold _message_type_for; cbn; by destruct ptt.
Qed.

Section EndToEnd.
Context {H : Hkdf} {HL : HkdfLaws H} {A : AesCbc} {AL : AesCbcLaws A} {U : UnicodeDB} {JS : JsonLoads}.

Lemma upload_served send_iq http_post http_get key iq_id plaintext type up : cdn_serves http_post http_get →
  upload send_iq http_post key iq_id plaintext type = Ok up →
  ∃ em path, encrypt_media plaintext type key = Ok em ∧ up_direct_path up = JStr path ∧ head path = Some SLASH ∧
    up_media_key up = key ∧ up_file_sha256 up = em_file_sha256 em ∧ up_file_enc_sha256 up = em_file_enc_sha256 em ∧
    up_file_length up = Z.of_nat (length plaintext) ∧
    ∀ host mms url', build_download_url host path (em_file_enc_sha256 em) mms = Ok url' → http_get url' = Ok (em_enc_data em).
Proof.
  intros Hcdn Hup. unfold upload in Hup. apply bind_Ok_inv in Hup as (em & He & Hup).
  do 4 (apply bind_Ok_inv in Hup as (? & _ & Hup)). apply bind_Ok_inv in Hup as (raw & Hraw & Hup).
  destruct (Hcdn _ _ _ Hraw) as (fields & path & Hj & Hpath & Hslash & Hget).
  apply bind_Ok_inv in Hup as (parsed & Hj' & Hup). rewrite Hj in Hj'. injection Hj' as <-. cbn [json_get] in Hup.
  rewrite Hpath in Hup. injection Hup as <-. exists em, path.
  destruct (encrypt_media_shape _ _ _ _ He) as (ks & c & _ & _ & _ & Hem).
  split_and!; try done; try (by rewrite Hem).
  intros host mms url' Hu. apply (Hget host mms). rewrite Hem in Hu |- *. exact Hu.
Qed.
End EndToEnd.

(** ** Blobs of the app state *)

Section External.
Context {H : Hkdf} {HL : HkdfLaws H} {A : AesCbc} {AL : AesCbcLaws A} {U : UnicodeDB}.

(** [MediaDownloader.download_external_blob], which the app-state syncer uses for what a
    patch list only refers to. *)
Definition blob_info (ref : ExternalBlobReference) : MediaInfo :=
  mkMediaInfo (x_direct_path ref) (x_media_key ref) (x_file_sha256 ref) (x_file_enc_sha256 ref) MEDIA_APP_STATE [].

Definition download_external_blob (send_iq : Node → result Node) (http_get : str → result bytes) (iq_id : str)
    (ref : ExternalBlobReference) : SE (option MediaConn) bytes :=
  download send_iq http_get iq_id (blob_info ref).

(** A blob that a host serves encrypted under the key of the reference is downloaded. *)
Lemma external_blob_arrives send_iq http_get iq_id blob key em path host hosts auth ttl url :
  encrypt_media blob MEDIA_APP_STATE key = Ok em →
  build_download_url host path (em_file_enc_sha256 em) (default [] (dict_get MEDIA_APP_STATE MMS_TYPE)) = Ok url →
  http_get url = Ok (em_enc_data em) →
  let conn := mkMediaConn (host :: hosts) auth ttl in
  download_external_blob send_iq http_get iq_id (mkExternal key path (em_file_enc_sha256 em) (em_file_sha256 em)) (Some conn)
    = (Some conn, Ok blob).
Proof.
  intros He Hu Hg conn. unfold download_external_blob, download, se_lift, mbind, se_bind. cbn [_media_conn]. f_equal.
  cbn [blob_info mi_mms_type mi_media_type truthy mc_hosts conn try_hosts mi_direct_path mi_file_enc_sha256 mi_media_key mi_file_sha256
       x_direct_path x_media_key x_file_sha256 x_file_enc_sha256].
  rewrite Hu. rbind. rewrite Hg. rbind. by rewrite (decrypt_encrypted _ _ _ _ He).
Qed.
End External.

(** C14: an attachment travels: whatever file is uploaded and announced as an image, video,
    sticker, audio or document, the recipient of the message finds the attachment in it,
    with its length, and [download_media] returns the file. *)
Theorem attachment_arrives {H : Hkdf} {HL : HkdfLaws H} {A : AesCbc} {AL : AesCbcLaws A} {U : UnicodeDB} {JS : JsonLoads}
    {C : MessageCodec} {CL : MessageCodecLaws C} send_iq http_post http_get key iq_id plaintext type up proto wire
    send_iq' iq_id' conn conn' mc :
  cdn_serves http_post http_get → upload send_iq http_post key iq_id plaintext type = Ok up →
  media_body up type proto → ser_Message proto = Ok wire →
  _media_conn send_iq' iq_id' conn = (conn', Ok mc) → truthy (mc_hosts mc) = true →
  ∃ received a, parse_Message wire = Ok received ∧ _extract_media received = Some a ∧
    ma_file_length a = Z.of_nat (length plaintext) ∧
    download send_iq' http_get iq_id' (attachment_info a) conn = (conn', Ok plaintext).
Proof.
  intros Hcdn Hup Hbody Hser Hconn Hhosts.
  destruct (upload_served _ _ _ _ _ _ _ _ Hcdn Hup) as (em & path & He & Hpath & Hslash & Hk & Hs & Hes & Hlen & Hget).
  destruct (extract_media_body _ _ _ _ Hbody Hpath) as (a & Ha & Hinfo & Hla & _).
  exists proto, a. split_and!; [by apply message_parse_ser|done|congruence|].
  unfold download. rewrite (se_bind_eq _ _ _ _ _ Hconn), Hinfo. unfold se_lift. f_equal. cbn [mi_mms_type mi_media_type truthy].
  destruct (mc_hosts mc) as [|host hosts]; [done|]. cbn [try_hosts mi_direct_path mi_file_enc_sha256 mi_media_key mi_media_type mi_file_sha256].
  unfold build_download_url at 1. rewrite bool_decide_true by done. cbn [negb]. rbind.
  rewrite (Hget host (default [] (dict_get type MMS_TYPE))).
  - rbind. rewrite Hk, Hs, Hes. by rewrite (decrypt_encrypted _ _ _ _ He).
  - unfold build_download_url. by rewrite bool_decide_true, Hes.
Qed.

Module AttachmentDemo.
Definition picture : bytes := [mkb 1; mkb 2; mkb 3].
Definition conn_answer : Node := mkNode (u "iq") [] (CList [mkNode (u "media_conn") [(u "auth", AStr (u "tok"))]
  (CList [mkNode (u "host") [(u "hostname", AStr (u "mmg.example"))] CNone])]).
Definition answer : json := JObj [(u "url", JStr (u "https://x")); (u "direct_path", JStr (u "/v/1"))].
Definition loads : JsonLoads := λ _, Ok answer.
Definition posted (data : bytes) : bool := bool_decide (data = em_enc_data sample_media).
Definition post (url : str) (data : bytes) : result bytes := if posted data then Ok [] else Raise ConnectionClosed.
Definition get (url : str) : result bytes := Ok (em_enc_data sample_media).
Definition up : UploadResult := Eval vm_compute in
  ok_or (mkUpload answer answer answer [] [] [] 0)
    (upload (H := toy_hkdf) (A := toy_aes) (U := latin1_ucd) (JS := loads) (λ _, Ok conn_answer) post (replicate 32 (mkb 7))
       (u "1") picture MEDIA_IMAGE).
Definition proto : MessageProto := Eval vm_compute in ok_or empty_message (image_proto up (u "image/jpeg") (u "hi") 640 0).
Definition mc : MediaConn := mkMediaConn [u "mmg.example"] (u "tok") 0.
End AttachmentDemo.

Lemma attachment_arrives_witness :
  ∃ received a, parse_Message (MessageCodec := ToyCodec.toy_messages)
      (ok_or [] (ser_Message (MessageCodec := ToyCodec.toy_messages) AttachmentDemo.proto)) = Ok received ∧
    _extract_media received = Some a ∧ ma_file_length a = 3 ∧
    download (H := toy_hkdf) (A := toy_aes) (U := latin1_ucd) (λ _, Ok AttachmentDemo.conn_answer) AttachmentDemo.get (u "2") (attachment_info a) None
      = (Some AttachmentDemo.mc, Ok AttachmentDemo.picture).
Proof.
  apply (attachment_arrives (H := toy_hkdf) (A := toy_aes) (U := latin1_ucd) (JS := AttachmentDemo.loads)
    (C := ToyCodec.toy_messages) (CL := ToyCodec.toy_messages_laws) (λ _, Ok AttachmentDemo.conn_answer) AttachmentDemo.post
    AttachmentDemo.get (replicate 32 (mkb 7)) (u "1") AttachmentDemo.picture MEDIA_IMAGE AttachmentDemo.up AttachmentDemo.proto _
    _ _ None _ AttachmentDemo.mc).
  - intros url data raw Hp. unfold AttachmentDemo.post in Hp. destruct (AttachmentDemo.posted data) eqn:E; [|done].
    apply bool_decide_eq_true in E as ->. eexists _, (u "/v/1"). split_and!; [vm_compute; reflexivity..|]. done.
  - vm_compute. reflexivity.
  - apply (BImage _ (u "image/jpeg") (u "hi") 640 0). vm_compute. reflexivity.
  - vm_compute. reflexivity.
  - vm_compute. reflexivity.
  - reflexivity.
Defined.
