(* ===== verification/Sender.v ===== *)
(** * The message sender ([src/src/pywhats/messaging/sender.py])

    The [Sender] over the sessions of PeerSessions: the devices a message goes to, the
    stanza, the wait for the server's acknowledgement with its one retry, the answer to a
    peer's retry receipt, and group messages. A method is a computation on the sender's
    state; what it awaits is an environment, one for each attempt: the answers of the
    fetchers, the fresh key pairs, the transport, and what the other tasks do to the
    state until the acknowledgement wait ends. *)

From S2P Require Import Prelude PyStr Jid Node Encoder Crypto AppCrypto SignalKeys X3dh SignalTypes Ratchet SenderKey.
From S2P Require Import SessionStore LidMap PeerStores Outbox Stanzas Messages PeerSessions.

(** The store of sender keys, in memory or in SQLite. *)
Class SenderKeys (G : Type) := {
  sk_get : G → str → str → result (option SenderKeyState);
  sk_put : str → str → SenderKeyState → SE G unit
}.

#[global] Instance mem_sender_keys : SenderKeys SenderKeyStore := {
  sk_get g group_id sender_id := Ok (sk_load g group_id sender_id);
  sk_put group_id sender_id st := λ g, (sk_save g group_id sender_id st, Ok tt)
}.

#[global] Instance sql_sender_keys `{UnicodeDB} : SenderKeys SqliteSenderKeyStore := {
  sk_get := sql_sk_load;
  sk_put := sql_sk_save
}.

Record SenderConfig := mkConfig { cf_message_type : str; cf_enc_version : str }.
Definition default_config : SenderConfig := mkConfig (u "text") (u "2").

Record _SentMessage := mkSent {
  sn_chat : JID; sn_text : str; sn_plaintext : bytes; sn_own_plaintext : bytes; sn_retry_count : Z;
  sn_message_type : str; sn_edit : option str; sn_mediatype : str; sn_decrypt_fail : str }.

Definition _base_jid (j : JID) : JID := mkJID (user j) (server j) 0.
Definition _same_full_jid (a b : JID) : bool :=
  bool_decide (user a = user b ∧ server a = server b ∧ device a = device b).

(** The loop of [_dedupe_devices] with its [seen] set. *)
Fixpoint dedupe_from (seen : list (str * str * Z)) (devices : list JID) : list JID :=
  match devices with
  | [] => []
  | j :: devices =>
      let key := (user j, server j, device j) in
      if bool_decide (key ∈ seen) then dedupe_from seen devices else j :: dedupe_from (key :: seen) devices
  end.
Definition _dedupe_devices : list JID → list JID := dedupe_from [].

Definition _single_device_fetcher (users : list JID) : result (list (JID * Usync.UserSyncEntry)) :=
  Ok (foldl (λ out j, dict_set (_base_jid j) (Usync.mkEntry [_base_jid j] None) out) [] users).

(** [s.partition(c)] without the separator itself. *)
Definition partition_at (c : Z) (s : str) : str * str := default (s, []) (split_first c s).

Definition _jid_from_attr `{UnicodeDB} (attr : str) : result JID :=
  if truthy attr then
    let '(local, server) := partition_at AT attr in
    let '(user, dev) := partition_at DOT local in
    d ← (if isdigit dev then py_int dev else Ok 0);
    Ok (mkJID user (if truthy server then server else PN_SERVER) d)
  else Ok (mkJID [] PN_SERVER 0).

(** What the sender is made with, and its state: the stores, the router, [_sent], the
    sender keys, the ids in use, and the frames sent so far. *)
Record SenderParams := mkParams {
  sp_device : Device; sp_adv_identity : option bytes; sp_config : SenderConfig }.

Record SenderState (S I L K G : Type) := mkSender {
  s_world : World S I L K;
  s_router : Router.AckRouter;
  s_sent : gmap str _SentMessage;
  s_sender_keys : option G;
  s_ids : MessageIds.Ring;
  s_wire : list bytes
}.
Arguments mkSender {S I L K G}.
Arguments s_world {S I L K G}.
Arguments s_router {S I L K G}.
Arguments s_sent {S I L K G}.
Arguments s_sender_keys {S I L K G}.
Arguments s_ids {S I L K G}.
Arguments s_wire {S I L K G}.

(** The surroundings of one attempt. [sending] is how [transport.send] ends; [meanwhile] is
    what the other tasks do while the acknowledgement is awaited. During the other awaits (the
    fetches, the send) they are taken to leave this state alone. *)
Record Surroundings (St : Type) := mkSurroundings {
  fetch_devices : list JID → result (list (JID * Usync.UserSyncEntry));
  fetch_prekeys : JID → result PreKeyBundle;
  fresh : JID → bytes * bytes;
  sending : bytes → result unit;
  meanwhile : St → St
}.
Arguments mkSurroundings {St}.
Arguments fetch_devices {St}.
Arguments fetch_prekeys {St}.
Arguments fresh {St}.
Arguments sending {St}.
Arguments meanwhile {St}.

(** [build_skdm_message_bytes] of [messaging/group.py]: the body that carries a sender key. *)
Definition build_skdm_message_bytes {C : MessageCodec} (rnd : byte) (group_jid : str) (axolotl_skdm : bytes) : result bytes :=
  gid ← set_str group_jid;
  b ← ser_Message (mkMessageProto None (Some (mkSkdm gid (Some axolotl_skdm))) None None None None None None None None None None);
  Ok (Padding.pad_random_max16 rnd b).

Lemma skdm_body_opens {C : MessageCodec} {CL : MessageCodecLaws C} rnd group_jid axolotl_skdm b :
  build_skdm_message_bytes rnd group_jid axolotl_skdm = Ok b →
  ∃ p, (x ← Padding.unpad_random_max16 b; parse_Message x) = Ok p ∧
    sender_key_distribution_message p = Some (mkSkdm (Some group_jid) (Some axolotl_skdm)).
Proof.
  unfold build_skdm_message_bytes, set_str. intros H. destruct (scalar_str group_jid); [|done]. cbn [mbind result_bind] in H.
  apply bind_Ok_inv in H as (w & Hw & H). injection H as <-. eexists. rewrite Padding.unpad_pad. rbind.
  rewrite (message_parse_ser _ _ Hw). by split.
Qed.

(** ** The stanzas *)

Section Nodes.
Context (sp : SenderParams).

Definition own_jid : JID := dv_jid (sp_device sp).

Definition _build_participant_node (jid : JID) (enc_type : str) (ciphertext : bytes) (count : option Z)
    (mediatype decrypt_fail : str) : result Node :=
  c ← match count with Some n => s ← py_str_int n; Ok [(u "count", AStr s)] | None => Ok [] end;
  let enc_attrs := [(u "v", AStr (cf_enc_version (sp_config sp))); (u "type", AStr enc_type)] ++ c ++
    (if truthy mediatype then [(u "mediatype", AStr mediatype)] else []) ++
    (if truthy decrypt_fail then [(u "decrypt-fail", AStr decrypt_fail)] else []) in
  Ok (mkNode (u "to") [(u "jid", AJid jid)] (CList [mkNode (u "enc") enc_attrs (CBytes ciphertext)])).

Definition device_identity : list Node :=
  match sp_adv_identity sp with
  | Some d => if truthy d then [mkNode (u "device-identity") [] (CBytes d)] else []
  | None => []
  end.

Definition _build_message_node (message_id : str) (to : JID) (participants : list Node) (message_type edit : option str) : Node :=
  let type := match message_type with
              | Some t => if truthy t then t else cf_message_type (sp_config sp)
              | None => cf_message_type (sp_config sp)
              end in
  mkNode (u "message")
    ([(u "id", AStr message_id); (u "to", AJid to); (u "type", AStr type)] ++
     match edit with Some e => [(u "edit", AStr e)] | None => [] end)
    (CList (mkNode (u "participants") [] (CList participants) :: device_identity)).

Definition _build_group_message_node (message_id : str) (group : JID) (participant_nodes : list Node) (skmsg : bytes) : Node :=
  mkNode (u "message") [(u "id", AStr message_id); (u "to", AJid group); (u "type", AStr (u "text"))]
    (CList (mkNode (u "participants") [] (CList participant_nodes) :: device_identity ++
       [mkNode (u "enc") [(u "v", AStr (cf_enc_version (sp_config sp))); (u "type", AStr (u "skmsg"))] (CBytes skmsg)])).
End Nodes.

Definition build_usync_node (message_id : str) (peer : JID) : Node :=
  let user := mkNode (u "user") [(u "jid", AJid peer)] CNone in
  let lst := mkNode (u "list") [] (CList [user]) in
  let usync := mkNode (u "usync")
    [(u "sid", AStr message_id); (u "mode", AStr (u "query")); (u "last", AStr (u "true")); (u "index", AStr (u "0"));
     (u "context", AStr (u "message"))]
    (CList [lst; mkNode (u "query") [] (CList [mkNode (u "devices") [] CNone; mkNode (u "key") [] CNone; mkNode (u "lid") [] CNone])]) in
  mkNode (u "iq")
    [(u "id", AStr message_id); (u "type", AStr (u "get")); (u "xmlns", AStr (u "usync")); (u "to", AJid (mkJID [] PN_SERVER 0))]
    (CList [usync]).

(** ** Sending *)

Section Sender.
Context {S I L K G : Type} {SS : SessionStore S} {IS : IdentityStore I} {LM : LidMap L} {KS : PreKeyStore K} {GS : SenderKeys G}.
Context {X : X25519} {E : XEdDSA} {HK : Hkdf} {HM : Hmac} {AES : AesCbc} {PK : Pkcs7} {W : WhisperProto} {SP : SenderKeyProto}.
Context {U : UnicodeDB} {Zl : Zlib} {C : MessageCodec}.
Context (sp : SenderParams).

#[local] Abbreviation state := (SenderState S I L K G).
#[local] Abbreviation env := (Surroundings state).
#[local] Abbreviation own_jid := (own_jid sp).

(** *** Parts of the state *)

Definition in_world {A} (m : SE (World S I L K) A) : SE state A := λ s,
  let '(w, r) := m (s_world s) in (mkSender w (s_router s) (s_sent s) (s_sender_keys s) (s_ids s) (s_wire s), r).

Definition on_router (f : Router.AckRouter → Router.AckRouter) (s : state) : state :=
  mkSender (s_world s) (f (s_router s)) (s_sent s) (s_sender_keys s) (s_ids s) (s_wire s).

Definition register (message_id : str) : SE state nat := λ s,
  let '(r, n) := Router.register message_id (s_router s) in (on_router (λ _, r) s, n).

Definition cancel (message_id : str) : SE state unit := λ s, (on_router (Router.cancel message_id) s, Ok tt).

Definition set_sent (message_id : str) (m : _SentMessage) : SE state unit := λ s,
  (mkSender (s_world s) (s_router s) (<[message_id := m]> (s_sent s)) (s_sender_keys s) (s_ids s) (s_wire s), Ok tt).

Definition set_sender_keys (g : G) : SE state unit := λ s,
  (mkSender (s_world s) (s_router s) (s_sent s) (Some g) (s_ids s) (s_wire s), Ok tt).

(** [now] is [time.monotonic()], [draws] the random candidates. *)
Definition new_message_id (now : Z) (draws : list bytes) : SE state str := λ s,
  let '(ids, r) := MessageIds.new_message_id now draws (s_ids s) in
  (mkSender (s_world s) (s_router s) (s_sent s) (s_sender_keys s) ids (s_wire s), r).

(** [await self._transport.send(frame)] *)
Definition transport_send (e : env) (frame : bytes) : SE state unit := λ s,
  match sending e frame with
  | Ok _ => (mkSender (s_world s) (s_router s) (s_sent s) (s_sender_keys s) (s_ids s) (s_wire s ++ [frame]), Ok tt)
  | Raise x => (s, Raise x)
  end.

(** [await asyncio.wait_for(fut, timeout=..)]: the other tasks run; a future still pending
    then has timed out and is cancelled. *)
Definition wait_for (e : env) (fut : nat) : SE state (option Router.RetrySignal) := λ s,
  let s := meanwhile e s in
  match Router.futures (s_router s) !! fut with
  | Some (Router.Resolved r) => (s, Ok r)
  | Some Router.Cancelled => (s, Raise CancelledError)
  | _ => (on_router (λ r, Router.step r (Router.Abandon fut)) s, Raise TimeoutError)
  end.

(** [try: m; finally: f] and [try: m; except BaseException: f; raise]. *)
Definition finally {A} (m : SE state A) (f : SE state unit) : SE state A := λ s,
  let '(s, r) := m s in let '(s, x) := f s in (s, match x with Ok _ => r | Raise e => Raise e end).
Definition on_exception {A} (m : SE state A) (f : SE state unit) : SE state A :=
  se_try m (λ _, true) (λ e, _ ← f; se_raise e).

(** *** Recipients *)

(** The entries of [device_map] for [base], or [base] itself. *)
Definition devices_of (device_map : list (JID * Usync.UserSyncEntry)) (base : JID) : list JID :=
  match dict_get base device_map with Some entry => Usync.us_devices entry | None => [base] end.

Definition _target_devices (e : env) (chat : JID) : result (list JID) :=
  if negb (device chat =? 0) then Ok [chat]
  else
    device_map ← fetch_devices e [_base_jid chat; _base_jid own_jid];
    let devices := [_base_jid chat; _base_jid own_jid] ≫= devices_of device_map in
    Ok (filter (λ d, _same_full_jid d own_jid = false) (_dedupe_devices devices)).

Definition encrypt_for_peer (e : env) (peer : JID) (plaintext : bytes) : SE state (str * bytes) :=
  in_world (_encrypt_for_peer (sp_device sp) (fetch_prekeys e) (fresh e peer).1 (fresh e peer).2 peer plaintext).

(** The plaintext a device gets: our own devices, the wrapped copy. *)
Definition plaintext_for (m : _SentMessage) (d : JID) : bytes :=
  if bool_decide (_base_jid d = _base_jid own_jid) then sn_own_plaintext m else sn_plaintext m.

(** One round of the loop over the target devices. *)
Definition add_participant (e : env) (m : _SentMessage) (nodes : list Node) (d : JID) : SE state (list Node) :=
  '(enc_type, ciphertext) ← encrypt_for_peer e d (plaintext_for m d);
  node ← se_lift (_build_participant_node sp d enc_type ciphertext None (sn_mediatype m) (sn_decrypt_fail m));
  mret (nodes ++ [node]).

Definition _retry_peer_from_signal (signal : Router.RetrySignal) (fallback : list JID) : result JID :=
  let raws := filter (λ s, truthy s = true)
                (omap (λ key, dict_get key (Router.retry_attrs signal)) [u "participant"; u "to"; u "recipient"; u "jid"]) in
  match raws with
  | raw :: _ => _jid_from_attr raw
  | [] => Ok (default own_jid (head fallback))
  end.

(** *** One transmission and its retry *)

(** The body of [_send_once] up to the result of the wait. *)
Definition transmit (e : env) (message_id : str) (m : _SentMessage) : SE state (option Router.RetrySignal * list JID) :=
  target_devices ← se_lift (_target_devices e (sn_chat m));
  participants ← se_fold (add_participant e m) [] target_devices;
  let stanza := _build_message_node sp message_id (_base_jid (sn_chat m)) participants (Some (sn_message_type m)) (sn_edit m) in
  frame ← se_lift (encode stanza false);
  fut ← register message_id;
  result ← on_exception
    (_ ← transport_send e frame;
     se_try (wait_for e fut) (λ x, bool_decide (x = TimeoutError)) (λ x, _ ← cancel message_id; se_raise x))
    (cancel message_id);
  mret (result, target_devices).

(** [again] is the recursive call when [allow_retry]; [now] is [int(time.time())]. *)
Definition send_once (again : option (SE state Message)) (e : env) (now : Z) (message_id : str) (m : _SentMessage)
    : SE state Message :=
  '(result, encrypted_devices) ← transmit e message_id m;
  match result with
  | Some signal =>
      match again with
      | None => se_raise RuntimeError
      | Some again =>
          retry_peer ← se_lift (_retry_peer_from_signal signal encrypted_devices);
          _ ← in_world (_drop_peer_session retry_peer);
          again
      end
  | None => mret (mkMessage message_id (sn_chat m) own_jid (sn_text m) now true None None)
  end.

Definition _send_once (e1 e2 : env) (now : Z) (message_id : str) (m : _SentMessage) : SE state Message :=
  send_once (Some (send_once None e2 now message_id m)) e1 now message_id m.

(** *** The public operations *)

(** Padding draws one random byte. *)
Definition _build_dsm_plaintext (rnd : byte) (chat : JID) (message_proto : MessageProto) : result bytes :=
  j ← JID_str (_base_jid chat);
  dest ← set_str j;
  b ← ser_Message (mkMessageProto None None None None None None None None None
                     (Some (mkDeviceSent dest (Some message_proto))) None None);
  Ok (Padding.pad_random_max16 rnd b).

Record Draws := mkDraws { dr_clock : Z; dr_ids : list bytes; dr_pad : byte; dr_own_pad : byte; dr_now : Z }.

Definition send_message (e1 e2 : env) (r : Draws) (chat : JID) (message_proto : MessageProto) (text : str)
    (message_type edit : option str) : SE state Message :=
  message_id ← new_message_id (dr_clock r) (dr_ids r);
  b ← se_lift (ser_Message message_proto);
  let plaintext := Padding.pad_random_max16 (dr_pad r) b in
  own_plaintext ← se_lift (_build_dsm_plaintext (dr_own_pad r) chat message_proto);
  let resolved_type := match message_type with
                       | Some t => if truthy t then t else _message_type_for message_proto
                       | None => _message_type_for message_proto
                       end in
  let mediatype := _media_type_for message_proto in
  let decrypt_fail := if bool_decide (resolved_type = u "reaction") || HasField edit then u "hide" else [] in
  let m := mkSent chat text plaintext own_plaintext 0 resolved_type edit mediatype decrypt_fail in
  message ← _send_once e1 e2 (dr_now r) message_id m;
  _ ← set_sent (msg_id message) m;
  mret message.

Definition send_text (e1 e2 : env) (r : Draws) (chat : JID) (text : str) (reply_to : option ReplyTo) : SE state Message :=
  proto ← se_lift match reply_to with Some x => _build_reply_proto text x | None => conversation_proto text end;
  send_message e1 e2 r chat proto text None None.

(** The new session of a retry receipt that carries a bundle. *)
Definition adopt_bundle (e : env) (peer : JID) (bundle : option PreKeyBundle) : SE state unit :=
  match bundle with
  | Some bundle =>
      '(st, meta) ← se_lift (_establish_session_from_bundle (sp_device sp) (fresh e peer).1 (fresh e peer).2 bundle);
      sid ← se_lift (session_id peer);
      _ ← in_world (save_session sid st);
      in_world (set_meta sid (Some meta))
  | None => mret tt
  end.

(** A peer could not decrypt: its session is made anew, from its bundle if it sent one, and
    the message goes to that device again. *)
Definition handle_retry_receipt (e : env) (message_id : str) (peer : JID) (bundle : option PreKeyBundle) (count : Z)
    : SE state unit :=
  cached ← se_asks (λ s : state, s_sent s !! message_id);
  match cached with
  | None => mret tt
  | Some m =>
      if (2 <=? sn_retry_count m) || (2 <? count) then mret tt
      else
        let m := mkSent (sn_chat m) (sn_text m) (sn_plaintext m) (sn_own_plaintext m) (sn_retry_count m + 1)
                   (sn_message_type m) (sn_edit m) (sn_mediatype m) (sn_decrypt_fail m) in
        _ ← set_sent message_id m;
        _ ← in_world (_drop_peer_session peer);
        _ ← adopt_bundle e peer bundle;
        let retry_plaintext := if truthy (sn_own_plaintext m) then plaintext_for m peer else sn_plaintext m in
        '(enc_type, ciphertext) ← encrypt_for_peer e peer retry_plaintext;
        node ← se_lift (_build_participant_node sp peer enc_type ciphertext (Some count) (sn_mediatype m) (sn_decrypt_fail m));
        let stanza := _build_message_node sp message_id (_base_jid (sn_chat m)) [node] (Some (sn_message_type m)) (sn_edit m) in
        fut ← register message_id;
        finally
          (se_try
             (frame ← se_lift (encode stanza false);
              _ ← transport_send e frame;
              _ ← wait_for e fut;
              mret tt)
             (λ x, bool_decide (x = TimeoutError))
             (λ _, cancel message_id))
          (cancel message_id)
  end.

(** *** Group messages *)

(** The random bytes of a new sender key and of a signature. *)
Record GroupDraws := mkGroupDraws { gd_signing : bytes; gd_chain : bytes; gd_z : bytes }.

(** The state of our sender key, made when there is none. *)
Definition own_sender_key (gd : GroupDraws) (group_id sender_addr : str) : SE state SenderKeyState :=
  g ← se_asks (λ s : state, s_sender_keys s);
  g ← se_lift (some_or g RuntimeError);
  st ← se_lift (sk_get g group_id sender_addr);
  mret match st with
       | Some st => st
       | None =>
           let reg := dv_registration_id (sp_device sp) in
           create_sender_key_state (if reg =? 0 then 1 else reg) (gd_signing gd) (gd_chain gd)
       end.

Definition save_sender_key (group_id sender_addr : str) (st : SenderKeyState) : SE state unit :=
  g ← se_asks (λ s : state, s_sender_keys s);
  g ← se_lift (some_or g RuntimeError);
  match sk_put group_id sender_addr st g with
  | (g, Ok _) => set_sender_keys g
  | (g, Raise x) => _ ← set_sender_keys g; se_raise x
  end.

Definition group_devices (device_map : list (JID * Usync.UserSyncEntry)) (participants : list JID) : list JID :=
  filter (λ d, _same_full_jid d own_jid = false)
    (_dedupe_devices (participants ≫= λ p, devices_of device_map (_base_jid p))).

Definition add_group_participant (e : env) (skd_plaintext : bytes) (nodes : list Node) (d : JID) : SE state (list Node) :=
  '(enc_type, ciphertext) ← encrypt_for_peer e d skd_plaintext;
  node ← se_lift (_build_participant_node sp d enc_type ciphertext None [] []);
  mret (nodes ++ [node]).

Definition send_group_text (e : env) (r : Draws) (gd : GroupDraws) (group : JID) (text : str) (participants : list JID)
    : SE state Message :=
  g ← se_asks (λ s : state, s_sender_keys s);
  _ ← se_lift (some_or g RuntimeError);
  message_id ← new_message_id (dr_clock r) (dr_ids r);
  sender_addr ← se_lift (session_id own_jid);
  group_id ← se_lift (JID_str group);
  st ← own_sender_key gd group_id sender_addr;
  gid ← se_lift (set_str group_id);
  axolotl ← se_lift (build_distribution_message st);
  skd ← se_lift (ser_Message (mkMessageProto None (Some (mkSkdm gid (Some axolotl)))
                                None None None None None None None None None None));
  let skd_plaintext := Padding.pad_random_max16 (dr_own_pad r) skd in
  proto ← se_lift (conversation_proto text);
  b ← se_lift (ser_Message proto);
  let content := Padding.pad_random_max16 (dr_pad r) b in
  '(skmsg, new_state) ← se_lift (group_encrypt (gd_z gd) st content);
  _ ← save_sender_key group_id sender_addr new_state;
  device_map ← se_lift (fetch_devices e (_base_jid <$> participants));
  participant_nodes ← se_fold (add_group_participant e skd_plaintext) [] (group_devices device_map participants);
  let stanza := _build_group_message_node sp message_id group participant_nodes skmsg in
  fut ← register message_id;
  _ ← finally
    (frame ← se_lift (encode stanza false);
     _ ← transport_send e frame;
     wait_for e fut)
    (cancel message_id);
  mret (mkMessage message_id group own_jid text (dr_now r) true None None).
End Sender.
