(* ===== verification/SenderProofs.v ===== *)
(** * What the sender guarantees

    Transmissions, recipients and retry receipts of the sender of Sender. *)

From S2P Require Import Prelude Effects PyStr Jid Node Encoder Codec Crypto AppCrypto SignalKeys X3dh SignalTypes Ratchet SenderKey.
From S2P Require Import SessionStore LidMap PeerStores Outbox Stanzas Messages PeerSessions PeerTalk Sender.

Section SenderProofs.
Context {S I L K G : Type} {SS : SessionStore S} {IS : IdentityStore I} {LM : LidMap L} {KS : PreKeyStore K} {GS : SenderKeys G}.
Context {X : X25519} {E : XEdDSA} {HK : Hkdf} {HM : Hmac} {AES : AesCbc} {PK : Pkcs7} {W : WhisperProto} {SP : SenderKeyProto}.
Context {U : UnicodeDB} {Zl : Zlib} {C : MessageCodec}.

#[local] Abbreviation state := (SenderState S I L K G).
#[local] Abbreviation env := (Surroundings state).

(** ** Computations on the stores alone *)

(** All of the state but the stores. *)
Definition rest (s : state) := (s_router s, s_sent s, s_sender_keys s, s_ids s, s_wire s).

Definition same_rest (s s' : state) : Prop := rest s' = rest s.

#[local] Instance same_rest_preorder : PreOrder same_rest.
Proof. split; [done|]. unfold same_rest. intros s1 s2 s3 H1 H2. congruence. Qed.

#[local] Abbreviation stores_only := (keeps same_rest).

Lemma stores_only_world {A} (m : SE (World S I L K) A) : stores_only (in_world m).
Proof. intros s. unfold same_rest, in_world. by destruct (m (s_world s)). Qed.

Lemma stores_only_run {A} (m : SE state A) s s' r : stores_only m → m s = (s', r) → rest s' = rest s.
Proof. intros Hm H. exact (keeps_run same_rest m s s' r Hm H). Qed.

#[local] Hint Resolve stores_only_world : keeps.

Lemma stores_only_participant sp e m nodes d : stores_only (add_participant sp e m nodes d).
Proof. unfold add_participant, encrypt_for_peer. keeps. Qed.

#[local] Hint Resolve stores_only_participant : keeps.

Lemma stores_only_participants sp e m ds nodes : stores_only (se_fold (add_participant sp e m) nodes ds).
Proof. keeps. Qed.

(** ** The other tasks *)

(** While the acknowledgement of [id] is awaited, the other tasks use the router through
    its methods, do not register [id], and only add to the wire. *)
Definition fair (id : str) (e : env) : Prop := ∀ s, ∃ evs others,
  s_router (meanwhile e s) = Router.run (s_router s) evs ∧ (Router.Register id ∉ evs) ∧
  s_wire (meanwhile e s) = s_wire s ++ others ∧ s_sent (meanwhile e s) !! id = s_sent s !! id.

(** The id is not pending in a router in order. *)
Definition idle (id : str) (s : state) : Prop :=
  Router.router_ok (s_router s) ∧ dict_get id (Router._pending (s_router s)) = None.

Lemma idle_rest id s s' : rest s' = rest s → idle id s → idle id s'.
Proof. intros H. injection H as H _ _ _ _. unfold idle. by rewrite H. Qed.

Lemma cancel_idle id (s : state) : Router.router_ok (s_router s) → idle id (cancel id s).1.
Proof.
  intros Hr. split; cbn; [by apply (Router.step_ok _ (Router.Cancel id))|]. apply dict_get_del_eq, Hr.
Qed.

Lemma register_idle id (s : state) : idle id s → ∃ n s', register id s = (s', Ok n) ∧
  Router.router_ok (s_router s') ∧ dict_get id (Router._pending (s_router s')) = Some n ∧
  Router.futures (s_router s') !! n = Some Router.Pending ∧ n = length (Router.futures (s_router s)) ∧
  s_wire s' = s_wire s ∧ s_sent s' = s_sent s ∧ s_world s' = s_world s ∧ s_sender_keys s' = s_sender_keys s.
Proof.
  intros [Hr Hd]. pose proof (Router.step_ok _ (Router.Register id) Hr) as Hr'. cbn [Router.step] in Hr'.
  unfold register. destruct (Router.register id (s_router s)) as [r n] eqn:Er. unfold Router.register in Er.
  rewrite Hd in Er. injection Er as <- <-. cbn [fst] in Hr'.
  eexists _, _. split; [done|]. cbn. split_and!; try done; [apply dict_get_set_eq|by rewrite lookup_app_r, Nat.sub_diag by done].
Qed.

(** What a wait leaves: a result means that the id is no longer pending. *)
Lemma wait_for_ok id e n (s s' : state) res : fair id e → Router.router_ok (s_router s) →
  dict_get id (Router._pending (s_router s)) = Some n → Router.futures (s_router s) !! n = Some Router.Pending →
  wait_for e n s = (s', res) →
  Router.router_ok (s_router s') ∧ (∃ others, s_wire s' = s_wire s ++ others) ∧ s_sent s' !! id = s_sent s !! id ∧
  match res with Ok _ => idle id s' | Raise x => x = TimeoutError ∨ x = CancelledError end.
Proof.
  intros Hfair Hr Hd Hf Hw. destruct (Hfair s) as (evs & others & E1 & Hreg & E2 & E3).
  pose proof (Router.run_ok evs _ Hr) as Hr'. rewrite <-E1 in Hr'. unfold wait_for in Hw.
  destruct (Router.futures (s_router (meanwhile e s)) !! n) as [[|r|]|] eqn:Ef; injection Hw as <- <-.
  - split_and!; [by apply (Router.step_ok _ (Router.Abandon n))|by exists others|done|by left].
  - split_and!; [done|by exists others|done|]. split; [done|]. rewrite E1 in Ef |- *.
    by apply (Router.run_resolved evs _ _ n r).
  - split_and!; [done|by exists others|done|by right].
  - split_and!; [by apply (Router.step_ok _ (Router.Abandon n))|by exists others|done|by left].
Qed.

(** ** One transmission *)

Context (sp : SenderParams).

(** A frame of the message [m]: its participants are the target devices, each with the
    ciphertext made for it, one after the other from the stores [w]. *)
Definition frame_of (e : env) (id : str) (m : _SentMessage) (w : World S I L K) (frame : bytes) : Prop :=
  ∃ ds nodes s0 s1, s_world s0 = w ∧ _target_devices sp e (sn_chat m) = Ok ds ∧
    se_fold (add_participant sp e m) [] ds s0 = (s1, Ok nodes) ∧
    encode (_build_message_node sp id (_base_jid (sn_chat m)) nodes (Some (sn_message_type m)) (sn_edit m)) false = Ok frame.

(** The end of a transmission, once the frame is made and the id registered. *)
Lemma await_ack_ok id e n frame (s s' : state) res : fair id e → Router.router_ok (s_router s) →
  dict_get id (Router._pending (s_router s)) = Some n → Router.futures (s_router s) !! n = Some Router.Pending →
  on_exception
    (_ ← transport_send e frame;
     se_try (wait_for e n) (λ x, bool_decide (x = TimeoutError)) (λ x, _ ← cancel id; se_raise x))
    (cancel id) s = (s', res) →
  idle id s' ∧ s_sent s' !! id = s_sent s !! id ∧
  ((∃ x, res = Raise x) ∧ s_wire s' = s_wire s ∨ ∃ others, s_wire s' = s_wire s ++ frame :: others).
Proof.
  intros Hfair Hr Hd Hf H. unfold on_exception, se_try at 1 in H. unfold mbind at 1, se_bind at 1, transport_send in H.
  destruct (sending e frame) as [[]|x] eqn:Es; cycle 1.
  { cbn in H. injection H as <- <-. split; [by apply cancel_idle|]. split; [done|]. left. split; [by eexists|done]. }
  set (s1 := mkSender (s_world s) (s_router s) (s_sent s) (s_sender_keys s) (s_ids s) (s_wire s ++ [frame])) in *.
  unfold se_try in H. destruct (wait_for e n s1) as [s2 r2] eqn:Ew.
  destruct (wait_for_ok id e n s1 s2 r2 Hfair Hr Hd Hf Ew) as (Hr2 & (others & Hw2) & Hs2 & Hres).
  assert (∀ s3 : state, rest s3 = rest s2 ∨ s_wire s3 = s_wire s2 → s_wire s3 = s_wire s ++ frame :: others) as Hwire.
  { intros s3 [H3|H3]; [injection H3 as _ _ _ _ H3|]; rewrite H3, Hw2; cbn; by rewrite <-app_assoc. }
  destruct r2 as [r|x].
  - injection H as <- <-. split; [done|]. split; [done|]. right. exists others. by apply Hwire; left.
  - destruct (bool_decide _); cbn in H; injection H as <- <-.
    + split; [apply (cancel_idle id (cancel id s2).1); cbn; by apply (Router.step_ok _ (Router.Cancel id))|].
      split; [done|]. right. exists others. apply Hwire. by right.
    + split; [by apply cancel_idle|]. split; [done|]. right. exists others. apply Hwire. by right.
Qed.

Lemma transmit_ok id e m (s s' : state) res : fair id e → idle id s → transmit sp e id m s = (s', res) →
  idle id s' ∧ s_sent s' !! id = s_sent s !! id ∧
  ((∃ x, res = Raise x) ∧ s_wire s' = s_wire s ∨
   ∃ frame others, s_wire s' = s_wire s ++ frame :: others ∧ frame_of e id m (s_world s) frame ∧
     ∀ r ds, res = Ok (r, ds) → _target_devices sp e (sn_chat m) = Ok ds).
Proof.
  intros Hfair Hidle H. unfold transmit in H.
  destruct (_target_devices sp e (sn_chat m)) as [ds|x] eqn:Et; cycle 1.
  { cbn in H. injection H as <- <-. split; [done|]. split; [done|]. left. by eauto. }
  rewrite se_bind_lift in H. destruct (se_fold (add_participant sp e m) [] ds s) as [s1 [nodes|x]] eqn:Ep; cycle 1.
  { rewrite (se_bind_raise _ _ _ _ _ Ep) in H. injection H as <- <-.
    apply stores_only_run in Ep; [|apply stores_only_participants].
    split; [by eapply idle_rest|]. injection Ep as _ -> _ _ ->. split; [done|]. left. eauto. }
  rewrite (se_bind_eq _ _ _ _ _ Ep) in H. pose proof Ep as Ep'.
  apply stores_only_run in Ep'; [|apply stores_only_participants].
  apply (idle_rest id) in Ep' as Hidle1; [|done]. injection Ep' as _ Hs1 _ _ Hw1.
  cbv zeta in H. destruct (encode _ false) as [frame|x] eqn:Ee; cycle 1.
  { cbn in H. injection H as <- <-. split; [done|]. rewrite Hs1, Hw1. split; [done|]. left. eauto. }
  rewrite se_bind_lift in H. destruct (register_idle id s1 Hidle1) as (n & s2 & Er & Hr2 & Hd2 & Hf2 & _ & Hw2 & Hs2 & _).
  rewrite (se_bind_eq _ _ _ _ _ Er) in H. unfold mbind at 1, se_bind at 1 in H.
  destruct (on_exception _ _ s2) as [s3 r3] eqn:Eo.
  destruct (await_ack_ok id e n frame s2 s3 r3 Hfair Hr2 Hd2 Hf2 Eo) as (H1 & H2 & H3).
  assert (s' = s3 ∧ (∀ x, r3 = Raise x → res = Raise x) ∧ ∀ r ds', res = Ok (r, ds') → ds' = ds) as (-> & Hx & Hds).
  { destruct r3; injection H as <- <-; (split; [done|]); split; try done; naive_solver. }
  split; [done|]. rewrite H2, Hs2, Hs1, Hw2, Hw1 in *. split; [done|]. destruct H3 as [[[x ->] H3]|(others & H3)].
  - left. split; [eauto|done].
  - right. exists frame, others. split; [done|]. split; [exists ds, nodes, s, s1; by split_and!|]. intros r ds' Hres.
    by rewrite (Hds _ _ Hres).
Qed.

(** ** Recipients *)

Lemma dedupe_from_eq devs : ∀ seen, dedupe_from seen devs = Usync.dedupe_devices seen devs.
Proof. induction devs as [|j devs IH]; intros seen; [done|]. cbn. by rewrite !IH. Qed.

Lemma dedupe_NoDup devs : NoDup (_dedupe_devices devs).
Proof. unfold _dedupe_devices. rewrite dedupe_from_eq. apply Usync.dedupe_devices_spec. Qed.

Lemma elem_of_dedupe j devs : j ∈ _dedupe_devices devs ↔ j ∈ devs.
Proof.
  unfold _dedupe_devices. rewrite dedupe_from_eq. rewrite (proj2 (Usync.dedupe_devices_spec devs [])). set_solver.
Qed.

Lemma same_full_jid_eq a b : _same_full_jid a b = bool_decide (a = b).
Proof.
  unfold _same_full_jid. apply bool_decide_ext. destruct a, b. cbn. split; [by intros (-> & -> & ->)|by intros [= -> -> ->]].
Qed.

Lemma target_devices_ok (e : env) chat ds : _target_devices sp e chat = Ok ds → device chat = 0 →
  NoDup ds ∧ (own_jid sp ∉ ds) ∧ ∀ map, fetch_devices e [_base_jid chat; _base_jid (own_jid sp)] = Ok map →
    ∀ d, d ∈ ds ↔ d ≠ own_jid sp ∧ (d ∈ devices_of map (_base_jid chat) ∨ d ∈ devices_of map (_base_jid (own_jid sp))).
Proof.
  unfold _target_devices. intros H Hc. rewrite Hc in H. cbn [Z.eqb negb] in H.
  apply bind_Ok_inv in H as (map & Hmap & H). injection H as <-. split_and!.
  - apply NoDup_filter, dedupe_NoDup.
  - intros [Hx _]%list_elem_of_filter. rewrite same_full_jid_eq, bool_decide_true in Hx by done. done.
  - intros map' Hmap' d. rewrite Hmap in Hmap'. injection Hmap' as <-.
    rewrite list_elem_of_filter, same_full_jid_eq, bool_decide_eq_false, elem_of_dedupe. cbn [mbind list_bind].
    rewrite app_nil_r, elem_of_app. done.
Qed.

(** The participant of a device: what was encrypted for it, addressed to it. *)
Definition participant (e : env) (m : _SentMessage) (d : JID) (n : Node) : Prop :=
  ∃ (s s' : state) enc_type ciphertext, encrypt_for_peer sp e d (plaintext_for sp m d) s = (s', Ok (enc_type, ciphertext)) ∧
    _build_participant_node sp d enc_type ciphertext None (sn_mediatype m) (sn_decrypt_fail m) = Ok n.

Lemma add_participants_ok e m ds : ∀ acc nodes (s s' : state), se_fold (add_participant sp e m) acc ds s = (s', Ok nodes) →
  ∃ new, nodes = acc ++ new ∧ Forall2 (participant e m) ds new.
Proof.
  induction ds as [|d ds IH]; intros acc nodes s s' H; cbn [se_fold] in H.
  { injection H as _ <-. exists []. by rewrite app_nil_r. }
  apply se_bind_Ok_inv in H as (s1 & acc1 & H1 & H). unfold add_participant in H1.
  apply se_bind_Ok_inv in H1 as (s2 & [enc_type ciphertext] & He & H1).
  apply se_bind_Ok_inv in H1 as (s3 & n & Hn & H1). unfold se_lift in Hn. unfold mret, se_ret in H1. injection Hn as <- Hn. injection H1 as <- <-.
  destruct (IH _ _ _ _ H) as (new & -> & Hnew). exists (n :: new). split; [by rewrite <-app_assoc|].
  constructor; [|done]. exists s, s2, enc_type, ciphertext. split; [exact He|by rewrite <-Hn].
Qed.

(** A frame of [m]: one participant for every target device and nobody else. *)
Definition addressed (e : env) (id : str) (m : _SentMessage) (frame : bytes) : Prop :=
  ∃ ds nodes, _target_devices sp e (sn_chat m) = Ok ds ∧ Forall2 (participant e m) ds nodes ∧
    (device (sn_chat m) = 0 → NoDup ds ∧ own_jid sp ∉ ds) ∧
    encode (_build_message_node sp id (_base_jid (sn_chat m)) nodes (Some (sn_message_type m)) (sn_edit m)) false = Ok frame.

Lemma frame_addressed e id m w frame : frame_of e id m w frame → addressed e id m frame.
Proof.
  intros (ds & nodes & s0 & s1 & _ & Ht & Hf & He). destruct (add_participants_ok _ _ _ _ _ _ _ Hf) as (new & -> & Hnew).
  exists ds, new. split_and!; [done|done| |done]. intros Hd. by destruct (target_devices_ok _ _ _ Ht Hd) as (? & ? & _).
Qed.

(** ** [_send_once] with its retry *)

(** What a call of [_send_once] put on the wire: each transmission, then what others sent
    meanwhile. *)
Definition wire_of (sends : list (bytes * list bytes)) : list bytes := sends ≫= λ x, x.1 :: x.2.

Definition returned (id : str) (m : _SentMessage) (now : Z) : Message :=
  mkMessage id (sn_chat m) (own_jid sp) (sn_text m) now true None None.

(** The transmissions behind the wire [w'] of a call that found the stores [st] and the wire [w]. *)
Record sends_ok (e1 e2 : env) (id : str) (m : _SentMessage) (st : World S I L K) (w w' : list bytes)
    (sends : list (bytes * list bytes)) : Prop := {
  so_wire : w' = w ++ wire_of sends;
  so_two : (length sends <= 2)%nat;
  so_addressed : ∀ f, f ∈ sends.*1 → addressed e1 id m f ∨ addressed e2 id m f;
  so_first : ∀ f, head sends.*1 = Some f → frame_of e1 id m st f
}.

Lemma sends_none e1 e2 id m st w : sends_ok e1 e2 id m st w w [].
Proof. split; cbn; [by rewrite app_nil_r|lia|set_solver|done]. Qed.

Lemma sends_one e1 e2 id m st w frame others : frame_of e1 id m st frame →
  sends_ok e1 e2 id m st w (w ++ frame :: others) [(frame, others)].
Proof.
  intros F. split; cbn; [by rewrite app_nil_r|lia| |by intros f [= <-]].
  intros f ->%list_elem_of_singleton. left. by eapply frame_addressed.
Qed.

Lemma sends_two e1 e2 id m st st2 w frame others frame2 others2 : frame_of e1 id m st frame → frame_of e2 id m st2 frame2 →
  sends_ok e1 e2 id m st w ((w ++ frame :: others) ++ frame2 :: others2) [(frame, others); (frame2, others2)].
Proof.
  intros F F2. split; cbn; [by rewrite app_nil_r, <-app_assoc|lia| |by intros f [= <-]].
  intros f [-> | ->%list_elem_of_singleton]%elem_of_cons; [left|right]; by eapply frame_addressed.
Qed.

(** The second and last attempt. *)
Lemma send_again_ok e2 now id m (s s' : state) res : fair id e2 → idle id s → send_once sp None e2 now id m s = (s', res) →
  idle id s' ∧ s_sent s' !! id = s_sent s !! id ∧ (∀ msg, res = Ok msg → msg = returned id m now) ∧
  ((∃ x, res = Raise x) ∧ s_wire s' = s_wire s ∨ ∃ frame others, s_wire s' = s_wire s ++ frame :: others ∧ frame_of e2 id m (s_world s) frame).
Proof.
  intros H2 Hidle H. unfold send_once in H. destruct (transmit sp e2 id m s) as [s3 r3] eqn:E3.
  destruct (transmit_ok id e2 m s s3 r3 H2 Hidle E3) as (I3 & T3 & W3).
  assert (s' = s3 ∧ (∀ x, r3 = Raise x → res = Raise x) ∧ ∀ msg, res = Ok msg → msg = returned id m now) as (-> & Hx & Hm).
  { unfold mbind, se_bind in H. rewrite E3 in H. destruct r3 as [[[sg|] ds3]|x]; injection H as <- <-; split; try done;
      split; naive_solver. }
  split; [done|]. split; [done|]. split; [done|]. destruct W3 as [[[x ->] ->]|(frame & others & W3 & F & _)].
  - left. split; [exists x; by apply Hx|done].
  - right. by exists frame, others.
Qed.

Lemma send_once_ok e1 e2 now id m (s s' : state) res : fair id e1 → fair id e2 → idle id s →
  _send_once sp e1 e2 now id m s = (s', res) →
  idle id s' ∧ s_sent s' !! id = s_sent s !! id ∧ ∃ sends, sends_ok e1 e2 id m (s_world s) (s_wire s) (s_wire s') sends ∧
    ∀ msg, res = Ok msg → msg = returned id m now ∧ sends ≠ [].
Proof.
  intros H1 H2 Hidle H. unfold _send_once, send_once at 1 in H.
  destruct (transmit sp e1 id m s) as [s1 r1] eqn:E1. destruct (transmit_ok id e1 m s s1 r1 H1 Hidle E1) as (I1 & T1 & W1).
  destruct r1 as [[signal ds]|x]; cycle 1.
  { rewrite (se_bind_raise _ _ _ _ _ E1) in H. injection H as <- <-. split; [done|]. split; [done|].
    destruct W1 as [[_ ->]|(frame & others & -> & F & _)]; eexists; (split; [first [apply sends_none|by apply sends_one]|done]). }
  rewrite (se_bind_eq _ _ _ _ _ E1) in H. destruct W1 as [[[? ?] _]|(frame & others & W1 & F & _)]; [done|].
  assert (∀ s2 : state, rest s2 = rest s1 → sends_ok e1 e2 id m (s_world s) (s_wire s) (s_wire s2) [(frame, others)]) as Hone.
  { intros s2 H'. injection H' as _ _ _ _ ->. rewrite W1. by apply sends_one. }
  destruct signal as [signal|]; cycle 1.
  { injection H as <- <-. split; [done|]. split; [done|]. eexists. split; [by apply Hone|]. by intros msg [= <-]. }
  destruct (_retry_peer_from_signal sp signal ds) as [peer|x]; cycle 1.
  { injection H as <- <-. split; [done|]. split; [done|]. eexists. split; [by apply Hone|done]. }
  rewrite se_bind_lift in H. destruct (in_world (_drop_peer_session peer) s1) as [s2 r2] eqn:E2.
  pose proof (stores_only_run _ _ _ _ (stores_only_world _) E2) as R2. specialize (Hone _ R2).
  pose proof (idle_rest id _ _ R2 I1) as I2. injection R2 as _ T2 _ _ W2.
  destruct r2 as [[]|x]; cycle 1.
  { rewrite (se_bind_raise _ _ _ _ _ E2) in H. injection H as <- <-. split; [done|]. rewrite T2. split; [done|].
    eexists. split; [by apply Hone|done]. }
  rewrite (se_bind_eq _ _ _ _ _ E2) in H.
  destruct (send_again_ok e2 now id m s2 s' res H2 I2 H) as (I3 & T3 & Hm & W3).
  split; [done|]. rewrite T3, T2, T1. split; [done|]. destruct W3 as [[[x ->] ->]|(frame2 & others2 & W3 & F2)].
  - by exists [(frame, others)].
  - exists [(frame, others); (frame2, others2)]. split; [|intros msg Hres; split; [by apply Hm|done]].
    rewrite W3, W2, W1. by eapply sends_two.
Qed.

(** What [send_message] sends and caches. *)
Definition sent_of (r : Draws) (chat : JID) (proto : MessageProto) (text : str) (message_type edit : option str) (own : bytes)
    : _SentMessage :=
  let type := match message_type with Some t => if truthy t then t else _message_type_for proto | None => _message_type_for proto end in
  mkSent chat text (Padding.pad_random_max16 (dr_pad r) (ok_or [] (ser_Message proto))) own 0 type edit (_media_type_for proto)
    (if bool_decide (type = u "reaction") || HasField edit then u "hide" else []).

Lemma send_message_ok e1 e2 r chat proto text type edit (s s0 s' : state) id res :
  new_message_id (dr_clock r) (dr_ids r) s = (s0, Ok id) → fair id e1 → fair id e2 → idle id s →
  send_message sp e1 e2 r chat proto text type edit s = (s', res) →
  idle id s' ∧ ∃ own sends, let m := sent_of r chat proto text type edit own in
    sends_ok e1 e2 id m (s_world s) (s_wire s) (s_wire s') sends ∧ (sends ≠ [] → is_ok (ser_Message proto) = true) ∧
    ∀ msg, res = Ok msg → sends ≠ [] ∧ msg = mkMessage id chat (own_jid sp) text (dr_now r) true None None ∧
      s_sent s' !! id = Some m.
Proof.
  intros Hid H1 H2 Hidle H. unfold send_message in H. rewrite (se_bind_eq _ _ _ _ _ Hid) in H.
  assert (idle id s0 ∧ s_wire s0 = s_wire s ∧ s_world s0 = s_world s) as (Hidle0 & Hw0 & Hst0).
  { unfold new_message_id in Hid. destruct (MessageIds.new_message_id _ _ _) as [ids rr]. by injection Hid as <- _. }
  assert (∀ x, (s', res) = (s0, Raise x) → idle id s' ∧ ∃ own sends, let m := sent_of r chat proto text type edit own in
    sends_ok e1 e2 id m (s_world s) (s_wire s) (s_wire s') sends ∧ (sends ≠ [] → is_ok (ser_Message proto) = true) ∧
    ∀ msg, res = Ok msg → sends ≠ [] ∧ msg = mkMessage id chat (own_jid sp) text (dr_now r) true None None ∧
      s_sent s' !! id = Some m) as Hfail.
  { intros x [= -> ->]. split; [done|]. rewrite Hw0. exists [], []. split_and!; [apply sends_none|done|done]. }
  destruct (ser_Message proto) as [b|x] eqn:Es; [|by apply (Hfail x)]. rewrite se_bind_lift in H.
  destruct (_build_dsm_plaintext _ _ _) as [own|x]; [|by apply (Hfail x)]. rewrite se_bind_lift in H.
  cbv zeta in H. match type of H with context [_send_once sp e1 e2 (dr_now r) id ?mm] => set (m := mm) in * end.
  assert (sent_of r chat proto text type edit own = m) as Hm0 by (unfold sent_of; by rewrite Es).
  destruct (_send_once sp e1 e2 (dr_now r) id m s0) as [s1 r1] eqn:E1.
  destruct (send_once_ok e1 e2 (dr_now r) id m s0 s1 r1 H1 H2 Hidle0 E1) as (I1 & _ & sends & Hs & Hm). rewrite Hw0, Hst0 in Hs.
  destruct r1 as [msg|x].
  - rewrite (se_bind_eq _ _ _ _ _ E1) in H. destruct (Hm msg eq_refl) as [-> Hne]. injection H as <- <-. split; [done|].
    exists own, sends. cbv zeta. rewrite Hm0. split_and!; [done|done|].
    intros msg [= <-]. split_and!; [done|done|]. cbn. apply lookup_insert_eq.
  - rewrite (se_bind_raise _ _ _ _ _ E1) in H. injection H as <- <-. split; [done|].
    exists own, sends. cbv zeta. rewrite Hm0. by split_and!.
Qed.

(** ** Nobody but the receiver resolves a wait *)

(** The other tasks register and cancel ids and give up waits, but it is the reader that
    resolves them. *)
Definition no_replies (e : env) : Prop := ∀ s, ∃ evs, s_router (meanwhile e s) = Router.run (s_router s) evs ∧
  Forall (λ ev, match ev with Router.Ack _ | Router.Retry _ _ => False | _ => True end) evs.

Lemma wait_unanswered e n (s s' : state) res : no_replies e → Router.futures (s_router s) !! n = Some Router.Pending →
  wait_for e n s = (s', res) → Router.futures (s_router s') !! n = Some Router.Cancelled ∧
    (res = Raise TimeoutError ∨ res = Raise CancelledError).
Proof.
  intros He Hf Hw. destruct (He s) as (evs & E1 & Hevs).
  assert (∀ evs r, Router.futures r !! n = Some Router.Pending ∨ Router.futures r !! n = Some Router.Cancelled →
    Forall (λ ev, match ev with Router.Ack _ | Router.Retry _ _ => False | _ => True end) evs →
    Router.futures (Router.run r evs) !! n = Some Router.Pending ∨ Router.futures (Router.run r evs) !! n = Some Router.Cancelled) as Hk.
  { clear. intros evs. induction evs as [|ev evs IH]; intros r Hr Hev; [done|]. apply Forall_cons in Hev as [H1 Hev].
    apply (IH (Router.step r ev)); [|done]. destruct Hr as [Hr|Hr]; [|right; by apply Router.step_done].
    assert (∀ m, Router.settle Router.Cancelled m (Router.futures r) !! n = Some Router.Pending ∨
      Router.settle Router.Cancelled m (Router.futures r) !! n = Some Router.Cancelled) as Ks.
    { intros m. destruct (decide (m = n)) as [->|]; [right; by apply Router.settle_eq|left; by rewrite Router.settle_ne]. }
    destruct ev as [id|id|id|id a|m]; try done; cbn [Router.step].
    - left. unfold Router.register. destruct (dict_get _ _); [done|]. cbn. by apply lookup_app_l_Some.
    - unfold Router.cancel, Router.pop_settle. cbn. destruct (dict_get id _); [apply Ks|by left].
    - cbn. apply Ks. }
  specialize (Hk evs (s_router s) (or_introl Hf) Hevs). rewrite <-E1 in Hk. unfold wait_for in Hw.
  destruct Hk as [Hk|Hk]; rewrite Hk in Hw; injection Hw as <- <-; (split; [|by auto]); [cbn; by apply Router.settle_eq|done].
Qed.

(** ** Retry receipts *)

(** The peer has no session, or one whose pre-key message is pending. *)
Definition unconfirmed (sid : str) (w : World S I L K) : Prop :=
  ss_load (w_sessions w) sid = Ok None ∨ ∃ meta, w_meta w !! sid = Some meta ∧ pm_pending_prekey meta ≠ None.

Lemma seal_pkmsg d meta m t data : pm_pending_prekey meta ≠ None → seal_message d meta m = Ok (t, data) → t = u "pkmsg".
Proof.
  unfold seal_message. destruct m as [[h c] k]. intros Hp H. apply bind_Ok_inv in H as (inner & _ & H).
  destruct (pm_pending_prekey meta); [|done]. apply bind_Ok_inv in H as (dd & _ & H). by injection H as <- _.
Qed.

(** Then what is encrypted for it is a pre-key message. *)
Lemma unconfirmed_pkmsg d fetch eph dh peer sid p (w w' : World S I L K) t data :
  session_id peer = Ok sid → unconfirmed sid w → _encrypt_for_peer d fetch eph dh peer p w = (w', Ok (t, data)) → t = u "pkmsg".
Proof.
  intros Hsid Hun H. unfold _encrypt_for_peer in H. rewrite Hsid, se_bind_lift in H.
  apply se_bind_Ok_inv in H as (w1 & st & H1 & H). unfold load_session in H1. injection H1 as <- Hload.
  apply se_bind_Ok_inv in H as (w2 & meta & H2 & H).
  assert (st = None ∨ ∃ mt, meta = Some mt ∧ pm_pending_prekey mt ≠ None) as Hst.
  { destruct Hun as [Hun|(mt & Hmt & Hp)]; [left; congruence|]. right. unfold recall_meta in H2. rewrite se_bind_asks in H2.
    rewrite Hmt in H2. exists mt. destruct st; by injection H2 as _ <-. }
  apply se_bind_Ok_inv in H as (w3 & [st3 mt3] & H3 & H).
  assert (pm_pending_prekey mt3 ≠ None) as Hp3.
  { destruct st as [st|].
    - destruct Hst as [?|(mt & -> & Hp)]; [done|]. injection H3 as _ _ <-. done.
    - apply se_bind_Ok_inv in H3 as (w4 & [st4 mt4] & H4 & H3). unfold se_lift in H4. injection H4 as _ H4.
      do 2 (apply se_bind_Ok_inv in H3 as (? & ? & _ & H3)). injection H3 as _ _ <-.
      unfold _establish_session in H4. apply bind_Ok_inv in H4 as (bundle & _ & H4). unfold _establish_session_from_bundle in H4.
      apply bind_Ok_inv in H4 as (r & _ & H4). apply bind_Ok_inv in H4 as (st5 & _ & H4). injection H4 as _ <-. done. }
  destruct (ratchet_encrypt _ _ _) as [st6 r6]. apply se_bind_Ok_inv in H as (w5 & m & _ & H).
  apply se_bind_Ok_inv in H as (w6 & [] & _ & H). unfold se_lift in H. injection H as _ H. by eapply seal_pkmsg.
Qed.

(** Dropping the session of a peer leaves none. *)
Lemma drop_none {SL : SessionStoreLaws S} peer sid (w w' : World S I L K) :
  session_id peer = Ok sid → _drop_peer_session peer w = (w', Ok tt) → ss_load (w_sessions w') sid = Ok None.
Proof.
  intros Hsid H. unfold _drop_peer_session in H. rewrite se_bind_asks in H.
  assert (∀ c (w1 w2 : World S I L K), drop_candidate tt c w1 = (w2, Ok tt) →
    (c = peer ∨ ss_load (w_sessions w1) sid = Ok None) → ss_load (w_sessions w2) sid = Ok None) as Hc.
  { intros c w1 w2 Hd Hor. unfold drop_candidate in Hd. destruct (session_id c) as [k|] eqn:Ec; [|done].
    rewrite se_bind_lift in Hd. injection Hd as <-. cbn. destruct (decide (k = sid)) as [->|Hne]; [apply load_delete|].
    rewrite load_delete_ne by done. destruct Hor as [->|?]; [congruence|done]. }
  assert (∀ l (w1 w2 : World S I L K), se_fold drop_candidate tt l w1 = (w2, Ok tt) →
    ss_load (w_sessions w1) sid = Ok None → ss_load (w_sessions w2) sid = Ok None) as Hl.
  { induction l as [|c l IH]; intros w1 w2 Hf Hn; cbn [se_fold] in Hf; [by injection Hf as <-|].
    apply se_bind_Ok_inv in Hf as (w3 & [] & Hd & Hf). eapply IH; [done|]. eapply Hc; [done|by right]. }
  unfold _peer_and_lid_alt in H. cbn [se_fold] in H. apply se_bind_Ok_inv in H as (w3 & [] & Hd & H).
  eapply Hl; [done|]. eapply Hc; [done|by left].
Qed.

(** One more resend. *)
Definition bump (m : _SentMessage) : _SentMessage :=
  mkSent (sn_chat m) (sn_text m) (sn_plaintext m) (sn_own_plaintext m) (sn_retry_count m + 1)
    (sn_message_type m) (sn_edit m) (sn_mediatype m) (sn_decrypt_fail m).

(** The frame that answers a retry receipt: the message again, for that device alone, as a
    pre-key message. *)
Definition resend_of (e : env) (id : str) (m : _SentMessage) (peer : JID) (count : Z) (frame : bytes) : Prop :=
  ∃ (s0 s1 : state) data node,
    encrypt_for_peer sp e peer (if truthy (sn_own_plaintext m) then plaintext_for sp m peer else sn_plaintext m) s0
      = (s1, Ok (u "pkmsg", data)) ∧
    _build_participant_node sp peer (u "pkmsg") data (Some count) (sn_mediatype m) (sn_decrypt_fail m) = Ok node ∧
    encode (_build_message_node sp id (_base_jid (sn_chat m)) [node] (Some (sn_message_type m)) (sn_edit m)) false = Ok frame.

(** The end of a resend. *)
Lemma await_resend_ok id e n stanza (s s' : state) res : fair id e → Router.router_ok (s_router s) →
  dict_get id (Router._pending (s_router s)) = Some n → Router.futures (s_router s) !! n = Some Router.Pending →
  finally
    (se_try (frame ← se_lift (encode stanza false); _ ← transport_send e frame; _ ← wait_for e n; mret tt)
       (λ x, bool_decide (x = TimeoutError)) (λ _, cancel id))
    (cancel id) s = (s', res) →
  idle id s' ∧ s_sent s' !! id = s_sent s !! id ∧
  (s_wire s' = s_wire s ∨ ∃ frame others, encode stanza false = Ok frame ∧ s_wire s' = s_wire s ++ frame :: others).
Proof.
  intros Hfair Hr Hd Hf H. unfold finally in H.
  match type of H with context [se_try ?b ?c ?h s] => destruct (se_try b c h s) as [s1 r1] eqn:E1 end.
  assert (Router.router_ok (s_router s1) ∧ s_sent s1 !! id = s_sent s !! id ∧
    (s_wire s1 = s_wire s ∨ ∃ frame others, encode stanza false = Ok frame ∧ s_wire s1 = s_wire s ++ frame :: others)) as (R1 & T1 & W1).
  { clear H. unfold se_try in E1. assert (∀ s2 : state, Router.router_ok (s_router s2) → Router.router_ok (s_router (cancel id s2).1)) as Hcan.
    { intros s2 H2. by apply (Router.step_ok _ (Router.Cancel id)). }
    destruct (encode stanza false) as [frame|x]; cycle 1.
    { unfold mbind at 1, se_bind at 1, se_lift at 1 in E1. revert E1. case_bool_decide; intros E1; injection E1 as <- <-; (split; [first [by apply Hcan|done]|split; [done|by left]]). }
    rewrite se_bind_lift in E1. unfold mbind at 1, se_bind at 1, transport_send in E1. destruct (sending e frame) as [[]|x]; cycle 1.
    { revert E1. case_bool_decide; intros E1; injection E1 as <- <-; (split; [first [by apply Hcan|done]|split; [done|by left]]). }
    set (s2 := mkSender _ _ _ _ _ _) in E1. destruct (wait_for e n s2) as [s3 r3] eqn:Ew.
    destruct (wait_for_ok id e n s2 s3 r3 Hfair Hr Hd Hf Ew) as (R3 & (others & W3) & T3 & _).
    assert (s_wire s3 = s_wire s ++ frame :: others) as W3'. { rewrite W3. cbn. by rewrite <-app_assoc. }
    unfold mbind, se_bind in E1. rewrite Ew in E1. destruct r3 as [r3|x]; [|revert E1; case_bool_decide; intros E1]; injection E1 as <- <-;
      (split; [first [by apply Hcan|done]|split; [done|right; by exists frame, others]]). }
  cbn in H. injection H as <- <-. split; [by apply (cancel_idle id s1)|]. split; [exact T1|exact W1].
Qed.

(** The session of a bundle is pending. *)
Lemma adopt_bundle_ok e peer bundle sid (s s' : state) : session_id peer = Ok sid → adopt_bundle sp e peer bundle s = (s', Ok tt) →
  unconfirmed sid (s_world s) → unconfirmed sid (s_world s').
Proof.
  intros Hsid H Hun. destruct bundle as [bundle|]; [|by injection H as <-]. unfold adopt_bundle in H.
  apply se_bind_Ok_inv in H as (s1 & [st meta] & H1 & H). unfold se_lift in H1. injection H1 as <- H1.
  rewrite Hsid, se_bind_lift in H. apply se_bind_Ok_inv in H as (s2 & [] & _ & H).
  unfold in_world, set_meta in H. injection H as <-. right. exists meta. cbn. rewrite lookup_partial_alter_eq. split; [done|].
  unfold _establish_session_from_bundle in H1. res_inv. by simplify_eq.
Qed.

Lemma stores_only_bundle e peer bundle : stores_only (adopt_bundle sp e peer bundle).
Proof. unfold adopt_bundle. keeps. Qed.

(** A retry receipt about a message sent: nothing goes out, or one resend does, counted. *)
Lemma retry_receipt_ok {SL : SessionStoreLaws S} e id peer bundle count m (s s' : state) res :
  fair id e → idle id s → s_sent s !! id = Some m →
  handle_retry_receipt sp e id peer bundle count s = (s', res) →
  idle id s' ∧
  (s_wire s' = s_wire s ∧ (s_sent s' !! id = Some m ∨ s_sent s' !! id = Some (bump m)) ∨
   sn_retry_count m < 2 ∧ s_sent s' !! id = Some (bump m) ∧
   ∃ frame others, s_wire s' = s_wire s ++ frame :: others ∧ resend_of e id m peer count frame).
Proof.
  intros Hfair Hidle Hm H. unfold handle_retry_receipt in H. rewrite se_bind_asks, Hm in H.
  destruct ((2 <=? sn_retry_count m) || (2 <? count)) eqn:Ecap; [injection H as <- _; split; [done|left; auto]|].
  apply orb_false_iff in Ecap as [Ecap _]. apply Z.leb_gt in Ecap. fold (bump m) in H. cbv zeta in H.
  set (s1 := mkSender (s_world s) (s_router s) (<[id := bump m]> (s_sent s)) (s_sender_keys s) (s_ids s) (s_wire s)).
  assert (set_sent id (bump m) s = (s1, Ok tt)) as E1 by done. rewrite (se_bind_eq _ _ _ _ _ E1) in H.
  assert (∀ s2 : state, rest s2 = rest s1 → idle id s2 ∧ s_wire s2 = s_wire s ∧ s_sent s2 !! id = Some (bump m)) as Hrest.
  { intros s2 H2. split; [apply (idle_rest id s1 s2 H2 Hidle)|]. injection H2 as _ -> _ _ ->. split; [done|]. cbn. apply lookup_insert_eq. }
  assert (∀ s2 : state, rest s2 = rest s1 → s' = s2 → idle id s' ∧
    (s_wire s' = s_wire s ∧ (s_sent s' !! id = Some m ∨ s_sent s' !! id = Some (bump m)) ∨
     sn_retry_count m < 2 ∧ s_sent s' !! id = Some (bump m) ∧
     ∃ frame others, s_wire s' = s_wire s ++ frame :: others ∧ resend_of e id m peer count frame)) as Hquit.
  { intros s2 H2 ->. destruct (Hrest s2 H2) as (? & ? & ?). split; [done|]. left. auto. }
  destruct (in_world (_drop_peer_session peer) s1) as [s2 [[]|x]] eqn:E2;
    pose proof (stores_only_run _ _ _ _ (stores_only_world _) E2) as R2; cycle 1.
  { rewrite (se_bind_raise _ _ _ _ _ E2) in H. apply (Hquit s2 R2). by injection H. }
  rewrite (se_bind_eq _ _ _ _ _ E2) in H.
  destruct (adopt_bundle sp e peer bundle s2) as [s3 [[]|x]] eqn:E3;
    pose proof (stores_only_run _ _ _ _ (stores_only_bundle _ _ _) E3) as R3; rewrite R2 in R3; cycle 1.
  { rewrite (se_bind_raise _ _ _ _ _ E3) in H. apply (Hquit s3 R3). by injection H. }
  rewrite (se_bind_eq _ _ _ _ _ E3) in H. cbv zeta in H.
  match type of H with (encrypt_for_peer sp e peer ?p ≫= _) s3 = _ => set (plain := p) in * end.
  destruct (encrypt_for_peer sp e peer plain s3) as [s4 [[t data]|x]] eqn:E4;
    pose proof (stores_only_run _ _ _ _ (stores_only_world _) E4) as R4; rewrite R3 in R4; cycle 1.
  { rewrite (se_bind_raise _ _ _ _ _ E4) in H. apply (Hquit s4 R4). by injection H. }
  rewrite (se_bind_eq _ _ _ _ _ E4) in H.
  assert (t = u "pkmsg") as ->.
  { unfold in_world in E2. destruct (_drop_peer_session peer (s_world s1)) as [w2 r2] eqn:Ed. injection E2 as <- ->.
    destruct (session_id peer) as [sid|] eqn:Esid.
    - unfold encrypt_for_peer, in_world in E4. destruct (_encrypt_for_peer _ _ _ _ _ _ (s_world s3)) as [w4 r4] eqn:Ee.
      injection E4 as _ ->. eapply unconfirmed_pkmsg; [exact Esid| |exact Ee]. eapply adopt_bundle_ok; [exact Esid|exact E3|].
      left. cbn. by eapply drop_none.
    - unfold encrypt_for_peer, in_world, _encrypt_for_peer in E4. rewrite Esid in E4. done. }
  destruct (_build_participant_node sp peer (u "pkmsg") data (Some count) _ _) as [node|x] eqn:En; cycle 1.
  { injection H as <- _. by apply (Hquit s4). }
  rewrite se_bind_lift in H. destruct (Hrest s4 R4) as (I4 & W4 & T4).
  destruct (register_idle id s4 I4) as (n & s5 & E5 & R5 & D5 & F5 & _ & W5 & T5 & _). rewrite (se_bind_eq _ _ _ _ _ E5) in H.
  destruct (await_resend_ok id e n _ s5 s' res Hfair R5 D5 F5 H) as (I6 & T6 & W6). split; [done|].
  rewrite T5, T4 in T6. rewrite W5, W4 in W6. destruct W6 as [W6|(frame & others & Ef & W6)]; [left; auto|right].
  split; [done|]. split; [done|]. exists frame, others. split; [done|]. by exists s3, s4, data, node.
Qed.

(** Any number of retry receipts about one message. *)
Fixpoint retry_receipts (id : str) (l : list (env * JID * option PreKeyBundle * Z)) (s : state) : state :=
  match l with
  | [] => s
  | (e, peer, bundle, count) :: l => retry_receipts id l (handle_retry_receipt sp e id peer bundle count s).1
  end.

Lemma retry_receipts_ok {SL : SessionStoreLaws S} id l : ∀ m (s : state),
  Forall (λ x, fair id x.1.1.1) l → idle id s → s_sent s !! id = Some m →
  ∃ sends, s_wire (retry_receipts id l s) = s_wire s ++ wire_of sends ∧
    Z.of_nat (length sends) ≤ 0 `max` (2 - sn_retry_count m) ∧
    (∀ f, f ∈ sends.*1 → ∃ e peer bundle count m', (e, peer, bundle, count) ∈ l ∧ resend_of e id m' peer count f ∧
       sn_chat m' = sn_chat m ∧ sn_plaintext m' = sn_plaintext m ∧ sn_own_plaintext m' = sn_own_plaintext m).
Proof.
  induction l as [|[[[e peer] bundle] count] l IH]; intros m s Hl Hidle Hm.
  { exists []. cbn. rewrite app_nil_r. split_and!; [done|lia|set_solver]. }
  apply Forall_cons in Hl as [He Hl]. cbn [fst] in He. cbn [retry_receipts].
  destruct (handle_retry_receipt sp e id peer bundle count s) as [s1 r1] eqn:E1. cbn [fst].
  destruct (retry_receipt_ok e id peer bundle count m s s1 r1 He Hidle Hm E1) as (I1 & [[W1 T1]|(Hcap & T1 & frame & others & W1 & F)]).
  - assert (∃ m1, s_sent s1 !! id = Some m1 ∧ sn_retry_count m ≤ sn_retry_count m1 ∧
      sn_chat m1 = sn_chat m ∧ sn_plaintext m1 = sn_plaintext m ∧ sn_own_plaintext m1 = sn_own_plaintext m)
      as (m1 & T & Hc & A1 & A2 & A3).
    { destruct T1 as [T1|T1]; eexists; (split; [exact T1|]); cbn; split_and!; try done; lia. }
    destruct (IH m1 s1 Hl I1 T) as (sends & Hw & Hn & Hf). exists sends. rewrite Hw, W1. split; [done|]. split; [lia|].
    intros f Hx. destruct (Hf f Hx) as (e' & p' & b' & c' & m' & Hin & R & B1 & B2 & B3).
    exists e', p', b', c', m'. split_and!; [by right|done|congruence..].
  - destruct (IH (bump m) s1 Hl I1 T1) as (sends & Hw & Hn & Hf). exists ((frame, others) :: sends).
    rewrite Hw, W1. cbn. split_and!; [by rewrite <-app_assoc|cbn in Hn; lia|].
    intros f [-> | Hx]%elem_of_cons.
    + exists e, peer, bundle, count, m. split_and!; [by left|done..].
    + destruct (Hf f Hx) as (e' & p' & b' & c' & m' & Hin & R & B1 & B2 & B3).
      exists e', p', b', c', m'. split_and!; [by right|done..].
Qed.
End SenderProofs.

(** C3: [send_message] sends at most two stanzas, the second after a retry request, and
    each has exactly one participant for every target device, distinct devices and never
    our own, with what was encrypted for it from the wrapped copy if it is ours and from
    the bare body otherwise. It returns the message only after sending, and remembers it
    for retries; whatever happens, the id is not left pending on the router. *)
Theorem send_settles {S I L K G : Type} {SS : SessionStore S} {IS : IdentityStore I} {LM : LidMap L} {GS : SenderKeys G}
    {X : X25519} {E : XEdDSA} {HK : Hkdf} {HM : Hmac} {AES : AesCbc} {PK : Pkcs7} {W : WhisperProto}
    {U : UnicodeDB} {Zl : Zlib} {C : MessageCodec} sp e1 e2 r chat proto text type edit (s s0 s' : SenderState S I L K G) id res :
  new_message_id (dr_clock r) (dr_ids r) s = (s0, Ok id) → fair id e1 → fair id e2 → idle id s →
  send_message sp e1 e2 r chat proto text type edit s = (s', res) →
  idle id s' ∧ ∃ m sends, s_wire s' = s_wire s ++ wire_of sends ∧ (length sends <= 2)%nat ∧ sn_chat m = chat ∧
    (∀ f, f ∈ sends.*1 → addressed sp e1 id m f ∨ addressed sp e2 id m f) ∧
    ∀ msg, res = Ok msg → sends ≠ [] ∧ msg = mkMessage id chat (own_jid sp) text (dr_now r) true None None ∧
      s_sent s' !! id = Some m.
Proof.
  intros Hid H1 H2 Hi H. destruct (send_message_ok sp e1 e2 r chat proto text type edit s s0 s' id res Hid H1 H2 Hi H)
    as (Hi' & own & sends & [Hw Hn Ha _] & _ & Hm).
  split; [done|]. exists (sent_of r chat proto text type edit own), sends. by split_and!.
Qed.

(** C10: whatever retry receipts arrive about a message, they make the sender send it again
    at most twice in all, each time for the peer that asked, as a pre-key message of a new
    session, with the plaintext of the first time. *)
Theorem retry_resends_bounded {S I L K G : Type} {SS : SessionStore S} {SL : SessionStoreLaws S} {IS : IdentityStore I} {LM : LidMap L}
    {X : X25519} {E : XEdDSA} {HK : Hkdf} {HM : Hmac} {AES : AesCbc} {PK : Pkcs7} {W : WhisperProto}
    {U : UnicodeDB} {Zl : Zlib} sp id (l : list (Surroundings (SenderState S I L K G) * JID * option PreKeyBundle * Z)) m s :
  Forall (λ x, fair id x.1.1.1) l → idle id s → s_sent s !! id = Some m → 0 ≤ sn_retry_count m →
  ∃ sends, s_wire (retry_receipts sp id l s) = s_wire s ++ wire_of sends ∧ (length sends <= 2)%nat ∧
    ∀ f, f ∈ sends.*1 → ∃ e peer bundle count m', (e, peer, bundle, count) ∈ l ∧ resend_of sp e id m' peer count f ∧
      sn_chat m' = sn_chat m ∧ sn_plaintext m' = sn_plaintext m ∧ sn_own_plaintext m' = sn_own_plaintext m.
Proof.
  intros Hl Hi Hm H0. destruct (retry_receipts_ok sp id l m s Hl Hi Hm) as (sends & Hw & Hn & Hf).
  exists sends. split_and!; [done|lia|done].
Qed.

(** ** Witnesses: Alice sends to Bob *)

Module SenderDemo.
Export TalkDemo.
#[export] Existing Instances toy_sk_proto stored_zlib ToyCodec.toy_messages.

Definition sstate : Type :=
  SenderState InMemorySessionStore InMemoryIdentityStore InMemoryLidMap InMemoryPreKeyStore SenderKeyStore.
Definition params (d : Device) : SenderParams := mkParams d None default_config.
Definition start (w : dworld) : sstate := mkSender w Router.AckRouter_init ∅ (Some []) MessageIds.empty_ring [].
Definition id : str := u "0101010101010101".
(** The server acknowledges, or asks for a retry. *)
Definition acks : Surroundings sstate :=
  mkSurroundings _single_device_fetcher fetch (λ _, (key 5, key 6)) (λ _, Ok tt) (on_router (Router.resolve_ack id)).
Definition asks_retry : Surroundings sstate :=
  mkSurroundings _single_device_fetcher fetch (λ _, (key 5, key 6)) (λ _, Ok tt)
    (on_router (Router.resolve_retry id [(u "error", u "500")])).
Definition draws : Draws := mkDraws 0 [replicate 8 (mkb 1)] (mkb 3) (mkb 4) 1700000000.
Definition hello : MessageProto := ok_or empty_message (conversation_proto (u "hello")).
Definition sent : sstate * result Message :=
  send_message (params (alice_dev 1)) asks_retry acks draws (jid "bob") hello (u "hello") None None (start empty).

Lemma fair_acks : fair id acks.
Proof. intros s. exists [Router.Ack id], []. split_and!; [done|set_solver|cbn; by rewrite app_nil_r|done]. Qed.

Lemma fair_retry : fair id asks_retry.
Proof.
  intros s. exists [Router.Retry id [(u "error", u "500")]], [].
  split_and!; [done|by intros [? | ?%elem_of_nil]%elem_of_cons|cbn; by rewrite app_nil_r|done].
Qed.

Lemma start_idle w : idle id (start w).
Proof. split; [apply Router.init_ok|done]. Qed.
End SenderDemo.
Import SenderDemo.

Lemma send_settles_witness :
  idle id sent.1 ∧ ∃ m sends, s_wire sent.1 = [] ++ wire_of sends ∧ (length sends <= 2)%nat ∧
    sn_chat m = jid "bob" ∧ length (s_wire sent.1) = 2%nat ∧ is_ok sent.2 = true.
Proof.
  destruct (send_settles (params (alice_dev 1)) asks_retry acks draws
    (jid "bob") hello (u "hello") None None (start empty)
    (new_message_id 0 [replicate 8 (mkb 1)] (start empty)).1 sent.1 id sent.2)
    as (Hi & m & sends & Hw & Hn & Hc & _); [reflexivity|apply fair_retry|apply fair_acks|
      apply start_idle|vm_compute; reflexivity|].
  split; [done|]. exists m, sends. split_and!; try done; vm_compute; reflexivity.
Defined.

(** Two devices of Bob's ask for the message again, one with a new bundle, then a third. *)
Lemma retry_resends_bounded_witness :
  let l := [(acks, jid "bob", Some bundle, 1); (acks, jid "bob", None, 1); (acks, jid "bob", None, 1)] in
  ∃ sends, s_wire (retry_receipts (params (alice_dev 1)) id l sent.1) = s_wire sent.1 ++ wire_of sends ∧
    (length sends <= 2)%nat ∧ length (s_wire (retry_receipts (params (alice_dev 1)) id l sent.1)) = 4%nat.
Proof.
  intros l.
  assert (idle id sent.1) as Hi.
  { eapply (send_message_ok (params (alice_dev 1)) asks_retry acks draws (jid "bob") hello (u "hello") None None (start empty));
      [reflexivity|apply fair_retry|apply fair_acks|apply start_idle|apply surjective_pairing]. }
  destruct (s_sent sent.1 !! id) as [m|] eqn:Em; [|vm_compute in Em; discriminate].
  destruct (retry_resends_bounded (SL := mem_session_laws) (params (alice_dev 1)) id l m sent.1) as (sends & Hw & Hn & _).
  - repeat constructor; apply fair_acks.
  - exact Hi.
  - exact Em.
  - assert (sn_retry_count <$> s_sent sent.1 !! id = Some 0) as Hc by (vm_compute; reflexivity).
    rewrite Em in Hc. injection Hc as ->. done.
  - exists sends. split_and!; [exact Hw|exact Hn|vm_compute; reflexivity].
Defined.
