(* ===== verification/Receiver.v ===== *)
(** * The message receiver ([src/src/pywhats/messaging/receiver.py])

    The reader task: it decodes a frame, dispatches on the tag, decrypts messages, emits
    events, answers the server, and goes on whatever a frame does. The receiver shares
    the stores, the router and the transport with the sender of Sender, which is also its
    retry handler. *)

From S2P Require Import Prelude PyStr Jid Node Encoder Decoder Crypto AppCrypto SignalKeys X3dh SignalTypes Ratchet SenderKey.
From S2P Require Import SessionStore LidMap PeerStores Outbox Stanzas Messages PeerSessions Sender.

(** ** The events and tasks of the receiver *)

(** Why a message did not decrypt; the code reports the text of the exception. *)
Inductive reason := DecryptFailed (e : exn) | BadPadding (e : exn) | BadProto (e : exn) | NoSenderKey | SkmsgFailed (e : exn).

(** What [emit] is called with. *)
Inductive Event :=
  | EvMessage (m : Message)
  | EvReaction (r : Reaction)
  | EvEdit (e : MessageEdit)
  | EvRevoke (r : MessageRevoke)
  | EvDecryptError (message_id : str) (why : reason)
  | EvReceipt (r : Presence.Receipt)
  | EvPresence (p : Presence.PresenceEv)
  | EvChatPresence (p : Presence.ChatPresence)
  | EvLoggedOut (code : str).

(** What [asyncio.create_task] starts. *)
Inductive Task := OnSuccess (n : Node) | ServerSync (n : Node) | HistorySync (h : HistorySyncNotification).

(** ** [PendingIqMap] *)
Module Iqs.
Inductive future := Pending | Done (n : Node) | Cancelled.
Record PendingIqMap := mkIqs { _pending : list (str * nat); futures : list future }.

Definition register (iq_id : str) : SE PendingIqMap nat := λ m,
  match dict_get iq_id (_pending m) with
  | Some _ => (m, Raise ValueError)
  | None => let n := length (futures m) in
            (mkIqs (dict_set iq_id n (_pending m)) (futures m ++ [Pending]), Ok n)
  end.

(** The popped future, settled unless it is done; whether it was pending. *)
Definition pop_settle (f : future) (iq_id : str) : SE PendingIqMap bool := λ m,
  match dict_get iq_id (_pending m) with
  | None => (m, Ok false)
  | Some n =>
      match futures m !! n with
      | Some Pending => (mkIqs (dict_del iq_id (_pending m)) (<[n := f]> (futures m)), Ok true)
      | _ => (mkIqs (dict_del iq_id (_pending m)) (futures m), Ok false)
      end
  end.

Definition cancel (iq_id : str) : SE PendingIqMap unit := _ ← pop_settle Cancelled iq_id; mret tt.
Definition resolve (iq_id : str) (node : Node) : SE PendingIqMap bool := pop_settle (Done node) iq_id.
Definition pending_ids (m : PendingIqMap) : list str := dict_keys (_pending m).
End Iqs.

(** What the receiver is made with; the handlers are only there or not. *)
Record ReceiverParams := mkRParams {
  rp_sender : SenderParams;
  rp_atomic : atomicity;
  rp_retry_handler : bool;
  rp_success_handler : bool;
  rp_ib_handler : option (bool * Z);
  rp_server_sync_handler : bool;
  rp_history_sync_handler : bool
}.

Record ReceiverState (S I L K G A : Type) := mkReceiver {
  r_sender : SenderState S I L K G;
  r_iqs : Iqs.PendingIqMap;
  r_app_keys : option A;
  r_events : list Event;
  r_tasks : list Task;
  r_routing : list bytes
}.
Arguments mkReceiver {S I L K G A}.
Arguments r_sender {S I L K G A}.
Arguments r_iqs {S I L K G A}.
Arguments r_app_keys {S I L K G A}.
Arguments r_events {S I L K G A}.
Arguments r_tasks {S I L K G A}.
Arguments r_routing {S I L K G A}.

(** The surroundings of the handling of a frame: the key pairs that the ratchet draws, one
    for each [<enc>], and the surroundings of the sender. *)
Record FrameEnv (St : Type) := mkFrameEnv { fe_new : nat → bytes * bytes; fe_sender : Surroundings St }.
Arguments mkFrameEnv {St}.
Arguments fe_new {St}.
Arguments fe_sender {St}.

(** ** Helpers *)

Section Helpers.
Context {U : UnicodeDB}.

(** [_jid_from_attr]: attributes that are neither JIDs nor non-empty strings read as the bare server. *)
Definition _jid_from_attr (attr : option AttrValue) : result JID :=
  match attr with
  | Some (AJid j) => Ok j
  | Some (AStr s) => if truthy s then parse_jid s else Ok (mkJID [] PN_SERVER 0)
  | _ => Ok (mkJID [] PN_SERVER 0)
  end.

(** [d.get(name, default)] as text, and [a or b] on attribute values. *)
Definition get_str_or (n : Node) (name default : str) : result str :=
  match get_attr n name with Some v => py_str_attr v | None => Ok default end.

Definition attr_truthy (v : AttrValue) : bool :=
  match v with AStr s => truthy s | AInt n => negb (n =? 0) | AJid _ => true | ABool b => b | ABytes d => truthy d end.

Definition attr_or (a b : option AttrValue) : option AttrValue :=
  match a with Some v => if attr_truthy v then a else b | None => b end.

(** [try: int(raw); except ValueError: default] *)
Definition int_or (raw : result str) (default : Z) : result Z :=
  match s ← raw; py_int s with
  | Ok z => Ok z
  | Raise e => if is_ValueError e then Ok default else Raise e
  end.

Definition _parse_int (raw : str) (default : Z) : result Z := int_or (Ok raw) default.

(** [int(node.get_str("t") or "0")] *)
Definition stanza_time (node : Node) : result Z :=
  int_or (t ← get_str node (u "t"); Ok (if truthy t then t else u "0")) 0.

Definition copy_attr (node : Node) (key : str) (attrs : list (str * AttrValue)) : list (str * AttrValue) :=
  match get_attr node key with Some v => dict_set key v attrs | None => attrs end.

Definition _build_ack_node (node : Node) (own_jid : JID) (error_code : option Z) : result Node :=
  id ← get_str node (u "id");
  let to := default (AJid (mkJID [] PN_SERVER 0)) (get_attr node (u "from")) in
  error ← match error_code with Some c => s ← py_str_int c; Ok [(u "error", AStr s)] | None => Ok [] end;
  let attrs := [(u "id", AStr id); (u "to", to); (u "class", AStr (tag node))] ++ error in
  let attrs := foldl (λ attrs key, copy_attr node key attrs) attrs [u "participant"; u "recipient"; u "type"] in
  let attrs := if bool_decide (tag node = u "message") then dict_set (u "from") (AJid own_jid) attrs else attrs in
  Ok (mkNode (u "ack") attrs CNone).

Definition _read_child_bytes (parent : Node) (t : str) : result bytes :=
  child ← some_or (get_child parent t) ValueError;
  let b := content_bytes child in
  if negb (truthy b) then Raise ValueError else Ok b.

Definition _read_int_be (parent : Node) (t : str) : result Z := b ← _read_child_bytes parent t; Ok (be_val b).

Definition _strip_signal_pubkey (public : bytes) : result bytes :=
  if Z.of_nat (length public) =? 33 then
    if negb (bool_decide (head public = Some (mkb 0x05))) then Raise ValueError else Ok (drop 1 public)
  else if negb (Z.of_nat (length public) =? 32) then Raise ValueError else Ok public.

Definition _parse_retry_keys `{X25519, XEdDSA} (keys : Node) : result PreKeyBundle :=
  identity_key ← (b ← _read_child_bytes keys (u "identity"); _strip_signal_pubkey b);
  skey ← some_or (get_child keys (u "skey")) ValueError;
  spk_id ← _read_int_be skey (u "id");
  spk_pub ← (b ← _read_child_bytes skey (u "value"); _strip_signal_pubkey b);
  spk_sig ← _read_child_bytes skey (u "signature");
  '(opk_id, opk_pub) ← match get_child keys (u "key") with
    | None => Ok (None, None)
    | Some opk_node =>
        i ← _read_int_be opk_node (u "id");
        p ← (b ← _read_child_bytes opk_node (u "value"); _strip_signal_pubkey b);
        Ok (Some i, Some p)
    end;
  let bundle := mkBundle identity_key spk_id spk_pub spk_sig opk_id opk_pub in
  ok ← verify_signature bundle;
  if negb ok then Raise ValueError else Ok bundle.

(** The first [<to>] addressed to us. *)
Fixpoint own_participant (own_jid : JID) (l : list Node) : result (option Node) :=
  match l with
  | [] => Ok None
  | to_node :: l =>
      jid ← _jid_from_attr (get_attr to_node (u "jid"));
      if _same_full_jid jid own_jid then Ok (get_child to_node (u "enc")) else own_participant own_jid l
  end.

Definition _select_enc_node (own_jid : JID) (node : Node) : result (option Node) :=
  match get_child node (u "enc") with
  | Some flat => Ok (Some flat)
  | None =>
      match get_child node (u "participants") with
      | None => Ok None
      | Some participants => own_participant own_jid (get_children participants (Some (u "to")))
      end
  end.

(** The first [<enc>] of type [skmsg]. *)
Fixpoint find_skmsg (l : list Node) : result (option Node) :=
  match l with
  | [] => Ok None
  | e :: l => t ← get_str e (u "type"); if bool_decide (t = u "skmsg") then Ok (Some e) else find_skmsg l
  end.
End Helpers.

Section Receiver.
Context {S I L K G A : Type} {SS : SessionStore S} {IS : IdentityStore I} {LM : LidMap L} {KS : PreKeyStore K} {GS : SenderKeys G}
  {AK : AppStateKeyStore A}.
Context {X : X25519} {E : XEdDSA} {HK : Hkdf} {HM : Hmac} {AES : AesCbc} {PK : Pkcs7} {W : WhisperProto} {SP : SenderKeyProto}.
Context {U : UnicodeDB} {Zl : Zlib} {C : MessageCodec}.
Context (rp : ReceiverParams).

#[local] Abbreviation sstate := (SenderState S I L K G).
#[local] Abbreviation state := (ReceiverState S I L K G A).
#[local] Abbreviation env := (FrameEnv sstate).
#[local] Abbreviation own_jid := (own_jid (rp_sender rp)).
#[local] Abbreviation dev := (sp_device (rp_sender rp)).

(** ** Parts of the state *)

Definition in_sender {B} (m : SE sstate B) : SE state B := λ s,
  let '(x, r) := m (r_sender s) in (mkReceiver x (r_iqs s) (r_app_keys s) (r_events s) (r_tasks s) (r_routing s), r).

Definition on_stores {B} (m : SE (World S I L K) B) : SE state B := in_sender (in_world m).

Definition on_iqs {B} (m : SE Iqs.PendingIqMap B) : SE state B := λ s,
  let '(x, r) := m (r_iqs s) in (mkReceiver (r_sender s) x (r_app_keys s) (r_events s) (r_tasks s) (r_routing s), r).

(** [_safe_emit]: what a handler raises is logged. *)
Definition _safe_emit (ev : Event) : SE state unit := λ s,
  (mkReceiver (r_sender s) (r_iqs s) (r_app_keys s) (r_events s ++ [ev]) (r_tasks s) (r_routing s), Ok tt).

Definition create_task (t : Task) : SE state unit := λ s,
  (mkReceiver (r_sender s) (r_iqs s) (r_app_keys s) (r_events s) (r_tasks s ++ [t]) (r_routing s), Ok tt).

(** [try: m; except Exception: h]. *)
Definition or_log (m : SE state unit) : SE state unit := se_try m is_Exception (λ _, mret tt).

Definition send (e : env) (n : Node) : SE state unit :=
  frame ← se_lift (encode n false); in_sender (transport_send (fe_sender e) frame).

(** ** Answers to the server *)

Definition _send_ack (e : env) (node : Node) : SE state unit :=
  ack ← se_lift (_build_ack_node node own_jid None); send e ack.

Definition _send_delivery_receipt (e : env) (node : Node) (to : JID) : SE state unit :=
  id ← se_lift (get_str node (u "id"));
  send e (mkNode (u "receipt")
    (copy_attr node (u "participant") [(u "id", AStr id); (u "type", AStr (u "delivery")); (u "to", AJid to)]) CNone).

Definition _send_retry_receipt (e : env) (node : Node) (sender : JID) : SE state unit :=
  message_id ← se_lift (get_str node (u "id"));
  if negb (truthy message_id) then mret tt
  else
    t ← se_lift (get_str node (u "t"));
    regid ← se_lift (to_bytes_big 4 (dv_registration_id dev));
    let children :=
      [mkNode (u "retry") [(u "count", AStr (u "1")); (u "id", AStr message_id);
                           (u "t", AStr (if truthy t then t else u "0")); (u "v", AStr (u "1"))] CNone;
       mkNode (u "registration") [] (CBytes regid)] in
    send e (mkNode (u "receipt")
      (copy_attr node (u "participant") [(u "id", AStr message_id); (u "type", AStr (u "retry")); (u "to", AJid sender)])
      (CList children)).

Definition _reply_server_iq (e : env) (node : Node) : SE state unit :=
  iq_id ← se_lift (get_str node (u "id"));
  let attrs := [(u "type", AStr (u "result")); (u "id", AStr iq_id)] in
  let attrs := match get_attr node (u "from") with Some v => dict_set (u "to") v attrs | None => attrs end in
  _ ← send e (mkNode (u "iq") attrs CNone);
  _ ← se_lift (get_str node (u "type"));
  _ ← se_lift (get_str node (u "xmlns"));
  mret tt.

(** ** Messages *)

Definition set_lid (pn_user lid_user : str) : SE state unit := on_stores (on_lids (lid_set pn_user lid_user)).

Definition _record_peer_addressing (node : Node) (sender : JID) : SE state unit :=
  if bool_decide (server sender = LID_SERVER) then
    alt ← se_lift (_jid_from_attr (get_attr node (u "sender_pn")));
    if truthy (user alt) && negb (bool_decide (server alt = LID_SERVER)) then set_lid (user alt) (user sender) else mret tt
  else if bool_decide (server sender = PN_SERVER) then
    alt ← se_lift (_jid_from_attr (get_attr node (u "sender_lid")));
    if truthy (user alt) && bool_decide (server alt = LID_SERVER) then set_lid (user sender) (user alt) else mret tt
  else mret tt.

Definition decrypt (e : env) (i : nat) (sender : JID) (enc_type : str) (ciphertext : bytes) : SE state bytes :=
  on_stores (_decrypt_enc (rp_atomic rp) dev (fe_new e i) sender enc_type ciphertext).

(** The [AppStateSyncKey] of a shared key. *)
Definition sync_key_of (k : SharedKey) : AppStateSyncKey :=
  let data := default (mkKeyData None None None) (shk_key_data k) in
  mkSyncKey (bytes_of (mjoin (shk_key_id k))) (bytes_of (kd_key_data data)) (ser_Fingerprint (kd_fingerprint data))
    (int_of (kd_timestamp data)).

(** [self._app_state_keys.put(..)] *)
Definition put_key (_ : unit) (k : SharedKey) : SE A unit := λ a,
  match ks_put a (sync_key_of k) with Ok a => (a, Ok tt) | Raise e => (a, Raise e) end.

Definition _store_app_state_keys (keys : list SharedKey) : SE state unit := λ s,
  match r_app_keys s with
  | None => (s, Raise AssertionError)
  | Some a =>
      let '(a, r) := atomic (rp_atomic rp) (se_fold put_key tt keys) a in
      (mkReceiver (r_sender s) (r_iqs s) (Some a) (r_events s) (r_tasks s) (r_routing s),
       match r with Raise e => if is_Exception e then Ok tt else Raise e | Ok _ => Ok tt end)
  end.

(** [_handle_protocol_message]: whether the shape is one we support; only our own account
    is trusted. *)
Definition _handle_protocol_message (proto : MessageProto) (sender : JID) : SE state bool :=
  match protocol_message proto with
  | None => mret false
  | Some pm =>
      let from_self := bool_decide (user sender = user own_jid) in
      has_keys ← se_asks (λ s : state, HasField (r_app_keys s));
      h1 ← match pm_app_state_sync_key_share pm with
           | Some keys =>
               if (has_keys : bool) then
                 _ ← (if from_self then _store_app_state_keys keys else mret tt); mret true
               else mret false
           | None => mret false
           end;
      h2 ← match pm_history_sync_notification pm with
           | Some h =>
               if rp_history_sync_handler rp then
                 _ ← (if from_self then create_task (HistorySync h) else mret tt); mret true
               else mret false
           | None => mret false
           end;
      mret (h1 || h2)
  end.

Definition _handle_edit_or_revoke (e : env) (proto : MessageProto) (chat sender : JID) (timestamp : Z) (node : Node)
    : SE state bool :=
  let proto := match edited_message proto with
               | Some inner =>
                   let inner := default empty_message inner in
                   if HasField (protocol_message inner) then inner else proto
               | None => proto
               end in
  match protocol_message proto with
  | None => mret false
  | Some pm =>
      let id := str_of (mk_id (default empty_key (pm_key pm))) in
      let event : option Event :=
        match pm_type pm with
        | None => None
        | Some t =>
            if t =? MESSAGE_EDIT then
              Some (EvEdit (mkEdit chat sender id (_extract_text (default empty_message (pm_edited_message pm))) timestamp))
            else if t =? REVOKE then Some (EvRevoke (mkRevoke chat sender id timestamp))
            else None
        end in
      match event with
      | None => mret false
      | Some ev =>
          _ ← _safe_emit ev;
          _ ← or_log (_send_delivery_receipt e node sender);
          mret true
      end
  end.

(** What is done with a body that decrypted and parsed. *)
Definition handle_body (e : env) (node : Node) (message_id : str) (sender_jid : JID) (timestamp : Z) (proto : MessageProto)
    : SE state unit :=
  match reaction_message proto with
  | Some rm =>
      let key := default empty_key (rm_key rm) in
      _ ← _safe_emit (EvReaction (mkReaction sender_jid sender_jid (str_of (mk_id key)) (str_of (rm_text rm))
                                    (bool_of (mk_from_me key)) (int_of (rm_sender_timestamp_ms rm))));
      or_log (_send_delivery_receipt e node sender_jid)
  | None =>
      handled ← _handle_edit_or_revoke e proto sender_jid sender_jid timestamp node;
      if (handled : bool) then mret tt
      else
        _ ← _handle_protocol_message proto sender_jid;
        _ ← _safe_emit (EvMessage (mkMessage message_id sender_jid sender_jid (_extract_text proto) timestamp false
                                     (_extract_media proto) (_extract_quoted proto)));
        or_log (_send_delivery_receipt e node sender_jid)
  end.

(** A plaintext, unpadded and parsed: [ValueError] is caught around the first, every
    exception around the second. *)
Definition parse_body (plaintext : bytes) : result (MessageProto + reason) :=
  match Padding.unpad_random_max16 plaintext with
  | Raise x => if is_ValueError x then Ok (inr (BadPadding x)) else Raise x
  | Ok unpadded =>
      match parse_Message unpadded with
      | Raise x => if is_Exception x then Ok (inr (BadProto x)) else Raise x
      | Ok proto => Ok (inl proto)
      end
  end.

(** ** Group messages *)

Definition save_group_key (group_id sender_id : str) (st : SenderKeyState) : SE state unit :=
  in_sender (save_sender_key group_id sender_id st).

(** [_ingest_group_skdm]; [i] numbers the [<enc>]. *)
Definition _ingest_group_skdm (e : env) (i : nat) (enc : Node) (group participant : JID) : SE state unit :=
  proto ← se_try
    (enc_type ← se_lift (get_str enc (u "type"));
     plaintext ← decrypt e i participant enc_type (content_bytes enc);
     unpadded ← se_lift (Padding.unpad_random_max16 plaintext);
     proto ← se_lift (parse_Message unpadded);
     mret (Some proto)) is_Exception (λ _, mret None);
  match proto ≫= sender_key_distribution_message with
  | None => mret tt
  | Some skdm =>
      let axolotl := bytes_of (skdm_axolotl skdm) in
      if negb (truthy axolotl) then mret tt
      else match process_distribution_message axolotl with
           | Raise x => if is_Exception x then mret tt else se_raise x
           | Ok st =>
               group_id ← se_lift (JID_str group);
               sid ← se_lift (session_id participant);
               save_group_key group_id sid st
           end
  end.

(** The [for] loop over the [<enc>] children. *)
Fixpoint ingest_all (e : env) (i : nat) (encs : list Node) (group participant : JID) : SE state unit :=
  match encs with
  | [] => mret tt
  | enc :: encs =>
      t ← se_lift (get_str enc (u "type"));
      _ ← (if bool_decide (t ∈ [u "pkmsg"; u "msg"]) then _ingest_group_skdm e i enc group participant else mret tt);
      ingest_all e (Datatypes.S i) encs group participant
  end.

Definition _handle_group_message (e : env) (node : Node) (group : JID) : SE state unit :=
  has_store ← se_asks (λ s : state, HasField (s_sender_keys (r_sender s)));
  if negb (has_store : bool) then mret tt
  else
    message_id ← se_lift (get_str node (u "id"));
    participant ← se_lift (_jid_from_attr (get_attr node (u "participant")));
    timestamp ← se_lift (stanza_time node);
    let encs := get_children node (Some (u "enc")) in
    _ ← ingest_all e 0 encs group participant;
    skmsg_enc ← se_lift (find_skmsg encs);
    match skmsg_enc with
    | None => mret tt
    | Some skmsg_enc =>
        group_id ← se_lift (JID_str group);
        sid ← se_lift (session_id participant);
        store ← se_asks (λ s : state, s_sender_keys (r_sender s));
        store ← se_lift (some_or store AttributeError);
        st ← se_lift (sk_get store group_id sid);
        match st with
        | None => _safe_emit (EvDecryptError message_id NoSenderKey)
        | Some st =>
            text ← se_try
              ('(plaintext, new_state) ← se_lift (group_decrypt st (content_bytes skmsg_enc));
               _ ← save_group_key group_id sid new_state;
               unpadded ← se_lift (Padding.unpad_random_max16 plaintext);
               proto ← se_lift (parse_Message unpadded);
               mret (Some (_extract_text proto)))
              is_Exception (λ x, _ ← _safe_emit (EvDecryptError message_id (SkmsgFailed x)); mret None);
            match text with
            | None => mret tt
            | Some text =>
                _ ← _safe_emit (EvMessage (mkMessage message_id group participant text timestamp false None None));
                or_log (_send_delivery_receipt e node group)
            end
        end
    end.

(** ** [_handle_message] *)

(** From the decryption on. *)
Definition open_message (e : env) (node : Node) (message_id : str) (sender_jid : JID) (timestamp : Z) (enc_type : str)
    (ciphertext : bytes) : SE state unit :=
  plaintext ← se_try (p ← decrypt e 0 sender_jid enc_type ciphertext; mret (Some p)) is_Exception
    (λ x, _ ← _safe_emit (EvDecryptError message_id (DecryptFailed x));
          _ ← or_log (_send_retry_receipt e node sender_jid);
          mret None);
  match plaintext with
  | None => mret tt
  | Some plaintext =>
      _ ← (if rp_retry_handler rp then on_stores (note_incoming_decrypted sender_jid) else mret tt);
      body ← se_lift (parse_body plaintext);
      match body with
      | inr why => _safe_emit (EvDecryptError message_id why)
      | inl proto => handle_body e node message_id sender_jid timestamp proto
      end
  end.

Definition _handle_message (e : env) (node : Node) : SE state unit :=
  message_id ← se_lift (get_str node (u "id"));
  sender_jid ← se_lift (_jid_from_attr (get_attr node (u "from")));
  if bool_decide (server sender_jid = u "g.us") then _handle_group_message e node sender_jid
  else if bool_decide (user sender_jid = u "status" ∧ server sender_jid = u "broadcast") then mret tt
  else
    _ ← _record_peer_addressing node sender_jid;
    timestamp ← se_lift (stanza_time node);
    enc ← se_lift (_select_enc_node own_jid node);
    match enc with
    | None => mret tt
    | Some enc =>
        enc_type ← se_lift (get_str enc (u "type"));
        open_message e node message_id sender_jid timestamp enc_type (content_bytes enc)
    end.

(** ** The other stanzas *)

Definition _handle_failure (node : Node) : SE state unit :=
  reason ← se_lift (get_str node (u "reason"));
  let reason := if truthy reason then reason else u "?" in
  _ ← se_lift (get_str node (u "location"));
  if bool_decide (reason ∈ [u "401"; u "403"]) then _safe_emit (EvLoggedOut reason) else mret tt.

Definition handle_stream_error (node : Node) : SE state unit :=
  code ← se_lift (get_str node (u "code"));
  if bool_decide (code ∈ [u "401"; u "403"]) then _safe_emit (EvLoggedOut code) else mret tt.

Definition _handle_presence (node : Node) : SE state unit :=
  p ← se_lift (Presence.parse_presence node); _safe_emit (EvPresence p).

Definition _handle_chatstate (node : Node) : SE state unit :=
  p ← se_lift (Presence.parse_chat_presence node); _safe_emit (EvChatPresence p).

Definition _handle_receipt (e : env) (node : Node) : SE state unit :=
  receipt_type ← se_lift (get_str node (u "type"));
  if negb (bool_decide (receipt_type = u "retry")) then
    r ← se_lift (Presence.parse_receipt node);
    _ ← _safe_emit (EvReceipt r);
    _send_ack e node
  else
    msg_id ← se_lift (get_str node (u "id"));
    peer ← se_lift (_jid_from_attr (attr_or (get_attr node (u "participant")) (get_attr node (u "from"))));
    raw ← se_lift match get_child node (u "retry") with Some c => get_str_or c (u "count") (u "1") | None => Ok (u "1") end;
    count ← se_lift (_parse_int raw 1);
    bundle ← se_lift match get_child node (u "keys") with
             | None => Ok None
             | Some keys => match _parse_retry_keys keys with
                            | Ok b => Ok (Some b)
                            | Raise x => if is_Exception x then Ok None else Raise x
                            end
             end;
    _ ← (if rp_retry_handler rp && truthy msg_id && truthy (user peer)
         then in_sender (handle_retry_receipt (rp_sender rp) (fe_sender e) msg_id peer bundle count) else mret tt);
    _send_ack e node.

(** The attributes of the [<retry>] child as text, then the error. *)
Definition retry_attrs_of (node : Node) (retry_child : option Node) : result (list (str * str)) :=
  out ← match retry_child with
        | Some c => mapR (λ '(k, v), s ← py_str_attr v; Ok (k, s)) (attrs c)
        | None => Ok []
        end;
  match get_attr node (u "error") with
  | Some v => s ← py_str_attr v; Ok (dict_set (u "error") s out)
  | None => Ok out
  end.

Definition _handle_ack (node : Node) : SE state unit :=
  ack_id ← se_lift (get_str node (u "id"));
  if negb (truthy ack_id) then mret tt
  else
    _ ← se_lift (get_str node (u "class"));
    let retry_child := get_child node (u "retry") in
    if HasField retry_child || HasField (get_attr node (u "error")) then
      attrs_out ← se_lift (retry_attrs_of node retry_child);
      in_sender (λ s, (on_router (Router.resolve_retry ack_id attrs_out) s, Ok tt))
    else in_sender (λ s, (on_router (Router.resolve_ack ack_id) s, Ok tt)).

Definition _handle_iq (e : env) (node : Node) : SE state unit :=
  iq_id ← se_lift (get_str node (u "id"));
  if negb (truthy iq_id) then mret tt
  else
    iq_type ← se_lift (get_str node (u "type"));
    if bool_decide (iq_type ∈ [u "result"; u "error"]) then _ ← on_iqs (Iqs.resolve iq_id node); mret tt
    else _reply_server_iq e node.

(** The effects of the info-broadcast dispatcher; a send that fails is logged. *)
Definition ib_effect (e : env) (_ : unit) (ef : Ib.effect) : SE state unit :=
  match ef with
  | Ib.StoreRoutingInfo data => λ s,
      (mkReceiver (r_sender s) (r_iqs s) (r_app_keys s) (r_events s) (r_tasks s) (r_routing s ++ [data]), Ok tt)
  | Ib.SendStanza data => or_log (in_sender (transport_send (fe_sender e) data))
  end.

Definition handle_ib (e : env) (node : Node) : SE state unit :=
  match rp_ib_handler rp with
  | Some (has_sink, batch_count) =>
      let '(effects, r) := Ib.handle_ib has_sink batch_count node in
      _ ← se_fold (ib_effect e) tt effects; se_lift r
  | None => _ ← se_lift (get_str node (u "id")); _ ← se_lift (get_str node (u "type")); mret tt
  end.

Definition handle_notification (e : env) (node : Node) : SE state unit :=
  _ ← se_lift (get_str node (u "id"));
  type ← se_lift (get_str node (u "type"));
  _ ← (if bool_decide (type = u "server_sync") && rp_server_sync_handler rp then create_task (ServerSync node) else mret tt);
  _send_ack e node.

(** ** Dispatch and the reader loop *)

(** [_handle_frame] once the frame is decoded. *)
Definition dispatch (e : env) (node : Node) : SE state unit :=
  let t := tag node in
  if bool_decide (t = u "message") then _handle_message e node
  else if bool_decide (t = u "ack") then _handle_ack node
  else if bool_decide (t = u "iq") then _handle_iq e node
  else if bool_decide (t = u "receipt") then _handle_receipt e node
  else if bool_decide (t = u "success") then
    (if rp_success_handler rp then create_task (OnSuccess node) else mret tt)
  else if bool_decide (t = u "ib") then handle_ib e node
  else if bool_decide (t = u "presence") then _handle_presence node
  else if bool_decide (t = u "chatstate") then _handle_chatstate node
  else if bool_decide (t = u "offline") then _ ← se_lift (get_str node (u "id")); mret tt
  else if bool_decide (t = u "notification") then handle_notification e node
  else if bool_decide (t = u "failure") then _handle_failure node
  else if bool_decide (t = u "stream:error") then handle_stream_error node
  else mret tt.

Definition _handle_frame (e : env) (frame : bytes) : SE state unit :=
  match decode frame with
  | Ok node => dispatch e node
  | Raise x => if is_Exception x then mret tt else se_raise x
  end.

(** [run]: what [transport.recv] returns or raises, in order; [None] is a reader still
    waiting, [Some r] one that has ended. *)
Fixpoint run (received : list (env * result bytes)) (s : state) : state * option (result unit) :=
  match received with
  | [] => (s, None)
  | (e, Raise x) :: _ => (s, Some (if is_Exception x then Ok tt else Raise x))
  | (e, Ok frame) :: received =>
      match _handle_frame e frame s with
      | (s, Raise x) => if is_Exception x then run received s else (s, Some (Raise x))
      | (s, Ok _) => run received s
      end
  end.
End Receiver.
