(* ===== verification/ReceiverProofs.v ===== *)
(** * What the receiver guarantees

    What a message stanza leads to, who is trusted with keys, and what the reader task does
    to a send that waits. *)

From S2P Require Import Prelude Effects PyStr Jid Node Encoder Decoder Codec Crypto AppCrypto SignalKeys X3dh SignalTypes Ratchet SenderKey.
From S2P Require Import SessionStore LidMap PeerStores Outbox Stanzas Messages PeerSessions PeerTalk Sender SenderProofs Receiver.

Section ReceiverProofs.
Context {S I L K G A : Type} {SS : SessionStore S} {IS : IdentityStore I} {LM : LidMap L} {KS : PreKeyStore K} {GS : SenderKeys G}
  {AK : AppStateKeyStore A}.
Context {X : X25519} {E : XEdDSA} {HK : Hkdf} {HM : Hmac} {AES : AesCbc} {PK : Pkcs7} {W : WhisperProto} {SP : SenderKeyProto}.
Context {U : UnicodeDB} {Zl : Zlib} {C : MessageCodec}.
Context (rp : ReceiverParams).

#[local] Abbreviation sstate := (SenderState S I L K G).
#[local] Abbreviation state := (ReceiverState S I L K G A).
#[local] Abbreviation env := (FrameEnv sstate).

(** ** Trust *)

(** No app-state key is stored and no history download is started. *)
Definition unshared (s s' : state) : Prop :=
  r_app_keys s' = r_app_keys s ∧ ∀ h, HistorySync h ∈ r_tasks s' → HistorySync h ∈ r_tasks s.

#[local] Instance unshared_preorder : PreOrder unshared.
Proof. split; [done|]. intros s1 s2 s3 [H1 H2] [H3 H4]. split; [congruence|auto]. Qed.

Lemma unshared_sender {B} (m : SE sstate B) : keeps unshared (in_sender (A := A) m).
Proof. intros s. unfold in_sender. by destruct (m (r_sender s)). Qed.

Lemma unshared_iqs {B} (m : SE Iqs.PendingIqMap B) : keeps unshared (on_iqs (S := S) (I := I) (L := L) (K := K) (G := G) (A := A) m).
Proof. intros s. unfold on_iqs. by destruct (m (r_iqs s)). Qed.

Lemma unshared_emit ev : keeps unshared (_safe_emit (S := S) (I := I) (L := L) (K := K) (G := G) (A := A) ev).
Proof. done. Qed.

Lemma unshared_task t : match t with HistorySync _ => False | _ => True end →
  keeps unshared (create_task (S := S) (I := I) (L := L) (K := K) (G := G) (A := A) t).
Proof. intros Ht s. split; [done|]. cbn. intros h [Hh|Hh%list_elem_of_singleton]%elem_of_app; [done|by subst t]. Qed.

#[local] Hint Resolve unshared_sender unshared_iqs unshared_emit unshared_task : keeps.

Lemma unshared_send e n : keeps unshared (send (A := A) e n).
Proof. unfold send. keeps. Qed.

Lemma unshared_log m : keeps unshared m → keeps unshared (or_log (S := S) (I := I) (L := L) (K := K) (G := G) (A := A) m).
Proof. intros Hm. unfold or_log. keeps. Qed.

#[local] Hint Resolve unshared_send unshared_log : keeps.

Lemma unshared_receipt e node to : keeps unshared (_send_delivery_receipt (A := A) e node to).
Proof. unfold _send_delivery_receipt. keeps. Qed.

Lemma unshared_retry e node to : keeps unshared (_send_retry_receipt rp (A := A) e node to).
Proof. unfold _send_retry_receipt. keeps. Qed.

Lemma unshared_ack e node : keeps unshared (_send_ack rp (A := A) e node).
Proof. unfold _send_ack. keeps. Qed.

#[local] Hint Resolve unshared_receipt unshared_retry unshared_ack : keeps.

Lemma unshared_edit e proto chat sender t node : keeps unshared (_handle_edit_or_revoke (A := A) e proto chat sender t node).
Proof. unfold _handle_edit_or_revoke. keeps. Qed.

(** A protocol message of somebody else is not acted upon. *)
Lemma unshared_protocol proto sender : user sender ≠ user (own_jid (rp_sender rp)) →
  keeps unshared (_handle_protocol_message rp (A := A) proto sender).
Proof. intros Hs. unfold _handle_protocol_message. rewrite bool_decide_false by done. keeps. Qed.

#[local] Hint Resolve unshared_edit unshared_protocol : keeps.

Lemma unshared_body e node id sender t proto : user sender ≠ user (own_jid (rp_sender rp)) →
  keeps unshared (handle_body rp (A := A) e node id sender t proto).
Proof. intros Hs. unfold handle_body. keeps. Qed.

Lemma unshared_decrypt e i sender t c : keeps unshared (decrypt rp (A := A) e i sender t c).
Proof. unfold decrypt, on_stores. keeps. Qed.

#[local] Hint Resolve unshared_body unshared_decrypt : keeps.

Lemma unshared_open e node id sender t enc_type c : user sender ≠ user (own_jid (rp_sender rp)) →
  keeps unshared (open_message rp (A := A) e node id sender t enc_type c).
Proof. intros Hs. unfold open_message, on_stores. keeps. Qed.

Lemma unshared_ingest e i enc group participant : keeps unshared (_ingest_group_skdm rp (A := A) e i enc group participant).
Proof. unfold _ingest_group_skdm, save_group_key. keeps. Qed.

#[local] Hint Resolve unshared_open unshared_ingest : keeps.

Lemma unshared_ingest_all e encs group participant : ∀ i, keeps unshared (ingest_all rp (A := A) e i encs group participant).
Proof. induction encs as [|enc encs IH]; intros i; cbn [ingest_all]; keeps. Qed.

#[local] Hint Resolve unshared_ingest_all : keeps.

Lemma unshared_group e node group : keeps unshared (_handle_group_message rp (A := A) e node group).
Proof. unfold _handle_group_message, save_group_key. keeps. Qed.

Lemma unshared_addressing node sender : keeps unshared (_record_peer_addressing (S := S) (I := I) (K := K) (G := G) (A := A) node sender).
Proof. unfold _record_peer_addressing, set_lid, on_stores. keeps. Qed.

#[local] Hint Resolve unshared_group unshared_addressing : keeps.

(** A message stanza of somebody else. *)
Lemma unshared_message e node : (∀ j, _jid_from_attr (get_attr node (u "from")) = Ok j → user j ≠ user (own_jid (rp_sender rp))) →
  keeps unshared (_handle_message rp (A := A) e node).
Proof.
  intros Hf. unfold _handle_message. apply keeps_bind; [typeclasses eauto|keeps|]. intros id.
  apply keeps_bind_lift; [typeclasses eauto|]. intros j Hj. specialize (Hf j Hj). keeps.
Qed.

#[local] Hint Resolve unshared_message : keeps.

Lemma unshared_handle_receipt e node : keeps unshared (_handle_receipt rp (A := A) e node).
Proof. unfold _handle_receipt. keeps. Qed.

Lemma unshared_dispatch e node :
  (tag node = u "message" → ∀ j, _jid_from_attr (get_attr node (u "from")) = Ok j → user j ≠ user (own_jid (rp_sender rp))) →
  keeps unshared (dispatch rp (A := A) e node).
Proof.
  intros Hf. unfold dispatch. case_bool_decide as Ht; [apply unshared_message; auto|]. clear Hf Ht.
  unfold _handle_ack, _handle_iq, _reply_server_iq, handle_ib, _handle_presence, _handle_chatstate, handle_notification,
    _handle_failure, handle_stream_error.
  repeat (apply keeps_if; [first [apply unshared_handle_receipt|keeps]|]); [|keeps].
  unfold ib_effect. keeps. intros s. done.
Qed.

(** ** What the reader does to a send that waits *)

(** Seen from a send waiting for the acknowledgement of [id]. *)
Definition leaves (id : str) (s s' : sstate) : Prop := ∃ evs others,
  s_router s' = Router.run (s_router s) evs ∧ (Router.Register id ∉ evs) ∧ s_wire s' = s_wire s ++ others ∧
  s_sent s' !! id = s_sent s !! id.

#[local] Instance leaves_preorder id : PreOrder (leaves id).
Proof.
  split.
  - intros s. exists [], []. by rewrite app_nil_r; split_and!; [|apply not_elem_of_nil|..].
  - intros s1 s2 s3 (evs & o & R1 & N1 & W1 & T1) (evs' & o' & R2 & N2 & W2 & T2). exists (evs ++ evs'), (o ++ o').
    split_and!; [by rewrite R2, R1; unfold Router.run; rewrite foldl_app|set_solver|by rewrite W2, W1, app_assoc|congruence].
Qed.

Definition r_leaves (id : str) (s s' : state) : Prop := leaves id (r_sender s) (r_sender s').

#[local] Instance r_leaves_preorder id : PreOrder (r_leaves id).
Proof. split; [intros s; unfold r_leaves; reflexivity|intros s1 s2 s3; unfold r_leaves; apply transitivity]. Qed.

Lemma leaves_world {B} id (m : SE (World S I L K) B) : keeps (leaves id) (in_world (G := G) m).
Proof.
  intros s. unfold in_world. destruct (m (s_world s)) as [w r]. exists [], [].
  split_and!; [done|apply not_elem_of_nil|cbn; by rewrite app_nil_r|done].
Qed.

Lemma leaves_send id e frame : keeps (leaves id) (transport_send (S := S) (I := I) (L := L) (K := K) (G := G) e frame).
Proof.
  intros s. unfold transport_send. destruct (sending e frame); [|reflexivity].
  exists [], [frame]. split_and!; [done|apply not_elem_of_nil|done|done].
Qed.

Lemma leaves_step id ev (s : sstate) : ev ≠ Router.Register id → leaves id s (on_router (λ r, Router.step r ev) s).
Proof.
  intros Hev. exists [ev], []. split_and!; [done|intros Hx%list_elem_of_singleton; by apply Hev|cbn; by rewrite app_nil_r|done].
Qed.

Lemma leaves_cancel id id' : keeps (leaves id) (cancel (S := S) (I := I) (L := L) (K := K) (G := G) id').
Proof. intros s. by apply (leaves_step id (Router.Cancel id')). Qed.

Lemma leaves_register id id' : id' ≠ id → keeps (leaves id) (register (S := S) (I := I) (L := L) (K := K) (G := G) id').
Proof.
  intros Hne s. assert ((register id' s).1 = on_router (λ r, Router.step r (Router.Register id')) s) as ->.
  { unfold register, on_router. cbn [Router.step]. by destruct (Router.register id' (s_router s)). }
  apply leaves_step. congruence.
Qed.

Lemma leaves_sent id id' m : id' ≠ id → keeps (leaves id) (set_sent (S := S) (I := I) (L := L) (K := K) (G := G) id' m).
Proof.
  intros Hne s. exists [], []. split_and!; [done|apply not_elem_of_nil|cbn; by rewrite app_nil_r|cbn; by rewrite lookup_insert_ne].
Qed.

Lemma leaves_keys id g : keeps (leaves id) (set_sender_keys (S := S) (I := I) (L := L) (K := K) (G := G) g).
Proof. intros s. exists [], []. split_and!; [done|apply not_elem_of_nil|cbn; by rewrite app_nil_r|done]. Qed.

Lemma leaves_wait id e n : fair id e → keeps (leaves id) (wait_for (S := S) (I := I) (L := L) (K := K) (G := G) e n).
Proof.
  intros Hfair s. assert (leaves id s (meanwhile e s)) as Hm.
  { destruct (Hfair s) as (evs & others & ? & ? & ? & ?). by exists evs, others. }
  assert (leaves id s (on_router (λ r, Router.step r (Router.Abandon n)) (meanwhile e s))) as Ha.
  { etransitivity; [exact Hm|]. by apply leaves_step. }
  unfold wait_for. by destruct (_ !! n) as [[]|].
Qed.

#[local] Hint Resolve leaves_world leaves_send leaves_cancel leaves_register leaves_sent leaves_keys leaves_wait : keeps.

Lemma leaves_finally {B} id (m : SE sstate B) f : keeps (leaves id) m → keeps (leaves id) f → keeps (leaves id) (finally m f).
Proof.
  intros Hm Hf s. unfold finally. specialize (Hm s). destruct (m s) as [s1 r]. specialize (Hf s1). destruct (f s1) as [s2 x].
  cbn in *. by etransitivity.
Qed.

#[local] Hint Resolve leaves_finally : keeps.

(** A resend of another message. *)
Lemma leaves_retry_receipt id sp e id' peer bundle count : id' ≠ id → fair id e →
  keeps (leaves id) (handle_retry_receipt (S := S) (I := I) (L := L) (K := K) (G := G) sp e id' peer bundle count).
Proof.
  intros Hne Hfair. unfold handle_retry_receipt, encrypt_for_peer, adopt_bundle. keeps.
  apply leaves_finally; keeps.
Qed.

Lemma leaves_sender_key id g k st : keeps (leaves id) (save_sender_key (S := S) (I := I) (L := L) (K := K) g k st).
Proof. unfold save_sender_key. keeps. Qed.

(** From the sender's state to the receiver's. *)
Lemma r_leaves_sender {B} id (m : SE sstate B) : keeps (leaves id) m → keeps (r_leaves id) (in_sender (A := A) m).
Proof. intros Hm s. unfold r_leaves, in_sender. specialize (Hm (r_sender s)). by destruct (m (r_sender s)). Qed.

Lemma r_leaves_same {B} id (m : SE state B) : (∀ s, r_sender (m s).1 = r_sender s) → keeps (r_leaves id) m.
Proof. intros Hm s. unfold r_leaves. rewrite Hm. reflexivity. Qed.

Lemma r_leaves_emit id ev : keeps (r_leaves id) (_safe_emit (S := S) (I := I) (L := L) (K := K) (G := G) (A := A) ev).
Proof. by apply r_leaves_same. Qed.

Lemma r_leaves_task id t : keeps (r_leaves id) (create_task (S := S) (I := I) (L := L) (K := K) (G := G) (A := A) t).
Proof. by apply r_leaves_same. Qed.

Lemma r_leaves_iqs {B} id (m : SE Iqs.PendingIqMap B) : keeps (r_leaves id) (on_iqs (S := S) (I := I) (L := L) (K := K) (G := G) (A := A) m).
Proof. apply r_leaves_same. intros s. unfold on_iqs. by destruct (m (r_iqs s)). Qed.

Lemma r_leaves_keys id keys : keeps (r_leaves id) (_store_app_state_keys rp (S := S) (I := I) (L := L) (K := K) (G := G) (A := A) keys).
Proof.
  apply r_leaves_same. intros s. unfold _store_app_state_keys. destruct (r_app_keys s) as [a|]; [|done].
  by destruct (atomic _ _ a).
Qed.

#[local] Hint Resolve r_leaves_sender r_leaves_emit r_leaves_task r_leaves_iqs r_leaves_keys leaves_sender_key leaves_retry_receipt : keeps.

Lemma r_leaves_message id e node : keeps (r_leaves id) (_handle_message rp (A := A) e node).
Proof.
  assert (∀ i enc g p, keeps (r_leaves id) (_ingest_group_skdm rp (A := A) e i enc g p)) as Hi.
  { intros. unfold _ingest_group_skdm, decrypt, on_stores, save_group_key. keeps. }
  assert (∀ encs i g p, keeps (r_leaves id) (ingest_all rp (A := A) e i encs g p)) as Hall.
  { induction encs as [|enc encs IH]; intros i g p; cbn [ingest_all]; keeps. }
  unfold _handle_message, _handle_group_message, _record_peer_addressing, set_lid, open_message, handle_body,
    _handle_edit_or_revoke, _handle_protocol_message, _send_delivery_receipt, _send_retry_receipt, or_log, send, decrypt, on_stores,
    save_group_key.
  keeps.
Qed.

Lemma r_leaves_dispatch id e node : fair id (fe_sender e) →
  (tag node = u "receipt" → get_str node (u "id") ≠ Ok id) → keeps (r_leaves id) (dispatch rp (A := A) e node).
Proof.
  intros Hfair Hid.
  assert (∀ a f r, keeps (r_leaves id) (λ s : state, (mkReceiver (r_sender s) (a s) (f s) (r_events s) (r_tasks s) (r s), Ok tt))) as Hrec
    by (intros; by apply r_leaves_same).
  unfold dispatch. case_bool_decide; [apply r_leaves_message|].
  unfold _handle_ack. case_bool_decide.
  { keeps; apply r_leaves_sender; intros s; [by apply (leaves_step id (Router.Retry _ _))|by apply (leaves_step id (Router.Ack _))]. }
  unfold _handle_iq, _reply_server_iq, send. case_bool_decide; [keeps|].
  case_bool_decide as Ht.
  { specialize (Hid Ht). unfold _handle_receipt, _send_ack, send. apply keeps_bind_lift; [typeclasses eauto|]. intros t _.
    destruct (negb _); [keeps|]. apply keeps_bind_lift; [typeclasses eauto|]. intros id' Hid'.
    assert (id' ≠ id) by congruence. keeps. }
  unfold handle_ib, _handle_presence, _handle_chatstate, handle_notification, _handle_failure, handle_stream_error, _send_ack, send, ib_effect, or_log.
  keeps.
Qed.

(** ** What a message leads to *)

(** The events and stanzas that a computation adds, by its result. *)
Definition logs {B} (m : SE state B) (Q : result B → list Event → list bytes → Prop) : Prop := ∀ s s' r, m s = (s', r) →
  ∃ evs ws, r_events s' = r_events s ++ evs ∧ s_wire (r_sender s') = s_wire (r_sender s) ++ ws ∧ Q r evs ws.

Lemma logs_weaken {B} (m : SE state B) (Q Q' : result B → list Event → list bytes → Prop) :
  logs m Q → (∀ r evs ws, Q r evs ws → Q' r evs ws) → logs m Q'.
Proof. intros Hm HQ s s' r H. destruct (Hm s s' r H) as (evs & ws & ? & ? & ?). exists evs, ws. auto. Qed.

Lemma logs_bind {B D} (m : SE state B) (f : B → SE state D) Q1 (Q : result D → list Event → list bytes → Prop) : logs m Q1 →
  (∀ x evs ws, Q1 (Raise x) evs ws → Q (Raise x) evs ws) →
  (∀ a evs ws, Q1 (Ok a) evs ws → logs (f a) (λ r' evs' ws', Q r' (evs ++ evs') (ws ++ ws'))) → logs (m ≫= f) Q.
Proof.
  intros Hm Hx Hf s s' r H. unfold mbind, se_bind in H. destruct (m s) as [s1 [a|x]] eqn:E1.
  - destruct (Hm _ _ _ E1) as (evs & ws & H1 & H2 & H3). destruct (Hf a evs ws H3 _ _ _ H) as (evs' & ws' & H4 & H5 & H6).
    exists (evs ++ evs'), (ws ++ ws'). by rewrite H4, H1, H5, H2, !app_assoc.
  - injection H as <- <-. destruct (Hm _ _ _ E1) as (evs & ws & H1 & H2 & H3). exists evs, ws. auto.
Qed.

Lemma logs_pure {B} (m : SE state B) Q : (∀ s, ∃ r, m s = (s, r) ∧ Q r [] []) → logs m Q.
Proof. intros Hm s s' r H. destruct (Hm s) as (r' & E1 & HQ). rewrite E1 in H. injection H as <- <-. exists [], []. by rewrite !app_nil_r. Qed.

Lemma logs_ret {B} (a : B) (Q : result B → list Event → list bytes → Prop) : Q (Ok a) [] [] → logs (mret a) Q.
Proof. intros. apply logs_pure. intros s. by exists (Ok a). Qed.

Lemma logs_lift {B D} (r : result B) (f : B → SE state D) Q : (∀ x, r = Raise x → Q (Raise x) [] []) →
  (∀ a, r = Ok a → logs (f a) Q) → logs (se_lift r ≫= f) Q.
Proof.
  intros Hx Hf. destruct r as [a|x]; [exact (Hf a eq_refl)|]. apply logs_pure. intros s. exists (Raise x). auto.
Qed.

(** Nothing is added. *)
Definition same_log (s s' : state) : Prop := r_events s' = r_events s ∧ s_wire (r_sender s') = s_wire (r_sender s).

#[local] Instance same_log_preorder : PreOrder same_log.
Proof. split; [done|]. intros s1 s2 s3 [] []. split; congruence. Qed.

Lemma logs_silent {B D} (m : SE state B) (f : B → SE state D) Q : keeps same_log m → (∀ x, Q (Raise x) [] []) →
  (∀ a, logs (f a) Q) → logs (m ≫= f) Q.
Proof.
  intros Hm Hx Hf. apply (logs_bind m f (λ _ evs ws, evs = [] ∧ ws = [])).
  - intros s s' r H. destruct (keeps_run _ _ _ _ _ Hm H) as [H1 H2]. exists [], []. by rewrite !app_nil_r.
  - by intros x evs ws [-> ->].
  - intros a evs ws [-> ->]. cbn. apply Hf.
Qed.

Lemma logs_emit {D} ev (f : unit → SE state D) Q : logs (f tt) (λ r evs ws, Q r (ev :: evs) ws) → logs (_safe_emit ev ≫= f) Q.
Proof.
  intros Hf. apply (logs_bind _ f (λ r evs ws, r = Ok tt ∧ evs = [ev] ∧ ws = [])).
  - intros s s' r [= <- <-]. exists [ev], []. by rewrite app_nil_r.
  - by intros x evs ws [? _].
  - intros [] evs ws (_ & -> & ->). exact Hf.
Qed.

Lemma logs_emit_last ev Q : Q (Ok tt) [ev] [] → logs (_safe_emit ev) Q.
Proof. intros HQ s s' r [= <- <-]. exists [ev], []. by rewrite app_nil_r. Qed.

(** At most the stanza [n]. *)
Definition perhaps (P : bytes → Prop) (ws : list bytes) : Prop := ws = [] ∨ ∃ f, P f ∧ ws = [f].

Lemma logs_send e n : logs (send (A := A) e n) (λ _ evs ws, evs = [] ∧ perhaps (λ f, encode n false = Ok f) ws).
Proof.
  unfold send. apply logs_lift; [intros; split; [done|by left]|]. intros frame Hf s s' r H.
  unfold in_sender, transport_send in H. destruct (sending (fe_sender e) frame); injection H as <- <-.
  - exists [], [frame]. split_and!; [by rewrite app_nil_r|done|done|]. right. eauto.
  - exists [], []. rewrite !app_nil_r. split_and!; [done|done|done|by left].
Qed.

Lemma logs_or_log (m : SE state unit) Q : logs m (λ _, Q) → logs (or_log m) (λ _, Q).
Proof.
  intros Hm s s' r H. unfold or_log, se_try in H. destruct (m s) as [s1 r1] eqn:E1.
  destruct (Hm _ _ _ E1) as (evs & ws & H1 & H2 & H3). exists evs, ws.
  destruct r1 as [|x]; [by injection H as <- <-|]. destruct (is_Exception x); by injection H as <- <-.
Qed.

(** The delivery receipt for a stanza, and the request to send it again. *)
Definition delivery (node : Node) (to : JID) (f : bytes) : Prop := ∃ id, get_str node (u "id") = Ok id ∧
  encode (mkNode (u "receipt")
    (copy_attr node (u "participant") [(u "id", AStr id); (u "type", AStr (u "delivery")); (u "to", AJid to)]) CNone) false = Ok f.

Definition retry_request (node : Node) (to : JID) (f : bytes) : Prop := ∃ id content, get_str node (u "id") = Ok id ∧ truthy id = true ∧
  encode (mkNode (u "receipt")
    (copy_attr node (u "participant") [(u "id", AStr id); (u "type", AStr (u "retry")); (u "to", AJid to)]) content) false = Ok f.

(** The event that tells the user about the message. *)
Definition concerns (id : str) (chat sender : JID) (ev : Event) : Prop :=
  match ev with
  | EvMessage m => msg_id m = id ∧ msg_chat m = chat ∧ msg_sender m = sender ∧ msg_from_me m = false
  | EvReaction r => re_chat r = chat ∧ re_sender r = sender
  | EvEdit x => ed_chat x = chat ∧ ed_sender x = sender
  | EvRevoke x => rv_chat x = chat ∧ rv_sender x = sender
  | _ => False
  end.

(** Nothing; a failure, with a request to send again; or an event, with a delivery receipt. *)
Definition outcome (node : Node) (id : str) (chat sender : JID) (evs : list Event) (ws : list bytes) : Prop :=
  (evs = [] ∧ ws = []) ∨
  (∃ why, evs = [EvDecryptError id why] ∧ perhaps (retry_request node sender) ws) ∨
  (∃ ev, evs = [ev] ∧ concerns id chat sender ev ∧ perhaps (delivery node chat) ws).

Lemma outcome_nothing node id chat sender : outcome node id chat sender [] [].
Proof. by left. Qed.

Lemma outcome_failed node id chat sender why : outcome node id chat sender [EvDecryptError id why] [].
Proof. right. left. exists why. split; [done|by left]. Qed.

#[local] Hint Resolve outcome_nothing outcome_failed : keeps.

Lemma logs_delivery e node to : logs (_send_delivery_receipt (A := A) e node to) (λ _ evs ws, evs = [] ∧ perhaps (delivery node to) ws).
Proof.
  unfold _send_delivery_receipt. apply logs_lift; [intros; split; [done|by left]|]. intros id Hid.
  eapply logs_weaken; [apply logs_send|]. intros r evs ws [-> [->|(f & Hf & ->)]]; (split; [done|]); [by left|right].
  exists f. split; [by exists id|done].
Qed.

Lemma logs_retry e node to : logs (_send_retry_receipt rp (A := A) e node to) (λ _ evs ws, evs = [] ∧ perhaps (retry_request node to) ws).
Proof.
  assert ([] =@{list Event} [] ∧ perhaps (retry_request node to) []) as H0 by (split; [done|by left]).
  unfold _send_retry_receipt. apply logs_lift; [done|]. intros id Hid. destruct (truthy id) eqn:Ht; [|by apply logs_ret].
  cbn [negb]. apply logs_lift; [done|]. intros t _. apply logs_lift; [done|]. intros reg _.
  eapply logs_weaken; [apply logs_send|]. intros r evs ws [-> [->|(f & Hf & ->)]]; (split; [done|]); [by left|right].
  exists f. split; [|done]. eexists id, _. split_and!; [done|done|exact Hf].
Qed.

(** An event and its delivery receipt. *)
Lemma logs_told e node id chat sender ev : concerns id chat sender ev →
  logs (_ ← _safe_emit ev; or_log (_send_delivery_receipt e node chat)) (λ _ evs ws, outcome node id chat sender evs ws).
Proof.
  intros Hev. apply logs_emit. eapply logs_weaken; [apply logs_or_log, logs_delivery|].
  intros r evs ws [-> Hws]. right. right. by exists ev.
Qed.

(** *** Silent parts *)

Lemma silent_stores {B} (m : SE (World S I L K) B) : keeps same_log (on_stores (G := G) (A := A) m).
Proof. intros s. unfold on_stores, in_sender, in_world. by destruct (m _). Qed.

Lemma silent_key g k st : keeps same_log (save_group_key (S := S) (I := I) (L := L) (K := K) (A := A) g k st).
Proof.
  intros s. unfold save_group_key, in_sender. destruct (save_sender_key g k st (r_sender s)) as [s1 r1] eqn:E1.
  assert (keeps (λ x y : sstate, s_wire y = s_wire x) (save_sender_key g k st)) as Hk.
  { clear. intros x. unfold save_sender_key, mbind, se_bind, se_asks, se_lift, set_sender_keys.
    destruct (s_sender_keys x); [|done]. cbn. by destruct (sk_put _ _ _ _) as [? []]. }
  split; [done|]. cbn. exact (keeps_run _ _ _ _ _ Hk E1).
Qed.

Lemma silent_keys keys : keeps same_log (_store_app_state_keys rp (S := S) (I := I) (L := L) (K := K) (G := G) (A := A) keys).
Proof. intros s. unfold _store_app_state_keys. destruct (r_app_keys s); [|done]. by destruct (atomic _ _ _). Qed.

Lemma silent_task t : keeps same_log (create_task (S := S) (I := I) (L := L) (K := K) (G := G) (A := A) t).
Proof. done. Qed.

#[local] Hint Resolve silent_stores silent_key silent_keys silent_task : keeps.

Lemma silent_protocol proto sender : keeps same_log (_handle_protocol_message rp (A := A) proto sender).
Proof. unfold _handle_protocol_message. keeps. Qed.

Lemma silent_decrypt e i sender t c : keeps same_log (decrypt rp (A := A) e i sender t c).
Proof. unfold decrypt. keeps. Qed.

Lemma silent_addressing node sender : keeps same_log (_record_peer_addressing (S := S) (I := I) (K := K) (G := G) (A := A) node sender).
Proof. unfold _record_peer_addressing, set_lid. keeps. Qed.

#[local] Hint Resolve silent_protocol silent_decrypt silent_addressing : keeps.

Lemma silent_ingest e encs group participant : ∀ i, keeps same_log (ingest_all rp (A := A) e i encs group participant).
Proof. induction encs as [|enc encs IH]; intros i; cbn [ingest_all]; unfold _ingest_group_skdm; keeps. Qed.

#[local] Hint Resolve silent_ingest : keeps.

(** *** Messages *)

Lemma logs_edit e proto sender t node id : logs (_handle_edit_or_revoke (A := A) e proto sender sender t node)
  (λ r evs ws, outcome node id sender sender evs ws ∧ (r = Ok false → evs = [] ∧ ws = [])).
Proof.
  unfold _handle_edit_or_revoke. cbv zeta. destruct (protocol_message _) as [pm|]; [|apply logs_ret; auto with keeps].
  match goal with |- logs (match ?x with _ => _ end) _ => destruct x as [ev|] eqn:Eev end; [|apply logs_ret; auto with keeps].
  assert (concerns id sender sender ev) as Hev.
  { destruct (pm_type pm) as [ty|]; [|done]. destruct (ty =? MESSAGE_EDIT); [by injection Eev as <-|].
    destruct (ty =? REVOKE); [by injection Eev as <-|done]. }
  intros s s' r H.
  assert (∀ (m : SE state unit) s s' r, (_ ← _safe_emit ev; _ ← m; mret true) s = (s', r) →
    ∃ r0, (_ ← _safe_emit ev; m) s = (s', r0) ∧ r ≠ Ok false) as Hsplit.
  { clear. intros m s s' r H. unfold mbind, se_bind in *. cbn in *. destruct (m _) as [s1 [[]|x]]; injection H as <- <-; eauto. }
  destruct (Hsplit _ _ _ _ H) as (r0 & H0 & Hr). destruct (logs_told e node id sender sender ev Hev _ _ _ H0) as (evs & ws & ? & ? & ?).
  exists evs, ws. by split_and!.
Qed.

Lemma logs_body e node id sender t proto : logs (handle_body rp (A := A) e node id sender t proto)
  (λ _ evs ws, outcome node id sender sender evs ws).
Proof.
  unfold handle_body. destruct (reaction_message proto) as [rm|]; [by apply logs_told|].
  eapply logs_bind; [apply logs_edit| |]; cbn.
  - intros x evs ws [H _]. exact H.
  - intros b evs ws [H1 H2]. destruct b.
    + apply logs_ret. by rewrite !app_nil_r.
    + destruct (H2 eq_refl) as [-> ->]. cbn. apply logs_silent; [auto with keeps|auto with keeps|]. intros _. by apply logs_told.
Qed.

Lemma logs_open e node id sender t enc_type c : logs (open_message rp (A := A) e node id sender t enc_type c)
  (λ _ evs ws, outcome node id sender sender evs ws).
Proof.
  unfold open_message. eapply (logs_bind _ _ (λ r evs ws,
    match r with Ok (Some _) => evs = [] ∧ ws = [] | _ => outcome node id sender sender evs ws end)).
  - intros s s' r H. unfold se_try in H. destruct ((p ← decrypt rp e 0 sender enc_type c; mret (Some p)) s) as [s1 r1] eqn:E1.
    assert (same_log s s1) as [L1 L2] by (eapply keeps_run; [|exact E1]; keeps).
    destruct r1 as [p|x].
    { assert (∃ q, p = Some q) as [q ->].
      { apply se_bind_Ok_inv in E1 as (? & q & _ & Eq). injection Eq as _ <-. eauto. }
      injection H as <- <-. exists [], []. by rewrite !app_nil_r. }
    destruct (is_Exception x); [|injection H as <- <-; exists [], []; rewrite !app_nil_r; split_and!; auto with keeps].
    assert (logs (_ ← _safe_emit (EvDecryptError id (DecryptFailed x)); _ ← or_log (_send_retry_receipt rp e node sender); mret (@None bytes))
      (λ r evs ws, match r with Ok (Some _) => False | _ => outcome node id sender sender evs ws end)) as Hl.
    { apply logs_emit. eapply logs_bind; [apply logs_or_log, logs_retry| |]; cbn.
      - intros y evs ws [-> Hws]. right. left. eauto.
      - intros _ evs ws [-> Hws]. apply logs_ret. rewrite !app_nil_r. right. left. eauto. }
    destruct (Hl _ _ _ H) as (evs & ws & H1 & H2 & H3). exists evs, ws. rewrite H1, H2, L1, L2. split_and!; [done|done|].
    by destruct r as [[]|].
  - done.
  - intros [p|] evs ws H; [destruct H as [-> ->]; cbn|apply logs_ret; by rewrite !app_nil_r].
    apply logs_silent; [destruct (rp_retry_handler rp); auto with keeps typeclass_instances|auto with keeps|]. intros _.
    apply logs_lift; [auto with keeps|]. intros [proto|why] _; [apply logs_body|apply logs_emit_last; auto with keeps].
Qed.

(** Catching every exception as a failure event. *)
Lemma logs_or_failed (m : SE state (option str)) node id chat sender why (f : option str → SE state unit) :
  keeps same_log m → (∀ s s', m s ≠ (s', Ok None)) →
  (∀ text, logs (f (Some text)) (λ _ evs ws, outcome node id chat sender evs ws)) → f None = mret tt →
  logs (text ← se_try m is_Exception (λ x, _ ← _safe_emit (EvDecryptError id (why x)); mret None); f text)
    (λ _ evs ws, outcome node id chat sender evs ws).
Proof.
  intros Hm Hne Hf Hnone. eapply (logs_bind _ _ (λ r evs ws,
    match r with Ok (Some _) => evs = [] ∧ ws = [] | _ => outcome node id chat sender evs ws end)).
  - intros s s' r H. unfold se_try in H. destruct (m s) as [s1 r1] eqn:E1.
    assert (same_log s s1) as [L1 L2] by (by eapply keeps_run).
    destruct r1 as [[text|]|x]; [|by apply Hne in E1|].
    { injection H as <- <-. exists [], []. by rewrite !app_nil_r. }
    destruct (is_Exception x); injection H as <- <-.
    + exists [EvDecryptError id (why x)], []. cbn. rewrite app_nil_r, L1, L2. split_and!; auto with keeps.
    + exists [], []. rewrite !app_nil_r. split_and!; auto with keeps.
  - done.
  - intros [text|] evs ws H; [destruct H as [-> ->]; apply Hf|]. rewrite Hnone. apply logs_ret. by rewrite !app_nil_r.
Qed.

Lemma logs_group e node group id participant :
  get_str node (u "id") = Ok id → _jid_from_attr (get_attr node (u "participant")) = Ok participant →
  logs (_handle_group_message rp (A := A) e node group) (λ _ evs ws, outcome node id group participant evs ws).
Proof.
  intros Hid Hp. unfold _handle_group_message. apply logs_silent; [auto with keeps typeclass_instances|auto with keeps|].
  intros [|]; cbn [negb]; [|apply logs_ret; auto with keeps]. rewrite Hid, Hp.
  apply logs_lift; [done|]. intros ? [= <-]. apply logs_lift; [done|]. intros ? [= <-].
  apply logs_lift; [auto with keeps|]. intros t _.
  apply logs_silent; [auto with keeps|auto with keeps|]. intros _.
  apply logs_lift; [auto with keeps|]. intros [enc|] _; [|apply logs_ret; auto with keeps].
  apply logs_lift; [auto with keeps|]. intros gid _. apply logs_lift; [auto with keeps|]. intros sid _.
  apply logs_silent; [auto with keeps typeclass_instances|auto with keeps|]. intros store.
  apply logs_lift; [auto with keeps|]. intros g _. apply logs_lift; [auto with keeps|].
  intros [st|] _; [|apply logs_emit_last; auto with keeps].
  apply logs_or_failed; [keeps| | |done].
  - intros s s' H. apply se_bind_Ok_inv in H as (? & [] & _ & H). do 3 (apply se_bind_Ok_inv in H as (? & ? & _ & H)). by injection H.
  - intros text. by apply logs_told.
Qed.

(** The author of a message stanza and the chat it is in. *)
Definition author (node : Node) (from : JID) : result JID :=
  if bool_decide (server from = u "g.us") then _jid_from_attr (get_attr node (u "participant")) else Ok from.

Lemma logs_message e node : logs (_handle_message rp (A := A) e node) (λ _ evs ws, evs = [] ∧ ws = [] ∨
  ∃ id from sender, get_str node (u "id") = Ok id ∧ _jid_from_attr (get_attr node (u "from")) = Ok from ∧
    author node from = Ok sender ∧ outcome node id from sender evs ws).
Proof.
  unfold _handle_message. apply logs_lift; [auto|]. intros id Hid. apply logs_lift; [auto|]. intros from Hfrom.
  destruct (bool_decide_reflect (server from = u "g.us")) as [Hg|Hg].
  - destruct (_jid_from_attr (get_attr node (u "participant"))) as [p|x] eqn:Ep.
    + eapply logs_weaken; [by apply logs_group|]. intros r evs ws Ho. right. exists id, from, p. split_and!; try done.
      unfold author. by rewrite bool_decide_true.
    + unfold _handle_group_message. apply logs_silent; [auto with keeps typeclass_instances|auto|].
      intros [|]; cbn [negb]; [|apply logs_ret; auto]. apply logs_lift; [auto|]. intros ? _. rewrite Ep. apply logs_lift; [auto|done].
  - case_bool_decide; [apply logs_ret; auto|]. apply logs_silent; [auto with keeps|auto|]. intros _.
    apply logs_lift; [auto|]. intros t _. apply logs_lift; [auto|]. intros [enc|] _; [|apply logs_ret; auto].
    apply logs_lift; [auto|]. intros ty _. eapply logs_weaken; [apply logs_open|]. intros r evs ws Ho. right.
    exists id, from, from. split_and!; try done. unfold author. by rewrite bool_decide_false.
Qed.

(** The frames that the reader handles one after the other. *)
Lemma r_leaves_frames id frames :
  Forall (λ x, fair id (fe_sender x.1) ∧ (tag x.2 = u "receipt" → get_str x.2 (u "id") ≠ Ok id)) frames →
  ∀ rs : state, r_leaves id rs (foldl (λ rs x, (dispatch rp x.1 x.2 rs).1) rs frames).
Proof.
  induction 1 as [|[e n] frames [He Hn] _ IH]; intros rs; cbn [foldl]; [reflexivity|].
  etransitivity; [|apply IH]. by apply (r_leaves_dispatch id e n).
Qed.

(** ** Retry receipts, from inside the reader *)

(** The router went through events of [P] alone. *)
Definition by_events (P : Router.event → Prop) (s s' : sstate) : Prop := ∃ evs,
  s_router s' = Router.run (s_router s) evs ∧ Forall P evs.

#[local] Instance by_events_preorder P : PreOrder (by_events P).
Proof.
  split; [intros s; by exists []|]. intros s1 s2 s3 (evs & R1 & F1) (evs' & R2 & F2). exists (evs ++ evs').
  split; [by rewrite R2, R1; unfold Router.run; rewrite foldl_app|by apply Forall_app].
Qed.

Lemma by_events_same {B} P (m : SE sstate B) : (∀ s, s_router (m s).1 = s_router s) → keeps (by_events P) m.
Proof. intros Hm s. exists []. by rewrite Hm. Qed.

Lemma by_events_register P id : P (Router.Register id) → keeps (by_events P) (register (S := S) (I := I) (L := L) (K := K) (G := G) id).
Proof.
  intros HP s. exists [Router.Register id]. split; [|by constructor]. cbn. unfold register.
  by destruct (Router.register id (s_router s)).
Qed.

Lemma by_events_cancel P id : P (Router.Cancel id) → keeps (by_events P) (cancel (S := S) (I := I) (L := L) (K := K) (G := G) id).
Proof. intros HP s. exists [Router.Cancel id]. split; [done|by constructor]. Qed.

Lemma by_events_wait P e n : (∀ s, by_events P s (meanwhile e s)) → P (Router.Abandon n) →
  keeps (by_events P) (wait_for (S := S) (I := I) (L := L) (K := K) (G := G) e n).
Proof.
  intros He HP s. unfold wait_for. specialize (He s).
  assert (by_events P s (on_router (λ r, Router.step r (Router.Abandon n)) (meanwhile e s))) as Ha.
  { etransitivity; [exact He|]. exists [Router.Abandon n]. split; [done|by constructor]. }
  by destruct (_ !! n) as [[]|].
Qed.

(** Events that resolve nothing. *)
Definition silent_event (ev : Router.event) : Prop := match ev with Router.Ack _ | Router.Retry _ _ => False | _ => True end.

Lemma retry_receipt_events sp e id peer bundle count : no_replies e →
  keeps (by_events silent_event) (handle_retry_receipt (S := S) (I := I) (L := L) (K := K) (G := G) sp e id peer bundle count).
Proof.
  intros He.
  assert (∀ B (m : SE (World S I L K) B), keeps (by_events silent_event) (in_world (G := G) m)) as Hw.
  { intros B m. apply by_events_same. intros s. unfold in_world. by destruct (m (s_world s)). }
  assert (∀ f, keeps (by_events silent_event) (transport_send (S := S) (I := I) (L := L) (K := K) (G := G) e f)) as Hs.
  { intros f. apply by_events_same. intros s. unfold transport_send. by destruct (sending e f). }
  assert (∀ i m, keeps (by_events silent_event) (set_sent (S := S) (I := I) (L := L) (K := K) (G := G) i m)) as Hset
    by (intros; by apply by_events_same).
  assert (∀ n, keeps (by_events silent_event) (wait_for e n)) as Hwait.
  { intros n. apply by_events_wait; [|done]. intros s. destruct (He s) as (evs & ? & ?). by exists evs. }
  assert (∀ i, keeps (by_events silent_event) (cancel (S := S) (I := I) (L := L) (K := K) (G := G) i)) as Hc by (intros; by apply by_events_cancel).
  assert (∀ i, keeps (by_events silent_event) (register (S := S) (I := I) (L := L) (K := K) (G := G) i)) as Hr by (intros; by apply by_events_register).
  assert (∀ B (m : SE sstate B) f, keeps (by_events silent_event) m → keeps (by_events silent_event) f →
    keeps (by_events silent_event) (finally m f)) as Hfin.
  { intros B m f Hm Hf s. unfold finally. specialize (Hm s). destruct (m s) as [s1 r]. specialize (Hf s1). destruct (f s1) as [s2 x].
    cbn in *. by etransitivity. }
  unfold handle_retry_receipt, encrypt_for_peer, adopt_bundle. keeps. apply Hfin; keeps.
Qed.

Lemma silent_events_resolve evs : ∀ r n x, Forall silent_event evs →
  Router.futures (Router.run r evs) !! n = Some (Router.Resolved x) → Router.futures r !! n = Some (Router.Resolved x).
Proof.
  induction evs as [|ev evs IH]; intros r n x Hev H; [done|]. apply Forall_cons in Hev as [H1 Hev].
  apply (IH _ _ _ Hev) in H. clear IH Hev.
  assert (∀ m, Router.settle Router.Cancelled m (Router.futures r) !! n = Some (Router.Resolved x) →
    Router.futures r !! n = Some (Router.Resolved x)) as Ks.
  { intros m Hm. destruct (decide (m = n)) as [->|]; [|by rewrite Router.settle_ne in Hm]. unfold Router.settle in Hm.
    destruct (Router.futures r !! n) as [[]|] eqn:En; try congruence.
    rewrite list_lookup_insert_eq in Hm by (by eapply lookup_lt_Some). done. }
  destruct ev as [id|id|id|id a|m]; try done; cbn [Router.step] in H.
  - unfold Router.register in H. destruct (dict_get _ _); [done|]. cbn in H. apply lookup_app_Some in H as [H|[_ H]]; [done|].
    by apply list_lookup_singleton_Some in H as [_ H].
  - unfold Router.cancel, Router.pop_settle in H. cbn in H. destruct (dict_get id _); [by eapply Ks|done].
  - cbn in H. by eapply Ks.
Qed.

Lemma receipt_unanswered e node (s s' : state) r : no_replies (fe_sender e) → _handle_receipt rp e node s = (s', r) →
  ∀ n x, Router.futures (s_router (r_sender s')) !! n = Some (Router.Resolved x) →
         Router.futures (s_router (r_sender s)) !! n = Some (Router.Resolved x).
Proof.
  intros He H n x Hn.
  set (R := λ s s' : state, by_events silent_event (r_sender s) (r_sender s')).
  assert (PreOrder R) as HR. { split; [intros s0; unfold R; reflexivity|intros s1 s2 s3; unfold R; apply transitivity]. }
  assert (∀ B (m : SE sstate B), keeps (by_events silent_event) m → keeps R (in_sender (A := A) m)) as Hin.
  { intros B m Hm s0. unfold R, in_sender. specialize (Hm (r_sender s0)). by destruct (m (r_sender s0)). }
  assert (∀ f, keeps R (in_sender (A := A) (transport_send (fe_sender e) f))) as Hsend.
  { intros f. apply Hin, by_events_same. intros s0. unfold transport_send. by destruct (sending (fe_sender e) f). }
  assert (∀ ev, keeps R (_safe_emit (S := S) (I := I) (L := L) (K := K) (G := G) (A := A) ev)) as Hemit.
  { intros ev s0. unfold R. cbn. reflexivity. }
  assert (∀ i p b c, keeps R (in_sender (A := A) (handle_retry_receipt (rp_sender rp) (fe_sender e) i p b c))) as Hret.
  { intros. apply Hin. by apply retry_receipt_events. }
  assert (keeps R (_handle_receipt rp e node)) as Hk by (unfold _handle_receipt, _send_ack, send; keeps).
  destruct (keeps_run _ _ _ _ _ Hk H) as (evs & Hr & Hev). rewrite Hr in Hn. by eapply silent_events_resolve.
Qed.
End ReceiverProofs.

(** The reader handles the frames [frames] while a send waits. *)
Definition reading {S I L K G A : Type} {SS : SessionStore S} {IS : IdentityStore I} {LM : LidMap L} {KS : PreKeyStore K}
    {GS : SenderKeys G} {AK : AppStateKeyStore A} {X : X25519} {E : XEdDSA} {HK : Hkdf} {HM : Hmac} {AES : AesCbc} {PK : Pkcs7}
    {W : WhisperProto} {SP : SenderKeyProto} {U : UnicodeDB} {Zl : Zlib} {C : MessageCodec} (rp : ReceiverParams)
    (frames : list (FrameEnv (SenderState S I L K G) * Node)) (rs : ReceiverState S I L K G A) (s : SenderState S I L K G)
    : SenderState S I L K G :=
  r_sender (foldl (λ rs x, (dispatch rp x.1 x.2 rs).1)
    (mkReceiver s (r_iqs rs) (r_app_keys rs) (r_events rs) (r_tasks rs) (r_routing rs)) frames).

(** C5: a message stanza, of a peer or in a group, leads to nothing at all, or to one
    [decrypt_error] event with at most one request to send it again, or to one event about
    the message with at most one delivery receipt. *)
Theorem message_outcome {S I L K G A : Type} {SS : SessionStore S} {IS : IdentityStore I} {LM : LidMap L} {KS : PreKeyStore K}
    {GS : SenderKeys G} {AK : AppStateKeyStore A} {X : X25519} {E : XEdDSA} {HK : Hkdf} {HM : Hmac} {AES : AesCbc} {PK : Pkcs7}
    {W : WhisperProto} {SP : SenderKeyProto} {U : UnicodeDB} {Zl : Zlib} {C : MessageCodec} rp e node
    (s s' : ReceiverState S I L K G A) r :
  _handle_message rp e node s = (s', r) →
  ∃ evs ws, r_events s' = r_events s ++ evs ∧ s_wire (r_sender s') = s_wire (r_sender s) ++ ws ∧
    (evs = [] ∧ ws = [] ∨
     ∃ id from sender, get_str node (u "id") = Ok id ∧ _jid_from_attr (get_attr node (u "from")) = Ok from ∧
       author node from = Ok sender ∧ outcome node id from sender evs ws).
Proof. apply logs_message. Qed.

(** C7: app-state keys are stored and history downloads started only for a message stanza
    from our own account; every other frame leaves the keys alone. *)
Theorem keys_only_from_self {S I L K G A : Type} {SS : SessionStore S} {IS : IdentityStore I} {LM : LidMap L} {KS : PreKeyStore K}
    {GS : SenderKeys G} {AK : AppStateKeyStore A} {X : X25519} {E : XEdDSA} {HK : Hkdf} {HM : Hmac} {AES : AesCbc} {PK : Pkcs7}
    {W : WhisperProto} {SP : SenderKeyProto} {U : UnicodeDB} {Zl : Zlib} {C : MessageCodec} rp e frame
    (s s' : ReceiverState S I L K G A) r :
  _handle_frame rp e frame s = (s', r) →
  (r_app_keys s' ≠ r_app_keys s ∨ ∃ h, HistorySync h ∈ r_tasks s' ∧ HistorySync h ∉ r_tasks s) →
  ∃ node from, decode frame = Ok node ∧ tag node = u "message" ∧ _jid_from_attr (get_attr node (u "from")) = Ok from ∧
    user from = user (own_jid (rp_sender rp)).
Proof.
  intros H Hch. unfold _handle_frame in H. destruct (decode frame) as [node|x] eqn:Ed; cycle 1.
  { destruct (is_Exception x); injection H as <- _; destruct Hch as [?|(h & ? & ?)]; done. }
  assert ((∀ j, _jid_from_attr (get_attr node (u "from")) = Ok j → tag node = u "message" →
    user j ≠ user (own_jid (rp_sender rp))) → unshared s s') as Hun.
  { intros Hf. eapply keeps_run; [|exact H]. apply unshared_dispatch. intros Ht j Hj. by apply Hf. }
  destruct (_jid_from_attr (get_attr node (u "from"))) as [j|x] eqn:Ej; cycle 1.
  { destruct Hun as [U1 U2]; [done|]. destruct Hch as [Hch|(h & Hh & Hn)]; [done|]. by apply U2 in Hh. }
  destruct (decide (tag node = u "message")) as [Ht|Ht], (decide (user j = user (own_jid (rp_sender rp)))) as [Hu|Hu].
  1: by exists node, j.
  all: destruct Hun as [U1 U2]; [naive_solver|].
  all: destruct Hch as [Hch|(h & Hh & Hn)]; [done|by apply U2 in Hh].
Qed.

(** C12: what the reader does while a send waits is what the sender relies on: it uses the
    router's methods, does not register the id, keeps what was sent, unless a peer asks for
    that very message again; and a plain [<ack>] for the id ends the wait with success. *)
Theorem reader_is_fair {S I L K G A : Type} {SS : SessionStore S} {IS : IdentityStore I} {LM : LidMap L} {KS : PreKeyStore K}
    {GS : SenderKeys G} {AK : AppStateKeyStore A} {X : X25519} {E : XEdDSA} {HK : Hkdf} {HM : Hmac} {AES : AesCbc} {PK : Pkcs7}
    {W : WhisperProto} {SP : SenderKeyProto} {U : UnicodeDB} {Zl : Zlib} {C : MessageCodec} rp id frames
    (rs : ReceiverState S I L K G A) devices prekeys keys transport :
  Forall (λ x, fair id (fe_sender x.1) ∧ (tag x.2 = u "receipt" → get_str x.2 (u "id") ≠ Ok id)) frames →
  truthy id = true →
  fair id (mkSurroundings devices prekeys keys transport (reading rp frames rs)) ∧
  ∀ e attrs content n s, let ack := mkNode (u "ack") attrs content in
    dict_get (u "id") attrs = Some (AStr id) → is_ok (get_str ack (u "class")) = true →
    get_child ack (u "retry") = None → dict_get (u "error") attrs = None →
    dict_get id (Router._pending (s_router s)) = Some n → Router.futures (s_router s) !! n = Some Router.Pending →
    (wait_for (mkSurroundings devices prekeys keys transport (reading rp [(e, ack)] rs)) n s).2 = Ok None.
Proof.
  intros Hframes Hid. split.
  - intros s. cbn [meanwhile]. unfold reading.
    set (rs0 := mkReceiver s (r_iqs rs) (r_app_keys rs) (r_events rs) (r_tasks rs) (r_routing rs)).
    pose proof (r_leaves_frames rp id frames Hframes rs0) as Hl. unfold r_leaves, leaves in Hl. exact Hl.
  - intros e attrs content n s ack Ha Hc Hr He Hd Hf. unfold wait_for. cbn [meanwhile]. unfold reading. cbn [foldl fst snd].
    assert (get_str ack (u "id") = Ok id) as Hi by (unfold get_str, ack; cbn [Node.attrs]; by rewrite Ha).
    unfold dispatch, _handle_ack. rewrite bool_decide_false by done. rewrite bool_decide_true by done.
    rewrite Hi, se_bind_lift, Hid. cbn [negb]. destruct (get_str ack (u "class")) as [cl|]; [|done]. rewrite se_bind_lift.
    cbv zeta. rewrite Hr. unfold get_attr, ack at 1. cbn [Node.attrs]. rewrite He. cbn [HasField orb].
    pose proof (Router.pop_settle_eq (Router.Resolved None) id _ n Hd Hf) as Hp. unfold in_sender. cbn in Hp |- *. by rewrite Hp.
Qed.

(** [_handle_receipt] awaits the resend inside the reader task, the only one that resolves
    acknowledgements: whatever the other tasks do, no acknowledgement is resolved while a
    retry receipt is handled, so the wait of the resend can only time out. *)
Theorem retry_receipt_unanswered {S I L K G A : Type} {SS : SessionStore S} {IS : IdentityStore I} {LM : LidMap L} {KS : PreKeyStore K}
    {GS : SenderKeys G} {AK : AppStateKeyStore A} {X : X25519} {E : XEdDSA} {HK : Hkdf} {HM : Hmac} {AES : AesCbc} {PK : Pkcs7}
    {W : WhisperProto} {SP : SenderKeyProto} {U : UnicodeDB} {Zl : Zlib} {C : MessageCodec} rp e node
    (s s' : ReceiverState S I L K G A) r :
  no_replies (fe_sender e) → _handle_receipt rp e node s = (s', r) →
  ∀ n x, Router.futures (s_router (r_sender s')) !! n = Some (Router.Resolved x) →
         Router.futures (s_router (r_sender s)) !! n = Some (Router.Resolved x).
Proof. apply receipt_unanswered. Qed.

(** ** Witnesses: Bob reads *)

Module ReceiverDemo.
Export SenderDemo.

Definition rstate : Type :=
  ReceiverState InMemorySessionStore InMemoryIdentityStore InMemoryLidMap InMemoryPreKeyStore SenderKeyStore InMemoryAppStateKeyStore.
Definition reads (d : Device) : ReceiverParams := mkRParams (params d) Transaction true true None true true.
Definition reader (s : sstate) : rstate := mkReceiver s (Iqs.mkIqs [] []) (Some ∅) [] [] [].
Definition env_of (e : Surroundings sstate) : FrameEnv sstate := mkFrameEnv (λ _, (key 20, key 20)) e.
(** Nothing happens meanwhile. *)
Definition quiet : Surroundings sstate := mkSurroundings _single_device_fetcher fetch (λ _, (key 5, key 6)) (λ _, Ok tt) (λ s, s).

(** The stanza in a frame, from [from]. *)
Definition relayed (from : JID) (frame : bytes) : Node :=
  match decode frame with
  | Ok n => mkNode (tag n) (dict_set (u "from") (AJid from) (attrs n)) (content n)
  | Raise _ => mkNode [] [] CNone
  end.
Definition first_frame (s : sstate) : bytes := default [] (head (s_wire s)).

(** Alice's greeting, at Bob's. *)
Definition greeting : Node := relayed (jid "alice") (first_frame sent.1).
Definition greeted : rstate * result unit := _handle_message (reads bob_dev) (env_of acks) greeting (reader (start bob_world)).

(** A key shared in a stanza that the server gives as from a second device of Bob's. *)
Definition tablet : JID := mkJID (u "bob") PN_SERVER 1.
Definition shared : MessageProto :=
  let keys := [mkSharedKey (Some (Some [mkb 1])) (Some (mkKeyData (Some [mkb 2]) None None))] in
  mkMessageProto None None None None None None None (Some (mkProtocolMessage None None None (Some keys) None None)) None None None None.
Definition share_frame : bytes :=
  let sent := send_message (params (alice_dev 1)) acks acks draws
    (jid "bob") shared [] None None (start empty) in
  ok_or [] (encode (relayed tablet (first_frame sent.1)) false).
Definition keys_shared : rstate * result unit := _handle_frame (reads bob_dev) (env_of acks) share_frame (reader (start bob_world)).

(** Bob asks Alice for the greeting again. *)
Definition again : Node :=
  mkNode (u "receipt") [(u "id", AStr id); (u "type", AStr (u "retry")); (u "from", AJid (jid "bob"))] CNone.
Definition asked : rstate * result unit := _handle_receipt (reads (alice_dev 1)) (env_of quiet) again (reader sent.1).
End ReceiverDemo.
Import ReceiverDemo.

Lemma message_outcome_witness :
  ∃ evs ws, r_events greeted.1 = [] ++ evs ∧ s_wire (r_sender greeted.1) = [] ++ ws ∧
    is_ok greeted.2 = true ∧ length evs = 1%nat ∧ length ws = 1%nat ∧
    concat (map (λ ev, match ev with EvMessage m => msg_text m | _ => [] end) evs) = u "hello".
Proof.
  destruct (message_outcome (reads bob_dev) (env_of acks) greeting (reader (start bob_world)) greeted.1 greeted.2)
    as (evs & ws & He & Hw & _); [vm_compute; reflexivity|].
  exists evs, ws. split_and!; [exact He|exact Hw|vm_compute; reflexivity|..].
  all: cbn [reader r_events r_sender start s_wire app] in He, Hw; rewrite <-?He, <-?Hw; vm_compute; reflexivity.
Defined.

Lemma keys_only_from_self_witness :
  ∃ node from, decode share_frame = Ok node ∧ tag node = u "message" ∧ _jid_from_attr (get_attr node (u "from")) = Ok from ∧
    user from = u "bob".
Proof.
  apply (keys_only_from_self (reads bob_dev) (env_of acks) share_frame (reader (start bob_world)) keys_shared.1 keys_shared.2);
    [vm_compute; reflexivity|left].
  intros Hk. assert (is_Some (r_app_keys keys_shared.1 ≫= lookup [mkb 1])) as Hs by (vm_compute; eauto).
  rewrite Hk in Hs. by destruct Hs.
Defined.

(** Alice's send waits while her reader handles presence and then the acknowledgement. *)
Lemma reader_is_fair_witness :
  let e := env_of acks in
  let frames := [(e, mkNode (u "presence") [(u "from", AJid (jid "bob"))] CNone)] in
  let ack := mkNode (u "ack") [(u "id", AStr id); (u "class", AStr (u "message"))] CNone in
  let waiting := on_router (λ r, (Router.register id r).1) (start empty) in
  let during fs := mkSurroundings _single_device_fetcher fetch (λ _, (key 5, key 6)) (λ _, Ok tt) (reading (reads (alice_dev 1)) fs (reader (start empty))) in
  fair id (during frames) ∧ (wait_for (during [(e, ack)]) 0%nat waiting).2 = Ok None.
Proof.
  intros e frames ack waiting during.
  destruct (reader_is_fair (reads (alice_dev 1)) id frames (reader (start empty)) _single_device_fetcher fetch
    (λ _, (key 5, key 6)) (λ _, Ok tt)) as [Hf Ha].
  - constructor; [|constructor]. split; [apply fair_acks|discriminate].
  - reflexivity.
  - split; [exact Hf|].
    apply (Ha e [(u "id", AStr id); (u "class", AStr (u "message"))] CNone 0%nat waiting); reflexivity.
Defined.

Lemma retry_receipt_unanswered_witness :
  (∀ n x, Router.futures (s_router (r_sender asked.1)) !! n = Some (Router.Resolved x) →
          Router.futures (s_router sent.1) !! n = Some (Router.Resolved x)) ∧
  length (s_wire (r_sender asked.1)) = 4%nat ∧ Router.futures (s_router (r_sender asked.1)) !! 2%nat = Some Router.Cancelled.
Proof.
  split; [|split; vm_compute; reflexivity].
  apply (retry_receipt_unanswered (reads (alice_dev 1)) (env_of quiet) again (reader sent.1) asked.1 asked.2).
  - intros s. exists []. split; [reflexivity|constructor].
  - vm_compute; reflexivity.
Defined.
