(* ===== verification/Delivery.v ===== *)
(** * From [send_message] to the event at the other end

    Alice's sender makes a stanza for all target devices, the server passes it on, and the
    reader of one of those devices, Bob's, turns it into the event of the message. Sender
    and Receiver meet here through the codec (Codec) and the sessions (PeerTalk). *)

From S2P Require Import Prelude Effects PyStr Jid Node Encoder Decoder Codec Crypto AppCrypto SignalKeys X3dh SignalTypes Ratchet.
From S2P Require Import RatchetProofs SenderKey SessionStore LidMap PeerStores Outbox Stanzas Messages PeerSessions PeerTalk.
From S2P Require Import Sender SenderProofs Receiver ReceiverProofs.

Section Delivery.
Context {S I L K G A : Type} {SS : SessionStore S} {SL : SessionStoreLaws S} {IS : IdentityStore I} {IL : IdentityStoreLaws I}
  {LM : LidMap L} {KS : PreKeyStore K} {GS : SenderKeys G} {AK : AppStateKeyStore A}.
Context {X : X25519} {XL : X25519Laws X} {E : XEdDSA} {EL : XEdDSALaws X E} {HK : Hkdf} {HKL : HkdfLaws HK}
  {HM : Hmac} {AES : AesCbc} {AL : AesCbcLaws AES} {PK : Pkcs7} {PL : Pkcs7Laws PK} {W : WhisperProto} {WL : WhisperProtoLaws W}
  {SP : SenderKeyProto}.
Context {U : UnicodeDB} {Zl : Zlib} {ZL : ZlibLaws Zl} {C : MessageCodec} {CL : MessageCodecLaws C}.

#[local] Abbreviation world := (World S I L K).
#[local] Abbreviation sstate := (SenderState S I L K G).
#[local] Abbreviation rstate := (ReceiverState S I L K G A).

(** ** Encrypting for one device leaves the others alone *)

Section Near.
Context (k : str).

(** Nothing changed about the peer [k]. *)
Definition near (w w' : world) : Prop :=
  ss_load (w_sessions w') k = ss_load (w_sessions w) k ∧ is_load (w_ids w') k = is_load (w_ids w) k ∧
  w_meta w' !! k = w_meta w !! k.

#[export] Instance near_preorder : PreOrder near.
Proof.
  split; [done|]. intros w1 w2 w3 (A1 & A2 & A3) (B1 & B2 & B3). unfold near. by rewrite B1, B2, B3.
Qed.

Context (sid : str) (Hne : sid ≠ k).

Lemma near_meta m : keeps near (set_meta (S := S) (I := I) (L := L) (K := K) sid m).
Proof. intros w. split_and!; try done. cbn. by rewrite lookup_partial_alter_ne. Qed.

Lemma near_ids b : keeps near (on_ids (S := S) (L := L) (K := K) (is_save sid b)).
Proof.
  intros w. unfold on_ids. destruct (decide (length b = 32%nat)) as [Hb|Hb].
  - destruct (is_save_ok (w_ids w) sid b Hb) as (i & -> & _ & Hi). split_and!; try done. by apply Hi.
  - by rewrite is_save_bad.
Qed.

Lemma near_save st : keeps near (save_session (I := I) (L := L) (K := K) sid st).
Proof.
  intros w. unfold save_session. destruct (ss_save (w_sessions w) sid st) as [s|x] eqn:Es; [|done].
  split_and!; try done. by apply (load_save_ne _ _ _ _ _ Es).
Qed.

Lemma near_load : keeps near (load_session (S := S) (I := I) (L := L) (K := K) sid).
Proof. apply keeps_pure; [typeclasses eauto|]. intros w. unfold load_session. by destruct (ss_load _ _) as [[]|]. Qed.

#[local] Hint Resolve near_meta near_ids near_save near_load : keeps.

Lemma near_encrypt d fetch eph dh peer p : session_id peer = Ok sid →
  keeps near (_encrypt_for_peer (S := S) (I := I) (L := L) (K := K) d fetch eph dh peer p).
Proof. intros Hsid. unfold _encrypt_for_peer, recall_meta. apply keeps_bind_lift; [typeclasses eauto|]. rewrite Hsid. intros ? [= <-]. keeps. Qed.
End Near.

(** ** What goes to one of the target devices *)

Context (spa : SenderParams) (jb : JID) (kb : str).

(** The participant of [d]; for Bob's device, what was encrypted when the stores held of Bob
    what [w] holds. *)
Definition participant_of (e : Surroundings sstate) (m : _SentMessage) (w : world) (d : JID) (n : Node) : Prop :=
  ∃ w1 w2 enc_type c,
    _encrypt_for_peer (sp_device spa) (fetch_prekeys e) (fresh e d).1 (fresh e d).2 d (plaintext_for spa m d) w1 =
      (w2, Ok (enc_type, c)) ∧
    _build_participant_node spa d enc_type c None (sn_mediatype m) (sn_decrypt_fail m) = Ok n ∧ (d = jb → near kb w w1).

Lemma participants_of e m w ds : NoDup ds → Forall (λ d, d ≠ jb → session_id d ≠ Ok kb) ds →
  ∀ acc nodes (s s' : sstate), (jb ∈ ds → near kb w (s_world s)) →
  se_fold (add_participant spa e m) acc ds s = (s', Ok nodes) →
  ∃ new, nodes = acc ++ new ∧ Forall2 (participant_of e m w) ds new.
Proof.
  induction ds as [|d ds IH]; intros Hnd Hsid acc nodes s s' Hnear H; cbn [se_fold] in H.
  { injection H as _ <-. exists []. by rewrite app_nil_r. }
  apply NoDup_cons in Hnd as [Hd Hnd]. apply Forall_cons in Hsid as [Hs Hsid].
  apply se_bind_Ok_inv in H as (s1 & acc1 & H1 & H). unfold add_participant in H1.
  apply se_bind_Ok_inv in H1 as (s2 & [enc_type c] & He & H1). unfold encrypt_for_peer, in_world in He.
  destruct (_encrypt_for_peer _ _ _ _ d _ (s_world s)) as [w1 r1] eqn:Ee. injection He as <- ->.
  destruct (_build_participant_node _ _ _ _ _ _ _) as [n|] eqn:En; [|done]. rewrite se_bind_lift in H1.
  injection H1 as <- <-.
  apply IH in H as (new & -> & Hnew); [|done|done|].
  2:{ intros Hin. cbn [s_world]. assert (d ≠ jb) as Hne by (intros ->; done). etransitivity; [apply Hnear; by right|].
    destruct (session_id d) as [sid|x] eqn:Esid; [|unfold _encrypt_for_peer in Ee; by rewrite Esid in Ee].
    eapply keeps_run; [|exact Ee]. apply (near_encrypt kb sid); [|done]. intros ->. by destruct (Hs Hne). }
  exists (n :: new). split; [by rewrite <-app_assoc|]. constructor; [|done].
  exists (s_world s), w1, enc_type, c. split_and!; [done|done|]. intros ->. apply Hnear. by left.
Qed.

(** ** The stanza on the wire *)

Lemma encrypt_type d fetch eph dh peer p (w w' : world) enc_type c :
  _encrypt_for_peer d fetch eph dh peer p w = (w', Ok (enc_type, c)) → enc_type = u "msg" ∨ enc_type = u "pkmsg".
Proof.
  unfold _encrypt_for_peer. intros H. apply se_bind_Ok_inv in H as (? & sid & _ & H).
  apply se_bind_Ok_inv in H as (? & ? & _ & H). apply se_bind_Ok_inv in H as (? & ? & _ & H).
  apply se_bind_Ok_inv in H as (? & [st meta] & _ & H). destruct (ratchet_encrypt _ _ _) as [st' r].
  apply se_bind_Ok_inv in H as (? & [[h ct] k] & _ & H). apply se_bind_Ok_inv in H as (? & ? & _ & H).
  unfold se_lift, seal_message in H. injection H as _ H.
  apply bind_Ok_inv in H as (inner & _ & H). destruct (pm_pending_prekey meta); [|injection H as <- _; by left].
  apply bind_Ok_inv in H as (data & _ & H). injection H as <- _. by right.
Qed.

(** Text that is no JID on the wire. *)
Definition plain (s : str) : Prop := contains AT s = false.

Record plain_message (id : str) (m : _SentMessage) : Prop := {
  pl_id : plain id; pl_version : plain (cf_enc_version (sp_config spa)); pl_default : plain (cf_message_type (sp_config spa));
  pl_type : plain (sn_message_type m); pl_edit : from_option plain True (sn_edit m);
  pl_media : plain (sn_mediatype m); pl_fail : plain (sn_decrypt_fail m)
}.

(** The node of a participant, its [<enc>] and their wire form. *)
Lemma participant_shape e id m w d n : plain_message id m → canonical_jid d = true → participant_of e m w d n →
  canonical n = true ∧ node_ok n ∧ tag n = u "to" ∧ get_attr n (u "jid") = Some (AJid d) ∧
  ∃ enc, get_children n (Some (u "enc")) = [enc].
Proof.
  intros [_ Hv _ _ _ Hm Hf] Hd (w1 & w2 & enc_type & c & He & Hn & _). unfold _build_participant_node in Hn.
  revert Hn. rbind. intros [= <-]. unfold plain in *.
  assert (contains AT enc_type = false) as Ht by (destruct (encrypt_type _ _ _ _ _ _ _ _ _ _ He) as [-> | ->]; reflexivity).
  split_and!; [| |done|done|eexists; reflexivity].
  - cbn [canonical forallb canonical_attr]. rewrite Hd, !forallb_app. cbn [forallb canonical_attr]. rewrite Hv, Ht.
    destruct (truthy (sn_mediatype m)), (truthy (sn_decrypt_fail m)); cbn [forallb canonical_attr app]; rewrite ?Hm, ?Hf; reflexivity.
  - repeat split; try (apply (bool_decide_eq_true_1 (NoDup _)); reflexivity).
    destruct (truthy (sn_mediatype m)), (truthy (sn_decrypt_fail m));
      apply (bool_decide_eq_true_1 (NoDup _)); reflexivity.
Qed.

Definition stanza_of (id : str) (m : _SentMessage) (nodes : list Node) : Node :=
  _build_message_node spa id (_base_jid (sn_chat m)) nodes (Some (sn_message_type m)) (sn_edit m).

Lemma stanza_decodes e id m w ds nodes frame : plain_message id m → canonical_jid (_base_jid (sn_chat m)) = true →
  Forall (λ d, canonical_jid d = true) ds → Forall2 (participant_of e m w) ds nodes →
  encode (stanza_of id m nodes) false = Ok frame → decode frame = Ok (stanza_of id m nodes).
Proof.
  intros Hpl Hc Hds Hn He.
  assert (Forall (λ n, canonical n = true ∧ node_ok n) nodes) as Hnodes.
  { clear He. revert Hds. induction Hn as [|d n ds nodes Hp _ IH]; [constructor|]. intros [Hd Hds]%Forall_cons. constructor; [|by apply IH].
    destruct (participant_shape e id m w d n Hpl Hd Hp) as (? & ? & _). by split. }
  assert (Forall (λ n, canonical n = true ∧ node_ok n) (device_identity spa)) as Hid.
  { unfold device_identity. repeat case_match; repeat constructor. }
  eapply (decode_wire _ _ false); [|exact He|].
  - apply node_ok_unfold. split; [destruct (sn_edit m); apply (bool_decide_eq_true_1 (NoDup _)); reflexivity|].
    assert (∀ l, Forall (λ n, canonical n = true ∧ node_ok n) l → Forall node_ok l) as Hok
      by (intros l Hl; eapply Forall_impl; [exact Hl|by intros ? []]).
    constructor; [|by apply Hok]. apply node_ok_unfold. split; [constructor|by apply Hok].
  - apply canonical_wire. destruct Hpl as [H1 _ H2 H3 H4 _ _]. unfold plain in *.
    assert (∀ l, Forall (λ n, canonical n = true ∧ node_ok n) l → forallb canonical l = true) as Hall.
    { intros l Hl. apply forallb_forall. intros n Hin%list_elem_of_In. rewrite Forall_forall in Hl. by apply Hl. }
    unfold stanza_of, _build_message_node. cbn [canonical forallb canonical_attr]. rewrite (Hall _ Hnodes), (Hall _ Hid), forallb_app.
    cbn [forallb canonical_attr]. rewrite Hc, H1.
    destruct (truthy (sn_message_type m)), (sn_edit m); cbn [from_option forallb canonical_attr] in *; rewrite ?H2, ?H3, ?H4; reflexivity.
Qed.

(** *** Which ciphertext Bob's device takes *)

Lemma own_participant_finds e id m w ds nodes : plain_message id m → Forall (λ d, canonical_jid d = true) ds → jb ∈ ds →
  Forall2 (participant_of e m w) ds nodes →
  ∃ n enc, own_participant jb nodes = Ok (Some enc) ∧ participant_of e m w jb n ∧ get_children n (Some (u "enc")) = [enc].
Proof.
  intros Hpl Hds Hin Hn. revert Hds Hin. induction Hn as [|d n ds nodes Hp _ IH]; [by intros _ ?%elem_of_nil|].
  intros [Hd Hds]%Forall_cons Hin. destruct (participant_shape e id m w d n Hpl Hd Hp) as (_ & _ & _ & Hj & enc & Henc).
  cbn [own_participant]. rewrite Hj. cbn [_jid_from_attr mbind result_bind]. rewrite same_full_jid_eq.
  destruct (bool_decide_reflect (d = jb)) as [->|Hne].
  - exists n, enc. unfold get_child. by rewrite Henc.
  - apply elem_of_cons in Hin as [->|Hin]; [done|]. by apply IH.
Qed.

(** The server hands a stanza on whole, or only the [<enc>] of the device it is for. *)
Inductive handed (sent : Node) : NodeContent → Prop :=
  | handed_whole : handed sent (content sent)
  | handed_own p n enc others : get_child sent (u "participants") = Some p → n ∈ get_children p (Some (u "to")) →
      get_attr n (u "jid") = Some (AJid jb) → get_child n (u "enc") = Some enc → handed sent (CList (enc :: others)).

Record relays (from : JID) (sent node : Node) : Prop := {
  rl_id : get_attr node (u "id") = get_attr sent (u "id");
  rl_from : get_attr node (u "from") = Some (AJid from);
  rl_content : handed sent (content node)
}.

Lemma participant_enc e id m w n enc : plain_message id m → canonical_jid jb = true → participant_of e m w jb n →
  get_child n (u "enc") = Some enc → tag enc = u "enc" ∧ ∃ w1 w2 enc_type c, near kb w w1 ∧
    _encrypt_for_peer (sp_device spa) (fetch_prekeys e) (fresh e jb).1 (fresh e jb).2 jb (plaintext_for spa m jb) w1 =
      (w2, Ok (enc_type, c)) ∧ get_str enc (u "type") = Ok enc_type ∧ content_bytes enc = c.
Proof.
  intros Hpl Hj (w1 & w2 & enc_type & c & He & Hn & Hnear) Henc. unfold _build_participant_node in Hn.
  revert Hn. rbind. intros [= <-]. injection Henc as <-. split; [done|].
  exists w1, w2, enc_type, c. split_and!; [by apply Hnear|done|done|done].
Qed.

Lemma all_children t a k l : Forall (λ n, tag n = k) l → get_children (mkNode t a (CList l)) (Some k) = l.
Proof.
  unfold get_children. cbn [content]. induction 1 as [|n l Hn _ IH]; [done|]. rewrite filter_cons_True by done. by rewrite IH.
Qed.

Lemma selects_own e id m w ds nodes from node : plain_message id m → Forall (λ d, canonical_jid d = true) ds → jb ∈ ds →
  Forall2 (participant_of e m w) ds nodes → relays from (stanza_of id m nodes) node →
  ∃ enc w1 w2 enc_type c, _select_enc_node jb node = Ok (Some enc) ∧ near kb w w1 ∧
    _encrypt_for_peer (sp_device spa) (fetch_prekeys e) (fresh e jb).1 (fresh e jb).2 jb (plaintext_for spa m jb) w1 =
      (w2, Ok (enc_type, c)) ∧ get_str enc (u "type") = Ok enc_type ∧ content_bytes enc = c.
Proof.
  intros Hpl Hds Hin Hn [_ _ Hc]. assert (canonical_jid jb = true) as Hj by (rewrite Forall_forall in Hds; by apply Hds).
  assert (Forall (λ n, tag n = u "to" ∧ ∃ d, participant_of e m w d n ∧ get_attr n (u "jid") = Some (AJid d)) nodes) as Hnodes.
  { clear Hc. revert Hds. clear Hin. induction Hn as [|d n ds nodes Hp _ IH]; [constructor|]. intros [Hd Hds]%Forall_cons.
    destruct (participant_shape e id m w d n Hpl Hd Hp) as (_ & _ & Ht & Ha & _). constructor; [by eauto|by apply IH]. }
  assert (get_children (mkNode (u "participants") [] (CList nodes)) (Some (u "to")) = nodes) as Hto.
  { apply all_children. eapply Forall_impl; [exact Hnodes|by intros n []]. }
  destruct node as [t a c]. cbn [content] in Hc. destruct Hc as [|p n enc others Hp Hto' Hjid Henc].
  - destruct (own_participant_finds e id m w ds nodes Hpl Hds Hin Hn) as (n & enc & Hown & Hpn & Henc).
    destruct (participant_enc e id m w n enc Hpl Hj Hpn) as (_ & w1 & w2 & ty & c & H1 & H2 & H3 & H4); [by unfold get_child; rewrite Henc|].
    exists enc, w1, w2, ty, c. split; [|done]. unfold _select_enc_node, stanza_of, _build_message_node, device_identity. cbn [content].
    destruct (sp_adv_identity spa) as [d|]; [destruct (truthy d)|]; node_lit; rewrite Hto; exact Hown.
  - assert (n ∈ nodes) as Hn'.
    { revert Hp Hto'. unfold stanza_of, _build_message_node. node_lit. intros [= <-]. by rewrite Hto. }
    rewrite Forall_forall in Hnodes. destruct (Hnodes n Hn') as (_ & d & Hpn & Hd). rewrite Hd in Hjid. injection Hjid as ->.
    destruct (participant_enc e id m w n enc Hpl Hj Hpn Henc) as (Ht & w1 & w2 & ty & c & H1 & H2 & H3 & H4).
    exists enc, w1, w2, ty, c. split; [|done]. unfold _select_enc_node. rewrite get_child_cons, decide_True by done. done.
Qed.

(** ** What the reader does with it *)

(** The edit or revocation that a body asks for. *)
Definition amendment (from : JID) (t : Z) (p : MessageProto) : option Event :=
  let inner := edited_message p ≫= λ m, m ≫= protocol_message in
  pm ← (if HasField inner then inner else protocol_message p);
  ty ← pm_type pm;
  let id := str_of (mk_id (default empty_key (pm_key pm))) in
  if ty =? MESSAGE_EDIT then
    Some (EvEdit (mkEdit from from id (_extract_text (default empty_message (pm_edited_message pm))) t))
  else if ty =? REVOKE then Some (EvRevoke (mkRevoke from from id t)) else None.

(** The event of a body from [from]. *)
Definition event_of (from : JID) (id : str) (t : Z) (p : MessageProto) : Event :=
  match reaction_message p with
  | Some rm =>
      let key := default empty_key (rm_key rm) in
      EvReaction (mkReaction from from (str_of (mk_id key)) (str_of (rm_text rm)) (bool_of (mk_from_me key))
        (int_of (rm_sender_timestamp_ms rm)))
  | None => default (EvMessage (mkMessage id from from (_extract_text p) t false (_extract_media p) (_extract_quoted p)))
              (amendment from t p)
  end.

Context (rp : ReceiverParams).

(** No event, and the stores as they were. *)
Definition quiet (s s' : rstate) : Prop := r_events s' = r_events s ∧ s_world (r_sender s') = s_world (r_sender s).

#[local] Instance quiet_preorder : PreOrder quiet.
Proof. split; [done|]. intros s1 s2 s3 [] []. split; congruence. Qed.

Lemma quiet_send e f : keeps quiet (in_sender (A := A) (transport_send (G := G) e f)).
Proof. intros s. unfold in_sender, transport_send. by destruct (sending e f). Qed.

Lemma quiet_task t : keeps quiet (create_task t).
Proof. done. Qed.

Lemma quiet_keys keys : keeps quiet (_store_app_state_keys rp keys).
Proof. intros s. unfold _store_app_state_keys. destruct (r_app_keys s); [|done]. by destruct (atomic _ _ _). Qed.

#[local] Hint Resolve quiet_send quiet_task quiet_keys : keeps.

Lemma quiet_receipt e node to : keeps quiet (or_log (_send_delivery_receipt (A := A) e node to)).
Proof. unfold or_log, _send_delivery_receipt, send. keeps. Qed.

(** A protocol message of someone else changes nothing. *)
Lemma protocol_of_other p from (s : rstate) : user from ≠ user (own_jid (rp_sender rp)) →
  ∃ h, _handle_protocol_message rp p from s = (s, Ok h).
Proof.
  intros Hu. unfold _handle_protocol_message. rewrite (bool_decide_false (user from = _)) by done.
  destruct (protocol_message p) as [pm|]; [|by eexists]. se_run.
  destruct (pm_app_state_sync_key_share pm), (pm_history_sync_notification pm), (HasField (r_app_keys s)), (rp_history_sync_handler rp);
    by eexists.
Qed.

(** The event comes out, and then nothing more. *)
Lemma emits ev B (m : SE rstate B) (s s' : rstate) r : keeps quiet m → (_ ← _safe_emit ev; m) s = (s', r) →
  r_events s' = r_events s ++ [ev] ∧ s_world (r_sender s') = s_world (r_sender s).
Proof.
  intros Hm H. set (s1 := mkReceiver (r_sender s) (r_iqs s) (r_app_keys s) (r_events s ++ [ev]) (r_tasks s) (r_routing s)).
  rewrite (se_bind_eq _ _ _ s1 tt) in H by done. by destruct (keeps_run _ _ _ _ _ Hm H).
Qed.

#[local] Hint Resolve quiet_receipt : keeps.

Lemma edit_or_revoke_eq e p from t node : _handle_edit_or_revoke (S := S) (I := I) (L := L) (K := K) (G := G) (A := A) e p from from t node =
  match amendment from t p with
  | Some ev => _ ← _safe_emit ev; _ ← or_log (_send_delivery_receipt e node from); mret true
  | None => mret false
  end.
Proof.
  unfold _handle_edit_or_revoke, amendment. cbv zeta. set (inner := edited_message p ≫= _).
  match goal with |- match protocol_message ?q with _ => _ end = _ =>
    assert (protocol_message q = if HasField inner then inner else protocol_message p) as Hq end.
  { unfold inner. destruct (edited_message p) as [[m|]|]; cbn; unfold id; [|done|done]. by destruct (protocol_message m) eqn:Em. }
  rewrite Hq. destruct (if HasField inner then inner else protocol_message p) as [pm|]; [|done]. cbn [mbind option_bind].
  destruct (pm_type pm) as [ty|]; [|done]. cbn [mbind option_bind]. destruct (ty =? MESSAGE_EDIT); [done|]. by destruct (ty =? REVOKE).
Qed.

Lemma body_event e node id from t p (s s' : rstate) r : user from ≠ user (own_jid (rp_sender rp)) →
  handle_body rp e node id from t p s = (s', r) →
  r_events s' = r_events s ++ [event_of from id t p] ∧ s_world (r_sender s') = s_world (r_sender s).
Proof.
  intros Hu. unfold handle_body, event_of. destruct (reaction_message p) as [rm|]; [apply emits; keeps|].
  rewrite edit_or_revoke_eq. destruct (amendment from t p) as [ev|]; cbn [default].
  - rewrite se_bind_assoc. apply emits. intros s0. rewrite se_bind_assoc.
    apply (keeps_bind quiet (or_log (_send_delivery_receipt e node from)) (λ _, mret tt)); [auto with keeps|intros _; apply keeps_ret, _].
  - rewrite se_bind_ret. destruct (protocol_of_other p from s Hu) as [h Hp]. se_step Hp. apply emits. keeps.
Qed.

Definition with_lids (l : L) (w : world) : world := mkWorld (w_sessions w) (w_ids w) l (w_prekeys w) (w_meta w).

(** What the server may add to the stanza of a phone-number sender. *)
Record legible (node : Node) (from : JID) (t : Z) (s : rstate) : Prop := {
  lg_server : server from = PN_SERVER;
  lg_other : user from ≠ user (own_jid (rp_sender rp));
  lg_lid : is_ok (_jid_from_attr (get_attr node (u "sender_lid"))) = true;
  lg_lids : ∀ pn lid, ∃ l, lid_set pn lid (w_lids (s_world (r_sender s))) = (l, Ok tt);
  lg_time : stanza_time node = Ok t
}.

Lemma addressing_ok node from t s : legible node from t s → ∃ s1 l, _record_peer_addressing node from s = (s1, Ok tt) ∧
  r_events s1 = r_events s ∧ s_world (r_sender s1) = with_lids l (s_world (r_sender s)).
Proof.
  intros [Hs _ Ha Hl _]. unfold _record_peer_addressing. rewrite Hs.
  rewrite bool_decide_false by (vm_compute; discriminate). rewrite bool_decide_true by done.
  destruct (_jid_from_attr _) as [alt|]; [|done]. se_run. destruct (_ && _).
  - destruct (Hl (user from) (user alt)) as [l El]. unfold set_lid, on_stores, in_sender, in_world, on_lids. rewrite El.
    by eexists _, l.
  - exists s, (w_lids (s_world (r_sender s))). split_and!; [done|done|]. by destruct (s_world _).
Qed.

Lemma hears e node enc from id t enc_type c rnd b p (P : world → Prop) (s s' : rstate) r :
  get_str node (u "id") = Ok id → get_attr node (u "from") = Some (AJid from) → legible node from t s → rp_retry_handler rp = true →
  _select_enc_node (own_jid (rp_sender rp)) node = Ok (Some enc) → get_str enc (u "type") = Ok enc_type → content_bytes enc = c →
  (∀ l, ∃ w', (p ← _decrypt_enc (rp_atomic rp) (sp_device (rp_sender rp)) (fe_new e 0) from enc_type c;
               _ ← note_incoming_decrypted from; mret p) (with_lids l (s_world (r_sender s))) =
              (w', Ok (Padding.pad_random_max16 rnd b)) ∧ P w') →
  parse_Message b = Ok p → _handle_message rp e node s = (s', r) →
  r_events s' = r_events s ++ [event_of from id t p] ∧ P (s_world (r_sender s')).
Proof.
  intros Hid Hfrom Hlg Hret Hsel Hty Hc Hdec Hp H. pose proof Hlg as [Hsrv Ho _ _ Ht]. unfold _handle_message in H.
  rewrite Hid, Hfrom in H. cbn [_jid_from_attr] in H. rewrite !se_bind_lift, Hsrv in H.
  rewrite (bool_decide_false (PN_SERVER = u "g.us")) in H by (vm_compute; discriminate).
  rewrite (bool_decide_false (user from = _ ∧ _)) in H by (intros [_ Hx]; vm_compute in Hx; discriminate).
  destruct (addressing_ok _ _ _ _ Hlg) as (s1 & l & E1 & Ev1 & W1). rewrite (se_bind_eq _ _ _ _ _ E1) in H.
  rewrite Ht, Hsel, !se_bind_lift, Hty, se_bind_lift in H. rewrite Hc in H.
  destruct (Hdec l) as (w' & Ed & Hw').
  apply se_bind_Ok_inv in Ed as (w2 & pt & E2 & E3). apply se_bind_Ok_inv in E3 as (w3 & [] & E3 & E4).
  injection E4 as -> ->. unfold open_message in H.
  set (upd := λ (w : world) (s : rstate), mkReceiver (mkSender w (s_router (r_sender s)) (s_sent (r_sender s)) (s_sender_keys (r_sender s))
    (s_ids (r_sender s)) (s_wire (r_sender s))) (r_iqs s) (r_app_keys s) (r_events s) (r_tasks s) (r_routing s)).
  assert (∀ h, se_try (p ← decrypt rp e 0 from enc_type c; mret (Some p)) is_Exception h s1 =
    (upd w2 s1, Ok (Some (Padding.pad_random_max16 rnd b)))) as Et.
  { intros h. unfold se_try, decrypt, on_stores, in_sender, in_world, mbind, se_bind. by rewrite W1, E2. }
  rewrite (se_bind_eq _ _ _ _ _ (Et _)), Hret in H.
  assert (on_stores (note_incoming_decrypted from) (upd w2 s1) = (upd w' s1, Ok tt)) as En.
  { unfold on_stores, in_sender, in_world. cbn. by rewrite E3. }
  rewrite (se_bind_eq _ _ _ _ _ En) in H. unfold parse_body in H. rewrite Padding.unpad_pad, Hp, se_bind_lift in H.
  destruct (body_event _ _ _ _ _ _ _ _ _ Ho H) as [-> ->]. cbn. by rewrite Ev1.
Qed.

(** ** The sessions of the two devices *)

(** What Alice's device [da] encrypts now, Bob's device [db] can decrypt, drawing [priv']: the
    two meet for the first time, or they are in a session in which Alice may speak. *)
Definition can_talk (da db : Device) (fetch : JID → result PreKeyBundle) (eph dh priv' : bytes) (ka : str) (wa wb : world) : Prop :=
  length priv' = 32%nat ∧
  ((∃ a b' s z spk_id o, meeting fetch eph dh da db a b' s z spk_id o ka kb wa wb ∧ NoDup (x25519_public <$> [priv'; dh; s])) ∨
   ∃ sa sb N keys, session_id (dv_jid da) = Ok ka ∧ session_id (dv_jid db) = Ok kb ∧
     length (ik_public (dv_identity da)) = 32%nat ∧ length (ik_public (dv_identity db)) = 32%nat ∧
     holds (ik_public (dv_identity db)) kb sa wa ∧ knows (ik_public (dv_identity da)) ka sb wb ∧ may_speak sa sb ∧
     level N keys sa ∧ level N keys sb ∧ 0 ≤ N ∧ N + 1 < 2 ^ 32 ∧ x25519_public priv' ∉ keys).

Lemma can_talk_delivers b da db fetch eph dh priv' ka wa wa1 wb p l : server (dv_jid da) = PN_SERVER →
  can_talk da db fetch eph dh priv' ka wa wb → near kb wa wa1 →
  ∃ wa2 wb2, deliver b fetch eph dh da db p priv' wa1 (with_lids l wb) = ((wa2, wb2), Ok p) ∧
    ∃ sb, holds (ik_public (dv_identity da)) ka sb wb2.
Proof.
  intros Hs [Hl [(a & b' & s & z & spk_id & o & M & Hnd)|(sa & sb & N & keys & Hka & Hkb & Hla & Hlb & [[A1 A2 A3] A4] & [B1 B2 B3] &
    Hm & La & Lb & HN & HN' & Hf)]] (N1 & N2 & N3).
  - assert (meeting fetch eph dh da db a b' s z spk_id o ka kb wa1 (with_lids l wb)) as M'.
    { destruct M as [m1 m2 m3 m4 m5 m6 m7 m8 m9 m10 m11]. split; try done; [by rewrite N1|].
      destruct m10 as (old & Hold & _). exists old. split; [done|]. right. left. rewrite Hs. by vm_compute. }
    destruct (first_message b fetch eph dh da db a b' s z spk_id o ka kb wa1 (with_lids l wb) p priv' M' Hl Hnd)
      as (wa2 & wb2 & ? & sb & Hd & _ & _ & Hb & _). exists wa2, wb2. split; [done|]. by exists sb.
  - destruct (deliver_established b fetch eph dh da db ka kb sa sb wa1 (with_lids l wb) p priv' N keys)
      as (wa2 & wb2 & ? & sb' & Hd & _ & Hb & _); try done.
    + split; [split|]; rewrite ?N1, ?N2; try done; intros m; rewrite N3; auto.
    + exists wa2, wb2. split; [done|]. by exists sb'.
Qed.

(** Bob's device is one of those that [send_message] sends to, and the only one of its
    session id; their addresses have a wire form. *)
Record recipient (e : Surroundings sstate) (chat : JID) : Prop := {
  rc_devices : ∃ ds, _target_devices spa e chat = Ok ds ∧ jb ∈ ds ∧ Forall (λ d, canonical_jid d = true) ds ∧
                 Forall (λ d, d ≠ jb → session_id d ≠ Ok kb) ds;
  rc_chat : canonical_jid (_base_jid chat) = true
}.

Lemma target_devices_NoDup (e : Surroundings sstate) chat ds : _target_devices spa e chat = Ok ds → NoDup ds.
Proof.
  intros H. destruct (device chat =? 0) eqn:Ed; zbool.
  - by destruct (target_devices_ok spa e chat ds H Ed).
  - unfold _target_devices in H. destruct (Z.eqb_spec (device chat) 0); [done|]. injection H as <-. apply NoDup_singleton.
Qed.

(** A new message id is hexadecimal. *)
Lemma hex_upper_plain d : plain (MessageIds.hex_upper d).
Proof.
  unfold plain. apply contains_false. unfold MessageIds.hex_upper. rewrite list_elem_of_bind. intros (x & Hx & _).
  pose proof (b2z_range x). unfold MessageIds.upper_hex_digit, AT in Hx. revert Hx.
  rewrite !elem_of_cons, elem_of_nil. destruct (_ <? 10) eqn:E1, (b2z x mod 16 <? 10) eqn:E2; zbool;
    pose proof (Z.mod_pos_bound (b2z x) 16); pose proof (Z.div_pos (b2z x) 16); lia.
Qed.

Lemma new_id_plain now draws (s s' : sstate) id : new_message_id now draws s = (s', Ok id) → plain id.
Proof.
  unfold new_message_id, MessageIds.new_message_id. generalize (MessageIds._sweep_expired now (s_ids s)). generalize (take 16 draws).
  clear draws. intros draws. induction draws as [|d draws IH]; intros ring H; [done|]. cbn [MessageIds.try_candidates] in H.
  destruct (decide _); [by eapply IH|]. destruct (_ <? _); [destruct (_ ++ _) as [|[]]|]; injection H as _ <-; apply hex_upper_plain.
Qed.

(** The sender's settings and the caller's stanza attributes are no JIDs. *)
Definition plain_settings (message_type edit : option str) : Prop :=
  plain (cf_enc_version (sp_config spa)) ∧ plain (cf_message_type (sp_config spa)) ∧
  from_option plain True message_type ∧ from_option plain True edit.

Lemma sent_plain id r chat proto text type edit own : plain id → plain_settings type edit →
  plain_message id (sent_of r chat proto text type edit own).
Proof.
  intros Hid (Hv & Hd & Ht & He).
  assert (plain (_media_type_for proto)) as Hm by (unfold _media_type_for; repeat case_match; reflexivity).
  assert (plain (_message_type_for proto)) as Hmt by (unfold _message_type_for; repeat case_match; reflexivity).
  split; try done; unfold sent_of; cbn [sn_message_type sn_decrypt_fail].
  - destruct type as [ty|]; [destruct (truthy ty)|]; done.
  - by destruct (_ || _).
Qed.

(** The first frame of [send_message], and what the device makes of it. *)
Lemma message_event da db e1 e2 r chat proto text type edit (sa s0 sa' : sstate) res id f others sent eb node t ka priv'
    (rb rb' : rstate) r' :
  sp_device spa = da → sp_device (rp_sender rp) = db → dv_jid db = jb →
  new_message_id (dr_clock r) (dr_ids r) sa = (s0, Ok id) → fair id e1 → fair id e2 → idle id sa → plain_settings type edit →
  recipient e1 chat →
  can_talk da db (fetch_prekeys e1) (fresh e1 jb).1 (fresh e1 jb).2 priv' ka (s_world sa) (s_world (r_sender rb)) →
  send_message spa e1 e2 r chat proto text type edit sa = (sa', res) → s_wire sa' = s_wire sa ++ f :: others →
  decode f = Ok sent → relays (dv_jid da) sent node → legible node (dv_jid da) t rb → rp_retry_handler rp = true →
  fe_new eb 0 = (priv', x25519_public priv') → _handle_message rp eb node rb = (rb', r') →
  r_events rb' = r_events rb ++ [event_of (dv_jid da) id t proto] ∧
  ∃ sb, holds (ik_public (dv_identity da)) ka sb (s_world (r_sender rb')).
Proof.
  intros Hda Hdb Hjb Hid H1 H2 Hidle Hps [(ds & Hds & Hin & Hcan & Hsid) Hchat] Htalk Hsend Hwire Hdec Hrel Hleg Hret Hnew Hh.
  destruct (send_message_ok spa e1 e2 r chat proto text type edit sa s0 sa' id res Hid H1 H2 Hidle Hsend)
    as (_ & own & sends & [Hw _ _ Hfirst] & Hser & _). set (m := sent_of r chat proto text type edit own) in *.
  rewrite Hwire in Hw. apply app_inv_head in Hw. destruct sends as [|[f' os] sends]; [done|]. cbn in Hw. injection Hw as <- _.
  specialize (Hser ltac:(done)). destruct (ser_Message proto) as [b|] eqn:Eser; [|done].
  destruct (Hfirst f eq_refl) as (ds' & nodes & x0 & x1 & Hx0 & Hds' & Hfold & Henc). change (sn_chat m) with chat in Hds'.
  rewrite Hds in Hds'. injection Hds' as <-.
  destruct (participants_of e1 m (s_world sa) ds (target_devices_NoDup _ _ _ Hds) Hsid [] nodes x0 x1) as (new & -> & Hnodes); [|done|].
  { intros _. rewrite Hx0. reflexivity. }
  pose proof (sent_plain id r chat proto text type edit own (new_id_plain _ _ _ _ _ Hid) Hps) as Hpl. fold m in Hpl.
  rewrite (stanza_decodes e1 id m (s_world sa) ds new f Hpl Hchat Hcan Hnodes Henc) in Hdec. injection Hdec as <-.
  destruct (selects_own e1 id m (s_world sa) ds new (dv_jid da) node Hpl Hcan Hin Hnodes Hrel)
    as (enc & w1 & w2 & ty & c & Hsel & Hnear & Hcry & Hty & Hc).
  assert (plaintext_for spa m jb = Padding.pad_random_max16 (dr_pad r) b) as Hpt.
  { unfold plaintext_for. rewrite bool_decide_false.
    - unfold m, sent_of. cbn [sn_plaintext]. by rewrite Eser.
    - intros Heq. destruct Hleg as [_ Ho _ _ _]. apply Ho. injection Heq as Hu _. unfold own_jid in *. rewrite Hdb, Hjb, Hu. by rewrite Hda. }
  rewrite Hpt, Hda in Hcry.
  destruct Hrel as [Hnid Hfrom _].
  eapply (hears eb node enc (dv_jid da) id t ty c (dr_pad r) b proto (λ w, ∃ sb, holds (ik_public (dv_identity da)) ka sb w)); try done.
  - unfold get_str. unfold get_attr in Hnid. by rewrite Hnid.
  - unfold own_jid. by rewrite Hdb, Hjb.
  - intros l. destruct (can_talk_delivers (rp_atomic rp) da db _ _ _ _ ka _ w1 _ (Padding.pad_random_max16 (dr_pad r) b) l
      (lg_server _ _ _ _ Hleg) Htalk Hnear) as (wa2 & wb2 & Hd & Hholds).
    unfold deliver in Hd. rewrite Hjb, Hcry in Hd. rewrite Hdb, Hnew.
    destruct ((p ← _decrypt_enc _ _ _ _ _ _; _ ← note_incoming_decrypted _; mret p) _) as [w3 r3] eqn:E3 in Hd.
    injection Hd as _ <- ->. exists w3. split; [exact E3|done].
  - by apply message_parse_ser.
Qed.
End Delivery.

(** C1: A message arrives: whatever the body, a text, a reply, an attachment, a reaction, an edit or
    a revocation, the first stanza that [send_message] puts on the wire, handed on by the
    server to one of the devices it is for, makes the reader there emit exactly the event
    of that body, from the sender; and the device then holds a session with the sender. *)
Theorem message_arrives {S I L K G A : Type} {SS : SessionStore S} {SL : SessionStoreLaws S} {IS : IdentityStore I}
    {IL : IdentityStoreLaws I} {LM : LidMap L} {KS : PreKeyStore K} {GS : SenderKeys G} {AK : AppStateKeyStore A}
    {X : X25519} {XL : X25519Laws X} {E : XEdDSA} {EL : XEdDSALaws X E} {HK : Hkdf} {HKL : HkdfLaws HK} {HM : Hmac}
    {AES : AesCbc} {AL : AesCbcLaws AES} {PK : Pkcs7} {PL : Pkcs7Laws PK} {W : WhisperProto} {WL : WhisperProtoLaws W}
    {SP : SenderKeyProto} {U : UnicodeDB} {Zl : Zlib} {ZL : ZlibLaws Zl} {C : MessageCodec} {CL : MessageCodecLaws C}
    spa rp e1 e2 r chat proto text type edit (sa s0 sa' : SenderState S I L K G) res id f others sent eb node t ka kb priv'
    (rb rb' : ReceiverState S I L K G A) r' :
  let da := sp_device spa in let db := sp_device (rp_sender rp) in
  new_message_id (dr_clock r) (dr_ids r) sa = (s0, Ok id) → fair id e1 → fair id e2 → idle id sa →
  plain_settings spa type edit → recipient spa (dv_jid db) kb e1 chat →
  can_talk kb da db (fetch_prekeys e1) (fresh e1 (dv_jid db)).1 (fresh e1 (dv_jid db)).2 priv' ka
    (s_world sa) (s_world (r_sender rb)) →
  send_message spa e1 e2 r chat proto text type edit sa = (sa', res) → s_wire sa' = s_wire sa ++ f :: others →
  decode f = Ok sent → relays (dv_jid db) (dv_jid da) sent node → legible rp node (dv_jid da) t rb →
  rp_retry_handler rp = true → fe_new eb 0 = (priv', x25519_public priv') → _handle_message rp eb node rb = (rb', r') →
  r_events rb' = r_events rb ++ [event_of (dv_jid da) id t proto] ∧
  ∃ sb, holds (ik_public (dv_identity da)) ka sb (s_world (r_sender rb')).
Proof. intros da db. by apply message_event. Qed.

Import ReceiverDemo.

(** Alice greets Bob, whom she meets for the first time. *)
Lemma message_arrives_witness :
  r_events greeted.1 =
    [EvMessage (mkMessage id (jid "alice") (jid "alice") (u "hello") 0 false None None)] ∧
  ∃ sb, holds (key 1) (u "alice:0@s.whatsapp.net") sb (s_world (r_sender greeted.1)).
Proof.
  pose (node := ok_or (mkNode [] [] CNone) (decode (first_frame sent.1))).
  edestruct (message_arrives (C := ToyCodec.toy_messages) (CL := ToyCodec.toy_messages_laws) (SL := mem_session_laws)
    (params (alice_dev 1)) (reads bob_dev) asks_retry acks draws (jid "bob") hello (u "hello") None None
    (start empty) (new_message_id 0 [replicate 8 (mkb 1)] (start empty)).1 sent.1 sent.2 id (first_frame sent.1)
    (tail (s_wire sent.1)) node (env_of acks) greeting 0 (u "alice:0@s.whatsapp.net") (u "bob:0@s.whatsapp.net") (key 20)
    (reader (start bob_world)) greeted.1 greeted.2) as [He Hs].
  - reflexivity.
  - apply fair_retry.
  - apply fair_acks.
  - apply start_idle.
  - repeat split.
  - split; [|reflexivity]. exists [jid "bob"]. split; [vm_compute; reflexivity|]. split; [left|].
    split; repeat constructor. intros Hne. by destruct Hne.
  - split; [reflexivity|]. left. eexists _, _, _, _, _, _. split; [apply meets|]. apply (bool_decide_eq_true_1 (NoDup _)). reflexivity.
  - vm_compute; reflexivity.
  - vm_compute; reflexivity.
  - vm_compute; reflexivity.
  - split; [vm_compute; reflexivity..|]. vm_compute. constructor.
  - split; try (vm_compute; reflexivity); [vm_compute; discriminate|]. intros pn lid. eexists. reflexivity.
  - reflexivity.
  - reflexivity.
  - vm_compute; reflexivity.
  - split; [rewrite He; vm_compute; reflexivity|exact Hs].
Defined.
