(* ===== verification/DeviceStore.v ===== *)
(** * The device credential store ([src/src/pywhats/store.py])

    The record of a device, its JSON form, and the file it is kept in. Saving runs against
    a file system whose every state is recorded, so that what a reader sees after a crash
    at any point is part of what is proved. *)

From S2P Require Import Prelude Effects PyStr Json JsonText Crypto SignalKeys SessionStore.

Definition SCHEMA_VERSION : Z := 1.

Record JIDTuple := mkJIDTuple { jt_user : str; jt_server : str; jt_device : Z }.

(** [ds_created_at] is the literal of a float. *)
Record DeviceStore := mkDeviceStore {
  ds_noise_private : bytes;
  ds_noise_public : bytes;
  ds_identity_private : bytes;
  ds_identity_public : bytes;
  ds_registration_id : Z;
  ds_signed_pre_key_id : Z;
  ds_signed_pre_key_private : bytes;
  ds_signed_pre_key_public : bytes;
  ds_signed_pre_key_signature : bytes;
  ds_jid : option JIDTuple;
  ds_device_id : option Z;
  ds_adv_signed_device_identity : option bytes;
  ds_push_name : option str;
  ds_lid : option str;
  ds_created_at : str;
  ds_pywhats_version : str;
  ds_schema_version : Z
}.

(** [DeviceStore.new]: a store that is not paired; [now] is [time.time()]. *)
Definition DeviceStore_new (identity : IdentityKeyPair) (spk : SignedPreKey) (noise_private noise_public : bytes)
    (registration_id : Z) (pywhats_version now : str) : DeviceStore :=
  mkDeviceStore noise_private noise_public (ik_private identity) (ik_public identity) registration_id
    (spk_key_id spk) (spk_private spk) (spk_public spk) (spk_signature spk) None None None None None
    now pywhats_version SCHEMA_VERSION.

Definition identity_key_pair (s : DeviceStore) : IdentityKeyPair := mkIdentity (ds_identity_private s) (ds_identity_public s).

Definition signed_pre_key (s : DeviceStore) : SignedPreKey :=
  mkSignedPreKey (ds_signed_pre_key_id s) (ds_signed_pre_key_private s) (ds_signed_pre_key_public s) (ds_signed_pre_key_signature s).

(** ** [__repr__] *)

Inductive field_value :=
  | FBytes (b : bytes) | FOptBytes (b : option bytes) | FInt (n : Z) | FOptInt (n : option Z) | FStr (s : str)
  | FOptStr (s : option str) | FFloat (lit : str) | FJid (j : option JIDTuple).

(** [fields(self)], in the order of the class. *)
Definition fields (s : DeviceStore) : list (str * field_value) :=
  [(u "noise_private", FBytes (ds_noise_private s)); (u "noise_public", FBytes (ds_noise_public s));
   (u "identity_private", FBytes (ds_identity_private s)); (u "identity_public", FBytes (ds_identity_public s));
   (u "registration_id", FInt (ds_registration_id s)); (u "signed_pre_key_id", FInt (ds_signed_pre_key_id s));
   (u "signed_pre_key_private", FBytes (ds_signed_pre_key_private s));
   (u "signed_pre_key_public", FBytes (ds_signed_pre_key_public s));
   (u "signed_pre_key_signature", FBytes (ds_signed_pre_key_signature s));
   (u "jid", FJid (ds_jid s)); (u "device_id", FOptInt (ds_device_id s));
   (u "adv_signed_device_identity", FOptBytes (ds_adv_signed_device_identity s));
   (u "push_name", FOptStr (ds_push_name s)); (u "lid", FOptStr (ds_lid s)); (u "created_at", FFloat (ds_created_at s));
   (u "pywhats_version", FStr (ds_pywhats_version s)); (u "schema_version", FInt (ds_schema_version s))].

Definition _SECRET_FIELDS : list str :=
  [u "noise_private"; u "noise_public"; u "identity_private"; u "identity_public"; u "signed_pre_key_private";
   u "signed_pre_key_public"; u "signed_pre_key_signature"; u "adv_signed_device_identity"].

(** [repr] is Python's on the values of the fields. *)
Definition DeviceStore_repr (repr : field_value → str) (s : DeviceStore) : str :=
  let part f := if bool_decide (f.1 ∈ _SECRET_FIELDS) then f.1 ++ u "=<redacted>" else f.1 ++ u "=" ++ repr f.2 in
  u "DeviceStore(" ++ join (u ", ") (part <$> fields s) ++ u ")".

(** ** The JSON form *)

Definition _b64e (b : bytes) : str := b64encode b.

Definition _b64d (v : json) : result bytes :=
  match v with JStr s => some_or (b64decode s) StoreCorruptError | _ => Raise StoreCorruptError end.

Definition opt_value {A} (f : A → json) (o : option A) : json := from_option f JNull o.

Definition jid_to_json (j : JIDTuple) : json :=
  JObj [(u "user", JStr (jt_user j)); (u "server", JStr (jt_server j)); (u "device", JInt (jt_device j))].

Definition spk_to_json (s : DeviceStore) : json :=
  JObj [(u "id", JInt (ds_signed_pre_key_id s)); (u "private", JStr (_b64e (ds_signed_pre_key_private s)));
        (u "public", JStr (_b64e (ds_signed_pre_key_public s)));
        (u "signature", JStr (_b64e (ds_signed_pre_key_signature s)))].

Definition to_json (s : DeviceStore) : list (str * json) :=
  [(u "version", JInt SCHEMA_VERSION); (u "schema_version", JInt SCHEMA_VERSION);
   (u "pywhats_version", JStr (ds_pywhats_version s)); (u "created_at", JFloat (ds_created_at s));
   (u "noise_private", JStr (_b64e (ds_noise_private s))); (u "noise_public", JStr (_b64e (ds_noise_public s)));
   (u "identity_private", JStr (_b64e (ds_identity_private s))); (u "identity_public", JStr (_b64e (ds_identity_public s)));
   (u "registration_id", JInt (ds_registration_id s)); (u "signed_pre_key", spk_to_json s);
   (u "jid", opt_value jid_to_json (ds_jid s)); (u "device_id", opt_value JInt (ds_device_id s));
   (u "adv_signed_device_identity", opt_value (λ b, JStr (_b64e b)) (ds_adv_signed_device_identity s));
   (u "push_name", opt_value JStr (ds_push_name s)); (u "lid", opt_value JStr (ds_lid s))].

(** [str(v)] of a float, a list or a dictionary. *)
Class JsonRepr := json_repr : json → str.

Section FromJson.
Context {U : UnicodeDB} {F : FloatOps} {R : JsonRepr}.

Definition str_json (v : json) : result str :=
  match v with JFloat _ | JArr _ | JObj _ => Ok (json_repr v) | _ => py_str_json v end.

(** [float(v)] *)
Definition float_json (v : json) : result str :=
  match v with
  | JFloat lit => Ok lit
  | JInt n => float_of_int n
  | JBool x => float_of_int (if x then 1 else 0)
  | JStr s => float_of_str s
  | _ => Raise TypeError
  end.

Definition item (k : str) (data : list (str * json)) : result json := some_or (dict_get k data) KeyError.

Definition b64_item (k : str) (data : list (str * json)) : result bytes := v ← item k data; _b64d v.

(** [None if data.get(k) is None else f(data[k])] *)
Definition opt_item {A} (f : json → result A) (k : str) (data : list (str * json)) : result (option A) :=
  match dict_get k data with None | Some JNull => Ok None | Some v => x ← f v; Ok (Some x) end.

(** [f(data.get(k, default))] *)
Definition item_or {A} (f : json → result A) (k : str) (dflt : result A) (data : list (str * json)) : result A :=
  from_option f dflt (dict_get k data).

Definition jid_of_json (v : json) : result JIDTuple :=
  match v with
  | JObj d =>
      user ← (v ← item (u "user") d; str_json v);
      server ← (v ← item (u "server") d; str_json v);
      device ← (v ← item (u "device") d; py_int_json v);
      Ok (mkJIDTuple user server device)
  | _ => Raise StoreCorruptError
  end.

(** [isinstance(reg_id, int)] holds of a boolean too. *)
Definition uint32_json (v : json) : result Z :=
  match v with
  | JInt n => if (n <? 0) || (0xFFFFFFFF <? n) then Raise StoreCorruptError else Ok n
  | JBool x => Ok (if x then 1 else 0)
  | _ => Raise StoreCorruptError
  end.

(** The [try] block of [from_json]. *)
Definition device_of_json (now : str) (data : list (str * json)) : result DeviceStore :=
  spk_raw ← item (u "signed_pre_key") data;
  spk ← match spk_raw with JObj d => Ok d | _ => Raise StoreCorruptError end;
  jid ← opt_item jid_of_json (u "jid") data;
  adv ← opt_item _b64d (u "adv_signed_device_identity") data;
  reg_id ← (v ← item (u "registration_id") data; uint32_json v);
  noise_private ← b64_item (u "noise_private") data;
  noise_public ← b64_item (u "noise_public") data;
  identity_private ← b64_item (u "identity_private") data;
  identity_public ← b64_item (u "identity_public") data;
  spk_id ← (v ← item (u "id") spk; py_int_json v);
  spk_private ← b64_item (u "private") spk;
  spk_public ← b64_item (u "public") spk;
  spk_signature ← b64_item (u "signature") spk;
  device_id ← opt_item py_int_json (u "device_id") data;
  push_name ← opt_item str_json (u "push_name") data;
  lid ← opt_item str_json (u "lid") data;
  created_at ← item_or float_json (u "created_at") (Ok now) data;
  pywhats_version ← item_or str_json (u "pywhats_version") (Ok []) data;
  schema_version ← item_or py_int_json (u "schema_version") (Ok SCHEMA_VERSION) data;
  Ok (mkDeviceStore noise_private noise_public identity_private identity_public reg_id spk_id spk_private spk_public
        spk_signature jid device_id adv push_name lid created_at pywhats_version schema_version).

(** [except KeyError] and [except (TypeError, ValueError)] *)
Definition malformed {A} (r : result A) : result A :=
  match r with
  | Raise e => if bool_decide (e = KeyError ∨ e = TypeError) || is_ValueError e then Raise StoreCorruptError else r
  | _ => r
  end.

Definition from_json (now : str) (v : json) : result DeviceStore :=
  match v with
  | JObj data =>
      match dict_get (u "version") data with
      | None | Some JNull => Raise StoreCorruptError
      | Some ver => if negb (is_schema ver) then Raise StoreVersionError else malformed (device_of_json now data)
      end
  | _ => Raise StoreCorruptError
  end.
End FromJson.

(** ** The file *)

(** A file with its permission bits; [f_synced] when its data is on the disk. *)
Record file := mkFile { f_mode : Z; f_data : bytes; f_synced : bool }.

(** The file system now, and every state it was in before: what a reader sees that starts
    when the process, or the machine, has stopped. *)
Record Disk := mkDisk { files : gmap str file; past : list (gmap str file) }.

(** How the calls on the operating system end. [io_written] is how many bytes reach the
    file when writing fails. *)
Record SaveCalls := mkSaveCalls {
  io_mkdir : result unit; io_mkstemp : result unit; io_fchmod : result unit; io_write : result unit; io_written : nat;
  io_fsync : result unit; io_replace : result unit; io_unlink : result unit; io_opendir : result unit; io_fsyncdir : result unit }.

Definition all_well : SaveCalls := mkSaveCalls (Ok tt) (Ok tt) (Ok tt) (Ok tt) 0 (Ok tt) (Ok tt) (Ok tt) (Ok tt) (Ok tt).

Section File.
Context {U : UnicodeDB} {F : FloatOps} {R : JsonRepr}.

(** A call that takes effect when it succeeds. *)
Definition sys_call (r : result unit) (f : gmap str file → gmap str file) : SE Disk unit := λ d,
  match r with Ok _ => (mkDisk (f (files d)) (files d :: past d), Ok tt) | Raise e => (d, Raise e) end.

Definition chmod (path : str) (mode : Z) : gmap str file → gmap str file :=
  alter (λ f, mkFile mode (f_data f) (f_synced f)) path.
Definition append (path : str) (b : bytes) : gmap str file → gmap str file :=
  alter (λ f, mkFile (f_mode f) (f_data f ++ b) false) path.
Definition sync (path : str) : gmap str file → gmap str file := alter (λ f, mkFile (f_mode f) (f_data f) true) path.
Definition rename (src dst : str) (fs : gmap str file) : gmap str file :=
  match fs !! src with Some f => <[dst := f]> (delete src fs) | None => fs end.

(** [fh.write] and [fh.flush]: a part of the data may be written before they fail. *)
Definition write_file (io : SaveCalls) (path : str) (b : bytes) : SE Disk unit :=
  match io_write io with
  | Ok _ => sys_call (Ok tt) (append path b)
  | Raise e => _ ← sys_call (Ok tt) (append path (take (io_written io) b)); se_raise e
  end.

Definition temp_path (dir rnd : str) : str := dir ++ u "/.devstore-" ++ rnd ++ u ".tmp".

(** [tempfile.mkstemp(prefix=".devstore-", suffix=".tmp", dir=dir)]: the first of the random
    names that no file has. *)
Definition mkstemp (io : SaveCalls) (dir : str) (names : list str) : SE Disk str :=
  fs ← se_asks files;
  match filter (λ p, fs !! p = None) (temp_path dir <$> names) with
  | p :: _ => _ ← sys_call (io_mkstemp io) (<[p := mkFile 0x180 [] false]>); mret p
  | [] => se_raise OSError
  end.

Definition payload (store : DeviceStore) : result bytes :=
  t ← dumps_at (Some 2%nat) 0 (sort_keys (JObj (to_json store))); utf8_encode t.

(** The directory is synced if the system can do it. *)
Definition sync_directory (io : SaveCalls) : SE Disk unit :=
  opened ← se_try (_ ← se_lift (io_opendir io); mret true) is_OSError (λ _, mret false);
  if opened : bool then se_try (se_lift (io_fsyncdir io)) is_OSError (λ _, mret tt) else mret tt.

(** The [try] block of [save_device_store]. *)
Definition replace_file (io : SaveCalls) (tmp_path dest : str) (data : bytes) : SE Disk unit :=
  _ ← sys_call (io_fchmod io) (chmod tmp_path 0x180);
  _ ← write_file io tmp_path data;
  _ ← sys_call (io_fsync io) (sync tmp_path);
  sys_call (io_replace io) (rename tmp_path dest).

(** Best-effort cleanup, and the error again. *)
Definition discard (io : SaveCalls) (tmp_path : str) (e : exn) : SE Disk unit :=
  _ ← se_try (sys_call (io_unlink io) (delete tmp_path)) is_OSError (λ _, mret tt); se_raise e.

Definition save_device_store (io : SaveCalls) (store : DeviceStore) (dir dest : str) (names : list str) : SE Disk unit :=
  _ ← se_lift (io_mkdir io);
  data ← se_lift (payload store);
  tmp_path ← mkstemp io dir names;
  _ ← se_try (replace_file io tmp_path dest data) is_Exception (discard io tmp_path);
  sync_directory io.

(** ** Loading *)

(** The group and other bits. *)
Definition _UNSAFE_MODE_BITS : Z := 0x3F.

(** How [stat] and [read] end on a file that exists. *)
Record LoadCalls := mkLoadCalls { io_stat : result unit; io_read : result unit }.

Definition _check_permissions (posix : bool) (io : LoadCalls) (f : option file) : result unit :=
  if negb posix then Ok tt
  else match f with
       | None => Ok tt
       | Some f =>
           match io_stat io with
           | Raise FileNotFoundError => Ok tt
           | Raise e => if is_OSError e then Raise StoreError else Raise e
           | Ok _ => if Z.land (f_mode f) _UNSAFE_MODE_BITS =? 0 then Ok tt else Raise StoreSecurityError
           end
       end.

Definition read_file (io : LoadCalls) (f : option file) : result bytes :=
  match f with
  | None => Raise FileNotFoundError
  | Some f =>
      match io_read io with
      | Raise FileNotFoundError => Raise FileNotFoundError
      | Raise e => if is_OSError e then Raise StoreError else Raise e
      | Ok _ => Ok (f_data f)
      end
  end.

(** [json.loads(raw.decode("utf-8"))] *)
Definition parse_store (raw : bytes) : result json :=
  match (t ← utf8_decode raw; json_loads_str t) with
  | Raise e => if bool_decide (e = UnicodeError ∨ e = JSONDecodeError) then Raise StoreCorruptError else Raise e
  | Ok v => Ok v
  end.

Definition load_device_store (posix : bool) (io : LoadCalls) (now : str) (fs : gmap str file) (path : str) : result DeviceStore :=
  _ ← _check_permissions posix io (fs !! path);
  raw ← read_file io (fs !! path);
  data ← parse_store raw;
  from_json now data.
End File.

(** ** Saving and loading *)

Section Proofs.
Context {U : UnicodeDB} {UL : UnicodeDBLaws U} {F : FloatOps} {R : JsonRepr}.

Definition scalar_opt (o : option str) : Prop := from_option (λ s, scalar_str s = true) True o.

(** A store as the code makes it: valid Unicode, printable numbers, the current schema. *)
Record storable (s : DeviceStore) : Prop := {
  st_registration : 0 ≤ ds_registration_id s ≤ 0xFFFFFFFF;
  st_spk : counter_ok (ds_signed_pre_key_id s);
  st_jid : from_option (λ j, scalar_str (jt_user j) = true ∧ scalar_str (jt_server j) = true ∧ counter_ok (jt_device j)) True (ds_jid s);
  st_device : from_option counter_ok True (ds_device_id s);
  st_name : scalar_opt (ds_push_name s);
  st_lid : scalar_opt (ds_lid s);
  st_created : is_float_literal (ds_created_at s) = true;
  st_version : scalar_str (ds_pywhats_version s) = true;
  st_schema : ds_schema_version s = SCHEMA_VERSION
}.

Lemma b64d_b64e b : _b64d (JStr (_b64e b)) = Ok b.
Proof. cbn [_b64d]. unfold _b64e. by rewrite b64_roundtrip. Qed.

Lemma item_sorted k l v : dict_ok l → dict_get k l = Some v → item k (sort_items l) = Ok (sort_keys v).
Proof. intros Hok H. unfold item. by rewrite dict_get_sorted, H. Qed.

Lemma b64_item_sorted k l b : dict_ok l → dict_get k l = Some (JStr (_b64e b)) → b64_item k (sort_items l) = Ok b.
Proof. intros Hok H. unfold b64_item. rewrite (item_sorted _ _ _ Hok H). apply b64d_b64e. Qed.

(** An optional entry that was written by [g] and is read by [f]. *)
Lemma opt_item_sorted {A} (f : json → result A) (g : A → json) k l o : dict_ok l → dict_get k l = Some (opt_value g o) →
  (∀ x, o = Some x → sort_keys (g x) ≠ JNull ∧ f (sort_keys (g x)) = Ok x) → opt_item f k (sort_items l) = Ok o.
Proof.
  intros Hok H Hf. unfold opt_item. rewrite dict_get_sorted, H by done. destruct o as [x|]; [|done]. cbn.
  destruct (Hf x eq_refl) as [Hn Hx]. destruct (sort_keys (g x)); first [done|by rewrite Hx].
Qed.

Lemma item_or_sorted {A} (f : json → result A) k dflt l v : dict_ok l → dict_get k l = Some v →
  item_or f k dflt (sort_items l) = f (sort_keys v).
Proof. intros Hok H. unfold item_or. by rewrite dict_get_sorted, H. Qed.

Lemma jid_to_json_ok j : dict_ok (match jid_to_json j with JObj l => l | _ => [] end).
Proof. unfold dict_ok. vm_compute. apply (bool_decide_unpack _). by vm_compute. Qed.

Lemma jid_of_to j : jid_of_json (sort_keys (jid_to_json j)) = Ok j.
Proof.
  destruct j as [us sv d]. pose proof (jid_to_json_ok (mkJIDTuple us sv d)) as Hok. unfold jid_to_json in *.
  cbn [jt_user jt_server jt_device] in *. set (l := [_; _; _]) in *.
  change (sort_keys (JObj l)) with (JObj (sort_items l)). cbn [jid_of_json].
  rewrite !(item_sorted _ l _ Hok) by reflexivity. reflexivity.
Qed.

Lemma to_json_ok s : dict_ok (to_json s).
Proof. unfold dict_ok. apply (bool_decide_unpack _). by vm_compute. Qed.

Lemma spk_to_json_ok s : ∃ l, spk_to_json s = JObj l ∧ dict_ok l ∧ dict_get (u "id") l = Some (JInt (ds_signed_pre_key_id s)) ∧
  dict_get (u "private") l = Some (JStr (_b64e (ds_signed_pre_key_private s))) ∧
  dict_get (u "public") l = Some (JStr (_b64e (ds_signed_pre_key_public s))) ∧
  dict_get (u "signature") l = Some (JStr (_b64e (ds_signed_pre_key_signature s))).
Proof.
  eexists. split; [reflexivity|]. split_and!; [|reflexivity..]. unfold dict_ok. apply (bool_decide_unpack _). by vm_compute.
Qed.

(** What was written is read back, whatever the order of the keys in the text. *)
Lemma from_to_json now s : storable s → from_json now (sort_keys (JObj (to_json s))) = Ok s.
Proof.
  intros Hs. pose proof (to_json_ok s) as Hok. change (sort_keys (JObj (to_json s))) with (JObj (sort_items (to_json s))).
  unfold from_json. rewrite (dict_get_sorted _ _ Hok). change (dict_get (u "version") (to_json s)) with (Some (JInt 1)).
  cbn [fmap option_fmap option_map sort_keys is_schema]. change (negb (1 =? _SCHEMA_VERSION)) with false. cbn iota.
  unfold device_of_json. destruct (spk_to_json_ok s) as (l & El & Hl & H1 & H2 & H3 & H4).
  rewrite (item_sorted (u "signed_pre_key") _ (spk_to_json s) Hok), El by reflexivity. rbind.
  change (sort_keys (JObj l)) with (JObj (sort_items l)). cbn iota.
  rewrite (opt_item_sorted jid_of_json jid_to_json _ _ (ds_jid s) Hok); [|reflexivity|].
  2:{ intros j _. split; [done|apply jid_of_to]. }
  rbind. rewrite (opt_item_sorted _b64d (λ b, JStr (_b64e b)) _ _ (ds_adv_signed_device_identity s) Hok); [|reflexivity|].
  2:{ intros b _. split; [done|apply b64d_b64e]. }
  rbind. rewrite (item_sorted (u "registration_id") _ (JInt (ds_registration_id s)) Hok) by reflexivity. rbind.
  cbn [sort_keys uint32_json]. destruct (st_registration s Hs) as [Hr1 Hr2].
  rewrite !(proj2 (Z.ltb_ge _ _)) by lia. cbn [orb]. rbind.
  rewrite (b64_item_sorted (u "noise_private") _ (ds_noise_private s) Hok) by reflexivity. rbind.
  rewrite (b64_item_sorted (u "noise_public") _ (ds_noise_public s) Hok) by reflexivity. rbind.
  rewrite (b64_item_sorted (u "identity_private") _ (ds_identity_private s) Hok) by reflexivity. rbind.
  rewrite (b64_item_sorted (u "identity_public") _ (ds_identity_public s) Hok) by reflexivity. rbind.
  rewrite (item_sorted _ _ _ Hl H1). rbind. cbn [sort_keys py_int_json]. rbind.
  rewrite (b64_item_sorted _ _ _ Hl H2), (b64_item_sorted _ _ _ Hl H3), (b64_item_sorted _ _ _ Hl H4). rbind.
  rewrite (opt_item_sorted py_int_json JInt (u "device_id") _ (ds_device_id s) Hok) by first [reflexivity|intros ? _; split; done]. rbind.
  rewrite (opt_item_sorted str_json JStr (u "push_name") _ (ds_push_name s) Hok) by first [reflexivity|intros ? _; split; done]. rbind.
  rewrite (opt_item_sorted str_json JStr (u "lid") _ (ds_lid s) Hok) by first [reflexivity|intros ? _; split; done]. rbind.
  rewrite (item_or_sorted float_json (u "created_at") _ _ (JFloat (ds_created_at s)) Hok) by reflexivity.
  rewrite (item_or_sorted str_json (u "pywhats_version") _ _ (JStr (ds_pywhats_version s)) Hok) by reflexivity.
  rewrite (item_or_sorted py_int_json (u "schema_version") _ _ (JInt SCHEMA_VERSION) Hok) by reflexivity.
  cbn [sort_keys float_json str_json py_str_json py_int_json malformed]. rbind. destruct s. cbn in *.
  by rewrite <-(st_schema _ Hs).
Qed.
Lemma to_json_prints s : storable s →
  json_wf (sort_keys (JObj (to_json s))) ∧ printable (sort_keys (JObj (to_json s))).
Proof.
  intros [Hr [? ?] Hj Hd Hn Hl Hc Hv _].
  assert (∀ j, ds_jid s = Some j → json_wf (jid_to_json j) ∧ printable (sort_keys (jid_to_json j))) as Hjid.
  { intros j Ej. rewrite Ej in Hj. destruct Hj as (? & ? & ? & ?). split.
    - apply wf_literal_obj; [by vm_compute|]. repeat (apply Forall_cons; split; [cbn; auto with json|]). constructor.
    - apply printable_sorted. repeat (apply Forall_cons; split; [cbn; auto with json|]). constructor. }
  split.
  - apply sort_keys_wf, wf_literal_obj; [by vm_compute|]. unfold to_json.
    repeat (apply Forall_cons; split; [cbn [snd]; first
      [solve [auto using wf_b64 with json lia]
      |solve [constructor; first [lia|done]]
      |apply wf_literal_obj; [by vm_compute|]; repeat (apply Forall_cons; split; [cbn [snd]; auto using wf_b64 with json|]); constructor
      |match goal with |- json_wf (opt_value _ ?o) => destruct o eqn:?; cbn in *; [|constructor] end;
       first [apply Hjid; done|apply wf_b64|constructor; first [apply Hd|apply Hn|apply Hl]]] |]). constructor.
  - apply printable_sorted. unfold to_json.
    repeat (apply Forall_cons; split; [cbn [snd]; first
      [solve [cbn [sort_keys]; auto with json]
      |solve [cbn [sort_keys]; apply printable_int; by apply py_str_int_32; lia]
      |apply printable_sorted; repeat (apply Forall_cons; split; [cbn [snd sort_keys]; auto with json|]); constructor
      |match goal with |- printable (sort_keys (opt_value _ ?o)) => destruct o eqn:?; cbn in *; [|auto with json] end;
       first [apply Hjid; done|apply printable_int; apply Hd|auto with json]] |]). constructor.
Qed.

Lemma payload_parses s : storable s → ∃ b, payload s = Ok b ∧ parse_store b = Ok (sort_keys (JObj (to_json s))).
Proof.
  intros Hs. destruct (to_json_prints s Hs) as [Hwf Hp]. specialize (Hp (Some 2%nat) 0%nat). unfold payload.
  destruct (dumps_at _ _ _) as [t|] eqn:Et; [|done]. rbind. pose proof (plain_scalar _ (dumps_plain _ _ _ Hwf Et)) as Ha.
  rewrite <-utf8_encode_ok in Ha. destruct (utf8_encode t) as [b|] eqn:Eb; [|done]. exists b. split; [done|].
  unfold parse_store. rewrite (utf8_decode_encode _ _ Eb). rbind. by rewrite (loads_dumps _ _ _ Hwf Et).
Qed.

(** A failing call on the operating system raises an [OSError]. *)
Definition os_errors (io : SaveCalls) : Prop :=
  Forall (λ r : result unit, ∀ e, r = Raise e → is_OSError e = true)
    [io_mkdir io; io_mkstemp io; io_fchmod io; io_write io; io_fsync io; io_replace io; io_unlink io; io_opendir io; io_fsyncdir io].

Definition staged (tmp : str) (fs0 fs : gmap str file) : Prop := ∃ f, fs = <[tmp := f]> fs0.

Lemma os_error io r e : os_errors io → r = Raise e →
  r ∈ [io_mkdir io; io_mkstemp io; io_fchmod io; io_write io; io_fsync io; io_replace io; io_unlink io; io_opendir io; io_fsyncdir io] →
  is_OSError e = true.
Proof. unfold os_errors. rewrite Forall_forall. intros H Hr Hin. by apply (H r). Qed.

(** Until the rename only the temporary file changes; with it, only the destination. *)
Lemma replace_file_runs io tmp dest data fs0 d d' r : files d = <[tmp := mkFile 0x180 [] false]> fs0 → fs0 !! tmp = None →
  replace_file io tmp dest data d = (d', r) →
  ∃ l, past d' = l ++ past d ∧ Forall (staged tmp fs0) l ∧
    match r with
    | Ok _ => files d' = <[dest := mkFile 0x180 data true]> fs0
    | Raise e => staged tmp fs0 (files d') ∧ Raise e ∈ [io_fchmod io; io_write io; io_fsync io; io_replace io]
    end.
Proof.
  intros Hd Htmp H. destruct d as [fs ps]. cbn in Hd. subst fs.
  assert (∀ f, staged tmp fs0 (<[tmp := f]> fs0)) as Hst by (intros f; by exists f).
  unfold replace_file, write_file, sys_call, chmod, append, sync, rename, mbind, se_bind, se_raise in H.
  destruct (io_fchmod io) as [[]|e]; cbn in H.
  2:{ simplify_eq. exists []. split_and!; [done|constructor|apply Hst|set_solver]. }
  rewrite !alter_insert_eq in H. destruct (io_write io) as [[]|e]; cbn in H; rewrite !alter_insert_eq in H.
  2:{ simplify_eq. eexists [_; _]. split_and!; [done|by repeat constructor|apply Hst|set_solver]. }
  destruct (io_fsync io) as [[]|e]; cbn in H; rewrite ?alter_insert_eq in H.
  2:{ simplify_eq. eexists [_; _]. split_and!; [done|by repeat constructor|apply Hst|set_solver]. }
  destruct (io_replace io) as [[]|e]; cbn in H; simplify_eq.
  - eexists [_; _; _; _]. cbn. rewrite lookup_insert_eq, delete_insert_id by done. split_and!; [done|by repeat constructor|done].
  - eexists [_; _; _]. split_and!; [done|by repeat constructor|apply Hst|set_solver].
Qed.

(** Everything went well with reading. *)
Definition readable : LoadCalls := mkLoadCalls (Ok tt) (Ok tt).

Definition private_file (data : bytes) : file := mkFile 0x180 data true.

Lemma load_private posix now fs dest s data : storable s → payload s = Ok data → fs !! dest = Some (private_file data) →
  load_device_store posix readable now fs dest = Ok s.
Proof.
  intros Hs Hp Hf. destruct (payload_parses s Hs) as (b & Hb & Hparse). assert (b = data) as -> by congruence.
  unfold load_device_store. rewrite Hf. assert (_check_permissions posix readable (Some (private_file data)) = Ok tt) as -> by by destruct posix.
  rbind. cbn [read_file readable io_read f_data private_file]. rbind. rewrite Hparse. rbind. by apply from_to_json.
Qed.

Lemma sync_directory_ok io d : os_errors io → sync_directory io d = (d, Ok tt).
Proof.
  intros He. pose proof (λ e, os_error io (io_opendir io) e He) as H1. pose proof (λ e, os_error io (io_fsyncdir io) e He) as H2.
  unfold sync_directory, se_try, se_lift, mbind, se_bind, mret, se_ret.
  destruct (io_opendir io) as [[]|e] eqn:E1; [|by rewrite (H1 e) by set_solver].
  destruct (io_fsyncdir io) as [[]|e] eqn:E2; [done|]. by rewrite (H2 e) by set_solver.
Qed.

Lemma mkstemp_runs io dir names d d' r : mkstemp io dir names d = (d', r) →
  match r with
  | Ok tmp => tmp ∈ temp_path dir <$> names ∧ files d !! tmp = None ∧ past d' = files d :: past d ∧
              files d' = <[tmp := mkFile 0x180 [] false]> (files d)
  | Raise e => d' = d ∧ (e = OSError ∨ io_mkstemp io = Raise e)
  end.
Proof.
  unfold mkstemp. rewrite se_bind_asks. destruct (filter _ _) as [|p ps] eqn:Ef; [intros [= <- <-]; auto|].
  assert (p ∈ filter (λ p, files d !! p = None) (temp_path dir <$> names)) as [Hp Hin]%list_elem_of_filter by (rewrite Ef; left).
  unfold sys_call, mbind, se_bind, mret, se_ret. destruct (io_mkstemp io) as [[]|e] eqn:E; intros [= <- <-]; [|auto].
  by split_and!.
Qed.

Lemma discard_runs io tmp e fs0 d : os_errors io → fs0 !! tmp = None → staged tmp fs0 (files d) →
  ∃ d' l, discard io tmp e d = (d', Raise e) ∧ past d' = l ++ past d ∧ Forall (staged tmp fs0) l ∧
    (staged tmp fs0 (files d') ∨ files d' = fs0) ∧ (io_unlink io = Ok tt → files d' = fs0).
Proof.
  intros He Hnone Hst. pose proof (λ e, os_error io (io_unlink io) e He) as Hu.
  unfold discard, se_try, sys_call, mbind, se_bind, mret, se_ret, se_raise. destruct (io_unlink io) as [[]|x] eqn:Eu.
  - assert (delete tmp (files d) = fs0) as Hdel by (destruct Hst as [f ->]; by rewrite delete_insert_id).
    eexists _, [_]. split_and!; [done|done|by repeat constructor|by right|done].
  - rewrite (Hu x) by set_solver. exists d, []. split_and!; [done|done|constructor|by left|done].
Qed.
End Proofs.

(** C18: saving is atomic: when the calls on the system fail with [OSError] only, every state
    of the file system since the start, so whatever a crash leaves, loads as before or as
    the saved device; a save that returns loads as the device that was saved, with mode
    0600 and no other file touched, and one that raises leaves the destination as it was,
    and everything if its temporary file can be removed. *)
Theorem device_store_atomic {U : UnicodeDB} {UL : UnicodeDBLaws U} {F : FloatOps} {R : JsonRepr}
    (posix : bool) (now : str) (io : SaveCalls) (s : DeviceStore) (dir dest : str) (names : list str) (d d' : Disk) (r : result unit) :
  storable s → os_errors io → dest ∉ temp_path dir <$> names →
  save_device_store io s dir dest names d = (d', r) →
  let loads fs := load_device_store posix readable now fs dest in
  (∃ l, past d' = l ++ past d ∧ Forall (λ fs, loads fs = loads (files d) ∨ loads fs = Ok s) (files d' :: l)) ∧
  match r with
  | Ok _ => loads (files d') = Ok s ∧ ∃ data, files d' = <[dest := private_file data]> (files d)
  | Raise e => is_OSError e = true ∧ files d' !! dest = files d !! dest ∧ (io_unlink io = Ok tt → files d' = files d)
  end.
Proof.
  intros Hs He Hdest H loads.
  assert (∀ fs, fs !! dest = files d !! dest → loads fs = loads (files d)) as Hsame
    by (intros fs E; unfold loads, load_device_store; by rewrite E).
  destruct (payload_parses s Hs) as (data & Hp & _). unfold save_device_store in H. rewrite Hp in H.
  destruct (io_mkdir io) as [[]|e] eqn:Em.
  2:{ injection H as <- <-. split; [exists []; by split; [|constructor; [left|constructor]]|].
      rewrite (os_error io _ e He Em) by set_solver. done. }
  rewrite !se_bind_lift in H. destruct (mkstemp io dir names d) as [d1 rt] eqn:Et. pose proof (mkstemp_runs _ _ _ _ _ _ Et) as Ht.
  destruct rt as [tmp|e]; cycle 1.
  { rewrite (se_bind_raise _ _ _ _ _ Et) in H. injection H as <- <-. destruct Ht as [-> Ht].
    split; [exists []; by split; [|constructor; [left|constructor]]|]. split; [|done].
    destruct Ht as [->|Ht]; [done|]. apply (os_error io _ e He Ht). set_solver. }
  destruct Ht as (Hin & Hnone & Hpast & Hfiles). rewrite (se_bind_eq _ _ _ _ _ Et) in H.
  assert (tmp ≠ dest) as Hne by (intros ->; done).
  destruct (replace_file io tmp dest data d1) as [d2 r2] eqn:Er.
  destruct (replace_file_runs _ _ _ _ (files d) _ _ _ Hfiles Hnone Er) as (l & Hl & Hst & Hr2).
  assert (∀ fs, staged tmp (files d) fs ∨ fs = files d → fs !! dest = files d !! dest) as Hold
    by (intros fs [[f ->]| ->]; [by rewrite lookup_insert_ne|done]).
  assert (Forall (λ fs, loads fs = loads (files d) ∨ loads fs = Ok s) (l ++ [files d])) as Hall.
  { apply Forall_app. split; [|constructor; [by left|constructor]]. eapply Forall_impl; [exact Hst|]. intros fs Hfs. left. auto. }
  destruct r2 as [[]|e].
  - assert (se_try (replace_file io tmp dest data) is_Exception (discard io tmp) d1 = (d2, Ok tt)) as Htry.
    { unfold se_try. by rewrite Er. }
    rewrite (se_bind_eq _ _ _ _ _ Htry), sync_directory_ok in H by done. injection H as <- <-. rewrite Hr2.
    assert (loads (<[dest:=private_file data]> (files d)) = Ok s) as Hloads by (eapply load_private; [done..|]; by rewrite lookup_insert_eq).
    split; [|split; [done|by exists data]]. exists (l ++ [files d]). split; [by rewrite Hl, Hpast, <-app_assoc|].
    constructor; [by right|done].
  - destruct Hr2 as [Hst2 Hein]. assert (is_OSError e = true) as Hose by (eapply (os_error io _ e He eq_refl); set_solver).
    destruct (discard_runs io tmp e (files d) d2 He Hnone Hst2) as (d3 & l3 & H3 & Hl3 & Hst3 & Hd3 & Hun).
    assert (se_try (replace_file io tmp dest data) is_Exception (discard io tmp) d1 = (d3, Raise e)) as Htry.
    { unfold se_try. rewrite Er. by destruct e. }
    rewrite (se_bind_raise _ _ _ _ _ Htry) in H. injection H as <- <-. split; [|split_and!; [done|by apply Hold|done]].
    exists (l3 ++ l ++ [files d]). split; [by rewrite Hl3, Hl, Hpast, <-!app_assoc|].
    constructor; [left; auto|]. apply Forall_app. split; [|done]. eapply Forall_impl; [exact Hst3|]. intros fs Hfs. left. auto.
Qed.

(** A device with a linked account, and the calls of a save whose rename fails. *)
Definition demo_device : DeviceStore :=
  mkDeviceStore (bstr "np") (bstr "nP") (bstr "ip") (bstr "iP") 77 1 (bstr "sp") (bstr "sP") (bstr "sig")
    (Some (mkJIDTuple (u "15550001") (u "s.whatsapp.net") 12)) (Some 12) (Some (bstr "adv")) (Some [233]) None
    (u "1718000000.25") (u "pywhats") SCHEMA_VERSION.

Definition rename_fails : SaveCalls := mkSaveCalls (Ok tt) (Ok tt) (Ok tt) (Ok tt) 0 (Ok tt) (Raise OSError) (Ok tt) (Ok tt) (Ok tt).

Definition no_repr : JsonRepr := λ _, [].

Lemma demo_storable : storable demo_device.
Proof. split; try done; cbn; try lia; repeat split; try done; lia. Qed.

Lemma device_store_atomic_witness :
  let save io d := save_device_store io demo_device (u "d") (u "d/dev.json") [u "x1"] d in
  let loads fs := load_device_store (U := latin1_ucd) (F := no_floats) (R := no_repr) true readable (u "0.5") fs (u "d/dev.json") in
  let saved := (save all_well (mkDisk ∅ [])).1 in
  loads (files saved) = Ok demo_device ∧ loads (files (save rename_fails saved).1) = Ok demo_device ∧
  (save rename_fails saved).2 = Raise OSError.
Proof.
  intros save loads saved.
  pose proof (device_store_atomic (U := latin1_ucd) (F := no_floats) (R := no_repr) true (u "0.5") all_well demo_device (u "d")
    (u "d/dev.json") [u "x1"] (mkDisk ∅ []) _ _ demo_storable ltac:(repeat constructor; done) ltac:(apply (bool_decide_unpack _); vm_compute; done)
    (surjective_pairing _)) as [_ H1].
  pose proof (device_store_atomic (U := latin1_ucd) (F := no_floats) (R := no_repr) true (u "0.5") rename_fails demo_device (u "d")
    (u "d/dev.json") [u "x1"] saved _ _ demo_storable ltac:(repeat constructor; by intros ? [= <-]) ltac:(apply (bool_decide_unpack _); vm_compute; done)
    (surjective_pairing _)) as [_ H2].
  assert ((save all_well (mkDisk ∅ [])).2 = Ok tt) as E1 by (vm_compute; reflexivity).
  assert ((save rename_fails saved).2 = Raise OSError) as E2 by (vm_compute; reflexivity).
  unfold save in E1, E2. rewrite E1 in H1. rewrite E2 in H2. destruct H1 as [H1 _]. destruct H2 as (_ & _ & H2).
  split_and!; [exact H1| |exact E2]. unfold save. rewrite (H2 eq_refl). exact H1.
Defined.

(** ** What loading accepts *)

Class FloatLaws (F : FloatOps) : Prop := {
  float_to_int_error lit e : float_to_int lit = Raise e → e = ValueError ∨ e = OverflowError;
  float_of_int_error n e : float_of_int n = Raise e → e = OverflowError;
  float_of_str_error s e : float_of_str s = Raise e → e = ValueError
}.

#[export] Instance no_floats_laws : FloatLaws no_floats.
Proof. split; cbn; intros; simplify_eq; auto. Qed.

Section LoadErrors.
Context {U : UnicodeDB} {F : FloatOps} {FL : FloatLaws F} {R : JsonRepr}.

(** What the [try] block may raise: what [malformed] turns into [StoreCorruptError], and
    [OverflowError], which it lets through. *)
Definition field_error (e : exn) : Prop := e ∈ [KeyError; TypeError; ValueError; StoreCorruptError; OverflowError].

Definition raises_only {A} (P : exn → Prop) (r : result A) : Prop := ∀ e, r = Raise e → P e.

Lemma raises_bind {A B} P (r : result A) (f : A → result B) : raises_only P r → (∀ a, r = Ok a → raises_only P (f a)) →
  raises_only P (r ≫= f).
Proof. intros Hr Hf. destruct r as [a|x]; [by apply Hf|]. intros e [= <-]. by apply Hr. Qed.

Lemma raises_ok {A} P (a : A) : raises_only P (Ok a).
Proof. by intros e. Qed.

Lemma raises_raise {A} (P : exn → Prop) e : P e → raises_only P (Raise (A := A) e).
Proof. by intros H x [= <-]. Qed.

Lemma raises_some {A} (P : exn → Prop) (o : option A) e : P e → raises_only P (some_or o e).
Proof. destruct o; [intros; apply raises_ok|apply raises_raise]. Qed.

Lemma raises_b64d v : raises_only field_error (_b64d v).
Proof. unfold _b64d. destruct v; try (apply raises_raise; unfold field_error; set_solver). apply raises_some. unfold field_error. set_solver. Qed.

Lemma raises_item k d : raises_only field_error (item k d).
Proof. apply raises_some. unfold field_error. set_solver. Qed.

Lemma raises_int v : raises_only field_error (py_int_json v).
Proof.
  intros e H. destruct v; cbn in H; simplify_eq; unfold field_error; try set_solver.
  - apply float_to_int_error in H as [->| ->]; set_solver.
  - apply py_int_error in H as ->. set_solver.
Qed.

Lemma raises_str v : raises_only field_error (str_json v).
Proof.
  intros e H. unfold str_json, py_str_json, py_str_int in H. unfold field_error. repeat case_match; simplify_eq. set_solver.
Qed.

Lemma raises_float v : raises_only field_error (float_json v).
Proof.
  intros e H. unfold field_error. destruct v; cbn in H; simplify_eq; try set_solver.
  - apply float_of_int_error in H as ->. set_solver.
  - apply float_of_int_error in H as ->. set_solver.
  - apply float_of_str_error in H as ->. set_solver.
Qed.

Lemma raises_opt_item {A} (f : json → result A) k d : (∀ v, raises_only field_error (f v)) → raises_only field_error (opt_item f k d).
Proof.
  intros Hf. unfold opt_item. repeat case_match; try apply raises_ok;
    (apply raises_bind; [apply Hf|intros; apply raises_ok]).
Qed.

Lemma raises_item_or {A} (f : json → result A) k x d : (∀ v, raises_only field_error (f v)) →
  raises_only field_error (item_or f k (Ok x) d).
Proof. intros Hf. unfold item_or. destruct (dict_get k d); [apply Hf|apply raises_ok]. Qed.

Lemma raises_b64_item k d : raises_only field_error (b64_item k d).
Proof. apply raises_bind; [apply raises_item|intros; apply raises_b64d]. Qed.

Lemma raises_uint32 v : raises_only field_error (uint32_json v).
Proof. intros e H. unfold field_error. destruct v; cbn in H; try case_match; simplify_eq; set_solver. Qed.

#[local] Create HintDb raises.
#[local] Hint Resolve raises_item raises_b64_item raises_b64d raises_int raises_str raises_float raises_opt_item raises_item_or
  raises_uint32 raises_ok : raises.

(** Follow the binds of a reader. *)
Ltac raises := repeat first [progress intros | solve [auto with raises] | apply raises_bind].

Lemma raises_jid v : raises_only field_error (jid_of_json v).
Proof. unfold jid_of_json. destruct v; try (apply raises_raise; unfold field_error; set_solver). raises. Qed.

Lemma raises_device now d : raises_only field_error (device_of_json now d).
Proof.
  unfold device_of_json. apply raises_bind; [apply raises_item|]. intros v _. apply raises_bind.
  { destruct v; try (apply raises_raise; unfold field_error; set_solver). apply raises_ok. }
  intros spk _. apply raises_bind; [apply raises_opt_item, raises_jid|]. raises.
Qed.

Lemma device_registration now d s : device_of_json now d = Ok s → 0 ≤ ds_registration_id s ≤ 0xFFFFFFFF.
Proof.
  unfold device_of_json. intros H. apply bind_Ok_inv in H as (v & _ & H). apply bind_Ok_inv in H as (spk & _ & H).
  do 2 apply bind_Ok_inv in H as (? & _ & H). apply bind_Ok_inv in H as (reg & Hreg & H). apply bind_Ok_inv in Hreg as (w & _ & Hreg).
  assert (0 ≤ reg ≤ 0xFFFFFFFF) as Hrange.
  { unfold uint32_json in Hreg. destruct w as [|flag|n| | | |]; simplify_eq; [destruct flag; lia|].
    destruct (_ || _)%bool eqn:E; [done|]. simplify_eq. zbool. lia. }
  clear Hreg w. repeat (apply bind_Ok_inv in H as (? & _ & H)). injection H as <-. exact Hrange.
Qed.

Lemma from_json_ok now v s : from_json now v = Ok s → ∃ data ver, v = JObj data ∧ dict_get (u "version") data = Some ver ∧
  is_schema ver = true ∧ 0 ≤ ds_registration_id s ≤ 0xFFFFFFFF.
Proof.
  unfold from_json. destruct v as [| | | | | |data]; try done. destruct (dict_get _ _) as [ver|] eqn:Ev; [|done]. intros H.
  exists data, ver. destruct (is_schema ver) eqn:Es; [|by destruct ver]. split_and!; [done..| |];
    (apply (device_registration now data); destruct (device_of_json now data) as [s'|e]; [by destruct ver; cbn in *; simplify_eq|
      exfalso; destruct ver; try done; unfold malformed in H; cbn in H; case_match; done]).
Qed.

Lemma from_json_error now v e : from_json now v = Raise e → e ∈ [StoreCorruptError; StoreVersionError; OverflowError].
Proof.
  unfold from_json. destruct v as [| | | | | |data]; try (intros [= <-]; set_solver). destruct (dict_get _ _) as [ver|]; [|intros [= <-]; set_solver].
  assert (malformed (device_of_json now data) = Raise e → e ∈ [StoreCorruptError; StoreVersionError; OverflowError]) as K.
  { pose proof (raises_device now data) as Hd. destruct (device_of_json now data) as [s|x]; [done|]. specialize (Hd x eq_refl).
    unfold field_error in Hd. rewrite !elem_of_cons, elem_of_nil in Hd.
    destruct Hd as [->|[->|[->|[->|[->|[]]]]]]; cbn; intros [= <-]; set_solver. }
  destruct ver; try (destruct (negb _); [intros [= <-]; set_solver|exact K]). intros [= <-]; set_solver.
Qed.
End LoadErrors.

(** C37: loading accepts a file only if its permissions give nothing to group and other (unless
    it appeared after the check), its text is a JSON object of this schema, and the
    registration id is a [uint32]; otherwise it raises an error of the store, that the
    file is missing, or the [ValueError] or [OverflowError] of a number too large. *)
Theorem load_guarded {U : UnicodeDB} {F : FloatOps} {FL : FloatLaws F} {R : JsonRepr} (io : LoadCalls) (now : str)
    (fs : gmap str file) (path : str) :
  (∀ e, io_stat io = Raise e ∨ io_read io = Raise e → is_OSError e = true) →
  match load_device_store true io now fs path with
  | Ok s => ∃ f data ver, fs !! path = Some f ∧ (io_stat io = Ok tt → ∀ i, 0 ≤ i < 6 → Z.testbit (f_mode f) i = false) ∧
      parse_store (f_data f) = Ok (JObj data) ∧ dict_get (u "version") data = Some ver ∧ is_schema ver = true ∧
      0 ≤ ds_registration_id s ≤ 0xFFFFFFFF
  | Raise e => e ∈ [FileNotFoundError; StoreError; StoreSecurityError; StoreCorruptError; StoreVersionError; ValueError; OverflowError]
  end.
Proof.
  intros Hio. unfold load_device_store. destruct (_check_permissions true io (fs !! path)) as [[]|e] eqn:Ec; rbind.
  2:{ unfold _check_permissions in Ec. cbn in Ec. destruct (fs !! path); [|done].
      destruct (io_stat io) as [[]|x] eqn:Es; [case_match; simplify_eq; set_solver|].
      pose proof (Hio x (or_introl eq_refl)) as Hx. rewrite Hx in Ec. destruct x; simplify_eq; set_solver. }
  destruct (read_file io (fs !! path)) as [raw|e] eqn:Er; rbind.
  2:{ unfold read_file in Er. destruct (fs !! path); [|simplify_eq; set_solver]. destruct (io_read io) as [|x] eqn:Es; [done|].
      pose proof (Hio x (or_intror eq_refl)) as Hx. rewrite Hx in Er. destruct x; simplify_eq; set_solver. }
  destruct (fs !! path) as [f|]; [|done]. assert (raw = f_data f) as -> by (cbn in Er; repeat case_match; congruence).
  destruct (parse_store (f_data f)) as [v|e] eqn:Ep; rbind.
  2:{ unfold parse_store in Ep. destruct (utf8_decode (f_data f)) as [t|x] eqn:Eu; cbn [mbind result_bind] in Ep.
      - destruct (json_loads_str t) as [v|x] eqn:Ej; [done|]. apply json_loads_error in Ej as [->| ->]; cbn in Ep; simplify_eq; set_solver.
      - apply utf8_decode_error in Eu as ->. cbn in Ep. simplify_eq. set_solver. }
  destruct (from_json now v) as [s|e] eqn:Ej; [|apply from_json_error in Ej; set_solver].
  apply from_json_ok in Ej as (data & ver & -> & Hv & Hs & Hr). exists f, data, ver. split; [done|]. split; [|by auto].
  intros Hst i Hi. unfold _check_permissions in Ec. cbn [negb] in Ec. rewrite Hst in Ec.
  destruct (Z.land (f_mode f) _UNSAFE_MODE_BITS =? 0) eqn:H; [|done]. zbool.
  assert (Z.testbit (Z.land (f_mode f) _UNSAFE_MODE_BITS) i = false) as Hb by (rewrite H; apply Z.bits_0).
  rewrite Z.land_spec in Hb. change _UNSAFE_MODE_BITS with (Z.ones 6) in Hb. rewrite Z.ones_spec_low in Hb by lia.
  by rewrite andb_true_r in Hb.
Qed.

(** A group-readable store is refused; a store with an infinite number escapes the wrapper. *)
Lemma load_guarded_witness :
  let fs := {[ u "dev.json" := mkFile 0x1A0 [] true ]} in
  load_device_store (U := latin1_ucd) (F := no_floats) (R := no_repr) true readable (u "0.5") fs (u "dev.json") = Raise StoreSecurityError ∧
  StoreSecurityError ∈ [FileNotFoundError; StoreError; StoreSecurityError; StoreCorruptError; StoreVersionError; ValueError; OverflowError].
Proof.
  intros fs. pose proof (load_guarded (U := latin1_ucd) (F := no_floats) (R := no_repr) readable (u "0.5") fs (u "dev.json")
    ltac:(intros e [H|H]; discriminate H)) as H.
  assert (load_device_store (U := latin1_ucd) (F := no_floats) (R := no_repr) true readable (u "0.5") fs (u "dev.json") = Raise StoreSecurityError) as E
    by (vm_compute; reflexivity).
  rewrite E in H. by split.
Defined.

(** [int] of an infinite float raises [OverflowError], which [from_json] does not wrap. *)
Lemma infinite_number_escapes {U : UnicodeDB} {F : FloatOps} {R : JsonRepr} now :
  float_to_int (u "1e999") = Raise OverflowError →
  from_json now (JObj (dict_set (u "device_id") (JFloat (u "1e999")) (to_json demo_device))) = Raise OverflowError.
Proof. intros H. vm_compute in H |- *. by rewrite H. Qed.

(** [repr] shows nothing of the secret fields. *)
Lemma repr_hides (repr : field_value → str) s np nP ip iP sp sP sg adv :
  DeviceStore_repr repr (mkDeviceStore np nP ip iP (ds_registration_id s) (ds_signed_pre_key_id s) sp sP sg (ds_jid s)
    (ds_device_id s) adv (ds_push_name s) (ds_lid s) (ds_created_at s) (ds_pywhats_version s) (ds_schema_version s)) =
  DeviceStore_repr repr s.
Proof. reflexivity. Qed.
