(* ===== verification/Pairing.v ===== *)
(** * Pairing and login ([src/src/pywhats/pairing.py], [version.py])

    The payloads of the handshake, the verification of what the phone signed, and the
    conversation of [Pairer.run]: a loop over rounds, each with a clock reading, what
    [recv] gives, and how the calls of that round end. *)

From S2P Require Import Prelude Effects PyStr Json JsonText Jid Node Encoder Decoder Crypto SignalKeys SignalTypes.
From S2P Require Import SessionStore DeviceStore.

(** ** [version.py] *)

Definition WA_WEB_VERSION : Z * Z * Z := (2, 3000, 1035194821).
Definition DEFAULT_PAIRING_NAME : str := u "pywhats".
(** Times are in nanoseconds. *)
Definition QR_REF_INTERVAL_SECONDS : Z := 20 * 10 ^ 9.
Definition QR_TOTAL_TIMEOUT_SECONDS : Z := 120 * 10 ^ 9.

(** ** The messages of [companion_reg.proto] and [client_payload.proto] *)

(** A field that is not set reads as its default. *)
Record ADVSigned := mkADVSigned {
  adv_details : option bytes; adv_account_signature_key : option bytes;
  adv_account_signature : option bytes; adv_device_signature : option bytes }.
Record ADVHmac := mkADVHmac { ah_details : option bytes; ah_hmac : option bytes }.
Record ADVDeviceIdentity := mkADVDevice { di_raw_id : option Z; di_timestamp : option Z; di_key_index : option Z }.

Record UserAgent := mkUserAgent {
  ua_platform : Z; ua_release_channel : Z; ua_app_version : Z * Z * Z; ua_mcc : str; ua_mnc : str; ua_os_version : str;
  ua_manufacturer : str; ua_device : str; ua_os_build_number : str; ua_language : str; ua_country : str }.
Record DeviceProps := mkDeviceProps {
  dp_os : str; dp_platform_type : Z; dp_requires_full_sync : bool; dp_version : Z * Z * Z }.
Record RegistrationData := mkRegistration {
  e_regid : bytes; e_keytype : bytes; e_ident : bytes; e_skey_id : bytes; e_skey_val : bytes; e_skey_sig : bytes;
  rd_build_hash : bytes; rd_device_props : bytes }.
Record ClientPayload := mkClientPayload {
  cp_username : option Z; cp_passive : bool; cp_pull : bool; cp_connect_type : Z; cp_connect_reason : Z;
  cp_device : option Z; cp_user_agent : UserAgent; cp_web_sub_platform : Z; cp_registration : option RegistrationData }.

Class PairingProto := {
  ser_ADVSigned : ADVSigned → bytes;
  parse_ADVSigned : bytes → result ADVSigned;
  ser_ADVHmac : ADVHmac → bytes;
  parse_ADVHmac : bytes → result ADVHmac;
  parse_ADVDevice : bytes → result ADVDeviceIdentity;
  ser_ADVDevice : ADVDeviceIdentity → bytes;
  ser_DeviceProps : DeviceProps → bytes;
  ser_ClientPayload : ClientPayload → bytes
}.

Class PairingProtoLaws (P : PairingProto) : Prop := {
  adv_roundtrip a : parse_ADVSigned (ser_ADVSigned a) = Ok a;
  adv_hmac_roundtrip h : parse_ADVHmac (ser_ADVHmac h) = Ok h;
  adv_device_roundtrip d : from_option uint32 true (di_key_index d) = true → from_option uint32 true (di_raw_id d) = true →
    from_option uint64 true (di_timestamp d) = true →
    parse_ADVDevice (ser_ADVDevice d) = Ok d;
  adv_parse_error b e : parse_ADVSigned b = Raise e → e = ProtobufError;
  adv_hmac_parse_error b e : parse_ADVHmac b = Raise e → e = ProtobufError;
  adv_device_parse_error b e : parse_ADVDevice b = Raise e → e = ProtobufError;
  adv_empty : parse_ADVSigned [] = Ok (mkADVSigned None None None None);
  adv_hmac_empty : parse_ADVHmac [] = Ok (mkADVHmac None None);
  adv_device_empty : parse_ADVDevice [] = Ok (mkADVDevice None None None);
  adv_device_uint32 b d : parse_ADVDevice b = Ok d → from_option uint32 true (di_key_index d) = true
}.

(** [hashlib.md5(b).digest()] *)
Class Md5 := md5 : bytes → bytes.

Definition bytes_or (o : option bytes) : bytes := default [] o.

Section Payloads.
Context {P : PairingProto} {MD : Md5} {U : UnicodeDB}.

Definition _user_agent : UserAgent :=
  mkUserAgent 14 0 WA_WEB_VERSION (u "000") (u "000") (u "0.1") [] (u "Desktop") (u "0.1") (u "en") (u "US").

(** [web_sub_platform]: [WEB_BROWSER]. *)
Definition _web_info : Z := 0.

(** The pairing name is not used. *)
Definition _device_props (pairing_name : str) : bytes :=
  ser_DeviceProps (mkDeviceProps (u "Mac OS") 1 false (10, 15, 7)).

Definition _build_hash : result bytes :=
  let '(a, b, c) := WA_WEB_VERSION in
  parts ← mapR py_str_int [a; b; c];
  t ← utf8_encode (join (u ".") parts);
  Ok (md5 t).

Definition build_register_payload (device : DeviceStore) (pairing_name : str) (build_hash : option bytes) : result bytes :=
  regid ← to_bytes_big 4 (ds_registration_id device);
  skey_id ← to_bytes_big 3 (ds_signed_pre_key_id device);
  hash ← match build_hash with Some h => Ok h | None => _build_hash end;
  let reg := mkRegistration regid [mkb 0x05] (ds_identity_public device) skey_id (ds_signed_pre_key_public device)
               (ds_signed_pre_key_signature device) hash (_device_props pairing_name) in
  Ok (ser_ClientPayload (mkClientPayload None false false 1 1 None _user_agent _web_info (Some reg))).

(** Assigning a field outside its range raises [ValueError]. *)
Definition build_login_payload (device : DeviceStore) : result bytes :=
  match ds_jid device with
  | None => Raise PairingFailed
  | Some jid =>
      username ← match (n ← py_int (jt_user jid); guard_or (uint64 n) ValueError ≫= λ _, Ok n) with
                 | Raise e => if is_ValueError e then Raise PairingFailed else Raise e
                 | Ok n => Ok n
                 end;
      _ ← guard_or (uint32 (jt_device jid)) ValueError;
      Ok (ser_ClientPayload (mkClientPayload (Some username) true true 1 1 (Some (jt_device jid)) _user_agent _web_info None))
  end.
End Payloads.

(** ** What the phone signed *)

Definition _ADV_ACCOUNT_SIG_PREFIX : bytes := [mkb 6; mkb 0].
Definition _ADV_DEVICE_SIG_PREFIX : bytes := [mkb 6; mkb 1].

(** A key of 33 bytes that starts with the type byte, without that byte. *)
Definition strip_key_type (key : bytes) : bytes :=
  match key with
  | b :: k => if bool_decide (length key = 33%nat ∧ b2z b = 0x05) then k else key
  | [] => []
  end.

Definition account_transcript (details identity_public : bytes) : bytes :=
  _ADV_ACCOUNT_SIG_PREFIX ++ details ++ identity_public.

Definition device_transcript (details identity_public account_key : bytes) : bytes :=
  _ADV_DEVICE_SIG_PREFIX ++ details ++ identity_public ++ account_key.

Section Verify.
Context {P : PairingProto} {E : XEdDSA} {HM : Hmac} {U : UnicodeDB}.

(** A parser of which every exception becomes [PairingFailed]. *)
Definition or_pairing_failed {A} (r : result A) : result A :=
  match r with Raise e => if is_Exception e then Raise PairingFailed else Raise e | Ok a => Ok a end.

Definition verify_pair_success (adv : ADVSigned) (our_identity_public : bytes) : result ADVDeviceIdentity :=
  let details := bytes_or (adv_details adv) in
  let sig := bytes_or (adv_account_signature adv) in
  let key := bytes_or (adv_account_signature_key adv) in
  _ ← guard_or (truthy details) PairingFailed;
  _ ← guard_or (truthy sig) PairingFailed;
  _ ← guard_or (truthy key) PairingFailed;
  _ ← guard_or (xeddsa_verify (strip_key_type key) (account_transcript details our_identity_public) sig) PairingFailed;
  or_pairing_failed (parse_ADVDevice details).

(** [random_z] is what signing draws; the reply has no account key. *)
Definition build_pair_success_reply (adv : ADVSigned) (our_identity_private our_identity_public random_z : bytes) : result ADVSigned :=
  let details := bytes_or (adv_details adv) in
  sig ← xeddsa_sign our_identity_private
          (device_transcript details our_identity_public (bytes_or (adv_account_signature_key adv))) random_z;
  Ok (mkADVSigned (Some details) None (Some (bytes_or (adv_account_signature adv))) (Some sig)).

(** ** The QR text *)

Definition encode_qr_payload (ref : str) (noise_public identity_public adv_secret : bytes) : str :=
  join [COMMA] [ref; b64encode noise_public; b64encode identity_public; b64encode adv_secret].

(** ** Parsing the stanzas *)

Fixpoint refs_of (children : list Node) : result (list str) :=
  match children with
  | [] => Ok []
  | child :: children =>
      let raw := content_bytes child in
      if truthy raw then
        ref ← match utf8_decode raw with
              | Raise e => if bool_decide (e = UnicodeError) then Raise PairingFailed else Raise e
              | Ok s => Ok s
              end;
        refs ← refs_of children;
        Ok (ref :: refs)
      else refs_of children
  end.

Definition _extract_pair_device_refs (iq : Node) : result (list str) :=
  pd ← some_or (get_child iq (u "pair-device")) PairingFailed;
  refs ← refs_of (get_children pd (Some (u "ref")));
  _ ← guard_or (truthy refs) PairingFailed;
  Ok refs.

Definition _extract_pair_success (iq : Node) (adv_secret : bytes) : result (Node * ADVSigned * JID * Z) :=
  ps ← some_or (get_child iq (u "pair-success")) PairingFailed;
  di ← some_or (get_child ps (u "device-identity")) PairingFailed;
  let blob := content_bytes di in
  _ ← guard_or (truthy blob) PairingFailed;
  wrapper ← or_pairing_failed (parse_ADVHmac blob);
  let details := bytes_or (ah_details wrapper) in
  let tag := bytes_or (ah_hmac wrapper) in
  _ ← guard_or (truthy details && truthy tag) PairingFailed;
  _ ← guard_or (bool_decide (c_hmac_sha256 adv_secret details = tag)) PairingFailed;
  adv ← or_pairing_failed (parse_ADVSigned details);
  device_node ← some_or (get_child ps (u "device")) PairingFailed;
  jid_raw ← some_or (get_attr device_node (u "jid")) PairingFailed;
  jid ← match jid_raw with
        | AJid j => Ok j
        | v => s ← py_str_attr v; parse_jid s
        end;
  Ok (ps, adv, jid, device jid).
End Verify.

(** ** [Pairer] *)

Record PairResult := mkPairResult { res_device : DeviceStore; res_jid : JID; res_device_id : Z; res_refs_emitted : Z }.

Inductive task := Running | Finished | Stopped.

(** The device, the frames sent, the QR texts shown by [run] itself, the rotation tasks with
    the refs each of them shows, and the local variables [qr_task] and [refs_emitted]. *)
Record PairState := mkPairState {
  ps_device : DeviceStore; ps_wire : list bytes; ps_qrs : list str; ps_rotations : list (list str * task);
  ps_qr_task : option nat; ps_refs_emitted : Z }.

(** A round of the loop: the clock, what [recv] gives (a [TimeoutError] when [wait_for] ends
    the wait), how [send] ends, and how the QR handler ends. *)
Record Round := mkRound { rd_clock : Z; rd_recv : result bytes; rd_send : result unit; rd_qr : result unit }.

Definition set_jid (s : DeviceStore) (jid : JIDTuple) (device_id : Z) (adv : bytes) : DeviceStore :=
  mkDeviceStore (ds_noise_private s) (ds_noise_public s) (ds_identity_private s) (ds_identity_public s)
    (ds_registration_id s) (ds_signed_pre_key_id s) (ds_signed_pre_key_private s) (ds_signed_pre_key_public s)
    (ds_signed_pre_key_signature s) (Some jid) (Some device_id) (Some adv) (ds_push_name s) (ds_lid s)
    (ds_created_at s) (ds_pywhats_version s) (ds_schema_version s).

Section Pairer.
Context {P : PairingProto} {E : XEdDSA} {HM : Hmac} {U : UnicodeDB} {Zl : Zlib}.
Context (adv_secret random_z : bytes).

#[local] Abbreviation M := (SE PairState).

Definition pair_send (rd : Round) (frame : bytes) : M unit := λ s,
  match rd_send rd with
  | Ok _ => (mkPairState (ps_device s) (ps_wire s ++ [frame]) (ps_qrs s) (ps_rotations s) (ps_qr_task s) (ps_refs_emitted s), Ok tt)
  | Raise e => (s, Raise e)
  end.

(** [await on_qr(payload)], whose exceptions are logged. *)
Definition show_qr (rd : Round) (payload : str) : M unit := λ s,
  (mkPairState (ps_device s) (ps_wire s) (ps_qrs s ++ [payload]) (ps_rotations s) (ps_qr_task s) (ps_refs_emitted s),
   match rd_qr rd with Raise e => if is_Exception e then Ok tt else Raise e | Ok _ => Ok tt end).

(** [create_task(self._rotate_qr(refs, on_qr))] *)
Definition start_rotation (refs : list str) : M unit := λ s,
  (mkPairState (ps_device s) (ps_wire s) (ps_qrs s) (ps_rotations s ++ [(refs, Running)])
     (Some (length (ps_rotations s))) (ps_refs_emitted s), Ok tt).

Definition set_refs_emitted (n : Z) : M unit := λ s,
  (mkPairState (ps_device s) (ps_wire s) (ps_qrs s) (ps_rotations s) (ps_qr_task s) n, Ok tt).

Definition set_device (d : DeviceStore) : M unit := λ s,
  (mkPairState d (ps_wire s) (ps_qrs s) (ps_rotations s) (ps_qr_task s) (ps_refs_emitted s), Ok tt).

Definition qr_payload (d : DeviceStore) (ref : str) : str :=
  encode_qr_payload ref (ds_noise_public d) (ds_identity_public d) adv_secret.

(** [_rotate_qr]: how long each ref waits before it is shown, and what is shown. *)
Definition _rotate_qr (d : DeviceStore) (first_ref_interval per_ref_interval : Z) (refs : list str) : list (Z * str) :=
  imap (λ i ref, (if Nat.eqb i 0 then first_ref_interval else per_ref_interval, qr_payload d ref)) refs.

Definition result_attrs (iq : Node) : result (list (str * AttrValue)) :=
  iq_id ← get_str iq (u "id");
  Ok ([(u "type", AStr (u "result")); (u "id", AStr iq_id)] ++
      match get_attr iq (u "from") with Some v => [(u "to", v)] | None => [] end).

Definition _ack_iq (rd : Round) (iq : Node) : M unit :=
  frame ← se_lift (attrs ← result_attrs iq; encode (mkNode (u "iq") attrs CNone) false);
  pair_send rd frame.

Definition pair_success_node (iq : Node) (reply : ADVSigned) (key_index : Z) : result Node :=
  attrs ← result_attrs iq;
  k ← py_str_int key_index;
  let identity := mkNode (u "device-identity") [(u "key-index", AStr k)] (CBytes (ser_ADVSigned reply)) in
  Ok (mkNode (u "iq") attrs (CList [mkNode (u "pair-device-sign") [] (CList [identity])])).

Definition _reply_pair_success (rd : Round) (iq : Node) (reply : ADVSigned) (key_index : Z) : M unit :=
  frame ← se_lift (n ← pair_success_node iq reply key_index; encode n false);
  pair_send rd frame.

Definition on_pair_device (rd : Round) (node : Node) : M unit :=
  refs ← se_lift (_extract_pair_device_refs node);
  _ ← _ack_iq rd node;
  d ← se_asks ps_device;
  match refs with
  | [] => mret tt
  | first :: rest =>
      _ ← show_qr rd (qr_payload d first);
      _ ← (if truthy rest then start_rotation rest else mret tt);
      set_refs_emitted (Z.of_nat (length refs))
  end.

Definition on_pair_success (rd : Round) (node : Node) : M PairResult :=
  '(_, adv, jid, device_id) ← se_lift (_extract_pair_success node adv_secret);
  d ← se_asks ps_device;
  inner ← se_lift (verify_pair_success adv (ds_identity_public d));
  reply ← se_lift (build_pair_success_reply adv (ds_identity_private d) (ds_identity_public d) random_z);
  _ ← _reply_pair_success rd node reply (default 0 (di_key_index inner));
  let full_adv := mkADVSigned (adv_details reply) (Some (bytes_or (adv_account_signature_key adv)))
                    (adv_account_signature reply) (adv_device_signature reply) in
  let d := set_jid d (mkJIDTuple (user jid) (server jid) (device jid)) device_id (ser_ADVSigned full_adv) in
  _ ← set_device d;
  n ← se_asks ps_refs_emitted;
  mret (mkPairResult d jid device_id n).

Definition is_ping (node : Node) : result bool :=
  t ← get_str node (u "type");
  if bool_decide (t = u "get") then x ← get_str node (u "xmlns"); Ok (bool_decide (x = u "urn:xmpp:ping")) else Ok false.

(** One stanza; [None] is [continue]. *)
Definition handle_node (rd : Round) (node : Node) : M (option PairResult) :=
  if bool_decide (tag node = u "failure") then se_raise PairingFailed
  else if negb (bool_decide (tag node = u "iq")) then mret None
  else if bool_decide (is_Some (get_child node (u "pair-device"))) then _ ← on_pair_device rd node; mret None
  else
    ping ← se_lift (is_ping node);
    if ping : bool then _ ← _ack_iq rd node; mret None
    else if bool_decide (is_Some (get_child node (u "pair-success"))) then r ← on_pair_success rd node; mret (Some r)
    else mret None.

(** [wait_for(self.transport.recv(), timeout=remaining)] *)
Definition receive (deadline : Z) (rd : Round) : M Node :=
  if deadline - rd_clock rd <=? 0 then se_raise PairingFailed
  else match rd_recv rd with
       | Raise e => se_raise (if bool_decide (e = TimeoutError) then PairingFailed else e)
       | Ok frame => se_lift (decode frame)
       end.

(** The loop; without another round it still waits. *)
Fixpoint conversation (deadline : Z) (rounds : list Round) : M PairResult :=
  match rounds with
  | [] => se_raise OutOfFuel
  | rd :: rounds =>
      node ← receive deadline rd;
      r ← handle_node rd node;
      match r with Some r => mret r | None => conversation deadline rounds end
  end.

(** [finally]: the rotation that [qr_task] names is cancelled, unless it is [done]. *)
Definition stop_rotation (done : nat → bool) : M unit := λ s,
  (mkPairState (ps_device s) (ps_wire s) (ps_qrs s)
     (match ps_qr_task s with
      | Some i => alter (λ t, if done i then (t.1, Finished) else (t.1, Stopped)) i (ps_rotations s)
      | None => ps_rotations s
      end) (ps_qr_task s) (ps_refs_emitted s), Ok tt).

(** [start] is the clock when [run] begins; [done i] tells if rotation [i] has ended by
    itself when [run] ends. *)
Definition pairer_run (start total_timeout : Z) (done : nat → bool) (rounds : list Round) : M PairResult := λ s,
  let '(s, r) := conversation (start + total_timeout) rounds s in
  let '(s, _) := stop_rotation done s in (s, r).
End Pairer.

(** [Pairer(transport, device)] before [run]. *)
Definition pairer_start (d : DeviceStore) : PairState := mkPairState d [] [] [] None 0.

(** [make_fresh_device]: [sk_identity], [sk_spk] and [sk_noise] are the fresh private keys,
    [rnd] the random bytes of the registration id. *)
Definition make_fresh_device {X : X25519} {E : XEdDSA} (sk_identity sk_spk random_z sk_noise rnd : bytes) (pairing_name now : str)
    : result DeviceStore :=
  let identity := identity_generate sk_identity in
  spk ← signed_prekey_generate identity 1 sk_spk random_z;
  let reg_id := Z.land (be_val rnd) 0x7FFFFFFF in
  Ok (DeviceStore_new identity spk sk_noise (x25519_public sk_noise) (if reg_id =? 0 then 1 else reg_id) pairing_name now).
