(* ===== verification/PairingProofs.v ===== *)
(** * Pairing is authentic, and completes

    What [Pairer.run] requires before it stores anything, what it leaves behind when it
    fails, and that a phone which scanned the QR text and follows the protocol is
    accepted. *)

From S2P Require Import Prelude Effects PyStr Json JsonText Jid Node Tokens Encoder Decoder Codec Crypto SignalKeys SignalTypes.
From S2P Require Import SessionStore DeviceStore Pairing.

(** The device is untouched, and frames are only added. *)
Definition waiting (s s' : PairState) : Prop := ps_device s' = ps_device s ∧ ∃ l, ps_wire s' = ps_wire s ++ l.

#[export] Instance waiting_preorder : PreOrder waiting.
Proof.
  split; [intros s; split; [done|exists []; by rewrite app_nil_r]|]. intros s1 s2 s3 [A1 [l1 B1]] [A2 [l2 B2]].
  split; [congruence|]. exists (l1 ++ l2). by rewrite B2, B1, app_assoc.
Qed.

Section Proofs.
Context {P : PairingProto} {PL : PairingProtoLaws P} {E : XEdDSA} {HM : Hmac} {U : UnicodeDB} {Zl : Zlib}.
Context (adv_secret random_z : bytes).

Lemma waiting_send rd f : keeps waiting (pair_send rd f).
Proof. intros s. unfold pair_send. destruct (rd_send rd); split; cbn; try done; [by exists [f]|exists []; by rewrite app_nil_r]. Qed.

(** Steps that touch neither the device nor the wire. *)
Lemma waiting_local {A} (m : SE PairState A) : (∀ s, ps_device (m s).1 = ps_device s ∧ ps_wire (m s).1 = ps_wire s) → keeps waiting m.
Proof. intros H s. destruct (H s) as [H1 H2]. split; [done|]. exists []. by rewrite app_nil_r. Qed.

Lemma waiting_qr rd p : keeps waiting (show_qr rd p).
Proof. by apply waiting_local. Qed.
Lemma waiting_rotation refs : keeps waiting (start_rotation refs).
Proof. by apply waiting_local. Qed.
Lemma waiting_refs n : keeps waiting (set_refs_emitted n).
Proof. by apply waiting_local. Qed.

#[local] Hint Resolve waiting_send waiting_qr waiting_rotation waiting_refs : keeps.

Lemma waiting_ack rd iq : keeps waiting (_ack_iq rd iq).
Proof. unfold _ack_iq. keeps. Qed.
#[local] Hint Resolve waiting_ack : keeps.

Lemma waiting_pair_device rd node : keeps waiting (on_pair_device adv_secret rd node).
Proof. unfold on_pair_device. keeps. Qed.
#[local] Hint Resolve waiting_pair_device : keeps.

(** What was verified about a [pair-success] stanza for a device. *)
Record accepted (d : DeviceStore) (node : Node) (adv : ADVSigned) (jid : JID) (sig : bytes) : Prop := {
  ac_mac : ∃ di w, (ps ← get_child node (u "pair-success"); get_child ps (u "device-identity")) = Some di ∧
    parse_ADVHmac (content_bytes di) = Ok w ∧ c_hmac_sha256 adv_secret (bytes_or (ah_details w)) = bytes_or (ah_hmac w) ∧
    parse_ADVSigned (bytes_or (ah_details w)) = Ok adv;
  ac_jid : ∃ dn v, (ps ← get_child node (u "pair-success"); get_child ps (u "device")) = Some dn ∧
    get_attr dn (u "jid") = Some v ∧ (v = AJid jid ∨ ∃ t, py_str_attr v = Ok t ∧ parse_jid t = Ok jid);
  ac_fields : bytes_or (adv_details adv) ≠ [] ∧ bytes_or (adv_account_signature adv) ≠ [] ∧ bytes_or (adv_account_signature_key adv) ≠ [];
  ac_account : xeddsa_verify (strip_key_type (bytes_or (adv_account_signature_key adv)))
    (account_transcript (bytes_or (adv_details adv)) (ds_identity_public d)) (bytes_or (adv_account_signature adv)) = true;
  ac_inner : is_ok (parse_ADVDevice (bytes_or (adv_details adv))) = true;
  ac_device : xeddsa_sign (ds_identity_private d) (device_transcript (bytes_or (adv_details adv)) (ds_identity_public d)
    (bytes_or (adv_account_signature_key adv))) random_z = Ok sig
}.

(** The identity that is stored, and the one that is sent. *)
Definition stored_adv (adv : ADVSigned) (sig : bytes) : ADVSigned :=
  mkADVSigned (Some (bytes_or (adv_details adv))) (Some (bytes_or (adv_account_signature_key adv)))
    (Some (bytes_or (adv_account_signature adv))) (Some sig).
Definition echoed_adv (adv : ADVSigned) (sig : bytes) : ADVSigned :=
  mkADVSigned (Some (bytes_or (adv_details adv))) None (Some (bytes_or (adv_account_signature adv))) (Some sig).

(** The device after pairing. *)
Definition paired_device (d : DeviceStore) (adv : ADVSigned) (jid : JID) (sig : bytes) : DeviceStore :=
  set_jid d (mkJIDTuple (user jid) (server jid) (device jid)) (device jid) (ser_ADVSigned (stored_adv adv sig)).

Lemma or_pairing_Ok {A} (r : result A) a : or_pairing_failed r = Ok a → r = Ok a.
Proof. destruct r as [|e]; cbn; [done|by destruct (is_Exception e)]. Qed.

Lemma truthy_ne {A} (l : list A) : truthy l = true → l ≠ [].
Proof. by destruct l. Qed.

Lemma verify_inv adv pub inner : verify_pair_success adv pub = Ok inner →
  (bytes_or (adv_details adv) ≠ [] ∧ bytes_or (adv_account_signature adv) ≠ [] ∧ bytes_or (adv_account_signature_key adv) ≠ []) ∧
  xeddsa_verify (strip_key_type (bytes_or (adv_account_signature_key adv)))
    (account_transcript (bytes_or (adv_details adv)) pub) (bytes_or (adv_account_signature adv)) = true ∧
  parse_ADVDevice (bytes_or (adv_details adv)) = Ok inner.
Proof.
  unfold verify_pair_success. intros H. res_inv. split_and!; eauto using truthy_ne, or_pairing_Ok.
Qed.

Lemma extract_inv node ps adv jid n : _extract_pair_success node adv_secret = Ok (ps, adv, jid, n) →
  n = device jid ∧
  (∃ di w, (ps ← get_child node (u "pair-success"); get_child ps (u "device-identity")) = Some di ∧
    parse_ADVHmac (content_bytes di) = Ok w ∧ c_hmac_sha256 adv_secret (bytes_or (ah_details w)) = bytes_or (ah_hmac w) ∧
    parse_ADVSigned (bytes_or (ah_details w)) = Ok adv) ∧
  ∃ dn v, (ps ← get_child node (u "pair-success"); get_child ps (u "device")) = Some dn ∧
    get_attr dn (u "jid") = Some v ∧ (v = AJid jid ∨ ∃ t, py_str_attr v = Ok t ∧ parse_jid t = Ok jid).
Proof.
  unfold _extract_pair_success. intros H. apply bind_Ok_inv in H as (ps' & Hps & H). apply some_or_Ok in Hps. rewrite Hps.
  apply bind_Ok_inv in H as (di & Hdi & H). apply some_or_Ok in Hdi. apply bind_Ok_inv in H as (? & _ & H).
  apply bind_Ok_inv in H as (w & Hw & H). apply or_pairing_Ok in Hw. apply bind_Ok_inv in H as (? & _ & H).
  apply bind_Ok_inv in H as (? & Hmac & H). apply guard_or_Ok, bool_decide_eq_true in Hmac.
  apply bind_Ok_inv in H as (adv' & Hadv & H). apply or_pairing_Ok in Hadv.
  apply bind_Ok_inv in H as (dn & Hdn & H). apply some_or_Ok in Hdn. apply bind_Ok_inv in H as (v & Hv & H). apply some_or_Ok in Hv.
  apply bind_Ok_inv in H as (j & Hj & H). injection H as <- <- <- <-. split; [done|]. cbn. split; [by exists di, w|].
  exists dn, v. split_and!; [done..|]. destruct v; try (right; apply bind_Ok_inv in Hj; exact Hj). left. congruence.
Qed.

(** Either nothing was stored, or everything was verified and the reply is out. *)
Lemma pair_success_outcome rd node s s' r : on_pair_success adv_secret random_z rd node s = (s', r) →
  match r with
  | Raise _ => waiting s s'
  | Ok res => ∃ adv jid sig inner frame,
      accepted (ps_device s) node adv jid sig ∧ parse_ADVDevice (bytes_or (adv_details adv)) = Ok inner ∧
      (n ← pair_success_node node (echoed_adv adv sig) (default 0 (di_key_index inner)); encode n false) = Ok frame ∧
      ps_wire s' = ps_wire s ++ [frame] ∧ ps_device s' = paired_device (ps_device s) adv jid sig ∧
      res = mkPairResult (paired_device (ps_device s) adv jid sig) jid (device jid) (ps_refs_emitted s)
  end.
Proof.
  unfold on_pair_success. intros H. destruct (_extract_pair_success node adv_secret) as [[[[ps adv] jid] n]|e] eqn:Ee.
  2:{ injection H as <- <-. reflexivity. }
  destruct (extract_inv _ _ _ _ _ Ee) as (-> & Hmac & Hjid). rewrite se_bind_lift, se_bind_asks in H.
  destruct (verify_pair_success adv (ds_identity_public (ps_device s))) as [inner|e] eqn:Ev.
  2:{ injection H as <- <-. reflexivity. }
  destruct (verify_inv _ _ _ Ev) as (Hf & Hacc & Hin). rewrite se_bind_lift in H.
  unfold build_pair_success_reply in H. destruct (xeddsa_sign _ _ _) as [sig|e] eqn:Es; cbn [mbind result_bind] in H.
  2:{ injection H as <- <-. reflexivity. }
  rewrite se_bind_lift in H. change (mkADVSigned _ None _ _) with (echoed_adv adv sig) in H.
  unfold _reply_pair_success in H. rewrite se_bind_assoc in H.
  destruct (n ← pair_success_node _ _ _; encode n false) as [frame|e] eqn:En.
  2:{ injection H as <- <-. reflexivity. }
  rewrite se_bind_lift in H. unfold pair_send in H. destruct (rd_send rd) as [|e] eqn:Er.
  2:{ unfold mbind, se_bind in H. injection H as <- <-. reflexivity. }
  unfold mbind, se_bind, set_device, se_asks, mret, se_ret in H. injection H as <- <-.
  exists adv, jid, sig, inner, frame. split_and!; try done. constructor; try done. by rewrite Hin.
Qed.

Lemma handle_outcome rd node s s' r : handle_node adv_secret random_z rd node s = (s', r) →
  match r with
  | Ok (Some res) => on_pair_success adv_secret random_z rd node s = (s', Ok res) ∧ tag node = u "iq"
  | _ => waiting s s'
  end.
Proof.
  unfold handle_node. intros H. destruct (bool_decide (tag node = u "failure")); [injection H as <- <-; reflexivity|].
  destruct (bool_decide (tag node = u "iq")) eqn:Et; cbn [negb] in H; [|injection H as <- <-; reflexivity].
  apply bool_decide_eq_true in Et. destruct (bool_decide (is_Some (get_child node (u "pair-device")))).
  { assert (keeps waiting (_ ← on_pair_device adv_secret rd node; mret (None : option PairResult))) as K by keeps.
    pose proof (keeps_run _ _ _ _ _ K H). destruct r as [[|]|]; [|done..].
    apply se_bind_Ok_inv in H as (? & ? & _ & H). discriminate H. }
  destruct (is_ping node) as [ping|e]; [|injection H as <- <-; reflexivity]. rewrite se_bind_lift in H. destruct ping.
  { assert (keeps waiting (_ ← _ack_iq rd node; mret (None : option PairResult))) as K by keeps.
    pose proof (keeps_run _ _ _ _ _ K H). destruct r as [[|]|]; [|done..].
    apply se_bind_Ok_inv in H as (? & ? & _ & H). discriminate H. }
  destruct (bool_decide _); [|injection H as <- <-; reflexivity].
  destruct (on_pair_success adv_secret random_z rd node s) as [s1 [res|e]] eqn:Ep.
  - rewrite (se_bind_eq _ _ _ _ _ Ep) in H. injection H as <- <-. by split.
  - rewrite (se_bind_raise _ _ _ _ _ Ep) in H. injection H as <- <-. by apply pair_success_outcome in Ep.
Qed.

Lemma receive_state deadline rd s : (receive deadline rd s).1 = s.
Proof. unfold receive. destruct (_ <=? _); [done|]. by destruct (rd_recv rd). Qed.

Lemma receive_Ok deadline rd s s' node : receive deadline rd s = (s', Ok node) → s' = s ∧ rd_clock rd < deadline ∧
  ∃ frame, rd_recv rd = Ok frame ∧ decode frame = Ok node.
Proof.
  unfold receive. destruct (Z.leb_spec (deadline - rd_clock rd) 0); [done|]. destruct (rd_recv rd) as [f|]; [|done].
  intros [= <- H1]. split_and!; [done|lia|eauto].
Qed.

(** The loop stops with a paired device or with the device it was given. *)
Lemma conversation_outcome deadline rounds : ∀ s s' r, conversation adv_secret random_z deadline rounds s = (s', r) →
  match r with
  | Raise _ => waiting s s'
  | Ok res => ∃ before rd after s1 frame node, rounds = before ++ rd :: after ∧ waiting s s1 ∧ rd_clock rd < deadline ∧
      rd_recv rd = Ok frame ∧ decode frame = Ok node ∧ tag node = u "iq" ∧
      on_pair_success adv_secret random_z rd node s1 = (s', Ok res)
  end.
Proof.
  induction rounds as [|rd rounds IH]; intros s s' r H; cbn [conversation] in H; [injection H as <- <-; reflexivity|].
  destruct (receive deadline rd s) as [s0 [node|e]] eqn:Er.
  2:{ rewrite (se_bind_raise _ _ _ _ _ Er) in H. injection H as <- <-.
      pose proof (receive_state deadline rd s) as Hs. rewrite Er in Hs. cbn in Hs. by subst. }
  rewrite (se_bind_eq _ _ _ _ _ Er) in H. apply receive_Ok in Er as (-> & Hc & frame & Hf & Hd).
  destruct (handle_node adv_secret random_z rd node s) as [s1 [o|e]] eqn:Eh.
  2:{ rewrite (se_bind_raise _ _ _ _ _ Eh) in H. injection H as <- <-. by apply handle_outcome in Eh. }
  rewrite (se_bind_eq _ _ _ _ _ Eh) in H. apply handle_outcome in Eh. destruct o as [res|].
  - injection H as <- <-. destruct Eh as [Ep Ht]. exists [], rd, rounds, s, frame, node. by split_and!.
  - apply IH in H. destruct r as [res|e]; [|by etransitivity].
    destruct H as (before & rd' & after & s2 & f' & n' & -> & Hw & H). exists (rd :: before), rd', after, s2, f', n'.
    split_and!; try apply H; [done|by etransitivity].
Qed.

Lemma run_outcome start total done rounds s s' r : pairer_run adv_secret random_z start total done rounds s = (s', r) →
  ∃ s1, conversation adv_secret random_z (start + total) rounds s = (s1, r) ∧ ps_device s' = ps_device s1 ∧ ps_wire s' = ps_wire s1 ∧
    ps_qrs s' = ps_qrs s1.
Proof. unfold pairer_run. destruct (conversation _ _ _ _ _) as [s1 r1]. intros [= <- <-]. exists s1. by split_and!. Qed.
End Proofs.

(** C16: pairing stores credentials only for an identity that was authenticated twice: the
    stanza arrived before the deadline, its HMAC is the one under our QR secret, and the
    account key signed its details with our identity key; then our signature over both
    went out as the last frame, without the account key, and is stored with it. When
    [run] raises, at whatever step, the device is what it was. *)
Theorem pairing_authentic {P : PairingProto} {E : XEdDSA} {HM : Hmac} {U : UnicodeDB} {Zl : Zlib}
    (adv_secret random_z : bytes) (start total : Z) (done : nat → bool) (rounds : list Round) (d : DeviceStore)
    (s' : PairState) (r : result PairResult) :
  pairer_run adv_secret random_z start total done rounds (pairer_start d) = (s', r) →
  match r with
  | Raise _ => ps_device s' = d
  | Ok res => ∃ rd frame node adv jid sig inner reply,
      rd ∈ rounds ∧ rd_clock rd < start + total ∧ rd_recv rd = Ok frame ∧ decode frame = Ok node ∧
      accepted adv_secret random_z d node adv jid sig ∧
      parse_ADVDevice (bytes_or (adv_details adv)) = Ok inner ∧
      (n ← pair_success_node node (echoed_adv adv sig) (default 0 (di_key_index inner)); encode n false) = Ok reply ∧
      last (ps_wire s') = Some reply ∧
      res_device res = ps_device s' ∧ ps_device s' = paired_device d adv jid sig ∧ res_jid res = jid
  end.
Proof.
  intros H. apply run_outcome in H as (s1 & H & -> & -> & _). apply conversation_outcome in H.
  destruct r as [res|e]; [|apply H].
  destruct H as (before & rd & after & s2 & frame & node & -> & [Hd _] & Hc & Hf & Hn & _ & Hp).
  apply pair_success_outcome in Hp as (adv & jid & sig & inner & reply & Hacc & Hin & Hrep & Hw & Hdev & ->).
  rewrite Hd in *. exists rd, frame, node, adv, jid, sig, inner, reply. split_and!; try done; [set_solver|].
  by rewrite Hw, last_snoc.
Qed.

(** ** A phone that follows the protocol *)

Section Phone.
Context {P : PairingProto} {E : XEdDSA} {HM : Hmac} {X : X25519}.

(** The fields of a QR text, from its end. *)
Definition scan_qr (qr : str) : option (bytes * bytes * bytes) :=
  '(a, secret) ← split_last COMMA qr; '(b, identity) ← split_last COMMA a; '(_, noise) ← split_last COMMA b;
  secret ← b64decode secret; identity ← b64decode identity; noise ← b64decode noise;
  Some (noise, identity, secret).

(** What a phone that scanned the text sends: the identity, signed with the account key for
    the scanned identity key, under the HMAC of the scanned secret. *)
Definition phone_signs (qr : str) (account_private z : bytes) (identity : ADVDeviceIdentity) : option (ADVSigned * bytes) :=
  '(_, our_identity, secret) ← scan_qr qr;
  let details := ser_ADVDevice identity in
  match xeddsa_sign account_private (account_transcript details our_identity) z with
  | Ok sig =>
      let adv := mkADVSigned (Some details) (Some (x25519_public account_private)) (Some sig) None in
      let b := ser_ADVSigned adv in
      Some (adv, ser_ADVHmac (mkADVHmac (Some b) (Some (c_hmac_sha256 secret b))))
  | Raise _ => None
  end.

(** The server's stanza around it. *)
Definition pair_success_stanza (attrs : list (str * AttrValue)) (jid : JID) (blob : bytes) : Node :=
  mkNode (u "iq") attrs
    (CList [mkNode (u "pair-success") []
      (CList [mkNode (u "device-identity") [] (CBytes blob); mkNode (u "device") [(u "jid", AJid jid)] CNone])]).
End Phone.

Lemma b64_no_comma b : COMMA ∉ b64encode b.
Proof.
  enough (∀ n b, (length b ≤ n)%nat → COMMA ∉ b64encode b) as K by (by eapply K).
  assert (∀ n, 0 ≤ n < 64 → b64_char n ≠ COMMA) as Hc.
  { intros n Hn. unfold b64_char, COMMA. repeat case_match; zbool; lia. }
  clear b. induction n as [|n IH]; intros b Hn.
  { destruct b; cbn in Hn; [|lia]. by apply not_elem_of_nil. }
  destruct b as [|x [|y [|z b]]]; cbn [b64encode length] in *; rewrite ?elem_of_cons, ?elem_of_nil;
    try (pose proof (b2z_range x)); try (pose proof (b2z_range y)); try (pose proof (b2z_range z)); [tauto| | |].
  - intros [Hq|[Hq|[Hq|[Hq|[]]]]]; try (symmetry in Hq; revert Hq; apply Hc; Z.div_mod_to_equations; lia); done.
  - intros [Hq|[Hq|[Hq|[Hq|[]]]]]; try (symmetry in Hq; revert Hq; apply Hc; Z.div_mod_to_equations; lia); done.
  - intros [Hq|[Hq|[Hq|[Hq|Hq]]]]; try (symmetry in Hq; revert Hq; apply Hc; Z.div_mod_to_equations; lia).
    revert Hq. apply IH. lia.
Qed.

(** The three keys are read back whatever the ref contains. *)
Lemma scan_qr_payload ref noise identity secret : scan_qr (encode_qr_payload ref noise identity secret) = Some (noise, identity, secret).
Proof.
  unfold scan_qr, encode_qr_payload. cbn [join].
  assert (∀ a b, COMMA ∉ b → split_last COMMA (a ++ COMMA :: b) = Some (a, b)) as K by (intros a b Hb; by apply split_last_Some).
  replace (ref ++ [COMMA] ++ b64encode noise ++ [COMMA] ++ b64encode identity ++ [COMMA] ++ b64encode secret)
    with (((ref ++ COMMA :: b64encode noise) ++ COMMA :: b64encode identity) ++ COMMA :: b64encode secret)
    by (by rewrite <-!app_assoc).
  rewrite K by apply b64_no_comma. cbn. rewrite K by apply b64_no_comma. cbn. rewrite K by apply b64_no_comma. cbn.
  by rewrite !b64_roundtrip.
Qed.

Section Completes.
Context {P : PairingProto} {PL : PairingProtoLaws P} {X : X25519} {XL : X25519Laws X} {E : XEdDSA} {EL : XEdDSALaws X E}
  {HM : Hmac} {HML : HmacLaws HM} {U : UnicodeDB} {Zl : Zlib}.
Context (adv_secret random_z : bytes).

(** The round went well: a stanza in time, [send] works, and the QR handler may only raise
    an [Exception]. *)
Record good_round (deadline : Z) (rd : Round) (node : Node) : Prop := {
  gr_clock : rd_clock rd < deadline;
  gr_frame : ∃ frame, rd_recv rd = Ok frame ∧ decode frame = Ok node;
  gr_send : rd_send rd = Ok tt;
  gr_qr : ∀ e, rd_qr rd = Raise e → is_Exception e = true
}.

Definition can_ack (node : Node) : Prop := is_ok (attrs ← result_attrs node; encode (mkNode (u "iq") attrs CNone) false) = true.

(** A stanza that [run] answers or ignores. *)
Definition unrelated (node : Node) : Prop :=
  (tag node ≠ u "failure" ∧ tag node ≠ u "iq") ∨
  (tag node = u "iq" ∧ get_child node (u "pair-device") = None ∧
   ((is_ping node = Ok true ∧ can_ack node) ∨ (is_ping node = Ok false ∧ get_child node (u "pair-success") = None))).

Definition offers (ref : str) (node : Node) : Prop :=
  tag node = u "iq" ∧ can_ack node ∧ ∃ rest, _extract_pair_device_refs node = Ok (ref :: rest).

Lemma receive_good deadline rd node s : good_round deadline rd node → receive deadline rd s = (s, Ok node).
Proof.
  intros [Hc (frame & Hf & Hd) _ _]. unfold receive. destruct (Z.leb_spec (deadline - rd_clock rd) 0); [lia|]. by rewrite Hf, <-Hd.
Qed.

Lemma ack_good deadline rd node s : good_round deadline rd node → can_ack node →
  ∃ s', _ack_iq rd node s = (s', Ok tt) ∧ ps_device s' = ps_device s ∧ ps_qrs s' = ps_qrs s.
Proof.
  intros [_ _ Hs _] Ha. unfold _ack_iq, can_ack in *. destruct (attrs ← result_attrs node; _) as [f|]; [|done].
  rewrite se_bind_lift. unfold pair_send. rewrite Hs. by eexists.
Qed.

Lemma unrelated_round deadline rd node s : good_round deadline rd node → unrelated node →
  ∃ s', handle_node adv_secret random_z rd node s = (s', Ok None) ∧ ps_device s' = ps_device s ∧ ps_qrs s' = ps_qrs s.
Proof.
  intros Hg [[H1 H2]|(Ht & Hpd & Hk)]; unfold handle_node.
  { rewrite (bool_decide_false _ H1), (bool_decide_false _ H2). by exists s. }
  rewrite Ht, bool_decide_false, (bool_decide_true _ eq_refl) by done. cbn [negb].
  rewrite bool_decide_false by (rewrite Hpd; by intros []).
  destruct Hk as [[-> Ha]|[-> Hps]]; rewrite se_bind_lift.
  - destruct (ack_good _ _ _ s Hg Ha) as (s1 & Es & H). rewrite (se_bind_eq _ _ _ _ _ Es). by exists s1.
  - rewrite bool_decide_false by (rewrite Hps; by intros []). by exists s.
Qed.

Lemma offer_round deadline rd node ref s : good_round deadline rd node → offers ref node →
  ∃ s', handle_node adv_secret random_z rd node s = (s', Ok None) ∧ ps_device s' = ps_device s ∧
    ps_qrs s' = ps_qrs s ++ [qr_payload adv_secret (ps_device s) ref].
Proof.
  intros Hg (Ht & Ha & rest & Hr). unfold handle_node. rewrite Ht, bool_decide_false, (bool_decide_true _ eq_refl) by done. cbn [negb].
  rewrite bool_decide_true.
  2:{ unfold _extract_pair_device_refs in Hr. by destruct (get_child node (u "pair-device")). }
  unfold on_pair_device. rewrite Hr. se_run. destruct (ack_good _ _ _ s Hg Ha) as (s1 & Es & Hd & Hq). se_step Es.
  assert (∀ p, show_qr rd p s1 = (mkPairState (ps_device s1) (ps_wire s1) (ps_qrs s1 ++ [p]) (ps_rotations s1) (ps_qr_task s1) (ps_refs_emitted s1), Ok tt)) as Hqr.
  { intros p. unfold show_qr. destruct (rd_qr rd) as [|x] eqn:Ex; [done|]. by rewrite (gr_qr _ _ _ Hg x Ex). }
  se_step (Hqr (qr_payload adv_secret (ps_device s1) ref)). destruct (truthy rest);
    eexists; (split; [reflexivity|]); cbn; by rewrite Hd, Hq.
Qed.

Lemma conversation_good deadline rd node rounds s s' : good_round deadline rd node →
  handle_node adv_secret random_z rd node s = (s', Ok None) →
  conversation adv_secret random_z deadline (rd :: rounds) s = conversation adv_secret random_z deadline rounds s'.
Proof.
  intros Hg Hh. cbn [conversation]. rewrite (se_bind_eq _ _ _ _ _ (receive_good _ _ _ s Hg)).
  by rewrite (se_bind_eq _ _ _ _ _ Hh).
Qed.

Lemma waits_good deadline rds rounds : ∀ s, Forall (λ rd, ∃ node, good_round deadline rd node ∧ unrelated node) rds →
  ∃ s', conversation adv_secret random_z deadline (rds ++ rounds) s = conversation adv_secret random_z deadline rounds s' ∧
    ps_device s' = ps_device s ∧ ps_qrs s' = ps_qrs s.
Proof.
  induction rds as [|rd rds IH]; intros s Hf; [by exists s|]. apply Forall_cons in Hf as [(node & Hg & Hu) Hf].
  destruct (unrelated_round _ _ _ s Hg Hu) as (s1 & Hh & Hd & Hq). cbn [app]. rewrite (conversation_good _ _ _ _ _ _ Hg Hh).
  destruct (IH s1 Hf) as (s2 & -> & Hd2 & Hq2). exists s2. split_and!; congruence.
Qed.

(** *** The phone's stanza is accepted *)

Context (d : DeviceStore) (Hkey : ds_identity_public d = x25519_public (ds_identity_private d)).

(** An identity the server can send. *)
Definition good_identity (i : ADVDeviceIdentity) : Prop :=
  (∃ k, di_key_index i = Some k ∧ uint32 k = true) ∧ from_option uint32 true (di_raw_id i) = true ∧
  from_option uint64 true (di_timestamp i) = true.

Lemma ser_ne {A} (parse : bytes → result A) (b : bytes) (a a0 : A) : parse b = Ok a → parse [] = Ok a0 → a ≠ a0 → truthy b = true.
Proof. destruct b; [congruence|done]. Qed.

Lemma strip_public k : strip_key_type (x25519_public k) = x25519_public k.
Proof.
  pose proof (length_x25519_public k) as Hl. unfold strip_key_type. destruct (x25519_public k) as [|b l]; [done|].
  rewrite bool_decide_false; [done|]. cbn in *. lia.
Qed.

Lemma phone_accepted ref account_private z identity adv blob attrs jid : good_identity identity →
  phone_signs (qr_payload adv_secret d ref) account_private z identity = Some (adv, blob) →
  adv = mkADVSigned (Some (ser_ADVDevice identity)) (Some (x25519_public account_private)) (adv_account_signature adv) None ∧
  _extract_pair_success (pair_success_stanza attrs jid blob) adv_secret =
    Ok (mkNode (u "pair-success") [] (CList [mkNode (u "device-identity") [] (CBytes blob); mkNode (u "device") [(u "jid", AJid jid)] CNone]),
        adv, jid, device jid) ∧
  verify_pair_success adv (ds_identity_public d) = Ok identity.
Proof.
  intros ((k & Hk & Hku) & Hraw & Hts) H. unfold phone_signs, qr_payload in H. rewrite scan_qr_payload in H. cbn in H.
  assert (parse_ADVDevice (ser_ADVDevice identity) = Ok identity) as Hdev by (apply adv_device_roundtrip; [by rewrite Hk|done..]).
  assert (truthy (ser_ADVDevice identity) = true) as Hdet.
  { apply (ser_ne _ _ _ _ Hdev adv_device_empty). intros ->. done. }
  destruct (xeddsa_sign _ _ _) as [sig|] eqn:Es; [|done]. injection H as <- <-. cbn [adv_account_signature].
  set (adv := mkADVSigned _ _ _ None). set (b := ser_ADVSigned adv). set (w := mkADVHmac (Some b) (Some (c_hmac_sha256 adv_secret b))).
  assert (truthy b = true) as Hb by (apply (ser_ne _ _ _ _ (adv_roundtrip adv) adv_empty); done).
  assert (truthy (ser_ADVHmac w) = true) as Hw by (apply (ser_ne _ _ _ _ (adv_hmac_roundtrip w) adv_hmac_empty); done).
  assert (truthy (c_hmac_sha256 adv_secret b) = true) as Ht.
  { pose proof (length_c_hmac_sha256 adv_secret b) as Hl. by destruct (c_hmac_sha256 adv_secret b). }
  assert (truthy sig = true) as Hsig by (apply length_xeddsa_sign in Es; by destruct sig).
  assert (truthy (x25519_public account_private) = true) as Hpub.
  { pose proof (length_x25519_public account_private) as Hl. by destruct (x25519_public account_private). }
  split; [done|]. split.
  - unfold _extract_pair_success, pair_success_stanza. node_lit. rbind. node_lit. rbind. cbn [content_bytes content].
    rewrite Hw. rbind. rewrite adv_hmac_roundtrip. cbn [or_pairing_failed]. rbind. unfold w, bytes_or. cbn [ah_details ah_hmac from_option id].
    rewrite Hb, Ht. cbn [andb]. rbind. rewrite bool_decide_true by done. rbind. unfold b. rewrite adv_roundtrip. cbn [or_pairing_failed]. rbind.
    node_lit. rbind. reflexivity.
  - unfold verify_pair_success, adv, bytes_or. cbn [adv_details adv_account_signature adv_account_signature_key from_option id].
    rewrite Hdet, Hsig, Hpub. rbind. rewrite strip_public, (xeddsa_verify_sign _ _ _ _ Es). rbind. by rewrite Hdev.
Qed.

Lemma success_round deadline rd attrs jid blob adv identity sig frame s :
  good_round deadline rd (pair_success_stanza attrs jid blob) → is_ping (pair_success_stanza attrs jid blob) = Ok false →
  ps_device s = d →
  (∃ ps, _extract_pair_success (pair_success_stanza attrs jid blob) adv_secret = Ok (ps, adv, jid, device jid)) →
  verify_pair_success adv (ds_identity_public d) = Ok identity →
  xeddsa_sign (ds_identity_private d) (device_transcript (bytes_or (adv_details adv)) (ds_identity_public d)
    (bytes_or (adv_account_signature_key adv))) random_z = Ok sig →
  (n ← pair_success_node (pair_success_stanza attrs jid blob) (echoed_adv adv sig) (default 0 (di_key_index identity)); encode n false) = Ok frame →
  ∃ s' res, handle_node adv_secret random_z rd (pair_success_stanza attrs jid blob) s = (s', Ok (Some res)) ∧
    ps_device s' = paired_device d adv jid sig ∧ ps_qrs s' = ps_qrs s ∧ res_jid res = jid ∧ last (ps_wire s') = Some frame.
Proof.
  intros Hg Hp Hd [ps He] Hv Hs Hf. unfold handle_node. cbn [tag pair_success_stanza].
  rewrite bool_decide_false, (bool_decide_true _ eq_refl) by done. cbn [negb].
  rewrite (bool_decide_false (is_Some _)) by (unfold pair_success_stanza; node_lit; by intros []).
  fold (pair_success_stanza attrs jid blob). rewrite Hp, se_bind_lift.
  rewrite bool_decide_true by (unfold pair_success_stanza; node_lit; by eexists).
  unfold on_pair_success. rewrite He. se_run. rewrite Hd, Hv. se_run. unfold build_pair_success_reply. rewrite Hs. cbn [mbind result_bind].
  se_run. unfold _reply_pair_success. change (mkADVSigned (Some _) None _ _) with (echoed_adv adv sig). rewrite Hf. se_run.
  assert (pair_send rd frame s = (mkPairState (ps_device s) (ps_wire s ++ [frame]) (ps_qrs s) (ps_rotations s) (ps_qr_task s) (ps_refs_emitted s), Ok tt)) as Hsend
    by (unfold pair_send; by rewrite (gr_send _ _ _ Hg)).
  se_step Hsend. eexists _, _. split; [reflexivity|]. cbn. rewrite last_snoc. by split_and!.
Qed.
End Completes.

(** A paired device can be saved again, and logs in. *)
Lemma paired_storable {P : PairingProto} d adv jid sig : storable d → scalar_str (user jid) = true → scalar_str (server jid) = true →
  counter_ok (device jid) → storable (paired_device d adv jid sig).
Proof. intros [] H1 H2 H3. split; try done. Qed.

Lemma paired_login {P : PairingProto} {U : UnicodeDB} d adv jid sig n : py_int (user jid) = Ok n → uint64 n = true →
  uint32 (device jid) = true →
  build_login_payload (paired_device d adv jid sig) =
    Ok (ser_ClientPayload (mkClientPayload (Some n) true true 1 1 (Some (device jid)) _user_agent _web_info None)).
Proof.
  intros Hn Hu Hd. unfold build_login_payload, paired_device, set_jid. cbn [ds_jid jt_user jt_device].
  rewrite Hn. rbind. rewrite Hu. rbind. by rewrite Hd.
Qed.

(** C17: a phone that scans the first QR text [run] shows, signs what it read and is relayed by
    the server is accepted, whatever unrelated stanzas and pings come first: [run]
    returns the assigned JID, sends the reply, and stores the identity with two
    signatures that verify, the phone's over our identity key and ours over both. *)
Theorem pairing_completes {P : PairingProto} {PL : PairingProtoLaws P} {X : X25519} {XL : X25519Laws X} {E : XEdDSA}
    {EL : XEdDSALaws X E} {HM : Hmac} {HML : HmacLaws HM} {U : UnicodeDB} {Zl : Zlib}
    (adv_secret random_z : bytes) (start total : Z) (done : nat → bool) (d : DeviceStore) (ref : str)
    (rd0 rd1 : Round) (waits rest : list Round) (node0 : Node) (account_private z : bytes) (identity : ADVDeviceIdentity)
    (adv : ADVSigned) (blob : bytes) (attrs : list (str * AttrValue)) (jid : JID) :
  ds_identity_public d = x25519_public (ds_identity_private d) → length (ds_identity_private d) = 32%nat → length random_z = 64%nat →
  good_round (start + total) rd0 node0 → offers ref node0 →
  Forall (λ rd, ∃ node, good_round (start + total) rd node ∧ unrelated node) waits →
  good_identity identity → phone_signs (qr_payload adv_secret d ref) account_private z identity = Some (adv, blob) →
  good_round (start + total) rd1 (pair_success_stanza attrs jid blob) → is_ping (pair_success_stanza attrs jid blob) = Ok false →
  is_ok (reply ← build_pair_success_reply adv (ds_identity_private d) (ds_identity_public d) random_z;
         n ← pair_success_node (pair_success_stanza attrs jid blob) reply (default 0 (di_key_index identity)); encode n false) = true →
  ∃ s' res sig, pairer_run adv_secret random_z start total done (rd0 :: waits ++ rd1 :: rest) (pairer_start d) = (s', Ok res) ∧
    res_jid res = jid ∧ ps_qrs s' = [qr_payload adv_secret d ref] ∧
    ps_device s' = paired_device d adv jid sig ∧
    parse_ADVSigned (bytes_or (ds_adv_signed_device_identity (ps_device s'))) = Ok (stored_adv adv sig) ∧
    xeddsa_verify (x25519_public account_private) (account_transcript (bytes_or (adv_details adv)) (ds_identity_public d))
      (bytes_or (adv_account_signature adv)) = true ∧
    xeddsa_verify (ds_identity_public d) (device_transcript (bytes_or (adv_details adv)) (ds_identity_public d)
      (bytes_or (adv_account_signature_key adv))) sig = true.
Proof.
  intros Hkey Hlen Hz Hg0 Ho Hw Hi Hp Hg1 Hping Hrep.
  destruct (phone_accepted adv_secret d ref account_private z identity adv blob attrs jid Hi Hp) as (Hadv & He & Hv).
  set (transcript := device_transcript (bytes_or (adv_details adv)) (ds_identity_public d) (bytes_or (adv_account_signature_key adv))).
  pose proof (xeddsa_sign_ok (ds_identity_private d) transcript random_z Hlen Hz) as Hok.
  unfold build_pair_success_reply in Hrep. fold transcript in Hrep.
  destruct (xeddsa_sign (ds_identity_private d) transcript random_z) as [sig|] eqn:Es; [|done].
  cbn [mbind result_bind] in Hrep. change (mkADVSigned (Some _) None _ _) with (echoed_adv adv sig) in Hrep.
  destruct (n ← pair_success_node _ _ _; encode n false) as [frame|] eqn:Ef; [|done].
  destruct (offer_round adv_secret random_z _ _ _ _ (pairer_start d) Hg0 Ho) as (s1 & H1 & Hd1 & Hq1).
  destruct (waits_good adv_secret random_z (start + total) waits (rd1 :: rest) s1 Hw) as (s2 & H2 & Hd2 & Hq2).
  assert (ps_device s2 = d) as Hds2 by (by rewrite Hd2, Hd1).
  destruct (success_round adv_secret random_z d _ _ _ _ _ _ _ _ _ s2 Hg1 Hping Hds2 ltac:(eexists; exact He) Hv Es Ef)
    as (s3 & res & H3 & Hd3 & Hq3 & Hj & Hlast).
  assert (conversation adv_secret random_z (start + total) (rd0 :: waits ++ rd1 :: rest) (pairer_start d) = (s3, Ok res)) as Hc.
  { rewrite (conversation_good _ _ _ _ _ _ _ _ Hg0 H1), H2. cbn [conversation].
    rewrite (se_bind_eq _ _ _ _ _ (receive_good _ _ _ s2 Hg1)). by rewrite (se_bind_eq _ _ _ _ _ H3). }
  eexists _, res, sig. unfold pairer_run. rewrite Hc. cbn [stop_rotation]. split; [reflexivity|]. cbn [ps_qrs ps_device].
  destruct (verify_inv _ _ _ Hv) as (_ & Hacc & _). rewrite Hd3. split_and!; try done.
  - by rewrite Hq3, Hq2, Hq1.
  - apply adv_roundtrip.
  - rewrite Hadv in Hacc |- *. cbn in *. by rewrite strip_public in Hacc.
  - rewrite Hkey at 1. by apply (xeddsa_verify_sign _ _ _ _ Es).
Qed.

(** A second [pair-device] iq replaces [qr_task]: the rotation it named before is never
    cancelled, and goes on showing texts after [run] has ended. *)
Lemma first_rotation_leaks {U : UnicodeDB} {Zl : Zlib} (adv_secret : bytes) (rd : Round) (node : Node) (done : nat → bool)
    (s s' : PairState) (i : nat) (refs : list str) a b l :
  on_pair_device adv_secret rd node s = (s', Ok tt) → _extract_pair_device_refs node = Ok (a :: b :: l) →
  ps_rotations s !! i = Some (refs, Running) → ps_rotations (stop_rotation done s').1 !! i = Some (refs, Running).
Proof.
  intros H Hr Hi. unfold on_pair_device in H. rewrite Hr, se_bind_lift in H.
  apply se_bind_Ok_inv in H as (s1 & ? & H1 & H). rewrite se_bind_asks in H.
  apply se_bind_Ok_inv in H as (s2 & ? & H2 & H). cbn in H. injection H as <-. cbn.
  assert (ps_rotations s1 = ps_rotations s) as E1.
  { unfold _ack_iq in H1. apply se_bind_Ok_inv in H1 as (? & f & Hf & H1). unfold se_lift in Hf. injection Hf as <- _.
    unfold pair_send in H1. destruct (rd_send rd); by simplify_eq/=. }
  assert (ps_rotations s2 = ps_rotations s1) as E2 by (unfold show_qr in H2; by simplify_eq/=).
  apply lookup_lt_Some in Hi as Hlt. rewrite E2, E1. rewrite list_lookup_alter_ne by lia. by rewrite lookup_app_l.
Qed.

(** ** A fresh device *)

Lemma fresh_device {X : X25519} {XL : X25519Laws X} {E : XEdDSA} {EL : XEdDSALaws X E} ski sks z skn rnd name now :
  length ski = 32%nat → length z = 64%nat → length rnd = 4%nat → is_float_literal now = true → scalar_str name = true →
  ∃ d, make_fresh_device ski sks z skn rnd name now = Ok d ∧ storable d ∧ 1 ≤ ds_registration_id d < 2 ^ 31 ∧
    ds_identity_private d = ski ∧ ds_identity_public d = x25519_public ski ∧
    signed_prekey_verify (signed_pre_key d) (ds_identity_public d) = Ok true ∧ ds_jid d = None.
Proof.
  intros Hi Hz Hr Hn Hname. unfold make_fresh_device, signed_prekey_generate, identity_sign.
  rewrite (signal_pubkey_32 (x25519_public sks)) by apply length_x25519_public. rbind. cbn [ik_private identity_generate].
  pose proof (xeddsa_sign_ok ski (_SIGNAL_KEY_TYPE :: x25519_public sks) z Hi Hz) as Hok.
  destruct (xeddsa_sign _ _ _) as [sig|] eqn:Es; [|done]. rbind. eexists. split; [reflexivity|].
  change 0x7FFFFFFF with (Z.ones 31). rewrite Z.land_ones by lia.
  pose proof (Z.mod_pos_bound (be_val rnd) (2 ^ 31) eq_refl) as Hb.
  set (reg := if _ =? 0 then 1 else _). assert (1 ≤ reg < 2 ^ 31) as Hreg by (unfold reg; destruct (Z.eqb_spec (be_val rnd mod 2 ^ 31) 0); lia).
  clearbody reg. split_and!; try done; [|cbn; lia|cbn; lia|].
  - split; try done; cbn; lia.
  - unfold signed_prekey_verify, signed_pre_key. cbn. rewrite (signal_pubkey_32 (x25519_public sks)) by apply length_x25519_public. rbind.
    by rewrite (xeddsa_verify_sign _ _ _ _ Es).
Qed.

Lemma fresh_registers {P : PairingProto} {MD : Md5} {U : UnicodeDB} d name : storable d → 1 ≤ ds_registration_id d < 2 ^ 31 →
  0 ≤ ds_signed_pre_key_id d < 2 ^ 24 → is_ok (build_register_payload d name None) = true.
Proof.
  intros _ Hr Hs. unfold build_register_payload, to_bytes_big.
  rewrite (proj2 (andb_true_iff _ _)) by (split; [apply Z.leb_le|apply Z.ltb_lt]; cbn; lia). rbind.
  rewrite (proj2 (andb_true_iff _ _)) by (split; [apply Z.leb_le|apply Z.ltb_lt]; cbn; lia). rbind.
  assert (is_ok _build_hash = true) as Hh by (vm_compute; reflexivity). by destruct _build_hash.
Qed.

(** ** A toy runtime, and a pairing with it *)

Definition toy_num64 (z : Z) : bytes := le_bytes 8 z.

Definition toy_pairing : PairingProto := {|
  ser_ADVSigned a := toy_opt (adv_details a) ++ toy_opt (adv_account_signature_key a) ++ toy_opt (adv_account_signature a)
    ++ toy_opt (adv_device_signature a) ++ [];
  parse_ADVSigned b := let '(x, b) := toy_get_opt b in let '(k, b) := toy_get_opt b in let '(s, b) := toy_get_opt b in
    let '(e, _) := toy_get_opt b in Ok (mkADVSigned x k s e);
  ser_ADVHmac h := toy_opt (ah_details h) ++ toy_opt (ah_hmac h) ++ [];
  parse_ADVHmac b := let '(x, b) := toy_get_opt b in let '(k, _) := toy_get_opt b in Ok (mkADVHmac x k);
  ser_ADVDevice i := toy_opt (toy_num <$> di_raw_id i) ++ toy_opt (toy_num64 <$> di_timestamp i) ++ toy_opt (toy_num <$> di_key_index i) ++ [];
  parse_ADVDevice b := let '(r, b) := toy_get_opt b in let '(t, b) := toy_get_opt b in let '(k, _) := toy_get_opt b in
    if from_option uint32 true (le_val <$> k) then Ok (mkADVDevice (le_val <$> r) (le_val <$> t) (le_val <$> k)) else Raise ProtobufError;
  ser_DeviceProps _ := [];
  ser_ClientPayload _ := []
|}.

Lemma toy_opt_num n (z : option Z) : from_option (λ z, (0 <=? z) && (z <? 256 ^ Z.of_nat n)) true z = true →
  le_val <$> (le_bytes n <$> z) = z.
Proof.
  destruct z as [z|]; [|done]. intros H. cbn [from_option fmap option_fmap option_map] in *. apply andb_true_iff in H as [H1 H2]. zbool.
  by rewrite le_val_bytes, Z.mod_small.
Qed.

#[global] Instance toy_pairing_laws : PairingProtoLaws toy_pairing.
Proof.
  split; try done.
  - intros [x k s e]. cbn -[toy_get_opt toy_opt app]. by rewrite !toy_get_opt_ok.
  - intros [x k]. cbn -[toy_get_opt toy_opt app]. by rewrite !toy_get_opt_ok.
  - intros [r t k] Hk Hr Ht. cbn -[toy_get_opt toy_opt app uint32 uint64 toy_num toy_num64 le_val fmap] in *.
    rewrite !toy_get_opt_ok. unfold toy_num, toy_num64. rewrite !toy_opt_num by done. by rewrite Hk.
  - intros b e. cbn. repeat case_match; congruence.
  - intros b e. cbn. repeat case_match; congruence.
  - intros b e. cbn. repeat case_match; congruence.
  - intros b d. cbn. repeat case_match; intros; by simplify_eq/=.
Qed.

Module PairingDemo.
#[local] Existing Instances toy_x25519 toy_xeddsa toy_hmac toy_pairing latin1_ucd stored_zlib.

Definition key (i : Z) : bytes := replicate 32 (mkb i).
Definition noise64 : bytes := replicate 64 (mkb 4).
Definition fresh : DeviceStore :=
  ok_or demo_device (make_fresh_device (key 1) (key 2) noise64 (key 3) [mkb 0; mkb 0; mkb 1; mkb 2] (u "pywhats") (u "1718000000.5")).
Definition secret : bytes := key 7.

Definition server_attrs : list (str * AttrValue) :=
  [(u "id", AStr (u "77")); (u "type", AStr (u "set")); (u "from", AStr (u "s.whatsapp.net"))].
Definition offer : Node :=
  mkNode (u "iq") server_attrs (CList [mkNode (u "pair-device") [] (CList [mkNode (u "ref") [] (CBytes (bstr "2@a,b")); mkNode (u "ref") [] (CBytes (bstr "2@c"))])]).
Definition ping : Node :=
  mkNode (u "iq") [(u "id", AStr (u "78")); (u "type", AStr (u "get")); (u "xmlns", AStr (u "urn:xmpp:ping"))] CNone.
Definition account : bytes := key 9.
Definition identity : ADVDeviceIdentity := mkADVDevice (Some 5) (Some 1718000000) (Some 2).
Definition signed : ADVSigned * bytes :=
  default (mkADVSigned None None None None, []) (phone_signs (qr_payload secret fresh (u "2@a,b")) account noise64 identity).
Definition assigned : JID := mkJID (u "15550001") (u "s.whatsapp.net") 12.
Definition success : Node := pair_success_stanza server_attrs assigned signed.2.

Definition round (t : Z) (n : Node) : Round := mkRound t (encode n false) (Ok tt) (Raise RuntimeError).
Definition rounds : list Round := [round 1 offer; round 2 ping; round 3 success].

Lemma rounds_good t n : t < 100 → (f ← encode n false; decode f) = Ok n → good_round (0 + 100) (round t n) n.
Proof.
  intros Ht Hn. split; [done| |done|by intros e [= <-]]. apply bind_Ok_inv in Hn as (f & Hf & Hd). by exists f.
Qed.

Lemma pairing_completes_witness :
  ∃ s' res sig, pairer_run secret noise64 0 100 (λ _, false) rounds (pairer_start fresh) = (s', Ok res) ∧
    res_jid res = assigned ∧ ps_device s' = paired_device fresh signed.1 assigned sig.
Proof.
  destruct (pairing_completes (X := toy_x25519) secret noise64 0 100 (λ _, false) fresh (u "2@a,b") (round 1 offer) (round 3 success)
    [round 2 ping] [] offer account noise64 identity signed.1 signed.2 server_attrs assigned) as (s' & res & sig & H & Hj & _ & Hd & _).
  - vm_compute. reflexivity.
  - vm_compute. reflexivity.
  - reflexivity.
  - apply rounds_good; [lia|vm_compute; reflexivity].
  - split; [reflexivity|]. split; [vm_compute; reflexivity|]. exists [u "2@c"]. vm_compute. reflexivity.
  - constructor; [|constructor]. exists ping. split; [apply rounds_good; [lia|vm_compute; reflexivity]|].
    right. split; [reflexivity|]. split; [reflexivity|]. left. split; vm_compute; reflexivity.
  - split; [exists 2; split; reflexivity|]. split; reflexivity.
  - vm_compute. reflexivity.
  - apply rounds_good; [lia|vm_compute; reflexivity].
  - vm_compute. reflexivity.
  - vm_compute. reflexivity.
  - exists s', res, sig. split; [exact H|]. split; [exact Hj|exact Hd].
Defined.

(** With the deadline passed before the phone answers, the device is as before. *)
Lemma pairing_authentic_witness : ps_device (pairer_run secret noise64 0 3 (λ _, false) rounds (pairer_start fresh)).1 = fresh ∧
  (pairer_run secret noise64 0 3 (λ _, false) rounds (pairer_start fresh)).2 = Raise PairingFailed.
Proof.
  pose proof (pairing_authentic secret noise64 0 3 (λ _, false) rounds fresh _ _ (surjective_pairing _)) as H.
  assert ((pairer_run secret noise64 0 3 (λ _, false) rounds (pairer_start fresh)).2 = Raise PairingFailed) as E by (vm_compute; reflexivity).
  rewrite E in H. split; [exact H|exact E].
Defined.
End PairingDemo.
