(* ===== verification/IqLine.v ===== *)
(** * Tasks that share the iq map, the message ids and the transport

    The coroutines of [messaging/] that ask the server something all do the same: draw a
    message id, register it in the shared [PendingIqMap], send the stanza, await the
    future, and in [finally] cancel the id. Here a coroutine is a [proc], a tree of what
    it does between two awaits; a [Sys] is the shared state with any number of such
    tasks, and an [event] is one thing the loop does: start a task, resume a suspended
    one, or let the reader resolve a reply ([Receiver._handle_iq]). Any sequence of
    events is an interleaving. *)

From S2P Require Import Prelude PyStr Jid Node Encoder Outbox Receiver.
#[local] Open Scope Z_scope.

(** The shared state: the map, the ring of [ids.py], the frames handed to the transport, and
    the state of the component that the tasks belong to. *)
Record Line (S : Type) := mkLine {
  l_iqs : Iqs.PendingIqMap; l_ids : MessageIds.Ring; l_wire : list bytes; l_state : S }.
Arguments mkLine {S}.
Arguments l_iqs {S}.
Arguments l_ids {S}.
Arguments l_wire {S}.
Arguments l_state {S}.

(** A coroutine: [NewId] is [new_message_id()]; [Iq] registers the id, encodes ([frame] is how
    that ends), sends, awaits the future (under [asyncio.timeout] if [timed]) and cancels
    the id; [Send] is a stanza without an answer, [Await] any other await. *)
Inductive proc (S A : Type) : Type :=
  | Ret (r : result A)
  | Act (f : S → S) (k : S → proc S A)
  | NewId (k : result str → proc S A)
  | Iq (iq_id : str) (timed : bool) (frame : result bytes) (k : result Node → proc S A)
  | Send (frame : bytes) (k : result unit → proc S A)
  | Await (k : result bytes → proc S A).
Arguments Ret {S A}.
Arguments Act {S A}.
Arguments NewId {S A}.
Arguments Iq {S A}.
Arguments Send {S A}.
Arguments Await {S A}.

Section Procs.
Context {S : Type}.

(** [p], then [f] on what it returned or raised. *)
Fixpoint p_then {A B} (f : result A → proc S B) (p : proc S A) : proc S B :=
  match p with
  | Ret r => f r
  | Act g k => Act g (λ s, p_then f (k s))
  | NewId k => NewId (λ x, p_then f (k x))
  | Iq iq_id timed frame k => Iq iq_id timed frame (λ x, p_then f (k x))
  | Send frame k => Send frame (λ x, p_then f (k x))
  | Await k => Await (λ x, p_then f (k x))
  end.

#[global] Instance p_ret : MRet (proc S) := λ A a, Ret (Ok a).
#[global] Instance p_bind : MBind (proc S) := λ A B f p,
  p_then (λ r, match r with Ok a => f a | Raise e => Ret (Raise e) end) p.

Definition p_lift {A} (r : result A) : proc S A := Ret r.
(** A part without awaits. *)
Definition p_run {A} (m : SE S A) : proc S A := Act (λ s, (m s).1) (λ s, Ret (m s).2).
Definition p_try {A} (p : proc S A) (catches : exn → bool) (h : exn → proc S A) : proc S A :=
  p_then (λ r, match r with Raise e => if catches e then h e else Ret r | Ok _ => Ret r end) p.
Definition new_id : proc S str := NewId Ret.
Definition iq_call (iq_id : str) (timed : bool) (frame : result bytes) : proc S Node := Iq iq_id timed frame Ret.
Definition send (frame : bytes) : proc S unit := Send frame Ret.
End Procs.

(** ** Suspended tasks *)

Inductive stage (S A : Type) : Type :=
  | Sending (iq_id : str) (fut : nat) (timed : bool) (frame : bytes) (k : result Node → proc S A)
  | Waiting (iq_id : str) (fut : nat) (timed : bool) (k : result Node → proc S A)
  | SendingOnly (frame : bytes) (k : result unit → proc S A)
  | Awaiting (k : result bytes → proc S A)
  | Ended (r : result A).
Arguments Sending {S A}.
Arguments Waiting {S A}.
Arguments SendingOnly {S A}.
Arguments Awaiting {S A}.
Arguments Ended {S A}.

(** How a suspended task goes on: its send ends ([on_wire]: whether the frame was written),
    its future is done, its timeout expires, it is cancelled, its other await ends. *)
Inductive outcome :=
  | SendEnds (on_wire : bool) (r : result unit)
  | Woken
  | TimedOut
  | TaskCancelled
  | AwaitEnds (r : result bytes).

Section Sys.
Context {S A : Type}.
Implicit Types (l : Line S) (p q : proc S A) (st : stage S A).

Definition with_iqs l (m : Iqs.PendingIqMap) : Line S := mkLine m (l_ids l) (l_wire l) (l_state l).
Definition with_ids l (r : MessageIds.Ring) : Line S := mkLine (l_iqs l) r (l_wire l) (l_state l).
Definition with_state l (s : S) : Line S := mkLine (l_iqs l) (l_ids l) (l_wire l) s.
Definition written (on_wire : bool) (frame : bytes) l : Line S :=
  if on_wire then mkLine (l_iqs l) (l_ids l) (l_wire l ++ [frame]) (l_state l) else l.
(** [finally: self._iq_map.cancel(iq_id)] *)
Definition release (iq_id : str) l : Line S := with_iqs l (Iqs.cancel iq_id (l_iqs l)).1.

(** Run to the next await; [draws] has a clock reading and the random bytes for each call
    of [new_message_id]. *)
Fixpoint advance (p : proc S A) (draws : list (Z * list bytes)) (l : Line S) : Line S * stage S A :=
  match p with
  | Ret r => (l, Ended r)
  | Act f k => advance (k (l_state l)) draws (with_state l (f (l_state l)))
  | NewId k =>
      let '(now, rnd) := default (0, []) (head draws) in
      let '(ids, x) := MessageIds.new_message_id now rnd (l_ids l) in
      advance (k x) (tail draws) (with_ids l ids)
  | Iq iq_id timed frame k =>
      match Iqs.register iq_id (l_iqs l) with
      | (_, Raise e) => advance (k (Raise e)) draws l
      | (m, Ok fut) =>
          match frame with
          | Raise e => advance (k (Raise e)) draws (release iq_id (with_iqs l m))
          | Ok frame => (with_iqs l m, Sending iq_id fut timed frame k)
          end
      end
  | Send frame k => (l, SendingOnly frame k)
  | Await k => (l, Awaiting k)
  end.

(** What awaiting a future gives once it is done. *)
Definition future_result (f : Iqs.future) : option (result Node) :=
  match f with
  | Iqs.Pending => None
  | Iqs.Done n => Some (Ok n)
  | Iqs.Cancelled => Some (Raise CancelledError)
  end.

(** [None]: the task cannot go on that way. *)
Definition resume st (o : outcome) l : option (Line S * (stage S A + proc S A)) :=
  match st, o with
  | Sending iq_id fut timed frame k, SendEnds _ (Ok _) => Some (written true frame l, inl (Waiting iq_id fut timed k))
  | Sending iq_id _ _ frame k, SendEnds w (Raise e) => Some (release iq_id (written w frame l), inr (k (Raise e)))
  | Waiting iq_id fut _ k, Woken =>
      f ← Iqs.futures (l_iqs l) !! fut; x ← future_result f; Some (release iq_id l, inr (k x))
  | Waiting iq_id _ true k, TimedOut => Some (release iq_id l, inr (k (Raise TimeoutError)))
  | Waiting iq_id _ _ k, TaskCancelled => Some (release iq_id l, inr (k (Raise CancelledError)))
  | SendingOnly frame k, SendEnds _ (Ok _) => Some (written true frame l, inr (k (Ok tt)))
  | SendingOnly frame k, SendEnds w (Raise e) => Some (written w frame l, inr (k (Raise e)))
  | Awaiting k, AwaitEnds x => Some (l, inr (k x))
  | _, _ => None
  end.

(** The tasks, each with the program it was started with. *)
Record Sys := mkSys { y_line : Line S; y_tasks : list (proc S A * stage S A) }.

Inductive event :=
  | Spawn (p : proc S A) (draws : list (Z * list bytes))
  | Resume (i : nat) (o : outcome) (draws : list (Z * list bytes))
  | Reply (node : Node).

(** The id of an iq stanza that the reader takes as an answer. *)
Definition reply_of (node : Node) : option str :=
  match get_str node (u "id"), get_str node (u "type") with
  | Ok iq_id, Ok iq_type =>
      if truthy iq_id && bool_decide (iq_type ∈ [u "result"; u "error"]) then Some iq_id else None
  | _, _ => None
  end.

(** An event that is not possible changes nothing. *)
Definition sys_step (y : Sys) (ev : event) : Sys :=
  match ev with
  | Spawn p draws => let '(l, st) := advance p draws (y_line y) in mkSys l (y_tasks y ++ [(p, st)])
  | Reply node =>
      match reply_of node with
      | Some iq_id => mkSys (with_iqs (y_line y) (Iqs.resolve iq_id node (l_iqs (y_line y))).1) (y_tasks y)
      | None => y
      end
  | Resume i o draws =>
      match y_tasks y !! i with
      | None => y
      | Some (p, st) =>
          match resume st o (y_line y) with
          | None => y
          | Some (l, inl st) => mkSys l (<[i := (p, st)]> (y_tasks y))
          | Some (l, inr q) => let '(l, st) := advance q draws l in mkSys l (<[i := (p, st)]> (y_tasks y))
          end
      end
  end.

Definition sys_run : Sys → list event → Sys := foldl sys_step.

Definition empty_line (s : S) : Line S := mkLine (Iqs.mkIqs [] []) MessageIds.empty_ring [] s.
Definition empty_sys (s : S) : Sys := mkSys (empty_line s) [].

(** ** One task alone

    [plays p s w s' r]: among other tasks, [p] may send the frames [w] and end with [r],
    where the component's state is [s] when it starts and whatever the others make of it
    after each await. *)

Definition iq_ends (iq_id : str) (frame : bytes) (w : list bytes) (x : result Node) : Prop :=
  match x with
  | Ok node => w = [frame] ∧ reply_of node = Some iq_id
  | Raise _ => w = [] ∨ w = [frame]
  end.

Definition send_ends (frame : bytes) (w : list bytes) (x : result unit) : Prop :=
  match x with Ok _ => w = [frame] | Raise _ => w = [] ∨ w = [frame] end.

Inductive plays : proc S A → S → list bytes → S → result A → Prop :=
  | plays_ret r s : plays (Ret r) s [] s r
  | plays_act f k s w s' r : plays (k s) (f s) w s' r → plays (Act f k) s w s' r
  | plays_id k s x w s' r : (x = Raise RuntimeError ∨ is_ok x = true) → plays (k x) s w s' r → plays (NewId k) s w s' r
  | plays_refused iq_id timed frame k s e w s' r :
      e = ValueError ∨ frame = Raise e → plays (k (Raise e)) s w s' r → plays (Iq iq_id timed frame k) s w s' r
  | plays_iq iq_id timed frame k s s1 x w1 w s' r :
      iq_ends iq_id frame w1 x → plays (k x) s1 w s' r → plays (Iq iq_id timed (Ok frame) k) s (w1 ++ w) s' r
  | plays_send frame k s s1 x w1 w s' r :
      send_ends frame w1 x → plays (k x) s1 w s' r → plays (Send frame k) s (w1 ++ w) s' r
  | plays_await k s s1 x w s' r : plays (k x) s1 w s' r → plays (Await k) s w s' r.
End Sys.
Arguments mkSys {S A}.
Arguments Sys : clear implicits.
Arguments event : clear implicits.

(** ** The map and the tasks *)

(** [(id, future)] of a task in flight. *)
Definition in_flight {S A} (st : stage S A) : option (str * nat) :=
  match st with
  | Sending iq_id fut _ _ _ | Waiting iq_id fut _ _ => Some (iq_id, fut)
  | _ => None
  end.

(** [owner] names the id under which each future was registered. *)
Record map_ok (owner : list str) (m : Iqs.PendingIqMap) : Prop := {
  mo_dict : dict_ok (Iqs._pending m);
  mo_length : length owner = length (Iqs.futures m);
  mo_owner : ∀ iq_id fut, (iq_id, fut) ∈ Iqs._pending m → owner !! fut = Some iq_id;
  mo_pending : ∀ iq_id fut, (iq_id, fut) ∈ Iqs._pending m → Iqs.futures m !! fut = Some Iqs.Pending;
  mo_done : ∀ fut node, Iqs.futures m !! fut = Some (Iqs.Done node) → ∃ iq_id, owner !! fut = Some iq_id ∧ reply_of node = Some iq_id
}.

Section Map.
Implicit Types (m : Iqs.PendingIqMap).

Lemma elem_dict_del {K V} `{EqDecision K} (k : K) (e : K * V) d : e ∈ dict_del k d → e ∈ d.
Proof. induction d as [|[k' v] d IH]; cbn; [done|]. case_decide; set_solver. Qed.

Lemma map_ok_empty : map_ok [] (Iqs.mkIqs [] []).
Proof. split; cbn; [constructor|done|set_solver|set_solver|done]. Qed.

(** Registering a fresh id appends an owner. *)
Lemma iq_register_ok owner m iq_id m' fut :
  map_ok owner m → Iqs.register iq_id m = (m', Ok fut) →
  map_ok (owner ++ [iq_id]) m' ∧ (owner ++ [iq_id]) !! fut = Some iq_id ∧
  dict_get iq_id (Iqs._pending m) = None ∧
  Iqs._pending m' = dict_set iq_id fut (Iqs._pending m) ∧ Iqs.futures m' = Iqs.futures m ++ [Iqs.Pending] ∧
  fut = length (Iqs.futures m).
Proof.
  intros [Hd Hl Ho Hp Hn]. unfold Iqs.register. destruct (dict_get iq_id (Iqs._pending m)) eqn:E; [done|].
  intros [= <- <-]. cbn. assert ((owner ++ [iq_id]) !! length (Iqs.futures m) = Some iq_id) as Hf
    by (rewrite <-Hl; by apply list_lookup_middle).
  split_and!; try done. split; cbn.
  - by apply dict_set_ok.
  - rewrite !length_app. cbn. lia.
  - intros x f Hx. apply elem_dict_get in Hx; [|by apply dict_set_ok]. destruct (decide (x = iq_id)) as [->|Hne].
    + rewrite dict_get_set_eq in Hx. by injection Hx as <-.
    + rewrite dict_get_set_ne in Hx by done. apply lookup_app_l_Some, Ho. by apply dict_get_elem.
  - intros x f Hx. apply elem_dict_get in Hx; [|by apply dict_set_ok]. destruct (decide (x = iq_id)) as [->|Hne].
    + rewrite dict_get_set_eq in Hx. injection Hx as <-. by apply list_lookup_middle.
    + rewrite dict_get_set_ne in Hx by done. eapply lookup_app_l_Some, Hp. by apply dict_get_elem.
  - intros f node [Hf'|[_ ?]]%lookup_app_Some; [|by destruct (f - _)%nat; simplify_list_eq].
    destruct (Hn _ _ Hf') as (x & Hx & ?). exists x. split; [by apply lookup_app_l_Some|done].
Qed.

Lemma iq_register_raise m iq_id m' e : Iqs.register iq_id m = (m', Raise e) → m' = m ∧ e = ValueError.
Proof. unfold Iqs.register. case_match; by intros [= <- <-]. Qed.

Lemma cancel_eq iq_id m : (Iqs.cancel iq_id m).1 = (Iqs.pop_settle Iqs.Cancelled iq_id m).1.
Proof. unfold Iqs.cancel, mbind, se_bind. by destruct (Iqs.pop_settle _ _ _) as [? []]. Qed.

Lemma dict_del_set_new {K V} `{EqDecision K} (k : K) (v : V) d : k ∉ dict_keys d → dict_del k (dict_set k v d) = d.
Proof.
  intros Hk. rewrite dict_set_new by done. induction d as [|[k' v'] d IH]; cbn in *; [by rewrite decide_True|].
  rewrite decide_False by set_solver. f_equal. apply IH. set_solver.
Qed.

(** Popping an id settles at most the future it maps to, and leaves the other ids alone. *)
Lemma iq_pop_pending f iq_id m : dict_ok (Iqs._pending m) → Iqs._pending (Iqs.pop_settle f iq_id m).1 = dict_del iq_id (Iqs._pending m).
Proof.
  intros Hd. unfold Iqs.pop_settle. destruct (dict_get _ _) as [n|] eqn:E; [by repeat case_match|]. cbn.
  apply dict_get_None in E. clear Hd. induction (Iqs._pending m) as [|[k v] d IH]; [done|]. cbn in *.
  rewrite decide_False by set_solver. f_equal. apply IH. set_solver.
Qed.

Lemma iq_pop_futures f iq_id m n :
  Iqs.futures (Iqs.pop_settle f iq_id m).1 !! n = Iqs.futures m !! n ∨
  dict_get iq_id (Iqs._pending m) = Some n ∧ Iqs.futures m !! n = Some Iqs.Pending ∧
  Iqs.futures (Iqs.pop_settle f iq_id m).1 !! n = Some f.
Proof.
  unfold Iqs.pop_settle. destruct (dict_get _ _) as [k|]; [|by left].
  destruct (Iqs.futures m !! k) as [[]|] eqn:E; cbn; try by left. destruct (decide (k = n)) as [->|Hne].
  - right. split_and!; [done..|]. apply list_lookup_insert_eq. by eapply lookup_lt_Some.
  - left. by rewrite list_lookup_insert_ne.
Qed.

Lemma iq_pop_eq f iq_id m n : dict_get iq_id (Iqs._pending m) = Some n → Iqs.futures m !! n = Some Iqs.Pending →
  Iqs.futures (Iqs.pop_settle f iq_id m).1 !! n = Some f.
Proof.
  intros Hd Hf. unfold Iqs.pop_settle. rewrite Hd, Hf. cbn. apply list_lookup_insert_eq. by eapply lookup_lt_Some.
Qed.

Lemma iq_pop_ok owner f iq_id m : map_ok owner m → (∀ node, f = Iqs.Done node → reply_of node = Some iq_id) →
  map_ok owner (Iqs.pop_settle f iq_id m).1.
Proof.
  intros [Hd Hl Ho Hpe Hn] Hf. split.
  - rewrite iq_pop_pending by done. by apply dict_del_ok.
  - rewrite Hl. unfold Iqs.pop_settle. repeat case_match; cbn; by rewrite ?length_insert.
  - intros x n. rewrite iq_pop_pending by done. intros Hx. apply Ho. by eapply elem_dict_del.
  - intros x n. rewrite iq_pop_pending by done. intros Hx. assert (x ≠ iq_id) as Hne.
    { intros ->. apply elem_dict_get in Hx; [|by apply dict_del_ok]. by rewrite dict_get_del_eq in Hx. }
    apply elem_dict_del in Hx. destruct (iq_pop_futures f iq_id m n) as [->|(Hg & _)]; [by eapply Hpe|].
    apply dict_get_elem, Ho in Hg. rewrite (Ho _ _ Hx) in Hg. by injection Hg.
  - intros n node. destruct (iq_pop_futures f iq_id m n) as [->|(Hp & _ & ->)]; [apply Hn|].
    intros [= Hfn]. exists iq_id. split; [by apply Ho, dict_get_elem|auto].
Qed.
End Map.

(** ** The invariant of the system *)

Section Inv.
Context {S A : Type}.
Implicit Types (l : Line S) (p q : proc S A) (st : stage S A) (y : Sys S A).

(** [q] is what is left of [p], which started in [s] and has sent [w]. *)
Definition left_of p (s : S) (w : list bytes) q (s1 : S) : Prop :=
  ∀ w2 s' r, plays q s1 w2 s' r → plays p s (w ++ w2) s' r.

(** Where a task stands in a run of its program that sent only frames of the wire. *)
Definition explained (wire : list bytes) p st : Prop := ∃ s w, w `sublist_of` wire ∧
  match st with
  | Ended r => ∃ s', plays p s w s' r
  | Sending iq_id _ _ frame k => ∀ s1 x w1, iq_ends iq_id frame w1 x → left_of p s (w ++ w1) (k x) s1
  | Waiting iq_id _ _ k => ∀ s1 x, (∀ node, x = Ok node → reply_of node = Some iq_id) → left_of p s w (k x) s1
  | SendingOnly frame k => ∀ s1 x w1, send_ends frame w1 x → left_of p s (w ++ w1) (k x) s1
  | Awaiting k => ∀ s1 x, left_of p s w (k x) s1
  end.

Record sys_ok (owner : list str) y : Prop := {
  so_map : map_ok owner (l_iqs (y_line y));
  so_owner : ∀ i p st iq_id fut, y_tasks y !! i = Some (p, st) → in_flight st = Some (iq_id, fut) → owner !! fut = Some iq_id;
  so_flight : ∀ e, e ∈ Iqs._pending (l_iqs (y_line y)) → ∃ i p st, y_tasks y !! i = Some (p, st) ∧ in_flight st = Some e;
  so_explained : ∀ i p st, y_tasks y !! i = Some (p, st) → explained (l_wire (y_line y)) p st
}.

Lemma explained_mono w1 w2 p st : w1 `sublist_of` w2 → explained w1 p st → explained w2 p st.
Proof. intros Hw (s & w & Hs & H). exists s, w. split; [by etransitivity|done]. Qed.

Lemma new_id_result now rnd ids ids' x : MessageIds.new_message_id now rnd ids = (ids', x) → x = Raise RuntimeError ∨ is_ok x = true.
Proof.
  unfold MessageIds.new_message_id. generalize (MessageIds._sweep_expired now ids). generalize (take 16 rnd).
  intros ds. induction ds as [|d ds IH]; intros r; cbn; [intros [= _ <-]; by left|].
  case_decide; [by apply IH|]. intros [= _ <-]. by right.
Qed.

Lemma left_of_ret p s w q s1 q' s1' : (∀ w2 s' r, plays q' s1' w2 s' r → plays q s1 w2 s' r) →
  left_of p s w q s1 → left_of p s w q' s1'.
Proof. intros H Hl w2 s' r Hp. by apply Hl, H. Qed.

(** Running to the next await: the wire stays, an id is added for the task only. *)
Lemma advance_ok p s w q draws l l' st owner :
  advance q draws l = (l', st) → map_ok owner (l_iqs l) → w `sublist_of` l_wire l → left_of p s w q (l_state l) →
  l_wire l' = l_wire l ∧ explained (l_wire l) p st ∧
  ∃ owner', owner `prefix_of` owner' ∧ map_ok owner' (l_iqs l') ∧
    (∀ iq_id fut, in_flight st = Some (iq_id, fut) → owner' !! fut = Some iq_id) ∧
    ∀ e, e ∈ Iqs._pending (l_iqs l') → e ∈ Iqs._pending (l_iqs l) ∨ in_flight st = Some e.
Proof.
  revert draws l owner. induction q as [r|f k IH|k IH|iq_id timed frame k IH|frame k IH|k IH];
    intros draws l owner H Hm Hw Hl; cbn [advance] in H.
  - injection H as <- <-. split; [done|]. split; [|exists owner; split_and!; [done|done|done|by left]].
    exists s, w. split; [done|]. exists (l_state l). rewrite <-(app_nil_r w). apply Hl. constructor.
  - apply (IH _ _ _ owner H Hm Hw). eapply left_of_ret; [|exact Hl]. intros. by constructor.
  - destruct (default _ _) as [now rnd]. destruct (MessageIds.new_message_id _ _ _) as [ids x] eqn:E.
    apply (IH _ _ _ owner H Hm Hw). eapply left_of_ret; [|exact Hl]. intros. econstructor; [by eapply new_id_result|done].
  - destruct (Iqs.register iq_id (l_iqs l)) as [m [fut|e]] eqn:E; cycle 1.
    { apply iq_register_raise in E as [-> ->]. apply (IH _ _ _ owner H Hm Hw).
      eapply left_of_ret; [|exact Hl]. intros. eapply plays_refused; [by left|done]. }
    pose proof (iq_register_ok _ _ _ _ _ Hm E) as (Hm' & Ho & Hnew & Hp & Hf & Hn). destruct frame as [frame|e].
    + injection H as <- <-. split; [done|]. split.
      * exists s, w. split; [done|]. intros s1 x w1 He w2 s' r Hr. rewrite <-app_assoc. by apply Hl; econstructor.
      * exists (owner ++ [iq_id]). split_and!; [by apply prefix_app_r|done|by intros ?? [= <- <-]|]. cbn.
        intros [i n]. rewrite Hp, dict_set_new by (by apply dict_get_None). intros [?|?%list_elem_of_singleton]%elem_of_app; [by left|].
        right. by f_equal.
    + apply (IH _ _ _ (owner ++ [iq_id])) in H as (H1 & H2 & owner' & Hpre & H3 & H4 & H5); cbn in *.
      * split; [done|]. split; [done|]. exists owner'. split_and!; [etransitivity; [|done]; by apply prefix_app_r|done|done|].
        intros e' He'. destruct (H5 e' He') as [H6|?]; [|by right]. left. rewrite cancel_eq, iq_pop_pending, Hp in H6 by apply Hm'.
        rewrite dict_del_set_new in H6; [done|by apply dict_get_None].
      * rewrite cancel_eq. apply iq_pop_ok; [done|by intros].
      * done.
      * eapply left_of_ret; [|exact Hl]. intros. eapply plays_refused; [by right|done].
  - injection H as <- <-. split; [done|]. split; [|exists owner; split_and!; [done|done|done|by left]].
    exists s, w. split; [done|]. intros s1 x w1 He w2 s' r Hr. rewrite <-app_assoc. by apply Hl; econstructor.
  - injection H as <- <-. split; [done|]. split; [|exists owner; split_and!; [done|done|done|by left]].
    exists s, w. split; [done|]. intros s1 x w2 s' r Hr. apply Hl; by econstructor.
Qed.

(** Resuming a task: it stays in flight, or is left with a program and its id is free. *)
Lemma resume_ok owner p st o l l1 c :
  resume st o l = Some (l1, c) → map_ok owner (l_iqs l) → explained (l_wire l) p st →
  (∀ iq_id fut, in_flight st = Some (iq_id, fut) → owner !! fut = Some iq_id) →
  map_ok owner (l_iqs l1) ∧ l_wire l `sublist_of` l_wire l1 ∧
  match c with
  | inl st' => Iqs._pending (l_iqs l1) = Iqs._pending (l_iqs l) ∧ in_flight st' = in_flight st ∧ explained (l_wire l1) p st'
  | inr q => (∃ s w, w `sublist_of` l_wire l1 ∧ left_of p s w q (l_state l1)) ∧
      ∀ e, e ∈ Iqs._pending (l_iqs l1) → e ∈ Iqs._pending (l_iqs l) ∧ in_flight st ≠ Some e
  end.
Proof.
  intros H Hm (s & w & Hw & Hst) Ho.
  assert (∀ iq_id, map_ok owner (Iqs.cancel iq_id (l_iqs l)).1) as Hc by (intros; rewrite cancel_eq; by apply iq_pop_ok).
  assert (∀ (iq_id : str) (fut : nat) e, e ∈ Iqs._pending (Iqs.cancel iq_id (l_iqs l)).1 →
    e ∈ Iqs._pending (l_iqs l) ∧ Some (iq_id, fut) ≠ Some e) as Hp.
  { intros iq_id fut e He. rewrite cancel_eq, iq_pop_pending in He by apply Hm. split; [by eapply elem_dict_del|].
    intros [= <-]. apply elem_dict_get in He; [|apply dict_del_ok, Hm]. by rewrite dict_get_del_eq in He by apply Hm. }
  assert (∀ b frame, l_wire l `sublist_of` l_wire (written b frame l)) as Hwr
    by (intros [] frame; [by apply sublist_inserts_r|done]).
  assert (∀ frame, w ++ [frame] `sublist_of` l_wire l ++ [frame]) as Hws by (intros; by apply sublist_app).
  destruct st as [iq_id fut timed frame k|iq_id fut timed k|frame k|k|r]; destruct o as [b [[]|e]| | | |x]; cbn [resume] in H; try done; try (by destruct timed).
  - injection H as <- <-. split_and!; [done|apply (Hwr true)|done|done|]. exists s, (w ++ [frame]). split; [apply Hws|].
    intros s1 x Hx w2 s' r. apply Hst. destruct x; [split; [done|by apply Hx]|by right].
  - injection H as <- <-. split_and!; [by destruct b; apply Hc|apply Hwr| |by destruct b; apply Hp].
    exists s, (if b then w ++ [frame] else w). split; [by destruct b; [apply Hws|]|]. destruct b; [by apply Hst; right|].
    rewrite <-(app_nil_r w) at 1. apply Hst. by left.
  - assert (∃ f x, Iqs.futures (l_iqs l) !! fut = Some f ∧ future_result f = Some x ∧ l1 = release iq_id l ∧ c = inr (k x))
      as (f & x & Ef & Ex & -> & ->).
    { destruct timed; apply bind_Some in H as (f & Hf & (x & Hx & [= <- <-])%bind_Some); by exists f, x. }
    split_and!; [apply Hc|done| |apply Hp]. exists s, w. split; [done|]. apply Hst.
    intros node ->. destruct f; simplify_eq/=. destruct (mo_done _ _ Hm _ _ Ef) as (i & Hi & ?).
    rewrite (Ho _ _ eq_refl) in Hi. by injection Hi as ->.
  - destruct timed; [|done]. injection H as <- <-. split_and!; [apply Hc|done| |apply Hp]. exists s, w. split; [done|]. by apply Hst.
  - assert ((release iq_id l, inr (k (Raise CancelledError))) = (l1, c)) as [= <- <-] by (destruct timed; congruence). split_and!; [apply Hc|done| |apply Hp]. exists s, w. split; [done|]. by apply Hst.
  - injection H as <- <-. split_and!; [done|apply (Hwr true)| |by split]. exists s, (w ++ [frame]). split; [apply Hws|]. by apply Hst.
  - injection H as <- <-. split_and!; [by destruct b|apply Hwr| |by destruct b].
    exists s, (if b then w ++ [frame] else w). split; [by destruct b; [apply Hws|]|]. destruct b; [by apply Hst; right|].
    rewrite <-(app_nil_r w) at 1. apply Hst. by left.
  - injection H as <- <-. split_and!; [done|done| |by split]. exists s, w. split; [done|]. by apply Hst.
Qed.

Lemma sys_step_ok owner y ev : sys_ok owner y → ∃ owner', sys_ok owner' (sys_step y ev).
Proof.
  intros [Hm Ho Hf He]. destruct ev as [p draws|i o draws|node]; cbn [sys_step].
  - destruct (advance p draws (y_line y)) as [l st] eqn:E.
    apply (advance_ok p (l_state (y_line y)) [] p draws _ _ _ owner) in E as (Hw & Hx & owner' & Hpre & H1 & H2 & H3);
      [|done|apply sublist_nil_l|by intros ???].
    exists owner'. split; cbn; [done| | |].
    + intros j q st' iq_id fut [Hj|[_ [_ [= <- <-]]%list_lookup_singleton_Some]]%lookup_app_Some; [|auto].
      intros Hin. eapply prefix_lookup_Some; [|exact Hpre]. by eapply Ho.
    + intros e [Hp|Hp]%H3.
      * destruct (Hf e Hp) as (j & q & st' & Hj & ?). exists j, q, st'. split; [by apply lookup_app_l_Some|done].
      * exists (length (y_tasks y)), p, st. split; [by apply list_lookup_middle|done].
    + rewrite Hw. intros j q st' [Hj|[_ [_ [= <- <-]]%list_lookup_singleton_Some]]%lookup_app_Some; [by eapply He|done].
  - destruct (y_tasks y !! i) as [[p st]|] eqn:Ei; [|by exists owner].
    destruct (resume st o (y_line y)) as [[l c]|] eqn:E; [|by exists owner].
    destruct (resume_ok owner p st o _ _ _ E Hm (He _ _ _ Ei) (λ _ _, Ho _ _ _ _ _ Ei)) as (Hm' & Hw & Hc).
    destruct c as [st'|q].
    + destruct Hc as (Hp & Hst & Hx). exists owner. split; cbn; [done| | |].
      * intros j q st1 iq_id fut [(<- & [= <- <-] & _)|[_ Hj]]%list_lookup_insert_Some; [rewrite Hst|]; by eapply Ho.
      * rewrite Hp. intros e Hin. destruct (Hf e Hin) as (j & q & st1 & Hj & Hfl). destruct (decide (i = j)) as [<-|Hne].
        -- exists i, p, st'. split; [apply list_lookup_insert_eq; by eapply lookup_lt_Some|]. rewrite Ei in Hj. simplify_eq. congruence.
        -- exists j, q, st1. by rewrite list_lookup_insert_ne.
      * intros j q st1 [(<- & [= <- <-] & _)|[_ Hj]]%list_lookup_insert_Some; [done|]. eapply explained_mono; [exact Hw|by eapply He].
    + destruct Hc as ((s & w & Hsub & Hl) & Hp). destruct (advance q draws l) as [l' st'] eqn:Ea.
      apply (advance_ok p s w) with (owner := owner) in Ea as (Hw' & Hx & owner' & Hpre & H1 & H2 & H3); [|done..].
      exists owner'. split; cbn; [done| | |rewrite Hw'].
      * intros j p' st1 iq_id fut [(<- & [= <- <-] & _)|[_ Hj]]%list_lookup_insert_Some; [by auto|].
        intros Hin. eapply prefix_lookup_Some; [|exact Hpre]. by eapply Ho.
      * intros e [[Hin Hne]%Hp|Hin]%H3.
        -- destruct (Hf e Hin) as (j & q' & st1 & Hj & Hfl). exists j, q', st1. split; [|done].
           rewrite list_lookup_insert_ne; [done|]. intros <-. rewrite Ei in Hj. by simplify_eq.
        -- exists i, p, st'. split; [apply list_lookup_insert_eq; by eapply lookup_lt_Some|done].
      * intros j p' st1 [(<- & [= <- <-] & _)|[_ Hj]]%list_lookup_insert_Some; [done|]. eapply explained_mono; [exact Hw|by eapply He].
  - destruct (reply_of node) as [iq_id|] eqn:Er; [|by exists owner]. exists owner. split; cbn; [|done| |done].
    + apply iq_pop_ok; [done|]. by intros ? [= <-].
    + unfold Iqs.resolve. rewrite iq_pop_pending by apply Hm. intros e Hin%elem_dict_del. by apply Hf.
Qed.

Lemma run_sys_ok s evs : ∃ owner, sys_ok owner (sys_run (empty_sys s) evs).
Proof.
  unfold sys_run. assert (∃ owner, sys_ok owner (empty_sys (A := A) s)) as H.
  { exists []. split; [apply map_ok_empty|by intros ?????|by intros ?; rewrite elem_of_nil|by intros ???]. }
  revert H. generalize (empty_sys (A := A) s). induction evs as [|ev evs IH]; intros y [owner H]; [by exists owner|].
  cbn. apply IH. by eapply sys_step_ok.
Qed.
End Inv.

(** ** What every interleaving has *)

Section Theorems.
Context {S A : Type}.

(** C19: whatever tasks run, and however their awaits, replies, timeouts, failures and
    cancellations interleave, every id left in the iq map belongs to a task that is still
    in flight, so none is left when all have ended; and a task that has ended did what
    its program does alone: an answer it got bears the id it registered, and what it
    sent are its frames, in order, each at most once. *)
Theorem iq_tasks_settle (s : S) (evs : list (event S A)) :
  let y := sys_run (empty_sys s) evs in
  NoDup (Iqs.pending_ids (l_iqs (y_line y))) ∧
  (∀ iq_id, iq_id ∈ Iqs.pending_ids (l_iqs (y_line y)) →
     ∃ i p st fut, y_tasks y !! i = Some (p, st) ∧ in_flight st = Some (iq_id, fut)) ∧
  (Forall (λ t, in_flight t.2 = None) (y_tasks y) → Iqs.pending_ids (l_iqs (y_line y)) = []) ∧
  (∀ i p r, y_tasks y !! i = Some (p, Ended r) →
     ∃ s0 w s1, plays p s0 w s1 r ∧ w `sublist_of` l_wire (y_line y)).
Proof.
  intros y. destruct (run_sys_ok (A := A) s evs) as [owner [Hm _ Hf He]]. fold y in Hm, Hf, He.
  split; [apply Hm|]. split; [|split].
  - intros iq_id ([i fut] & -> & Hin)%list_elem_of_fmap. destruct (Hf _ Hin) as (j & p & st & ? & ?). by exists j, p, st, fut.
  - intros Hall. apply elem_of_nil_inv. intros iq_id ([i fut] & -> & Hin)%list_elem_of_fmap.
    destruct (Hf _ Hin) as (j & p & st & Hj & Hfl). apply (Forall_lookup_1 _ _ _ _ Hall) in Hj. cbn in Hj. congruence.
  - intros i p r Hi. destruct (He _ _ _ Hi) as (s0 & w & Hw & s1 & Hp). by exists s0, w, s1.
Qed.

(** The wait of task [i] has not ended. *)
Record still_waits (i : nat) (t : proc S A * stage S A) (iq_id : str) (fut : nat) (y : Sys S A) : Prop := {
  sw_task : y_tasks y !! i = Some t;
  sw_pending : (iq_id, fut) ∈ Iqs._pending (l_iqs (y_line y));
  sw_others : ∀ j p st fut', j ≠ i → y_tasks y !! j = Some (p, st) → in_flight st ≠ Some (iq_id, fut')
}.

(** What another task does keeps an id registered that is not the task's. *)
Lemma advance_keeps (q : proc S A) draws l l' st iq_id fut :
  advance q draws l = (l', st) → dict_ok (Iqs._pending (l_iqs l)) → (iq_id, fut) ∈ Iqs._pending (l_iqs l) →
  (iq_id, fut) ∈ Iqs._pending (l_iqs l') ∧ ∀ fut', in_flight st ≠ Some (iq_id, fut').
Proof.
  revert draws l. induction q as [r|f k IH|k IH|x timed frame k IH|frame k IH|k IH]; intros draws l H Hd Hin; cbn [advance] in H.
  - by injection H as <- <-.
  - by eapply IH in H.
  - destruct (default _ _) as [now rnd]. destruct (MessageIds.new_message_id _ _ _) as [ids v]. by eapply IH in H.
  - unfold Iqs.register in H. destruct (dict_get x (Iqs._pending (l_iqs l))) eqn:E; [by eapply IH in H|].
    assert (x ≠ iq_id) as Hne by (intros ->; by rewrite (elem_dict_get _ _ _ Hd Hin) in E). cbn in H.
    assert ((iq_id, fut) ∈ dict_set x (length (Iqs.futures (l_iqs l))) (Iqs._pending (l_iqs l))) as Hin'
      by (apply dict_get_elem; rewrite dict_get_set_ne by done; by apply elem_dict_get).
    destruct frame as [frame|e].
    + injection H as <- <-. split; [done|]. by intros fut' [= ?].
    + eapply IH in H; [exact H| |]; cbn; rewrite cancel_eq, iq_pop_pending by (by apply dict_set_ok); cbn;
        rewrite dict_del_set_new by (by apply dict_get_None); done.
  - by injection H as <- <-.
  - by injection H as <- <-.
Qed.

(** Neither an answer to the id nor the cancellation of the task. *)
Definition no_end (i : nat) (iq_id : str) (ev : event S A) : Prop :=
  match ev with
  | Reply node => reply_of node ≠ Some iq_id
  | Resume j TaskCancelled _ => j ≠ i
  | _ => True
  end.

Lemma dict_del_keeps {K V} `{EqDecision K} (k k' : K) (v : V) d : dict_ok d → k ≠ k' → (k', v) ∈ d → (k', v) ∈ dict_del k d.
Proof. intros Hd Hne Hin. apply dict_get_elem. rewrite dict_get_del_ne by done. by apply elem_dict_get. Qed.

Lemma resume_keeps st o (l l1 : Line S) (c : stage S A + proc S A) iq_id fut :
  resume st o l = Some (l1, c) → dict_ok (Iqs._pending (l_iqs l)) → (∀ fut', in_flight st ≠ Some (iq_id, fut')) →
  (iq_id, fut) ∈ Iqs._pending (l_iqs l) →
  (iq_id, fut) ∈ Iqs._pending (l_iqs l1) ∧ dict_ok (Iqs._pending (l_iqs l1)) ∧
  match c with inl st' => in_flight st' = in_flight st | inr _ => True end.
Proof.
  intros H Hd Hst Hin.
  assert (∀ x w, x ≠ iq_id → (iq_id, fut) ∈ Iqs._pending (l_iqs (release x (written w [] l))) ∧
    dict_ok (Iqs._pending (l_iqs (release x (written w [] l))))) as Hr.
  { intros x w Hx. assert (l_iqs (written w [] l) = l_iqs l) as Hl by by destruct w. cbn. rewrite Hl, cancel_eq, iq_pop_pending by done.
    split; [by apply dict_del_keeps|by apply dict_del_ok]. }
  assert (∀ x w frame, l_iqs (release x (written w frame l)) = l_iqs (release x (written w [] l))) as Hw by by intros x [].
  assert (∀ x f, in_flight st = Some (x, f) → x ≠ iq_id) as Hne by (intros x f Hf ->; by eapply Hst).
  destruct st as [x f timed frame k|x f timed k|frame k|k|r]; destruct o as [b [[]|e]| | | |v]; cbn [resume] in H; try done;
    try (by destruct timed).
  - by injection H as <- <-.
  - injection H as <- <-. rewrite Hw. split; [|split; [|done]]; apply Hr; by eapply Hne.
  - destruct timed; apply bind_Some in H as (? & _ & (? & _ & [= <- <-])%bind_Some); (split; [|split; [|done]]);
      apply (Hr x false); by eapply Hne.
  - destruct timed; [|done]. injection H as <- <-. split; [|split; [|done]]; apply (Hr x false); by eapply Hne.
  - destruct timed; injection H as <- <-; (split; [|split; [|done]]); apply (Hr x false); by eapply Hne.
  - by injection H as <- <-.
  - injection H as <- <-. by destruct b.
  - by injection H as <- <-.
Qed.

Lemma wait_step owner i p iq_id fut k (y : Sys S A) ev :
  sys_ok owner y → still_waits i (p, Waiting iq_id fut false k) iq_id fut y → no_end i iq_id ev →
  still_waits i (p, Waiting iq_id fut false k) iq_id fut (sys_step y ev).
Proof.
  intros [Hm _ _ _] [Ht Hin Ho] Hev. destruct ev as [q draws|j o draws|node]; cbn [sys_step].
  - destruct (advance q draws (y_line y)) as [l st] eqn:E.
    destruct (advance_keeps _ _ _ _ _ _ _ E (mo_dict _ _ Hm) Hin) as [H1 H2]. split; cbn; [by apply lookup_app_l_Some|done|].
    intros j p' st' fut' Hj [Hl|[_ [_ [= <- <-]]%list_lookup_singleton_Some]]%lookup_app_Some; [by eapply Ho|done].
  - destruct (y_tasks y !! j) as [[q st]|] eqn:Ej; [|done]. destruct (resume st o (y_line y)) as [[l c]|] eqn:E; [|done].
    destruct (decide (j = i)) as [->|Hne].
    { rewrite Ht in Ej. injection Ej as <- <-. destruct o; try done. cbn in E.
      by rewrite (mo_pending _ _ Hm _ _ Hin) in E. }
    destruct (resume_keeps _ _ _ _ _ _ _ E (mo_dict _ _ Hm) (λ fut', Ho _ _ _ fut' Hne Ej) Hin) as (H1 & Hd & Hc).
    destruct c as [st'|q'].
    + split; cbn; [by rewrite list_lookup_insert_ne|done|].
      intros j' p' st1 fut' Hj [(<- & [= <- <-] & _)|[_ Hl]]%list_lookup_insert_Some; [rewrite Hc|]; by eapply Ho.
    + destruct (advance q' draws l) as [l' st'] eqn:Ea. destruct (advance_keeps _ _ _ _ _ _ _ Ea Hd H1) as [H2 H3].
      split; cbn; [by rewrite list_lookup_insert_ne|done|].
      intros j' p' st1 fut' Hj [(<- & [= <- <-] & _)|[_ Hl]]%list_lookup_insert_Some; [done|by eapply Ho].
  - destruct (reply_of node) as [x|] eqn:Er; [|done]. cbn in Hev. rewrite Er in Hev. split; cbn; [done| |done].
    unfold Iqs.resolve. rewrite iq_pop_pending by apply Hm. apply dict_del_keeps; [apply Hm| |done]. congruence.
Qed.

(** C38: a task that awaits an iq without a timeout goes on exactly when the server answers:
    while no answer to its id arrives and nobody cancels it, it stays where it is, however
    long everything else runs; and the answer, whenever it comes, resumes it with that
    node. *)
Theorem iq_wait_ends_by_reply (s : S) (evs0 evs : list (event S A)) (i : nat) (p : proc S A) (iq_id : str) (fut : nat)
    (k : result Node → proc S A) (node : Node) (draws : list (Z * list bytes)) :
  let y := sys_run (empty_sys s) evs0 in
  still_waits i (p, Waiting iq_id fut false k) iq_id fut y → Forall (no_end i iq_id) evs →
  let y' := sys_run y evs in
  y_tasks y' !! i = Some (p, Waiting iq_id fut false k) ∧
  (reply_of node = Some iq_id →
   ∃ l, y_tasks (sys_run y' [Reply node; Resume i Woken draws]) !! i = Some (p, (advance (k (Ok node)) draws l).2) ∧
     l_wire l = l_wire (y_line y') ∧ l_state l = l_state (y_line y')).
Proof.
  intros y Hw Hevs y'. destruct (run_sys_ok (A := A) s evs0) as [owner Hok]. fold y in Hok.
  assert (∃ owner, sys_ok owner y' ∧ still_waits i (p, Waiting iq_id fut false k) iq_id fut y') as (owner' & Hok' & Hw').
  { clearbody y. subst y'. revert y owner Hok Hw. induction Hevs as [|ev evs Hev Hevs IH]; intros y owner Hok Hw; [by exists owner|].
    cbn. destruct (sys_step_ok _ _ ev Hok) as [o1 H1]. eapply IH; [exact H1|by eapply wait_step]. }
  clearbody y'. split; [apply Hw'|]. intros Hr. destruct Hw' as [Ht Hin _]. destruct Hok' as [Hm _ _ _].
  set (l := with_iqs (y_line y') (Iqs.resolve iq_id node (l_iqs (y_line y'))).1).
  assert (Iqs.futures (l_iqs l) !! fut = Some (Iqs.Done node)) as Hf.
  { apply iq_pop_eq; [|by eapply mo_pending]. apply elem_dict_get; [apply Hm|done]. }
  assert (resume (Waiting iq_id fut false k) Woken l = Some (release iq_id l, inr (k (Ok node)))) as Hres
    by (clearbody l; cbn; by rewrite Hf).
  exists (release iq_id l). unfold sys_run. cbn [foldl sys_step]. rewrite Hr. cbn [y_tasks y_line]. fold l. rewrite Ht, Hres.
  destruct (advance _ draws _) as [l' st'] eqn:E. cbn. split; [|done].
  apply list_lookup_insert_eq. by eapply lookup_lt_Some.
Qed.
End Theorems.

(** ** The programs of the tasks *)

Section Spawned.
Context {S A : Type}.

Definition spawned (evs : list (event S A)) : list (proc S A) :=
  omap (λ ev, match ev with Spawn p _ => Some p | _ => None end) evs.

Lemma run_spawned (y : Sys S A) evs : (y_tasks (sys_run y evs)).*1 = (y_tasks y).*1 ++ spawned evs.
Proof.
  revert y. induction evs as [|ev evs IH]; intros y; [cbn; by rewrite app_nil_r|].
  change (sys_run y (ev :: evs)) with (sys_run (sys_step y ev) evs). rewrite IH. destruct ev as [p draws|i o draws|node]; cbn [sys_step].
  - destruct (advance p draws (y_line y)). cbn. by rewrite fmap_app, <-app_assoc.
  - change (spawned (Resume i o draws :: evs)) with (spawned evs). f_equal. destruct (y_tasks y !! i) as [[p st]|] eqn:Ei; [|done].
    assert (∀ st', (<[i := (p, st')]> (y_tasks y)).*1 = (y_tasks y).*1) as Hi.
    { intros st'. rewrite list_fmap_insert. apply list_insert_id. by rewrite list_lookup_fmap, Ei. }
    destruct (resume st o (y_line y)) as [[l [st'|q]]|]; [apply Hi| |done]. destruct (advance q draws l). apply Hi.
  - by destruct (reply_of node).
Qed.

Lemma task_at (s : S) (evs : list (event S A)) i p st :
  spawned evs !! i = Some p → (λ t, t.2) <$> y_tasks (sys_run (empty_sys s) evs) !! i = Some st →
  y_tasks (sys_run (empty_sys s) evs) !! i = Some (p, st).
Proof.
  intros Hp Hs. apply fmap_Some in Hs as ([p' st'] & Ht & ->). cbn. rewrite Ht. do 2 f_equal.
  pose proof (run_spawned (empty_sys s) evs) as H. cbn in H. rewrite <-H, list_lookup_fmap, Ht in Hp. by injection Hp.
Qed.
End Spawned.

Lemma iq_wait_ends_by_reply_witness :
  let p := Iq (S := unit) (u "7") false (Ok []) Ret in
  let y := sys_run (empty_sys tt) [Spawn p []; Resume 0 (SendEnds true (Ok tt)) []] in
  let node := mkNode (u "iq") [(u "id", AStr (u "7")); (u "type", AStr (u "result"))] CNone in
  ∃ l, y_tasks (sys_run (sys_run y [Resume 0 TimedOut []]) [Reply node; Resume 0 Woken []]) !! 0%nat
    = Some (p, (advance (Ret (Ok node)) [] l).2).
Proof.
  intros p y node.
  assert (still_waits 0 (p, Waiting (u "7") 0 false Ret) (u "7") 0 y) as Hw.
  { split; [reflexivity|vm_compute; left|]. intros [|j] q st fut Hj; [done|]. cbn. by intros ?. }
  destruct (iq_wait_ends_by_reply tt [Spawn p []; Resume 0 (SendEnds true (Ok tt)) []] [Resume 0 TimedOut []]
    0 p (u "7") 0 Ret node [] Hw) as [_ H]; [constructor; [exact I|constructor]|].
  destruct (H ltac:(vm_compute; reflexivity)) as (l & Hl & _). exists l. exact Hl.
Defined.

(** [Reply] is what the reader does with an iq that it takes as an answer. *)
Lemma reader_replies {St I L K G At : Type} {U : UnicodeDB} {Zl : Zlib} e node iq_id (r : ReceiverState St I L K G At) :
  reply_of node = Some iq_id →
  _handle_iq e node r =
    (mkReceiver (r_sender r) (Iqs.resolve iq_id node (r_iqs r)).1 (r_app_keys r) (r_events r) (r_tasks r) (r_routing r), Ok tt).
Proof.
  unfold reply_of, _handle_iq. intros H.
  destruct (get_str node (u "id")) as [x|] eqn:E1; [|done]. destruct (get_str node (u "type")) as [t|] eqn:E2; [|done].
  destruct (truthy x) eqn:E3; [|done]. destruct (bool_decide _) eqn:E4; [|done]. injection H as ->.
  rewrite se_bind_lift, E3. cbn [negb]. rewrite se_bind_lift, E4. unfold mbind, se_bind, on_iqs.
  destruct (Iqs.resolve iq_id node (r_iqs r)) as [m v] eqn:E. enough (is_ok v = true) as Hv by (destruct v; [done|discriminate Hv]).
  unfold Iqs.resolve, Iqs.pop_settle in E. repeat case_match; by simplify_eq.
Qed.
