(* ===== verification/TaskLog.v ===== *)
(** * What a task did, step by step

    The system of IqLine with a log: every id drawn, every change of the component's state,
    every frame handed to the transport and every result of an await, with the task it
    belongs to. [runs] says which logs a program has; the log of a system is, task by task,
    such a log, its writes are the wire, and its changes of the state lead from the first
    state to the present one. *)

From S2P Require Import Prelude PyStr Jid Node Encoder Outbox Receiver IqLine.
#[local] Open Scope Z_scope.

Inductive entry (S : Type) : Type :=
  | Drew (x : result str)
  | Did (s s' : S)
  | Refused (iq_id : str) (e : exn)     (* the id was not registered, or the stanza not encoded *)
  | Tried (frame : bytes) (on_wire : bool)
  | Got (x : result Node)
  | Awaited (x : result bytes).
Arguments Drew {S}.
Arguments Did {S}.
Arguments Refused {S}.
Arguments Tried {S}.
Arguments Got {S}.
Arguments Awaited {S}.

(** [runs p t r]: [p] ends with [r] after doing [t]. The state at each [Did] is whatever the
    other tasks have made of it by then. *)
Inductive runs {S A : Type} : proc S A → list (entry S) → result A → Prop :=
  | runs_ret r : runs (Ret r) [] r
  | runs_act f k s t r : runs (k s) t r → runs (Act f k) (Did s (f s) :: t) r
  | runs_id k x t r : (x = Raise RuntimeError ∨ is_ok x = true) → runs (k x) t r → runs (NewId k) (Drew x :: t) r
  | runs_refused iq_id timed frame k e t r :
      e = ValueError ∨ frame = Raise e → runs (k (Raise e)) t r → runs (Iq iq_id timed frame k) (Refused iq_id e :: t) r
  | runs_unsent iq_id timed frame k w e t r :
      runs (k (Raise e)) t r → runs (Iq iq_id timed (Ok frame) k) (Tried frame w :: t) r
  | runs_iq iq_id timed frame k x t r :
      (∀ node, x = Ok node → reply_of node = Some iq_id) → runs (k x) t r →
      runs (Iq iq_id timed (Ok frame) k) (Tried frame true :: Got x :: t) r
  | runs_send frame k w x t r : (is_ok x = true → w = true) → runs (k x) t r → runs (Send frame k) (Tried frame w :: t) r
  | runs_await k x t r : runs (k x) t r → runs (Await k) (Awaited x :: t) r.

(** ** The log of a system *)

Section Log.
Context {S A : Type}.
Implicit Types (l : Line S) (p q : proc S A) (st : stage S A) (y : Sys S A).

Fixpoint advance_log p (draws : list (Z * list bytes)) l : list (entry S) :=
  match p with
  | Ret _ | Send _ _ | Await _ => []
  | Act f k => Did (l_state l) (f (l_state l)) :: advance_log (k (l_state l)) draws (with_state l (f (l_state l)))
  | NewId k =>
      let '(now, rnd) := default (0, []) (head draws) in
      let '(ids, x) := MessageIds.new_message_id now rnd (l_ids l) in
      Drew x :: advance_log (k x) (tail draws) (with_ids l ids)
  | Iq iq_id timed frame k =>
      match Iqs.register iq_id (l_iqs l) with
      | (_, Raise e) => Refused iq_id e :: advance_log (k (Raise e)) draws l
      | (m, Ok fut) =>
          match frame with
          | Raise e => Refused iq_id e :: advance_log (k (Raise e)) draws (release iq_id (with_iqs l m))
          | Ok frame => []
          end
      end
  end.

Definition resume_log st (o : outcome) l : list (entry S) :=
  match st, o with
  | Sending _ _ _ frame _, SendEnds w x | SendingOnly frame _, SendEnds w x => [Tried frame (is_ok x || w)]
  | Waiting _ fut _ _, Woken =>
      match Iqs.futures (l_iqs l) !! fut ≫= future_result with Some x => [Got x] | None => [] end
  | Waiting _ _ _ _, TimedOut => [Got (Raise TimeoutError)]
  | Waiting _ _ _ _, TaskCancelled => [Got (Raise CancelledError)]
  | Awaiting _, AwaitEnds x => [Awaited x]
  | _, _ => []
  end.

(** What one event adds to the log. *)
Definition step_log y (ev : event S A) : list (nat * entry S) :=
  match ev with
  | Spawn p draws => pair (length (y_tasks y)) <$> advance_log p draws (y_line y)
  | Reply _ => []
  | Resume i o draws =>
      match y_tasks y !! i with
      | None => []
      | Some (p, st) =>
          match resume st o (y_line y) with
          | None => []
          | Some (_, inl _) => pair i <$> resume_log st o (y_line y)
          | Some (l, inr q) => pair i <$> resume_log st o (y_line y) ++ advance_log q draws l
          end
      end
  end.

Fixpoint sys_log y (evs : list (event S A)) : list (nat * entry S) :=
  match evs with [] => [] | ev :: evs => step_log y ev ++ sys_log (sys_step y ev) evs end.

(** The part of one task. *)
Definition of_task (i : nat) (log : list (nat * entry S)) : list (entry S) := (filter (λ e, e.1 = i) log).*2.

Definition frame_of (e : entry S) : option bytes := match e with Tried b true => Some b | _ => None end.

(** The frames of a log that were written. *)
Definition on_wire (t : list (entry S)) : list bytes := omap frame_of t.

(** The state after a log, if each change in it starts where the one before has ended. *)
Inductive chained : S → list (entry S) → S → Prop :=
  | chained_nil s : chained s [] s
  | chained_did s s1 s' t : chained s1 t s' → chained s (Did s s1 :: t) s'
  | chained_other e s s' t : (∀ a b, e ≠ Did a b) → chained s t s' → chained s (e :: t) s'.

Lemma chained_app s t1 s1 t2 s' : chained s t1 s1 → chained s1 t2 s' → chained s (t1 ++ t2) s'.
Proof. induction 1; cbn; [done| |]; intros; constructor; auto. Qed.

(** ** The log is the wire and the state *)

Lemma advance_logged p draws l :
  l_wire (advance p draws l).1 = l_wire l ∧ on_wire (advance_log p draws l) = [] ∧
  chained (l_state l) (advance_log p draws l) (l_state (advance p draws l).1).
Proof.
  revert draws l. induction p as [r|f k IH|k IH|iq_id timed frame k IH|frame k IH|k IH]; intros draws l; cbn [advance advance_log];
    try (split_and!; [done..|constructor]).
  - destruct (IH (l_state l) draws (with_state l (f (l_state l)))) as (H1 & H2 & H3). split_and!; [done|done|by constructor].
  - destruct (default _ _) as [now rnd]. destruct (MessageIds.new_message_id _ _ _) as [ids x].
    destruct (IH x (tail draws) (with_ids l ids)) as (H1 & H2 & H3). split_and!; [done|done|by constructor].
  - destruct (Iqs.register _ _) as [m [fut|e]]; cycle 1.
    { destruct (IH (Raise e) draws l) as (H1 & H2 & H3). split_and!; [done|done|by constructor]. }
    destruct frame as [frame|e]; [split_and!; [done..|constructor]|].
    destruct (IH (Raise e) draws (release iq_id (with_iqs l m))) as (H1 & H2 & H3). split_and!; [done|done|by constructor].
Qed.

Lemma resume_logged st o l l1 c : resume st o l = Some (l1, c) →
  l_wire l1 = l_wire l ++ on_wire (resume_log st o l) ∧ l_state l1 = l_state l ∧ chained (l_state l) (resume_log st o l) (l_state l1).
Proof.
  assert (∀ w frame l, l_wire (written w frame l) = l_wire l ++ on_wire [Tried frame w] ∧ l_state (written w frame l) = l_state l) as Hw.
  { intros [] frame l0; split; try done; cbn; by rewrite app_nil_r. }
  assert (∀ e : entry S, (∀ a b, e ≠ Did a b) → ∀ s, chained s [e] s) as Hc by (intros e He s; constructor; [done|constructor]).
  intros H. destruct st as [iq_id fut timed frame k|iq_id fut timed k|frame k|k|r]; destruct o as [w [[]|e]| | | |x]; cbn in H |- *;
    try done; try (by destruct timed).
  - injection H as <- <-. split_and!; [apply (Hw true)|done|by apply Hc].
  - injection H as <- <-. destruct (Hw w frame l) as [H1 H2]. cbn in *. rewrite H2. split_and!; [exact H1|done|by apply Hc].
  - destruct timed; apply bind_Some in H as (f & Hf & (x & Hx & [= <- <-])%bind_Some); rewrite Hf; cbn; rewrite Hx; cbn;
      rewrite app_nil_r; (split_and!; [done|done|by apply Hc]).
  - destruct timed; [|done]. injection H as <- <-. cbn. rewrite app_nil_r. split_and!; [done|done|by apply Hc].
  - destruct timed; injection H as <- <-; cbn; rewrite app_nil_r; (split_and!; [done|done|by apply Hc]).
  - injection H as <- <-. split_and!; [apply (Hw true)|done|by apply Hc].
  - injection H as <- <-. destruct (Hw w frame l) as [H1 H2]. cbn in *. rewrite H2. split_and!; [exact H1|done|by apply Hc].
  - injection H as <- <-. rewrite app_nil_r. split_and!; [done|done|by apply Hc].
Qed.

Lemma fmap_snd_pair {B} (i : nat) (t : list B) : (pair i <$> t).*2 = t.
Proof. induction t as [|x t IH]; [done|]. cbn. by f_equal. Qed.

Lemma step_logged y ev :
  l_wire (y_line (sys_step y ev)) = l_wire (y_line y) ++ on_wire (step_log y ev).*2 ∧
  chained (l_state (y_line y)) (step_log y ev).*2 (l_state (y_line (sys_step y ev))).
Proof.
  destruct ev as [p draws|i o draws|node]; cbn [sys_step step_log].
  - destruct (advance_logged p draws (y_line y)) as (H1 & H2 & H3). rewrite fmap_snd_pair, H2, app_nil_r.
    by destruct (advance p draws (y_line y)).
  - destruct (y_tasks y !! i) as [[p st]|]; [|split; [by rewrite app_nil_r|constructor]].
    destruct (resume st o (y_line y)) as [[l c]|] eqn:E; [|split; [by rewrite app_nil_r|constructor]].
    apply resume_logged in E as (H1 & H2 & H3). destruct c as [st'|q]; rewrite fmap_snd_pair; [done|].
    destruct (advance_logged q draws l) as (G1 & G2 & G3). destruct (advance q draws l) as [l' st']. cbn [fst y_line] in *.
    unfold on_wire in *. rewrite omap_app, G2, app_nil_r, G1. split; [done|]. by eapply chained_app.
  - destruct (reply_of node); (split; [by rewrite app_nil_r|constructor]).
Qed.

(** The wire is what the log wrote, and the state is where its changes lead. *)
Lemma log_is_system y evs :
  l_wire (y_line (sys_run y evs)) = l_wire (y_line y) ++ on_wire (sys_log y evs).*2 ∧
  chained (l_state (y_line y)) (sys_log y evs).*2 (l_state (y_line (sys_run y evs))).
Proof.
  revert y. induction evs as [|ev evs IH]; intros y; [split; [by rewrite app_nil_r|constructor]|].
  destruct (step_logged y ev) as [H1 H2], (IH (sys_step y ev)) as [H3 H4].
  change (sys_run y (ev :: evs)) with (sys_run (sys_step y ev) evs). cbn [sys_log]. unfold on_wire in *.
  rewrite fmap_app, omap_app, H3, H1, <-app_assoc. split; [done|]. by eapply chained_app.
Qed.
End Log.

(** ** The log of a task is a log of its program *)

Section Traced.
Context {S A : Type}.
Implicit Types (l : Line S) (p q : proc S A) (st : stage S A) (y : Sys S A) (t : list (entry S)).

(** [q] is left of [p] after [t]. *)
Definition rest p t q : Prop := ∀ t' r, runs q t' r → runs p (t ++ t') r.

Definition traced p st t : Prop :=
  match st with
  | Ended r => runs p t r
  | Sending iq_id _ _ frame k =>
      (∀ w e, rest p (t ++ [Tried frame w]) (k (Raise e))) ∧
      ∀ x, (∀ node, x = Ok node → reply_of node = Some iq_id) → rest p (t ++ [Tried frame true; Got x]) (k x)
  | Waiting iq_id _ _ k => ∀ x, (∀ node, x = Ok node → reply_of node = Some iq_id) → rest p (t ++ [Got x]) (k x)
  | SendingOnly frame k => ∀ w x, (is_ok x = true → w = true) → rest p (t ++ [Tried frame w]) (k x)
  | Awaiting k => ∀ x, rest p (t ++ [Awaited x]) (k x)
  end.

Lemma rest_entry p t q e q' : (∀ t' r, runs q' t' r → runs q (e :: t') r) → rest p t q → rest p (t ++ [e]) q'.
Proof. intros He H t' r Hr. rewrite <-app_assoc. by apply H, He. Qed.

Lemma advance_traced p t q draws l : rest p t q → traced p (advance q draws l).2 (t ++ advance_log q draws l).
Proof.
  revert t draws l. induction q as [r|f k IH|k IH|iq_id timed frame k IH|frame k IH|k IH]; intros t draws l H; cbn [advance advance_log].
  - cbn. rewrite app_nil_r, <-(app_nil_r t). apply H. constructor.
  - rewrite cons_middle, app_assoc. apply IH. eapply rest_entry; [|exact H]. intros. by constructor.
  - destruct (default _ _) as [now rnd]. destruct (MessageIds.new_message_id _ _ _) as [ids x] eqn:E.
    rewrite cons_middle, app_assoc. apply IH. eapply rest_entry; [|exact H]. intros. constructor; [by eapply new_id_result|done].
  - destruct (Iqs.register iq_id (l_iqs l)) as [m [fut|e]] eqn:E; cycle 1.
    { apply iq_register_raise in E as [-> ->]. rewrite cons_middle, app_assoc. apply IH. eapply rest_entry; [|exact H].
      intros. constructor; [by left|done]. }
    destruct frame as [frame|e]; cycle 1.
    { rewrite cons_middle, app_assoc. apply IH. eapply rest_entry; [|exact H]. intros. constructor; [by right|done]. }
    rewrite app_nil_r. split.
    + intros w e. eapply rest_entry; [|exact H]. intros. by eapply runs_unsent.
    + intros x Hx t' r Hr. rewrite <-app_assoc. by apply H, runs_iq.
  - rewrite app_nil_r. intros w x Hw. eapply rest_entry; [|exact H]. intros. by econstructor.
  - rewrite app_nil_r. intros x. eapply rest_entry; [|exact H]. intros. by constructor.
Qed.

Lemma resume_traced owner p t st o l l1 c :
  resume st o l = Some (l1, c) → map_ok owner (l_iqs l) → traced p st t →
  (∀ iq_id fut, in_flight st = Some (iq_id, fut) → owner !! fut = Some iq_id) →
  match c with
  | inl st' => traced p st' (t ++ resume_log st o l)
  | inr q => rest p (t ++ resume_log st o l) q
  end.
Proof.
  intros H Hm Ht Ho. destruct st as [iq_id fut timed frame k|iq_id fut timed k|frame k|k|r]; destruct o as [w [[]|e]| | | |x];
    cbn [resume] in H; try done; try (by destruct timed).
  - injection H as <- <-. destruct Ht as [_ Ht]. intros x Hx t' r Hr. cbn. rewrite <-!app_assoc. cbn.
    specialize (Ht x Hx t' r Hr). by rewrite <-app_assoc in Ht.
  - injection H as <- <-. apply Ht.
  - assert (∃ f x, Iqs.futures (l_iqs l) !! fut = Some f ∧ future_result f = Some x ∧ c = inr (k x)) as (f & x & Ef & Ex & ->).
    { destruct timed; apply bind_Some in H as (f & Hf & (x & Hx & [= <- <-])%bind_Some); by exists f, x. }
    cbn [resume_log]. rewrite Ef. cbn. rewrite Ex. apply Ht.
    intros node ->. destruct f; simplify_eq/=. destruct (mo_done _ _ Hm _ _ Ef) as (i & Hi & ?).
    rewrite (Ho _ _ eq_refl) in Hi. by injection Hi as ->.
  - destruct timed; [|done]. injection H as <- <-. by apply Ht.
  - destruct timed; injection H as <- <-; by apply Ht.
  - injection H as <- <-. by apply Ht.
  - injection H as <- <-. apply Ht. cbn. by destruct w.
  - injection H as <- <-. apply Ht.
Qed.

Lemma of_task_app i (l1 l2 : list (nat * entry S)) : of_task i (l1 ++ l2) = of_task i l1 ++ of_task i l2.
Proof. unfold of_task. by rewrite filter_app, fmap_app. Qed.

Lemma of_task_pair i t : of_task i (pair i <$> t) = t.
Proof. unfold of_task. induction t as [|e t IH]; [done|]. cbn. rewrite decide_True by done. cbn. by f_equal. Qed.

Lemma of_task_ne i j t : i ≠ j → of_task i (pair j <$> t) = [].
Proof. intros H. unfold of_task. induction t as [|e t IH]; [done|]. cbn. by rewrite decide_False by done. Qed.

Lemma of_task_new i (log : list (nat * entry S)) : Forall (λ e, (e.1 < i)%nat) log → of_task i log = [].
Proof. unfold of_task. induction 1 as [|[j e] log Hj H IH]; [done|]. cbn in *. by rewrite decide_False by lia. Qed.

(** Every task of the system is traced by its part of the log. *)
Definition log_ok y (log : list (nat * entry S)) : Prop :=
  Forall (λ e, (e.1 < length (y_tasks y))%nat) log ∧
  ∀ i p st, y_tasks y !! i = Some (p, st) → traced p st (of_task i log).

Lemma log_ok_insert y l log i p st st' t :
  log_ok y log → y_tasks y !! i = Some (p, st) → traced p st' (of_task i log ++ t) →
  log_ok (mkSys l (<[i := (p, st')]> (y_tasks y))) (log ++ (pair i <$> t)).
Proof.
  intros [Hb Ht] Hi Hst. pose proof (lookup_lt_Some _ _ _ Hi) as Hlt. split; cbn.
  - rewrite length_insert. apply Forall_app. split; [done|]. by apply Forall_fmap, Forall_forall.
  - intros j p' st1 [(<- & [= <- <-] & _)|[Hne Hj]]%list_lookup_insert_Some; rewrite of_task_app.
    + by rewrite of_task_pair.
    + rewrite of_task_ne, app_nil_r by done. by apply Ht.
Qed.

Lemma step_log_ok owner y log ev : sys_ok owner y → log_ok y log → log_ok (sys_step y ev) (log ++ step_log y ev).
Proof.
  intros [Hm Ho _ _] Hlog. destruct ev as [p draws|i o draws|node]; cbn [sys_step step_log].
  - destruct Hlog as [Hb Ht]. pose proof (advance_traced p [] p draws (y_line y) (λ t' r Hr, Hr)) as Hp.
    destruct (advance p draws (y_line y)) as [l st]. split; cbn.
    + rewrite length_app. cbn. apply Forall_app. split; [eapply Forall_impl; [exact Hb|]; cbn; lia|].
      apply Forall_fmap, Forall_forall. intros; cbn. lia.
    + intros j q st' [Hj|[Hge [Hz [= <- <-]]%list_lookup_singleton_Some]]%lookup_app_Some; rewrite of_task_app.
      * rewrite of_task_ne, app_nil_r by (apply lookup_lt_Some in Hj; lia). by apply Ht.
      * replace j with (length (y_tasks y)) by lia. by rewrite of_task_pair, of_task_new.
  - destruct (y_tasks y !! i) as [[p st]|] eqn:Ei; [|by rewrite app_nil_r].
    destruct (resume st o (y_line y)) as [[l c]|] eqn:E; [|by rewrite app_nil_r].
    apply (resume_traced owner p (of_task i log)) in E as Hc; [|done|by apply Hlog|intros; by eapply Ho]. destruct c as [st'|q].
    + by eapply log_ok_insert.
    + apply (advance_traced _ _ _ draws l) in Hc. destruct (advance q draws l) as [l' st'].
      eapply log_ok_insert; [done..|]. by rewrite app_assoc.
  - by destruct (reply_of node); rewrite app_nil_r.
Qed.

Lemma run_log_ok s evs : log_ok (sys_run (empty_sys s) evs) (sys_log (empty_sys s) evs).
Proof.
  assert (∀ owner y log, sys_ok owner y → log_ok y log → log_ok (sys_run y evs) (log ++ sys_log y evs)) as H.
  { induction evs as [|ev evs IH]; intros owner y log Hy Hl; [by rewrite app_nil_r|]. cbn [sys_log].
    change (sys_run y (ev :: evs)) with (sys_run (sys_step y ev) evs). rewrite app_assoc.
    destruct (sys_step_ok _ _ ev Hy) as [owner' Hy']. eapply IH; [done|by eapply step_log_ok]. }
  destruct (run_sys_ok (A := A) s []) as [owner Hy]. apply (H owner _ [] Hy). split; [constructor|]. by intros ???.
Qed.

(** A task that has ended did what its log says. *)
Lemma ended_runs s evs i p r : y_tasks (sys_run (empty_sys s) evs) !! i = Some (p, Ended r) →
  runs p (of_task i (sys_log (empty_sys s) evs)) r.
Proof. intros H. exact (proj2 (run_log_ok s evs) i p (Ended r) H). Qed.
End Traced.

(** ** Logs of composed programs *)

Section Runs.
Context {S A : Type}.

Lemma runs_ret_inv (r r' : result A) t : runs (S := S) (Ret r) t r' → t = [] ∧ r' = r.
Proof. inversion 1; by simplify_eq. Qed.

Lemma runs_act_inv f (k : S → proc S A) t r : runs (Act f k) t r → ∃ s t', t = Did s (f s) :: t' ∧ runs (k s) t' r.
Proof. inversion 1; simplify_eq. eauto. Qed.

Lemma runs_id_inv (k : result str → proc S A) t r : runs (NewId k) t r →
  ∃ x t', t = Drew x :: t' ∧ (x = Raise RuntimeError ∨ is_ok x = true) ∧ runs (k x) t' r.
Proof. inversion 1; simplify_eq. eauto. Qed.

Lemma runs_send_inv b (k : result unit → proc S A) t r : runs (Send b k) t r →
  ∃ w x t', t = Tried b w :: t' ∧ (is_ok x = true → w = true) ∧ runs (k x) t' r.
Proof. inversion 1; simplify_eq. eauto 7. Qed.

(** How an iq goes: refused, its send raises, or it is sent and the await gives something. *)
Inductive iq_log (iq_id : str) (frame : result bytes) : list (entry S) → result Node → Prop :=
  | log_refused e : e = ValueError ∨ frame = Raise e → iq_log iq_id frame [Refused iq_id e] (Raise e)
  | log_unsent b w e : frame = Ok b → iq_log iq_id frame [Tried b w] (Raise e)
  | log_awaited b x : frame = Ok b → (∀ node, x = Ok node → reply_of node = Some iq_id) →
      iq_log iq_id frame [Tried b true; Got x] x.

Lemma runs_iq_inv iq_id timed frame (k : result Node → proc S A) t r : runs (Iq iq_id timed frame k) t r →
  ∃ x t1 t2, t = t1 ++ t2 ∧ iq_log iq_id frame t1 x ∧ runs (k x) t2 r.
Proof.
  inversion 1; simplify_eq.
  - eexists _, [_], _. split_and!; [reflexivity|by constructor|done].
  - eexists _, [_], _. split_and!; [reflexivity|by econstructor|done].
  - eexists _, [_; _], _. split_and!; [reflexivity|by econstructor|done].
Qed.
End Runs.

Lemma runs_then {S A B} (f : result A → proc S B) (p : proc S A) t r : runs (p_then f p) t r →
  ∃ x t1 t2, t = t1 ++ t2 ∧ runs p t1 x ∧ runs (f x) t2 r.
Proof.
  assert (∀ (q q0 : proc S A) e t r, (∀ t' x, runs q0 t' x → runs q (e ++ t') x) →
    (∃ x t1 t2, t = t1 ++ t2 ∧ runs q0 t1 x ∧ runs (f x) t2 r) →
    ∃ x t1 t2, e ++ t = t1 ++ t2 ∧ runs q t1 x ∧ runs (f x) t2 r) as K.
  { intros q q0 e t' r' Hq (x & t1 & t2 & -> & H1 & H2). exists x, (e ++ t1), t2. split_and!; [by rewrite app_assoc|by apply Hq|done]. }
  revert t. induction p as [x|g k IH|k IH|iq_id timed frame k IH|b k IH|k IH]; intros t H; cbn [p_then] in H.
  - exists x, [], t. split_and!; [done|constructor|done].
  - apply runs_act_inv in H as (s & t' & -> & H%IH). apply (K _ (k s) [_]); [|done]. intros. by constructor.
  - apply runs_id_inv in H as (v & t' & -> & Hv & H%IH). apply (K _ (k v) [_]); [|done]. intros. by constructor.
  - inversion H as [| | |? ? ? ? e ? ? He Hp|? ? b ? w e ? ? Hp|? ? b ? v ? ? Hv Hp| |]; simplify_eq; apply IH in Hp.
    + apply (K _ (k (Raise e)) [_]); [|done]. intros. by constructor.
    + apply (K _ (k (Raise e)) [_]); [|done]. intros. by eapply runs_unsent.
    + apply (K _ (k v) [_; _]); [|done]. intros. by apply runs_iq.
  - apply runs_send_inv in H as (w & v & t' & -> & Hw & H%IH). apply (K _ (k v) [_]); [|done]. intros. by econstructor.
  - inversion H; simplify_eq. eapply (K _ (k _) [_]); [|by apply IH]. intros. by constructor.
Qed.

Lemma runs_bind {S A B} (p : proc S A) (f : A → proc S B) t r : runs (p ≫= f) t r →
  ∃ x t1 t2, t = t1 ++ t2 ∧ runs p t1 x ∧
    match x with Ok v => runs (f v) t2 r | Raise e => t2 = [] ∧ r = Raise e end.
Proof.
  intros (x & t1 & t2 & -> & H1 & H2)%runs_then. exists x, t1, t2. split_and!; [done..|].
  destruct x as [v|e]; [exact H2|]. by apply runs_ret_inv in H2 as (-> & ->).
Qed.
