(* ===== verification/Requests.v ===== *)
(** * The coroutines that ask the server

    [PrekeyFetcher], [PrekeyUploader] ([messaging/prekey.py]), [USyncDeviceFetcher]
    ([messaging/usync.py]) and [_send_iq] of [client.py], as tasks of IqLine: what they
    register, send, await and do with the answer. *)

From S2P Require Import Prelude PyStr Jid Node Encoder Json Crypto SignalKeys X3dh PeerStores Prekey Stanzas.
From S2P Require Import Codec Outbox Receiver IqLine TaskLog.
#[local] Open Scope Z_scope.

Section Requests.
Context {U : UnicodeDB} {Zl : Zlib} {S : Type}.

(** A query that has the id it was registered under, then the parser of the answer. *)
Definition ask {A} (timed : bool) (query : str → Node) (parse : Node → result A) : proc S A :=
  iq_id ← new_id;
  result ← iq_call iq_id timed (encode (query iq_id) false);
  p_lift (parse result).

(** [PrekeyFetcher.__call__] *)
Definition PrekeyFetcher {X : X25519} {E : XEdDSA} (peer : JID) : proc S PreKeyBundle :=
  ask false (build_prekey_query peer) (λ result, parse_prekey_response result peer).

Definition fetch_prekey_bundle {X : X25519} {E : XEdDSA} (peer : JID) : proc S PreKeyBundle := PrekeyFetcher peer.

(** [USyncDeviceFetcher.__call__] *)
Definition USyncDeviceFetcher (users : list JID) : proc S (list (JID * Usync.UserSyncEntry)) :=
  let requested := Usync._dedupe_base_users users in
  ask false (Usync.build_device_query requested) (λ result, Usync.parse_device_result result requested).

(** [_send_iq] of [_install_messaging]: the id of the node, or a fresh one, set in it. *)
Definition _send_iq (node : Node) : proc S Node :=
  own_id ← p_lift (get_str node (u "id"));
  iq_id ← (if truthy own_id then mret own_id else new_id);
  iq_call iq_id false (encode (mkNode (tag node) (dict_set (u "id") (AStr iq_id) (attrs node)) (content node)) false).
End Requests.

(** ** [PrekeyUploader] *)

(** What the uploader is made with. *)
Record PrekeyUploader := mkUploader {
  pu_registration_id : Z; pu_identity_public : bytes; pu_signed_pre_key : SignedPreKey }.

Section Uploader.
Context {U : UnicodeDB} {Zl : Zlib} {X : X25519} {St : Type} {PS : PreKeyStore St}.
Implicit Types (c : PrekeyUploader).

(** [sks] are the private keys that [generate_pre_key] draws, [count] of them. *)
Definition upload c (sks : list bytes) : proc St Z :=
  opks ← p_run (upload_batch sks);
  iq_id ← new_id;
  node ← p_lift (build_prekey_upload_node (pu_registration_id c) (pu_identity_public c) (pu_signed_pre_key c) opks iq_id);
  _ ← iq_call iq_id true (encode node false);
  mret (Z.of_nat (length opks)).

Definition server_count : proc St Z := ask true build_prekey_count_query parse_prekey_count_response.

Definition refill_if_low c (sks : list bytes) : proc St Z :=
  count ← server_count;
  if MIN_PRE_KEY_COUNT <=? count then mret 0 else upload c sks.
End Uploader.

(** ** The log of a query *)

(** What a task does that draws an id, builds a stanza with it and asks: no id could be drawn,
    the stanza cannot be built, or it is asked, and [parse] makes the result of the answer. *)
Inductive ask_log {S A : Type} {U : UnicodeDB} {Zl : Zlib} (query : str → result Node) (parse : Node → result A) :
    list (entry S) → result A → Prop :=
  | ask_no_id : ask_log query parse [Drew (Raise RuntimeError)] (Raise RuntimeError)
  | ask_no_stanza iq_id e : query iq_id = Raise e → ask_log query parse [Drew (Ok iq_id)] (Raise e)
  | ask_asked iq_id node t x : query iq_id = Ok node → iq_log iq_id (encode node false) t x →
      ask_log query parse (Drew (Ok iq_id) :: t) (reply ← x; parse reply).

Section Runs.
Context {U : UnicodeDB} {Zl : Zlib} {S : Type}.

Lemma runs_call {A} iq_id timed node (parse : Node → result A) (t : list (entry S)) r :
  runs (result ← iq_call iq_id timed (encode node false); p_lift (parse result)) t r →
  ∃ x, iq_log iq_id (encode node false) t x ∧ r = (reply ← x; parse reply).
Proof.
  intros (x & t1 & t2 & -> & Hx & H)%runs_iq_inv. exists x.
  destruct x as [reply|e]; apply runs_ret_inv in H as [-> ->]; rewrite app_nil_r; by split.
Qed.

Lemma runs_asks {A} timed (query : str → result Node) (parse : Node → result A) (t : list (entry S)) r :
  runs (iq_id ← new_id; node ← p_lift (query iq_id); result ← iq_call iq_id timed (encode node false); p_lift (parse result)) t r →
  ask_log query parse t r.
Proof.
  intros (x & t' & -> & Hx & H)%runs_id_inv. destruct x as [iq_id|e]; cycle 1.
  { apply runs_ret_inv in H as [-> ->]. destruct Hx as [[= ->]|]; [constructor|done]. }
  destruct (query iq_id) as [node|e] eqn:Eq; [|apply runs_ret_inv in H as [-> ->]; by constructor].
  apply runs_call in H as (x & Hl & ->). by econstructor.
Qed.

(** A query that is answered gives what its parser makes of the answer to its id. *)
Lemma runs_ask {A} timed query (parse : Node → result A) (t : list (entry S)) r :
  runs (ask timed query parse) t r → ask_log (λ iq_id, Ok (query iq_id)) parse t r.
Proof. apply (runs_asks timed (λ iq_id, Ok (query iq_id))). Qed.
End Runs.

(** An upload first stores the batch that it generates over the store as it is then; only
    after that it publishes that batch. *)
Lemma runs_upload {U : UnicodeDB} {Zl : Zlib} {X : X25519} (c : PrekeyUploader) (sks : list bytes)
    (t : list (entry InMemoryPreKeyStore)) (r : result Z) :
  runs (upload c sks) t r →
  ∃ (s0 s1 : InMemoryPreKeyStore) opks t', t = Did s0 s1 :: t' ∧ upload_batch sks s0 = (s1, Ok opks) ∧
    ask_log (build_prekey_upload_node (pu_registration_id c) (pu_identity_public c) (pu_signed_pre_key c) opks)
      (λ _, Ok (Z.of_nat (length opks))) t' r.
Proof.
  unfold upload, p_run. intros (s0 & t' & -> & H)%runs_act_inv. cbn beta in H.
  destruct (upload_ids_fresh sks s0) as (s1 & opks & Eu & _). rewrite Eu in H |- *. exists s0, s1, opks, t'.
  split; [done|]. split; [done|]. exact (runs_asks true _ (λ _, Ok (Z.of_nat (length opks))) t' r H).
Qed.

(** C21: topping up the pre-keys, among any other tasks and however the awaits end. In the log
    of the system, which holds every frame written and every change of the pre-key store in
    their order, a refill has done just this when it ends: it asked for the number of keys
    the server holds; without an answer, or with five or more, nothing else. With fewer it
    changed the store, once: from the store as it was at that moment it made the batch of
    one key for each private key drawn, with consecutive ids above every id stored, and put
    all of them in it, the old ones kept. Only then it asked the server to take this batch,
    and returns its size when that is answered. *)
Theorem refill_tops_up {U : UnicodeDB} {Zl : Zlib} {X : X25519} (c : PrekeyUploader) (sks : list bytes)
    (s : InMemoryPreKeyStore) (evs : list (event InMemoryPreKeyStore Z)) (i : nat) (r : result Z) :
  let y := sys_run (empty_sys s) evs in
  let log := sys_log (empty_sys s) evs in
  y_tasks y !! i = Some (refill_if_low c sks, Ended r) →
  (l_wire (y_line y) = on_wire log.*2 ∧ chained s log.*2 (l_state (y_line y))) ∧
  ∃ t1 t2 x, of_task i log = t1 ++ t2 ∧
    ask_log (λ iq_id, Ok (build_prekey_count_query iq_id)) parse_prekey_count_response t1 x ∧
    match x with
    | Raise e => t2 = [] ∧ r = Raise e
    | Ok count =>
        if MIN_PRE_KEY_COUNT <=? count then t2 = [] ∧ r = Ok 0
        else ∃ (s0 s1 : InMemoryPreKeyStore) opks t3, t2 = Did s0 s1 :: t3 ∧ upload_batch sks s0 = (s1, Ok opks) ∧
          opk_key_id <$> opks = seqZ (pk_max_id s0 + 1) (Z.of_nat (length sks)) ∧
          Forall (λ o, pk_load s0 (opk_key_id o) = Ok None ∧ pk_load s1 (opk_key_id o) = Ok (Some o)) opks ∧
          (∀ id o, pk_load s0 id = Ok (Some o) → pk_load s1 id = Ok (Some o)) ∧
          ask_log (build_prekey_upload_node (pu_registration_id c) (pu_identity_public c) (pu_signed_pre_key c) opks)
            (λ _, Ok (Z.of_nat (length sks))) t3 r
    end.
Proof.
  intros y log H. split; [exact (log_is_system (empty_sys s) evs)|].
  apply ended_runs in H. unfold refill_if_low, server_count in H. apply runs_bind in H as (x & t1 & t2 & Ht & H1 & H).
  exists t1, t2, x. split; [exact Ht|]. split; [by apply runs_ask in H1|]. destruct x as [count|e]; [|done].
  destruct (MIN_PRE_KEY_COUNT <=? count); [by apply runs_ret_inv in H as [-> ->]|].
  apply runs_upload in H as (s0 & s1 & opks & t3 & -> & Eu & Ha).
  destruct (upload_ids_fresh sks s0) as (s1' & opks' & Eu' & Hids & Hst & Hold). rewrite Eu in Eu'. injection Eu' as <- <-.
  exists s0, s1, opks, t3. split_and!; [done..|].
  assert (length opks = length sks) as Hl by (rewrite <-(length_fmap opk_key_id), Hids, length_seqZ; lia). by rewrite <-Hl.
Qed.

Module RefillDemo.
#[local] Existing Instances toy_x25519 toy_xeddsa latin1_ucd stored_zlib.

Definition uploader : PrekeyUploader :=
  mkUploader 1 (replicate 32 (mkb 3)) (mkSignedPreKey 7 (replicate 32 (mkb 4)) (replicate 32 (mkb 5)) (replicate 64 (mkb 6))).

Definition answer (id type : bytes) (c : NodeContent) : Node :=
  mkNode (u "iq") [(u "id", AStr (MessageIds.hex_upper id)); (u "type", AStr (map b2z type))] c.

(** The server holds two keys, then answers the upload with [type]. *)
Definition refill_events (type : bytes) : list (event InMemoryPreKeyStore Z) :=
  let id n := replicate 8 (mkb n) in
  [ Spawn (refill_if_low uploader [replicate 32 (mkb 8)]) [(0, [id 1])];
    Resume 0 (SendEnds true (Ok tt)) [];
    Reply (answer (id 1) (map (λ z, mkb z) (u "result")) (CList [mkNode (u "count") [(u "value", AStr (u "2"))] CNone]));
    Resume 0 Woken [(1, [id 2])];
    Resume 0 (SendEnds true (Ok tt)) [];
    Reply (answer (id 2) type CNone);
    Resume 0 Woken [] ].

(** An upload that the server refuses counts as done: the answer is not looked at. *)
Lemma refused_upload_counted :
  (λ t, t.2) <$> y_tasks (sys_run (empty_sys (mkMemPreKeys [])) (refill_events (map (λ z, mkb z) (u "error")))) = [Ended (Ok 1)].
Proof. vm_compute. reflexivity. Qed.

(** What the refill did: the query, the change of the store, the upload. *)
Lemma refill_tops_up_witness :
  let log := sys_log (empty_sys (mkMemPreKeys [])) (refill_events (map (λ z, mkb z) (u "result"))) in
  (length (on_wire log.*2) = 2)%nat ∧ ∃ q b0 x s0 s1 id2 f b2 y2, of_task 0 log =
    [Drew (Ok (MessageIds.hex_upper (replicate 8 (mkb 1)))); Tried q b0; Got x; Did s0 s1; Drew (Ok id2); Tried f b2; Got y2] ∧
    pk_max_id s0 = 0 ∧ pk_max_id s1 = 1 ∧
    upload_batch [replicate 32 (mkb 8)] s0 = (s1, Ok [generate_pre_key 1 (replicate 32 (mkb 8))]).
Proof.
  assert (y_tasks (sys_run (empty_sys (mkMemPreKeys [])) (refill_events (map (λ z, mkb z) (u "result")))) !! 0%nat =
    Some (refill_if_low uploader [replicate 32 (mkb 8)], Ended (Ok 1))) as H
    by (apply task_at; [reflexivity|vm_compute; reflexivity]).
  apply refill_tops_up in H as [_ (t1 & t2 & x & Ht & _ & H)]. intros log. split; [vm_compute; reflexivity|].
  destruct x as [count|e]; [|by destruct H]. destruct (MIN_PRE_KEY_COUNT <=? count); [by destruct H|].
  destruct H as (s0 & s1 & opks & t3 & -> & Eu & _). fold log in Ht.
  assert (∃ q b0 x id2 f b2 y2 s0 s1, of_task 0 log =
    [Drew (Ok (MessageIds.hex_upper (replicate 8 (mkb 1)))); Tried q b0; Got x; Did s0 s1; Drew (Ok id2); Tried f b2; Got y2] ∧
    s0 = mkMemPreKeys [] ∧ s1 = (upload_batch [replicate 32 (mkb 8)] (mkMemPreKeys [])).1)
    as (q & b0 & x & id2 & f & b2 & y2 & a0 & a1 & E & E0 & E1).
  { do 9 eexists. split; [vm_compute; reflexivity|]. split; vm_compute; reflexivity. }
  exists q, b0, x, a0, a1, id2, f, b2, y2. split; [exact E|]. subst a0 a1. split_and!; vm_compute; reflexivity.
Defined.
End RefillDemo.
