(* ===== verification/Activator.v ===== *)
(** * Session activation ([src/src/pywhats/messaging/activator.py])

    What the client does after [<success>], as a task of IqLine over the state of the
    client: remember the server's clock and LID, flip the session to active, top up the
    pre-keys, announce the session and the presence, and start the keepalive pings. *)

From S2P Require Import Prelude PyStr Jid Node Encoder Codec Outbox Prekey IqLine TaskLog Requests.
#[local] Open Scope Z_scope.

Record SuccessState := mkSuccess { server_time_offset_ms : Z; su_lid : option str; raw_t : option Z }.

(** [now_ms] is [int(time.time() * 1000)]. *)
Definition parse_success {U : UnicodeDB} (now_ms : Z) (node : Node) : result SuccessState :=
  raw_t_str ← get_str node (u "t");
  raw_t ← (if truthy raw_t_str then
             match py_int raw_t_str with
             | Ok t => Ok (Some t)
             | Raise e => if is_ValueError e then Ok None else Raise e
             end
           else Ok None);
  let offset_ms := match raw_t with Some t => t * 1000 - now_ms | None => 0 end in
  lid ← get_str node (u "lid");
  Ok (mkSuccess offset_ms (if truthy lid then Some lid else None) raw_t).

Inductive ping_task := Running | Finished | Stopped.

(** [SessionActivator], over the state [S] that its hooks change. *)
Record Activator (S : Type) := mkActivator {
  av_offset_ms : Z; av_closed : bool; av_ping_task : option ping_task; av_hooks : S }.
Arguments mkActivator {S}.
Arguments av_offset_ms {S}.
Arguments av_closed {S}.
Arguments av_ping_task {S}.
Arguments av_hooks {S}.

(** What it is made with; [on_fatal] gets the number of failures of its reason. *)
Record Hooks (S : Type) := mkHooks {
  push_name : option str;
  on_state : option (SuccessState → SE S unit);
  upload_prekeys : option (proc S Z);
  max_ping_failures : Z;
  on_fatal : option (Z → SE S unit) }.
Arguments push_name {S}.
Arguments on_state {S}.
Arguments upload_prekeys {S}.
Arguments max_ping_failures {S}.
Arguments on_fatal {S}.

Definition WEEK_MS : Z := 7 * 86400000.

Section Activator.
Context {U : UnicodeDB} {Zl : Zlib} {S : Type} (hooks : Hooks S).

#[local] Abbreviation M := (proc (Activator S)).

Definition set_offset (z : Z) : SE (Activator S) unit := λ a,
  (mkActivator z (av_closed a) (av_ping_task a) (av_hooks a), Ok tt).
Definition set_closed : SE (Activator S) unit := λ a,
  (mkActivator (av_offset_ms a) true (av_ping_task a) (av_hooks a), Ok tt).
Definition set_ping_task (t : ping_task) : SE (Activator S) unit := λ a,
  (mkActivator (av_offset_ms a) (av_closed a) (Some t) (av_hooks a), Ok tt).
Definition in_hooks {A} (m : SE S A) : SE (Activator S) A := λ a,
  let '(s, r) := m (av_hooks a) in (mkActivator (av_offset_ms a) (av_closed a) (av_ping_task a) s, r).

(** A coroutine over the state of the hooks. *)
Fixpoint hook_proc {A} (p : proc S A) : M A :=
  match p with
  | Ret r => Ret r
  | Act f k => Act (λ a, mkActivator (av_offset_ms a) (av_closed a) (av_ping_task a) (f (av_hooks a))) (λ a, hook_proc (k (av_hooks a)))
  | NewId k => NewId (λ x, hook_proc (k x))
  | Iq iq_id timed frame k => Iq iq_id timed frame (λ x, hook_proc (k x))
  | Send frame k => Send frame (λ x, hook_proc (k x))
  | Await k => Await (λ x, hook_proc (k x))
  end.

(** [try: ... except Exception: _log.exception(...)] *)
Definition logged (p : M unit) : M unit := p_try p is_Exception (λ _, mret tt).

Definition passive_iq (iq_id : str) : Node :=
  mkNode (u "iq") [(u "id", AStr iq_id); (u "to", AJid PK_SERVER); (u "xmlns", AStr (u "passive")); (u "type", AStr (u "set"))]
    (CList [mkNode (u "active") [] CNone]).

Definition ping_iq (iq_id : str) : Node :=
  mkNode (u "iq") [(u "id", AStr iq_id); (u "to", AJid PK_SERVER); (u "xmlns", AStr (u "w:p")); (u "type", AStr (u "get"))]
    (CList [mkNode (u "ping") [] CNone]).

(** [_send_iq] *)
Definition _send_iq (node : Node) (iq_id : str) : M Node := iq_call iq_id true (encode node false).

Definition _send_passive_active : M unit :=
  iq_id ← new_id;
  logged (_ ← _send_iq (passive_iq iq_id) iq_id; mret tt).

Definition _upload_prekeys_step : M unit :=
  match upload_prekeys hooks with
  | None => mret tt
  | Some upload => logged (_ ← hook_proc upload; mret tt)
  end.

(** [(now_ms + 3 days) % 1 week] *)
Definition session_id (now_ms : Z) : Z := (now_ms + 3 * 86400000) mod WEEK_MS.

Definition unified_session (sid : str) : Node :=
  mkNode (u "ib") [] (CList [mkNode (u "unified_session") [(u "id", AStr sid)] CNone]).

Definition _send_unified_session (now_ms : Z) : M unit :=
  offset ← p_run (se_asks av_offset_ms);
  sid ← p_lift (py_str_int (session_id (now_ms + offset)));
  logged (frame ← p_lift (encode (unified_session sid) false); send frame).

(** [push_name.replace("@", "")] *)
Definition without_at (s : str) : str := filter (λ c, c ≠ AT) s.

Definition presence_available (name : str) : Node :=
  mkNode (u "presence") [(u "name", AStr (without_at name)); (u "type", AStr (u "available"))] CNone.

Definition _send_presence_available : M unit :=
  match push_name hooks with
  | Some name => if truthy name then logged (frame ← p_lift (encode (presence_available name) false); send frame) else mret tt
  | None => mret tt
  end.

(** A task is only started when none runs. *)
Definition start_ping_loop : SE (Activator S) unit := λ a,
  match av_ping_task a with
  | Some Running => (a, Ok tt)
  | _ => set_ping_task Running a
  end.

(** [now1] and [now2] are what the clock shows in [parse_success] and for the session id. *)
Definition on_success (now1 now2 : Z) (node : Node) : M unit :=
  state ← p_lift (parse_success now1 node);
  _ ← p_run (set_offset (server_time_offset_ms state));
  _ ← match on_state hooks with Some h => logged (p_run (in_hooks (h state))) | None => mret tt end;
  _ ← _send_passive_active;
  _ ← _upload_prekeys_step;
  _ ← _send_unified_session now2;
  _ ← _send_presence_available;
  p_run start_ping_loop.

(** [_app_ping_loop], for as many rounds as given; after them it still runs. *)
Fixpoint _app_ping_loop (rounds : nat) (failures : Z) : M unit :=
  match rounds with
  | O => Ret (Raise OutOfFuel)
  | Datatypes.S rounds =>
      closed ← p_run (se_asks av_closed);
      if closed : bool then mret tt
      else
        _ ← Await Ret;
        closed ← p_run (se_asks av_closed);
        if closed : bool then mret tt
        else
          iq_id ← new_id;
          p_then (λ x, match x with
                       | Ok _ => _app_ping_loop rounds 0
                       | Raise e =>
                           if is_Exception e then
                             let failures := failures + 1 in
                             if max_ping_failures hooks <=? failures then
                               match on_fatal hooks with Some h => p_run (in_hooks (h failures)) | None => mret tt end
                             else _app_ping_loop rounds failures
                           else Ret (Raise e)
                       end)
            (_send_iq (ping_iq iq_id) iq_id)
  end.

(** The task [pywhats-app-ping]. *)
Definition ping_task_body (rounds : nat) : M unit :=
  p_then (λ r, _ ← p_run (set_ping_task Finished); Ret r) (_app_ping_loop rounds 0).

(** [stop]: the task is cancelled and awaited; what that raises is dropped. *)
Definition stop : SE (Activator S) unit :=
  _ ← set_closed;
  t ← se_asks av_ping_task;
  match t with
  | None => mret tt
  | Some Running => set_ping_task Stopped
  | Some _ => mret tt
  end.
End Activator.

(** ** The activation goes on *)

(** A stanza without an answer: its frame is tried, if it can be encoded. *)
Definition send_log {S} (frame : result bytes) (t : list (entry S)) : Prop :=
  match frame with Ok b => ∃ on_wire, t = [Tried b on_wire] | Raise _ => t = [] end.

Section Activation.
Context {U : UnicodeDB} {Zl : Zlib} {S : Type} (hooks : Hooks S).
Implicit Types (a : Activator S) (t : list (entry (Activator S))).

(** A step that is logged is done whatever it raises, unless it is cancelled. *)
Lemma runs_logged (p : proc (Activator S) unit) t r : runs (logged p) t r →
  ∃ x, runs p t x ∧ (r = Ok tt ∨ r = Raise CancelledError).
Proof.
  intros (x & t1 & t2 & -> & H1 & H2)%runs_then. destruct x as [[]|e].
  - apply runs_ret_inv in H2 as [-> ->]. rewrite app_nil_r. eauto.
  - destruct (is_Exception e) eqn:E; apply runs_ret_inv in H2 as [-> ->]; rewrite app_nil_r; [eauto|].
    exists (Raise e). split; [done|]. right. by destruct e.
Qed.

(** A change of the state that may raise. *)
Lemma runs_run {A} (m : SE (Activator S) A) t r : runs (p_run m) t r → ∃ a, t = [Did a (m a).1] ∧ r = (m a).2.
Proof. intros (a & t' & -> & [-> ->]%runs_ret_inv)%runs_act_inv. by exists a. Qed.

Lemma runs_logged_send (frame : result bytes) t r :
  runs (logged (b ← p_lift frame; send b)) t r → send_log frame t ∧ (r = Ok tt ∨ r = Raise CancelledError).
Proof.
  intros (x & H & Hr)%runs_logged. split; [|done]. destruct frame as [b|e]; [|by apply runs_ret_inv in H as [-> _]].
  apply runs_send_inv in H as (w & v & t' & -> & _ & [-> _]%runs_ret_inv). by exists w.
Qed.

Lemma runs_passive t r : runs _send_passive_active t r →
  (t = [Drew (Raise RuntimeError)] ∧ r = Raise RuntimeError) ∨
  ∃ iq_id t1 x, t = Drew (Ok iq_id) :: t1 ∧ iq_log iq_id (encode (passive_iq iq_id) false) t1 x ∧
    (r = Ok tt ∨ r = Raise CancelledError).
Proof.
  intros (x & t' & -> & Hx & H)%runs_id_inv. destruct x as [iq_id|e]; cycle 1.
  { apply runs_ret_inv in H as [-> ->]. destruct Hx as [[= ->]|]; [by left|done]. }
  right. apply runs_logged in H as (y & (x & t1 & t2 & -> & Hl & H)%runs_iq_inv & Hr). exists iq_id, t1, x.
  assert (t2 = []) as -> by (destruct x; by apply runs_ret_inv in H as [-> _]). by rewrite app_nil_r.
Qed.

Lemma runs_upload_step t r : runs (_upload_prekeys_step hooks) t r →
  match upload_prekeys hooks with None => t = [] | Some p => ∃ v, runs (hook_proc p) t v end ∧ (r = Ok tt ∨ r = Raise CancelledError).
Proof.
  unfold _upload_prekeys_step. destruct (upload_prekeys hooks) as [p|]; [|intros [-> ->]%runs_ret_inv; auto].
  intros (x & (v & t1 & t2 & -> & H1 & H2)%runs_then & Hr)%runs_logged. split; [|done]. exists v.
  assert (t2 = []) as -> by (destruct v; by apply runs_ret_inv in H2 as [-> _]). by rewrite app_nil_r.
Qed.

Lemma session_id_range now : 0 <= session_id now < WEEK_MS.
Proof. apply Z.mod_pos_bound. done. Qed.

Lemma session_id_text now : ∃ sid, py_str_int (session_id now) = Ok sid.
Proof.
  assert (is_ok (py_str_int (session_id now)) = true) as H.
  { apply py_str_int_32. pose proof (session_id_range now) as Hr. unfold WEEK_MS in Hr. lia. }
  destruct (py_str_int _) as [sid|]; [by exists sid|done].
Qed.

Lemma runs_unified now t r : runs (_send_unified_session now) t r →
  (∃ a sid t', t = Did a a :: t' ∧ py_str_int (session_id (now + av_offset_ms a)) = Ok sid ∧
     send_log (encode (unified_session sid) false) t') ∧ (r = Ok tt ∨ r = Raise CancelledError).
Proof.
  intros (x & t1 & t2 & -> & (a & -> & ->)%runs_run & H)%runs_bind.
  change (runs (sid ← p_lift (py_str_int (session_id (now + av_offset_ms a)));
    logged (frame ← p_lift (encode (unified_session sid) false); send frame)) t2 r) in H.
  destruct (session_id_text (now + av_offset_ms a)) as [sid Hs].
  assert (send_log (encode (unified_session sid) false) t2 ∧ (r = Ok tt ∨ r = Raise CancelledError)) as [Hw Hr].
  { apply runs_logged_send. revert H Hs. generalize (py_str_int (session_id (now + av_offset_ms a))). intros x H ->. exact H. }
  split; [|exact Hr]. exists a, sid, t2. split; [reflexivity|]. split; [exact Hs|exact Hw].
Qed.

Lemma runs_presence t r : runs (_send_presence_available hooks) t r →
  match push_name hooks with
  | Some name => if truthy name then send_log (encode (presence_available name) false) t else t = []
  | None => t = []
  end ∧ (r = Ok tt ∨ r = Raise CancelledError).
Proof.
  unfold _send_presence_available. destruct (push_name hooks) as [name|]; [destruct (truthy name)|];
    [apply runs_logged_send|intros [-> ->]%runs_ret_inv; auto..].
Qed.

Lemma runs_on_state st t r :
  runs (match on_state hooks with Some h => logged (p_run (in_hooks (h st))) | None => mret tt end) t r →
  match on_state hooks with Some h => ∃ a, t = [Did a (in_hooks (h st) a).1] | None => t = [] end ∧
  (r = Ok tt ∨ r = Raise CancelledError).
Proof.
  destruct (on_state hooks) as [h|]; [|intros [-> ->]%runs_ret_inv; auto].
  intros (x & (a & -> & _)%runs_run & Hr)%runs_logged. eauto.
Qed.

Lemma without_at_ok name : AT ∉ without_at name.
Proof. unfold without_at. rewrite list_elem_of_filter. naive_solver. Qed.

(** Every step of the activation, in order, in its log. *)
Definition every_step (now2 : Z) (st : SuccessState) t : Prop :=
  ∃ a0 th iq_id t1 tu a2 t2 t3 a3,
    t = [Did a0 (set_offset (server_time_offset_ms st) a0).1] ++ th ++ (Drew (Ok iq_id) :: t1) ++ tu ++ (Did a2 a2 :: t2) ++ t3 ++
        [Did a3 (start_ping_loop a3).1] ∧
    match on_state hooks with Some h => ∃ a1, th = [Did a1 (in_hooks (h st) a1).1] | None => th = [] end ∧
    (∃ x, iq_log iq_id (encode (passive_iq iq_id) false) t1 x) ∧
    match upload_prekeys hooks with Some p => ∃ v, runs (hook_proc p) tu v | None => tu = [] end ∧
    (∃ sid, py_str_int (session_id (now2 + av_offset_ms a2)) = Ok sid ∧ send_log (encode (unified_session sid) false) t2) ∧
    match push_name hooks with
    | Some name => if truthy name then (AT ∉ without_at name) ∧ send_log (encode (presence_available name) false) t3 else t3 = []
    | None => t3 = []
    end ∧
    av_ping_task (start_ping_loop a3).1 = Some Running.

Lemma runs_activation now1 now2 node t r : runs (on_success hooks now1 now2 node) t r →
  match parse_success now1 node with
  | Raise e => t = [] ∧ r = Raise e
  | Ok st =>
      match r with
      | Raise e => e = CancelledError ∨ e = RuntimeError ∧ Drew (Raise RuntimeError) ∈ t
      | Ok _ => every_step now2 st t
      end
  end.
Proof.
  unfold on_success. intros (x & t1 & t2 & -> & [-> ->]%runs_ret_inv & H)%runs_bind.
  destruct (parse_success now1 node) as [st|e]; [|by destruct H as [-> ->]].
  apply runs_bind in H as (x & th & t3 & -> & (a0 & -> & ->)%runs_run & H). cbn [set_offset snd] in H.
  apply runs_bind in H as (x & t1 & t2 & -> & [H1 Hx]%runs_on_state & H).
  destruct x as [[]|e]; [|destruct H as [-> ->]; destruct Hx as [|[= ->]]; [done|by left]].
  apply runs_bind in H as (x & tp & t4 & -> & Hp%runs_passive & H).
  destruct Hp as [[-> ->]|(iq_id & ti & xi & -> & Hi & Hx1)].
  { destruct H as [-> ->]. right. split; [done|]. set_solver. }
  destruct x as [[]|e]; [|destruct H as [-> ->]; destruct Hx1 as [|[= ->]]; [done|by left]].
  apply runs_bind in H as (x & tu & t5 & -> & [Hu Hx2]%runs_upload_step & H).
  destruct x as [[]|e]; [|destruct H as [-> ->]; destruct Hx2 as [|[= ->]]; [done|by left]].
  apply runs_bind in H as (x & ts & t6 & -> & [(a2 & sid & t2' & -> & Hs) Hx3]%runs_unified & H).
  destruct x as [[]|e]; [|destruct H as [-> ->]; destruct Hx3 as [|[= ->]]; [done|by left]].
  apply runs_bind in H as (x & tpr & t7 & -> & [Hpr Hx4]%runs_presence & H).
  destruct x as [[]|e]; [|destruct H as [-> ->]; destruct Hx4 as [|[= ->]]; [done|by left]].
  apply runs_run in H as (a3 & -> & ->).
  assert (start_ping_loop a3 = ((start_ping_loop a3).1, Ok tt) ∧ av_ping_task (start_ping_loop a3).1 = Some Running) as [-> Hrun].
  { unfold start_ping_loop. by destruct (av_ping_task a3) as [[]|] eqn:E. }
  exists a0, t1, iq_id, ti, tu, a2, t2', tpr, a3. split; [done|]. split; [exact H1|]. split; [by exists xi|]. split; [exact Hu|].
  split; [by exists sid|]. split; [|exact Hrun].
  destruct (push_name hooks) as [name|]; [|exact Hpr]. destruct (truthy name); [|exact Hpr]. split; [apply without_at_ok|exact Hpr].
Qed.
End Activation.

(** C39: whatever fails on the way, activation does every step. In the log of the system,
    which holds every frame handed to the transport and every change of the state in their
    order, an activation that has ended has done just this, unless it was cancelled, no
    message id could be drawn, or the [<success>] does not parse: it took the server's
    clock, called [on_state] if there is one, drew an id and asked under it to become
    active, ran the pre-key hook if there is one, tried to send the session id that follows
    from the clock it then had, tried to send the presence, without any [@], if there is
    a push name, and left the ping loop running. That a step was refused, could not be
    written or was not answered does not keep it from the next. *)
Theorem activation_goes_on {U : UnicodeDB} {Zl : Zlib} {S : Type} (hooks : Hooks S) (now1 now2 : Z) (node : Node)
    (a : Activator S) (evs : list (event (Activator S) unit)) (i : nat) (r : result unit) :
  let y := sys_run (empty_sys a) evs in
  let log := sys_log (empty_sys a) evs in
  y_tasks y !! i = Some (on_success hooks now1 now2 node, Ended r) →
  (l_wire (y_line y) = on_wire log.*2 ∧ chained a log.*2 (l_state (y_line y))) ∧
  match parse_success now1 node with
  | Raise e => of_task i log = [] ∧ r = Raise e
  | Ok st =>
      match r with
      | Raise e => e = CancelledError ∨ e = RuntimeError ∧ Drew (Raise RuntimeError) ∈ of_task i log
      | Ok _ => every_step hooks now2 st (of_task i log)
      end
  end.
Proof.
  intros y log H. split; [exact (log_is_system (empty_sys a) evs)|]. exact (runs_activation _ _ _ _ _ _ (ended_runs _ _ _ _ _ H)).
Qed.

(** ** The keepalive *)

Section Ping.
Context {U : UnicodeDB} {Zl : Zlib} {S : Type}.

(** The program alone: every id is drawn, every send and sleep succeeds, and its iqs end as
    [xs] says, in turn; [None] when it waits for one more. *)
Fixpoint drive {A} (p : proc S A) (xs : list (result Node)) (s : S) : S * option (result A) :=
  match p with
  | Ret r => (s, Some r)
  | Act f k => drive (k s) xs (f s)
  | NewId k => drive (k (Ok [])) xs s
  | Iq _ _ _ k => match xs with x :: xs => drive (k x) xs s | [] => (s, None) end
  | Send _ k => drive (k (Ok tt)) xs s
  | Await k => drive (k (Ok [])) xs s
  end.

(** How many of the last pings failed. *)
Fixpoint failing (xs : list (result Node)) : Z :=
  match xs with Raise _ :: xs => 1 + failing xs | _ => 0 end.
Definition consecutive_failures (xs : list (result Node)) : Z := failing (reverse xs).

Lemma consecutive_snoc xs x :
  consecutive_failures (xs ++ [x]) = match x with Ok _ => 0 | Raise _ => consecutive_failures xs + 1 end.
Proof. unfold consecutive_failures. rewrite reverse_app. destruct x; cbn; lia. Qed.
End Ping.

Section PingLoop.
Context {U : UnicodeDB} {Zl : Zlib} {S : Type} (hooks : Hooks S).
Implicit Types (a : Activator S).

(** One round, when the activator is not closed. *)
Lemma ping_round rounds failures x xs a : av_closed a = false →
  drive (_app_ping_loop hooks (Datatypes.S rounds) failures) (x :: xs) a =
    match x with
    | Ok _ => drive (_app_ping_loop hooks rounds 0) xs a
    | Raise e =>
        if is_Exception e then
          if max_ping_failures hooks <=? failures + 1 then
            drive (match on_fatal hooks with Some h => p_run (in_hooks (h (failures + 1))) | None => mret tt end) xs a
          else drive (_app_ping_loop hooks rounds (failures + 1)) xs a
        else (a, Some (Raise e))
    end.
Proof.
  intros Hc. cbn. rewrite Hc. cbn. rewrite Hc. cbn. destruct x as [n|e]; [done|].
  destruct (is_Exception e); [|done]. by destruct (max_ping_failures hooks <=? failures + 1).
Qed.

Lemma ping_wait rounds failures a : av_closed a = false → drive (_app_ping_loop hooks (Datatypes.S rounds) failures) [] a = (a, None).
Proof. intros Hc. cbn. rewrite Hc. cbn. by rewrite Hc. Qed.

(** Below the limit, the loop knows how many of the last pings failed. *)
Lemma ping_below h xs rest rounds a : av_closed a = false →
  Forall (λ x, ∀ e, x = Raise e → is_Exception e = true) xs →
  (∀ k, (0 < k <= length xs)%nat → consecutive_failures (h ++ take k xs) < max_ping_failures hooks) →
  drive (_app_ping_loop hooks (length xs + rounds) (consecutive_failures h)) (xs ++ rest) a =
    drive (_app_ping_loop hooks rounds (consecutive_failures (h ++ xs))) rest a.
Proof.
  intros Hc Hx. revert h. induction Hx as [|x xs Hx Hxs IH]; intros h Hb; [by rewrite app_nil_r|].
  assert (consecutive_failures (h ++ [x]) < max_ping_failures hooks) as Hb1 by (apply (Hb 1%nat); cbn; lia).
  cbn [length Nat.add app]. rewrite ping_round by done. rewrite cons_middle, app_assoc.
  rewrite <-(IH (h ++ [x])).
  - rewrite !consecutive_snoc in *. destruct x as [n|e]; [done|]. rewrite (Hx e eq_refl).
    by rewrite (proj2 (Z.leb_gt _ _)) by lia.
  - intros k Hk. rewrite <-app_assoc. apply (Hb (Datatypes.S k)). cbn. lia.
Qed.

End PingLoop.

(** C20: the keepalive gives up exactly when it must: as long as no [max_ping_failures] pings
    in a row have failed it goes on pinging and changes nothing; at the first moment that
    they have, it calls [on_fatal] once, with that number, and ends, whatever would have
    followed; one answered ping starts the count again. *)
Theorem keepalive_gives_up {U : UnicodeDB} {Zl : Zlib} {S : Type} (hooks : Hooks S) (a : Activator S) (xs : list (result Node)) :
  av_closed a = false → 1 <= max_ping_failures hooks → Forall (λ x, ∀ e, x = Raise e → is_Exception e = true) xs →
  ((∀ k, (k <= length xs)%nat → consecutive_failures (take k xs) < max_ping_failures hooks) →
     drive (_app_ping_loop hooks (Datatypes.S (length xs)) 0) xs a = (a, None)) ∧
  (∀ k, (k <= length xs)%nat → max_ping_failures hooks <= consecutive_failures (take k xs) →
     (∀ j, (j < k)%nat → consecutive_failures (take j xs) < max_ping_failures hooks) →
     drive (_app_ping_loop hooks (length xs) 0) xs a =
       match on_fatal hooks with
       | Some h => let '(a', r) := in_hooks (h (max_ping_failures hooks)) a in (a', Some r)
       | None => (a, Some (Ok tt))
       end).
Proof.
  intros Hc Hm Hx. split.
  - intros Hb. pose proof (ping_below hooks [] xs [] 1 a Hc Hx) as H. rewrite app_nil_r, Nat.add_1_r in H. cbn [app] in H.
    change (consecutive_failures []) with 0 in H. rewrite H by (intros k Hk; apply Hb; lia). by apply ping_wait.
  - intros [|k] Hk Hf Hb; [change (max_ping_failures hooks <= 0) in Hf; lia|]. destruct (lookup_lt_is_Some_2 xs k) as [x Ex]; [lia|].
    pose proof (take_S_r _ _ _ Ex) as Et. rewrite Et, consecutive_snoc in Hf. pose proof (Hb k ltac:(lia)) as Hk'.
    destruct x as [n|e]; [lia|]. pose proof (Forall_lookup_1 _ _ _ _ Hx Ex e eq_refl) as He.
    rewrite <-(take_drop_middle _ _ _ Ex) at 2.
    pose proof (ping_below hooks [] (take k xs) (Raise e :: drop (Datatypes.S k) xs) (length xs - k) a Hc) as H.
    rewrite length_take, Nat.min_l in H by lia. replace (k + (length xs - k))%nat with (length xs) in H by lia.
    change (consecutive_failures []) with 0 in H. cbn [app] in H. rewrite H; cycle 1.
    + by apply Forall_take.
    + intros j Hj. rewrite take_take. apply Hb. lia.
    + replace (length xs - k)%nat with (Datatypes.S (length xs - Datatypes.S k)) by lia. rewrite ping_round, He by done.
      assert (consecutive_failures (take k xs) + 1 = max_ping_failures hooks) as -> by lia. rewrite Z.leb_refl.
      destruct (on_fatal hooks) as [h|]; [|done]. cbn. by destruct (in_hooks (h (max_ping_failures hooks)) a).
Qed.

Module ActivatorDemo.
#[local] Existing Instances latin1_ucd stored_zlib.

Definition hooks : Hooks (list Z) :=
  mkHooks _ (Some (u "Bob@home")) (Some (λ st s, (s ++ [server_time_offset_ms st], Ok tt))) None 2 (Some (λ n s, (s ++ [n], Ok tt))).
Definition success : Node := mkNode (u "success") [(u "t", AStr (u "10")); (u "lid", AStr (u "7@lid"))] CNone.
Definition idle : Activator (list Z) := mkActivator 0 false None [].

(** The first iq times out, the session id cannot be sent, the presence can. *)
Definition bumpy : list (event (Activator (list Z)) unit) :=
  [ Spawn (on_success hooks 9000 9500 success) [(0, [replicate 8 (mkb 1)])];
    Resume 0 (SendEnds true (Ok tt)) []; Resume 0 TimedOut [];
    Resume 0 (SendEnds false (Raise ConnectionClosed)) []; Resume 0 (SendEnds true (Ok tt)) [] ].

(** What the bumpy activation did: the iq, the session id that was lost, the presence. *)
Lemma activation_goes_on_witness :
  let log := sys_log (empty_sys idle) bumpy in
  every_step hooks 9500 (mkSuccess 1000 (Some (u "7@lid")) (Some 10)) (of_task 0 log) ∧
  (omap (λ e, match e with Tried _ w => Some w | _ => None end) (of_task 0 log) = [true; false; true]) ∧
  length (l_wire (y_line (sys_run (empty_sys idle) bumpy))) = 2%nat ∧
  av_ping_task (l_state (y_line (sys_run (empty_sys idle) bumpy))) = Some Running ∧
  av_hooks (l_state (y_line (sys_run (empty_sys idle) bumpy))) = [1000].
Proof.
  assert (y_tasks (sys_run (empty_sys idle) bumpy) !! 0%nat = Some (on_success hooks 9000 9500 success, Ended (Ok tt))) as H
    by (apply task_at; [reflexivity|vm_compute; reflexivity]).
  apply activation_goes_on in H as [_ H]. intros log.
  assert (parse_success 9000 success = Ok (mkSuccess 1000 (Some (u "7@lid")) (Some 10))) as E by (vm_compute; reflexivity).
  rewrite E in H. split; [exact H|]. split_and!; vm_compute; reflexivity.
Defined.

Lemma keepalive_gives_up_witness :
  let fail := Raise (A := Node) TimeoutError in
  let answered := Ok (mkNode (u "iq") [] CNone) in
  drive (_app_ping_loop hooks 4 0) [fail; answered; fail; fail] idle = (mkActivator 0 false None [2], Some (Ok tt)).
Proof.
  intros fail answered. refine (proj2 (keepalive_gives_up hooks idle [fail; answered; fail; fail] _ _ _) 4%nat _ _ _); try done.
  - repeat constructor; by intros ? [= <-].
  - intros j Hj. do 4 (destruct j as [|j]; [done|]). lia.
Defined.
End ActivatorDemo.
