(* ===== verification/History.v ===== *)
(** * History sync ([src/src/pywhats/history.py], [proto/history_sync.proto])

    The phone points at an encrypted blob with a chunk of chat history; the client downloads,
    inflates and parses it, and emits a summary. *)

From S2P Require Import Prelude PyStr Jid Node Encoder Crypto SignalTypes Prekey Codec Sha256 Media Messages.
#[local] Open Scope Z_scope.

(** ** The messages; the body of a message is opaque. *)

Record HistorySyncMsg := mkHistoryMsg { hm_message : option bytes; hm_msg_order_id : option Z }.

Record Conversation := mkConversation {
  cv_id : option str; cv_messages : list HistorySyncMsg; cv_name : option str;
  cv_last_msg_timestamp : option Z; cv_unread_count : option Z }.

Record Pushname := mkPushname { pn_id : option str; pn_pushname : option str }.

Record HistorySyncProto := mkHistoryProto {
  hp_sync_type : option Z; hp_conversations : list Conversation; hp_chunk_order : option Z;
  hp_progress : option Z; hp_pushnames : list Pushname }.

(** The generated codec. *)
Class HistoryCodec := {
  ser_HistorySync : HistorySyncProto → bytes;
  parse_HistorySync : bytes → result HistorySyncProto }.

(** The values that the fields of [history_sync.proto] can hold: the enum is an [int32], numbers
    are [uint32] or [uint64], a [string] is Unicode text. *)
Definition opt_fits {A} (f : A → bool) (o : option A) : bool := from_option f true o.

Definition conversation_fits (c : Conversation) : bool :=
  opt_fits scalar_str (cv_id c) && forallb (λ x, opt_fits uint64 (hm_msg_order_id x)) (cv_messages c) &&
  opt_fits scalar_str (cv_name c) && opt_fits uint64 (cv_last_msg_timestamp c) && opt_fits uint32 (cv_unread_count c).

Definition pushname_fits (p : Pushname) : bool := opt_fits scalar_str (pn_id p) && opt_fits scalar_str (pn_pushname p).

Definition history_fits (h : HistorySyncProto) : bool :=
  opt_fits int32 (hp_sync_type h) && forallb conversation_fits (hp_conversations h) &&
  opt_fits uint32 (hp_chunk_order h) && opt_fits uint32 (hp_progress h) && forallb pushname_fits (hp_pushnames h).

(** What the generated parser makes of what a generated serialiser (the phone's) wrote. *)
Class HistoryCodecLaws (C : HistoryCodec) : Prop := {
  parse_ser_HistorySync h : history_fits h = true → parse_HistorySync (ser_HistorySync h) = Ok h }.

(** [HistorySyncType.keys()] *)
Definition _SYNC_TYPE_NAMES : list str :=
  u <$> ["INITIAL_BOOTSTRAP"; "INITIAL_STATUS_V3"; "FULL"; "RECENT"; "PUSH_NAME"; "NON_BLOCKING_DATA"; "ON_DEMAND"]%string.

(** The event. *)
Record HistorySync := mkHistorySync {
  hs_sync_type : str; hs_progress : Z; hs_chunk_order : Z; hs_conversation_count : Z; hs_message_count : Z;
  hs_conversation_ids : list str; hs_pushnames : list (str * str) }.

(** [l[i]]: a negative index counts from the end. *)
Definition py_index {A} (l : list A) (i : Z) : result A :=
  let j := if i <? 0 then i + Z.of_nat (length l) else i in
  if j <? 0 then Raise IndexError else some_or (l !! Z.to_nat j) IndexError.

Definition _sync_type_name (value : Z) : result str :=
  match py_index _SYNC_TYPE_NAMES value with
  | Ok name => Ok name
  | Raise e => if bool_decide (e = IndexError ∨ e = TypeError) then py_str_int value else Raise e
  end.

Definition sum_messages (l : list Conversation) : Z :=
  foldr (λ c n, Z.of_nat (length (cv_messages c)) + n) 0 l.

Section History.
Context {U : UnicodeDB} {Zl : Zlib} {C : HistoryCodec}.

(** The summary of a parsed chunk. *)
Definition summary (hs : HistorySyncProto) : result HistorySync :=
  sync_type ← _sync_type_name (default 0 (hp_sync_type hs));
  Ok (mkHistorySync sync_type (default 0 (hp_progress hs)) (default 0 (hp_chunk_order hs))
        (Z.of_nat (length (hp_conversations hs))) (sum_messages (hp_conversations hs))
        ((λ c, default [] (cv_id c)) <$> hp_conversations hs)
        ((λ p, (default [] (pn_id p), default [] (pn_pushname p))) <$> hp_pushnames hs)).

Definition parse_history_sync (compressed : bytes) : result HistorySync :=
  raw ← zlib_decompress compressed;
  hs ← parse_HistorySync raw;
  summary hs.

Context {HK : Hkdf} {AES : AesCbc}.
Context (send_iq : Node → result Node) (http_get : str → result bytes).

(** The downloader's cached connection and the events emitted so far. *)
Record HistorySyncer := mkHistorySyncer { sy_conn : option MediaConn; sy_events : list HistorySync }.

Definition notification_info (notif : HistorySyncNotification) : MediaInfo :=
  mkMediaInfo (default [] (hn_direct_path notif)) (default [] (hn_media_key notif)) (default [] (hn_file_sha256 notif))
    (default [] (hn_file_enc_sha256 notif)) MEDIA_HISTORY [].

Definition sy_download (iq_id : str) (info : MediaInfo) : SE HistorySyncer bytes := λ s,
  let '(conn, r) := download send_iq http_get iq_id info (sy_conn s) in (mkHistorySyncer conn (sy_events s), r).

Definition sy_emit (ev : HistorySync) : SE HistorySyncer unit := λ s, (mkHistorySyncer (sy_conn s) (sy_events s ++ [ev]), Ok tt).

(** [HistorySyncer.handle]; [iq_id] is the id of the [media_conn] query, if one is sent. *)
Definition handle (iq_id : str) (notif : HistorySyncNotification) : SE HistorySyncer unit :=
  event ← se_try (blob ← sy_download iq_id (notification_info notif); ev ← se_lift (parse_history_sync blob); mret (Some ev))
            is_Exception (λ _, mret None);
  match event with Some ev => sy_emit ev | None => mret tt end.
End History.

(** ** The name of the sync type *)

Lemma sync_type_known v : 0 <= v < 7 → ∃ name, _SYNC_TYPE_NAMES !! Z.to_nat v = Some name ∧ _sync_type_name v = Ok name.
Proof.
  intros Hv. destruct (lookup_lt_is_Some_2 _SYNC_TYPE_NAMES (Z.to_nat v)) as [name Hn]; [change (Z.to_nat v < 7)%nat; lia|]. exists name. split; [done|].
  unfold _sync_type_name, py_index. rewrite !(proj2 (Z.ltb_ge v 0)) by lia. by rewrite Hn.
Qed.

(** A value that the enum does not have is its number only from 7 up or below -7: negative
    values index the names from the end. *)
Lemma negative_type_misnamed : _sync_type_name (-1) = Ok (u "ON_DEMAND") ∧ _sync_type_name 7 = Ok (u "7").
Proof. split; vm_compute; reflexivity. Qed.

(** An [int32] always has a name. *)
Lemma sync_type_total v : - 2 ^ 31 <= v < 2 ^ 31 → is_ok (_sync_type_name v) = true.
Proof.
  intros Hv. unfold _sync_type_name. destruct (py_index _ v) as [name|e] eqn:E; [done|].
  assert (e = IndexError) as ->.
  { unfold py_index in E. destruct (_ <? 0); [by simplify_eq|]. destruct (_ !! _); by simplify_eq/=. }
  cbn. unfold py_str_int. pose proof (py_str_int_32 (Z.abs v) ltac:(lia)) as H. unfold py_str_int in H.
  rewrite Z.abs_idemp in H. by destruct (_ <? _).
Qed.

Lemma fits_sync_type hs : history_fits hs = true → - 2 ^ 31 <= default 0 (hp_sync_type hs) < 2 ^ 31.
Proof.
  unfold history_fits. intros H. do 4 apply andb_true_iff in H as [H _]. revert H.
  destruct (hp_sync_type hs) as [v|]; cbn; [|lia]. unfold int32. intros H. zbool. lia.
Qed.

Lemma sum_messages_spec l : sum_messages l = Z.of_nat (sum_list_with (λ c, length (cv_messages c)) l).
Proof. unfold sum_messages. induction l as [|c l IH]; [done|]. cbn [foldr]. rewrite IH. cbn. lia. Qed.

(** ** A chunk arrives *)

Section Arrives.
Context {H : Hkdf} {HL : HkdfLaws H} {A : AesCbc} {AL : AesCbcLaws A} {U : UnicodeDB}.

(** The first host that has the file gives it. *)
Lemma try_hosts_finds http_get info mms p before host after : ∀ last,
  head (mi_direct_path info) = Some SLASH → host_gives http_get info mms host = Ok p →
  Forall (λ h, is_ok (host_gives http_get info mms h) = false) before →
  try_hosts http_get (before ++ host :: after) info mms last = Ok p.
Proof.
  intros last Hp Hh Hb. assert (∀ h, ∃ url, build_download_url h (mi_direct_path info) (mi_file_enc_sha256 info) mms = Ok url) as Hurl.
  { intros h. unfold build_download_url. rewrite bool_decide_true by done. cbn [negb]. eauto. }
  revert last. induction Hb as [|h hosts Hbad Hb IH]; intros last; cbn [try_hosts app].
  - destruct (Hurl host) as [url Hu]. unfold host_gives in Hh. rewrite Hu in Hh |- *. cbn -[decrypt_media] in Hh |- *. by rewrite Hh.
  - destruct (Hurl h) as [url Hu]. unfold host_gives in Hbad. rewrite Hu in Hbad |- *. cbn -[decrypt_media] in Hbad |- *.
    destruct (enc_file ← http_get url; _) as [q|e]; [done|]. apply IH.
Qed.
End Arrives.

Lemma download_first {H : Hkdf} {A : AesCbc} {U : UnicodeDB} send_iq http_get iq_id info p conn conn' mc before host after :
  head (mi_direct_path info) = Some SLASH → mi_mms_type info = [] → _media_conn send_iq iq_id conn = (conn', Ok mc) →
  mc_hosts mc = before ++ host :: after →
  Forall (λ h, is_ok (host_gives http_get info (default [] (dict_get (mi_media_type info) MMS_TYPE)) h) = false) before →
  host_gives http_get info (default [] (dict_get (mi_media_type info) MMS_TYPE)) host = Ok p →
  download send_iq http_get iq_id info conn = (conn', Ok p).
Proof.
  intros Hp Hm Hc Hh Hb Hg. unfold download. rewrite (se_bind_eq _ _ _ _ _ Hc), Hm, Hh. unfold se_lift. cbn [truthy].
  by rewrite (try_hosts_finds http_get info _ p before host after None Hp Hg Hb).
Qed.

(** What goes wrong stays inside: the handler does not raise unless it is cancelled, and
    emits one event at most, the summary of a blob that was downloaded. *)
Lemma history_faults_contained {U : UnicodeDB} {Zl : Zlib} {C : HistoryCodec} {HK : Hkdf} {AES : AesCbc}
    send_iq http_get iq_id notif s s1 r1 :
  handle send_iq http_get iq_id notif s = (s1, r1) →
  (r1 = Ok tt ∨ r1 = Raise CancelledError) ∧
  (sy_events s1 = sy_events s ∨ ∃ conn blob ev, download send_iq http_get iq_id (notification_info notif) (sy_conn s) = (conn, Ok blob) ∧
     parse_history_sync blob = Ok ev ∧ sy_events s1 = sy_events s ++ [ev]).
Proof.
  unfold handle, sy_download. intros H. unfold mbind, se_bind, se_try in H.
  destruct (download send_iq http_get iq_id (notification_info notif) (sy_conn s)) as [conn [blob|e]] eqn:Ed; cycle 1.
  { destruct (is_Exception e) eqn:Ee; cbn in H; injection H as <- <-; (split; [|by left]); [by left|]. right. by destruct e. }
  cbn in H. destruct (parse_history_sync blob) as [ev|e] eqn:Ep; cbn in H.
  - injection H as <- <-. split; [by left|]. right. by exists conn, blob, ev.
  - destruct (is_Exception e) eqn:Ee; cbn in H; injection H as <- <-; (split; [|by left]); [by left|]. right. by destruct e.
Qed.

(** C40: a chunk of history arrives: what the phone serialised, compressed and encrypted, and
    put where its notification says, is what the handler summarises in one event, as soon
    as one host has the file: the name of its sync type, its progress and place, the number
    of conversations and messages, the ids and the push names. The values are those the
    fields can hold. Meanwhile another notification, whatever is
    wrong with it, makes the handler neither raise nor emit more than one event. *)
Theorem history_arrives {H : Hkdf} {HL : HkdfLaws H} {A : AesCbc} {AL : AesCbcLaws A} {U : UnicodeDB} {Zl : Zlib} {ZL : ZlibLaws Zl}
    {C : HistoryCodec} {CL : HistoryCodecLaws C} (send_iq : Node → result Node) (http_get : str → result bytes) (iq_id : str)
    (s : HistorySyncer) (hs : HistorySyncProto) (key : bytes) (em : EncryptedMedia) (path : str)
    (conn : option MediaConn) (mc : MediaConn) (before : list str) (host : str) (after : list str)
    (other : HistorySyncNotification) :
  history_fits hs = true →
  encrypt_media (zlib_compress (ser_HistorySync hs)) MEDIA_HISTORY key = Ok em →
  let sent := mkHistoryNotification (Some (em_file_sha256 em)) (Some key) (Some (em_file_enc_sha256 em)) (Some path) in
  let mms := default [] (dict_get MEDIA_HISTORY MMS_TYPE) in
  head path = Some SLASH → _media_conn send_iq iq_id (sy_conn s) = (conn, Ok mc) → mc_hosts mc = before ++ host :: after →
  Forall (λ h, is_ok (host_gives http_get (notification_info sent) mms h) = false) before →
  (url ← build_download_url host path (em_file_enc_sha256 em) mms; http_get url) = Ok (em_enc_data em) →
  (∃ ev, handle send_iq http_get iq_id sent s = (mkHistorySyncer conn (sy_events s ++ [ev]), Ok tt) ∧
     _sync_type_name (default 0 (hp_sync_type hs)) = Ok (hs_sync_type ev) ∧
     hs_progress ev = default 0 (hp_progress hs) ∧ hs_chunk_order ev = default 0 (hp_chunk_order hs) ∧
     hs_conversation_count ev = Z.of_nat (length (hp_conversations hs)) ∧
     hs_message_count ev = Z.of_nat (sum_list_with (λ c, length (cv_messages c)) (hp_conversations hs)) ∧
     hs_conversation_ids ev = (default [] ∘ cv_id) <$> hp_conversations hs ∧
     hs_pushnames ev = (λ p, (default [] (pn_id p), default [] (pn_pushname p))) <$> hp_pushnames hs) ∧
  let '(s1, r1) := handle send_iq http_get iq_id other s in
  (r1 = Ok tt ∨ r1 = Raise CancelledError) ∧ (sy_events s1 = sy_events s ∨ ∃ ev, sy_events s1 = sy_events s ++ [ev]).
Proof.
  intros Hf He sent mms Hp Hc Hh Hb Hg. pose proof (fits_sync_type hs Hf) as Ht. split.
  - destruct (_sync_type_name (default 0 (hp_sync_type hs))) as [name|] eqn:En; [|by apply sync_type_total in Ht; rewrite En in Ht].
    assert (download send_iq http_get iq_id (notification_info sent) (sy_conn s) = (conn, Ok (zlib_compress (ser_HistorySync hs)))) as Hd.
    { assert (host_gives http_get (notification_info sent) mms host = Ok (zlib_compress (ser_HistorySync hs))) as Hgives.
      { apply bind_Ok_inv in Hg as (url & Hu & Hg). unfold host_gives.
        change (mi_direct_path (notification_info sent)) with path.
        change (mi_file_enc_sha256 (notification_info sent)) with (em_file_enc_sha256 em).
        rewrite Hu. cbn -[decrypt_media]. rewrite Hg. cbn -[decrypt_media]. by apply decrypt_encrypted. }
      exact (download_first _ _ _ (notification_info sent) _ _ _ _ _ _ _ Hp eq_refl Hc Hh Hb Hgives). }
    destruct (summary hs) as [ev|] eqn:Es; unfold summary in Es; rewrite En in Es; [|done]. injection Es as <-. eexists. split.
    { unfold handle, sy_download, mbind, se_bind, se_try. rewrite Hd. cbn [se_lift mret]. unfold parse_history_sync, summary.
      rewrite zlib_roundtrip. cbn [mbind result_bind]. rewrite (parse_ser_HistorySync hs Hf). cbn [mbind result_bind]. rewrite En. reflexivity. }
    split_and!; [reflexivity..|apply sum_messages_spec|reflexivity|reflexivity].
  - destruct (handle send_iq http_get iq_id other s) as [s1 r1] eqn:E.
    apply history_faults_contained in E as [Hr [|(? & ? & ev & _ & _ & ?)]]; (split; [exact Hr|]); [by left|]. right. by exists ev.
Qed.

(** ** A concrete codec: the chunk as a tree, and the tree's number in binary. *)

Module ToyHistory.
Import ToyCodec.

Definition t_msg '(mkHistoryMsg a b) : tree := GenNode 0 [lf (LB a); lf (LZ b)].
Definition of_msg (t : tree) : option HistorySyncMsg :=
  match t with GenNode 0 [lf (LB a); lf (LZ b)] => Some (mkHistoryMsg a b) | _ => None end.

Definition t_conversation '(mkConversation a l b c d) : tree :=
  GenNode 0 [lf (LS a); GenNode 0 (t_msg <$> l); lf (LS b); lf (LZ c); lf (LZ d)].
Definition of_conversation (t : tree) : option Conversation :=
  match t with
  | GenNode 0 [lf (LS a); GenNode 0 l; lf (LS b); lf (LZ c); lf (LZ d)] =>
      l ← mapM of_msg l; Some (mkConversation a l b c d)
  | _ => None
  end.

Definition t_pushname '(mkPushname a b) : tree := GenNode 0 [lf (LS a); lf (LS b)].
Definition of_pushname (t : tree) : option Pushname :=
  match t with GenNode 0 [lf (LS a); lf (LS b)] => Some (mkPushname a b) | _ => None end.

Definition t_chunk '(mkHistoryProto a l b c p) : tree :=
  GenNode 0 [lf (LZ a); GenNode 0 (t_conversation <$> l); lf (LZ b); lf (LZ c); GenNode 0 (t_pushname <$> p)].
Definition of_chunk (t : tree) : option HistorySyncProto :=
  match t with
  | GenNode 0 [lf (LZ a); GenNode 0 l; lf (LZ b); lf (LZ c); GenNode 0 p] =>
      l ← mapM of_conversation l; p ← mapM of_pushname p; Some (mkHistoryProto a l b c p)
  | _ => None
  end.

Lemma mapM_inverse {A B} (f : A → B) (g : B → option A) l : (∀ x, g (f x) = Some x) → mapM g (f <$> l) = Some l.
Proof. intros H. induction l as [|x l IH]; [done|]. cbn. rewrite H. cbn. by rewrite IH. Qed.

Lemma of_t_chunk h : of_chunk (t_chunk h) = Some h.
Proof.
  destruct h as [a l b c p]. cbn. rewrite (mapM_inverse t_conversation of_conversation), (mapM_inverse t_pushname of_pushname); [done|by intros []|].
  intros [? m ? ? ?]. cbn. rewrite (mapM_inverse t_msg of_msg); [done|by intros []].
Qed.

Definition toy_history : HistoryCodec := {|
  ser_HistorySync h := bytes_of_pos (countable.encode (t_chunk h));
  parse_HistorySync b := some_or (countable.decode (pos_of_bytes b) ≫= of_chunk) ProtobufError
|}.

Lemma toy_history_laws : HistoryCodecLaws toy_history.
Proof. split. intros h _. cbn. by rewrite pos_of_bytes_of, countable.decode_encode; cbn; rewrite of_t_chunk. Qed.
End ToyHistory.

Module HistoryDemo.
Import ToyHistory.
#[local] Existing Instances toy_hkdf toy_hkdf_laws toy_aes toy_aes_laws latin1_ucd stored_zlib stored_zlib_laws ToyHistory.toy_history.

Definition chunk : HistorySyncProto :=
  mkHistoryProto (Some 3) [mkConversation (Some (u "1")) [mkHistoryMsg (Some [mkb 1]) (Some 7); mkHistoryMsg (Some [mkb 2]) None] None None None] (Some 1) (Some 100)
    [mkPushname (Some (u "2")) (Some (u "B"))].
Definition blob : EncryptedMedia := Eval vm_compute in ok_or (mkEncrypted [] [] [] [] 0)
  (encrypt_media (zlib_compress (ser_HistorySync chunk)) MEDIA_HISTORY (replicate 32 (mkb 7))).
(** The first host is down. *)
Definition http_get (url : str) : result bytes :=
  if bool_decide (take 9 url = u "https://d") then Raise ConnectionClosed else Ok (em_enc_data blob).
Definition no_iq (_ : Node) : result Node := Raise RuntimeError.
Definition conn : MediaConn := mkMediaConn [u "dead.example"; u "mmg.example"] [] 0.
Definition sent : HistorySyncNotification :=
  mkHistoryNotification (Some (em_file_sha256 blob)) (Some (replicate 32 (mkb 7))) (Some (em_file_enc_sha256 blob)) (Some (u "/h")).

Lemma history_arrives_witness : ∃ ev,
  handle no_iq http_get (u "1") sent (mkHistorySyncer (Some conn) []) = (mkHistorySyncer (Some conn) [ev], Ok tt) ∧
  hs_sync_type ev = u "RECENT" ∧ hs_message_count ev = 2 ∧ hs_pushnames ev = [(u "2", u "B")].
Proof.
  destruct (history_arrives (CL := toy_history_laws) no_iq http_get (u "1") (mkHistorySyncer (Some conn) []) chunk (replicate 32 (mkb 7)) blob
    (u "/h") (Some conn) conn [u "dead.example"] (u "mmg.example") [] sent) as [(ev & Hh & Ht & _ & _ & _ & Hm & _ & Hp) _].
  - vm_compute. reflexivity.
  - vm_compute. reflexivity.
  - reflexivity.
  - reflexivity.
  - reflexivity.
  - constructor; [vm_compute; reflexivity|constructor].
  - vm_compute. reflexivity.
  - exists ev. split; [exact Hh|]. split; [injection Ht as <-; reflexivity|]. split; [rewrite Hm; reflexivity|]. rewrite Hp. reflexivity.
Defined.
End HistoryDemo.
