(* ===== verification/Client.v ===== *)
(** * The client ([src/src/pywhats/client.py])

    The connection's life (pairing, login, the background reader, the keepalive's verdict,
    [disconnect]) as operations on the client's attributes, and the public calls, which
    are guarded by them and go to the components of the live connection, here the
    interface [Wires]. *)

From S2P Require Import Prelude Effects PyStr Jid Node Encoder Codec Json Crypto SignalKeys X3dh Media Messages Stanzas AppPatches AppEvents.
From S2P Require Import SessionStore DeviceStore Pairing PairingProofs Activator.
#[local] Open Scope Z_scope.

(** ** Its state *)

(** Tasks of their own that the reader starts for a stanza ([asyncio.create_task] in
    [receiver.py]) and that hand events to the client's handlers. *)
Inductive sync_task := HistoryTask | ServerSyncTask.
#[export] Instance sync_task_eq : EqDecision sync_task. Proof. solve_decision. Defined.

(** [EvReceived] are the events of a stanza that the reader emits itself, [EvSynced] those of
    the task of that number. *)
Inductive ClientEvent := EvQr (payload : str) | EvPaired (jid : JID) | EvConnected | EvDisconnected
  | EvReceived (name : str) | EvSynced (task : nat) (name : str).
#[export] Instance ClientEvent_eq : EqDecision ClientEvent. Proof. solve_decision. Defined.

(** The background task of a login. *)
Inductive bg_task := BgCreated | BgRunning | BgDone.
#[export] Instance bg_task_eq : EqDecision bg_task. Proof. solve_decision. Defined.

(** What a call of [connect] leaves in the event loop: its socket, its reader. *)
Record Login := mkLogin { lg_sock_open : bool; lg_bg : option bg_task }.

(** [session_path], with what [pathlib] makes of it. *)
Record SessionPath := mkPath { sp_path : str; sp_file : str; sp_parent : str }.

(** The attributes that hold an object of a connection name it by its number in [c_logins];
    [h_wired] are those that [_install_messaging] sets and nothing clears: [_sender],
    [_send_iq], the media and sync objects. [h_fatal] is a close task that has not run. *)
Record Handles := mkHandles {
  h_sock : option nat; h_transport : option nat; h_receiver : option nat; h_activator : option nat;
  h_signal_store : option nat; h_bg_task : option nat; h_fatal : option nat; h_wired : option nat }.

Definition no_handles : Handles := mkHandles None None None None None None None None.

Record Client := mkClient {
  c_session_path : option SessionPath; c_device : option DeviceStore; c_connected : bool; c_closed : bool;
  c_handles : Handles; c_logins : list Login; c_disk : Disk; c_events : list ClientEvent;
  c_tasks : list (sync_task * bool)     (* started so far, and whether they still run *) }.

(** How the calls of a login end: opening the websocket, the handshake, the SQLite file. *)
Record LoginCalls := mkLoginCalls { li_connect : result unit; li_handshake : result unit; li_store : result unit }.

(** Those of a pairing, with what it draws and what arrives. *)
Record PairCalls := mkPairCalls {
  pa_connect : result unit; pa_handshake : result unit;
  pa_sk_identity : bytes; pa_sk_spk : bytes; pa_sk_noise : bytes; pa_reg : bytes; pa_now : str; pa_random_z : bytes;
  pa_adv_secret : bytes; pa_start : Z; pa_done : nat → bool; pa_rounds : list Round;
  pa_save : SaveCalls; pa_names : list str; pa_login : LoginCalls }.

Section Life.
Context {P : PairingProto} {X : X25519} {E : XEdDSA} {HM : Hmac} {M5 : Md5} {U : UnicodeDB} {Zl : Zlib} {F : FloatOps} {R : JsonRepr}.

#[local] Abbreviation M := (SE Client).

Definition set_device (d : option DeviceStore) : M unit := λ c,
  (mkClient (c_session_path c) d (c_connected c) (c_closed c) (c_handles c) (c_logins c) (c_disk c) (c_events c) (c_tasks c), Ok tt).
Definition set_connected (b : bool) : M unit := λ c,
  (mkClient (c_session_path c) (c_device c) b (c_closed c) (c_handles c) (c_logins c) (c_disk c) (c_events c) (c_tasks c), Ok tt).
Definition set_closed : M unit := λ c,
  (mkClient (c_session_path c) (c_device c) (c_connected c) true (c_handles c) (c_logins c) (c_disk c) (c_events c) (c_tasks c), Ok tt).
Definition set_handles (f : Handles → Handles) : M unit := λ c,
  (mkClient (c_session_path c) (c_device c) (c_connected c) (c_closed c) (f (c_handles c)) (c_logins c) (c_disk c) (c_events c) (c_tasks c), Ok tt).
Definition set_logins (f : list Login → list Login) : M unit := λ c,
  (mkClient (c_session_path c) (c_device c) (c_connected c) (c_closed c) (c_handles c) (f (c_logins c)) (c_disk c) (c_events c) (c_tasks c), Ok tt).
Definition on_disk {A} (m : SE Disk A) : M A := λ c,
  let '(d, r) := m (c_disk c) in
  (mkClient (c_session_path c) (c_device c) (c_connected c) (c_closed c) (c_handles c) (c_logins c) d (c_events c) (c_tasks c), r).

(** [_emit]: what a handler raises is logged. *)
Definition _emit (ev : ClientEvent) : M unit := λ c,
  (mkClient (c_session_path c) (c_device c) (c_connected c) (c_closed c) (c_handles c) (c_logins c) (c_disk c) (c_events c ++ [ev]) (c_tasks c), Ok tt).

(** [_load_device]: an absent file is no device; any other error propagates. *)
Definition _load_device (posix : bool) (io : LoadCalls) (now : str) (fs : gmap str file) (path : SessionPath) : result (option DeviceStore) :=
  match load_device_store posix io now fs (sp_file path) with
  | Ok d => Ok (Some d)
  | Raise FileNotFoundError => Ok None
  | Raise e => Raise e
  end.

(** [Client(session_path)] *)
Definition Client_init (posix : bool) (io : LoadCalls) (now : str) (path : option SessionPath) (disk : Disk) : result Client :=
  device ← match path with Some p => _load_device posix io now (files disk) p | None => Ok None end;
  Ok (mkClient path device false false no_handles [] disk [] []).

Definition _save_device (io : SaveCalls) (names : list str) : M unit :=
  device ← se_asks c_device;
  path ← se_asks c_session_path;
  match device, path with
  | Some d, Some p => on_disk (save_device_store io d (sp_parent p) (sp_file p) names)
  | _, _ => mret tt
  end.

(** [device.lid = state.lid] *)
Definition set_lid (s : DeviceStore) (lid : str) : DeviceStore :=
  mkDeviceStore (ds_noise_private s) (ds_noise_public s) (ds_identity_private s) (ds_identity_public s)
    (ds_registration_id s) (ds_signed_pre_key_id s) (ds_signed_pre_key_private s) (ds_signed_pre_key_public s)
    (ds_signed_pre_key_signature s) (ds_jid s) (ds_device_id s) (ds_adv_signed_device_identity s) (ds_push_name s) (Some lid)
    (ds_created_at s) (ds_pywhats_version s) (ds_schema_version s).

(** [_persist_success_state] of [_build_activator]; [device] is the client's own. *)
Definition _persist_success_state (io : SaveCalls) (names : list str) (state : SuccessState) : M unit :=
  device ← se_asks c_device;
  _ ← match su_lid state, device with Some lid, Some d => set_device (Some (set_lid d lid)) | _, _ => mret tt end;
  _save_device io names.

(** ** Sockets and background tasks *)

(** [sock = NoiseSocket(); await sock.connect()] *)
Definition open_sock (r : result unit) : M nat := λ c,
  match r with
  | Ok _ => let '(c', _) := set_logins (λ l, l ++ [mkLogin true None]) c in (c', Ok (length (c_logins c)))
  | Raise e => (c, Raise e)
  end.

(** [await sock.disconnect()] *)
Definition close_sock (n : nat) : M unit := set_logins (alter (λ l, mkLogin false (lg_bg l)) n).
Definition set_bg (n : nat) (b : bg_task) : M unit := set_logins (alter (λ l, mkLogin (lg_sock_open l) (Some b)) n).

(** [_open_signal_stores]: with a session path the stores are tables of one SQLite file next to
    it, which [disconnect] closes; without one they are in memory. *)
Definition _open_signal_stores (e : LoginCalls) (n : nat) : M unit :=
  path ← se_asks c_session_path;
  match path with
  | Some p =>
      if truthy (sp_path p) then
        _ ← se_lift (li_store e);
        set_handles (λ h, mkHandles (h_sock h) (h_transport h) (h_receiver h) (h_activator h) (Some n) (h_bg_task h) (h_fatal h) (h_wired h))
      else mret tt
  | None => mret tt
  end.

(** The components are made with the stores; nothing of this can fail. *)
Definition _install_messaging (e : LoginCalls) (n : nat) : M unit :=
  _ ← _open_signal_stores e n;
  set_handles (λ h, mkHandles (h_sock h) (h_transport h) (Some n) (Some n) (h_signal_store h) (h_bg_task h) (h_fatal h) (Some n)).

(** The [try] block of [_run_login], on socket [n]. *)
Definition login_body (e : LoginCalls) (d : DeviceStore) (n : nat) : M unit :=
  _ ← se_lift (build_login_payload d);
  _ ← se_lift (li_handshake e);
  _ ← set_handles (λ h, mkHandles (Some n) (Some n) (h_receiver h) (h_activator h) (h_signal_store h) (h_bg_task h) (h_fatal h) (h_wired h));
  _ ← _install_messaging e n;
  _ ← set_connected true;
  _ ← _emit EvConnected;
  _ ← set_bg n BgCreated;
  set_handles (λ h, mkHandles (h_sock h) (h_transport h) (h_receiver h) (h_activator h) (h_signal_store h) (Some n) (h_fatal h) (h_wired h)).

Definition _run_login (e : LoginCalls) : M unit :=
  device ← se_asks c_device;
  d ← se_lift (some_or device AssertionError);
  n ← open_sock (li_connect e);
  se_try (login_body e d n) is_Exception (λ x, _ ← close_sock n; se_raise x).

(** The conversation of [Pairer] about the client's device, which it changes in place; its
    QR texts are emitted. *)
Definition run_pairer (e : PairCalls) (d : DeviceStore) : M PairResult :=
  let '(s, r) := pairer_run (pa_adv_secret e) (pa_random_z e) (pa_start e) QR_TOTAL_TIMEOUT_SECONDS (pa_done e) (pa_rounds e) (pairer_start d) in
  _ ← set_device (Some (ps_device s));
  _ ← se_fold (λ _ payload, _emit (EvQr payload)) tt (ps_qrs s);
  se_lift r.

(** [try: ... finally: await sock.disconnect()] *)
Definition with_sock {A} (n : nat) (m : M A) : M A := λ c,
  let '(c, r) := m c in let '(c, _) := close_sock n c in (c, r).

(** The [try] block of [_run_pairing]. *)
Definition pair_body (e : PairCalls) : M unit :=
  device ← se_asks c_device;
  d ← se_lift (some_or device AttributeError);
  _ ← se_lift (build_register_payload d DEFAULT_PAIRING_NAME None);
  _ ← se_lift (pa_handshake e);
  res ← run_pairer e d;
  path ← se_asks c_session_path;
  _ ← (if bool_decide (path = None) then mret tt else _save_device (pa_save e) (pa_names e));
  _emit (EvPaired (res_jid res)).

(** A client without a device gets a fresh one. *)
Definition ensure_device (e : PairCalls) : M unit :=
  device ← se_asks c_device;
  match device with
  | Some _ => mret tt
  | None =>
      d ← se_lift (make_fresh_device (pa_sk_identity e) (pa_sk_spk e) (pa_random_z e) (pa_sk_noise e) (pa_reg e) DEFAULT_PAIRING_NAME (pa_now e));
      set_device (Some d)
  end.

Definition _run_pairing (e : PairCalls) : M unit :=
  _ ← ensure_device e;
  _ ← (n ← open_sock (pa_connect e); with_sock n (pair_body e));
  device ← se_asks c_device;
  match device ≫= ds_jid with Some _ => _run_login (pa_login e) | None => mret tt end.

Definition connect (e : PairCalls) : M unit :=
  device ← se_asks c_device;
  match device ≫= ds_jid with Some _ => _run_login (pa_login e) | None => _run_pairing e end.
End Life.

(** ** The background task, the keepalive's verdict and [disconnect] *)

Section Background.
#[local] Abbreviation M := (SE Client).

Definition bg_at (l : list Login) (n : nat) : option bg_task := match l !! n with Some l => lg_bg l | None => None end.
Definition bg_of (c : Client) (n : nat) : option bg_task := bg_at (c_logins c) n.

(** The [finally] of [_run_background_tasks]. *)
Definition session_over (n : nat) : M unit :=
  _ ← set_connected false;
  _ ← set_closed;
  _ ← _emit EvDisconnected;
  set_bg n BgDone.

(** The task starts; without a receiver it has nothing to do. *)
Definition bg_starts (n : nat) : M unit := λ c,
  match bg_of c n with
  | Some BgCreated => if bool_decide (h_receiver (c_handles c) = None) then set_bg n BgDone c else set_bg n BgRunning c
  | _ => (c, Ok tt)
  end.

(** The reader has ended, by itself or because its socket was closed. *)
Definition bg_ends (n : nat) : M unit := λ c,
  match bg_of c n with Some BgRunning => session_over n c | _ => (c, Ok tt) end.

(** [bg.cancel()] and the await: a task that has not started never runs; a running one goes
    through its [finally]. *)
Definition cancel_bg (n : nat) : M unit := λ c,
  match bg_of c n with
  | Some BgRunning => session_over n c
  | Some BgCreated => set_bg n BgDone c
  | _ => (c, Ok tt)
  end.

(** ** What the reader does for stanzas, as long as it runs *)

Definition set_tasks (f : list (sync_task * bool) → list (sync_task * bool)) : M unit := λ c,
  (mkClient (c_session_path c) (c_device c) (c_connected c) (c_closed c) (c_handles c) (c_logins c) (c_disk c) (c_events c) (f (c_tasks c)), Ok tt).

Definition reader_runs (c : Client) (n : nat) : bool := bool_decide (bg_of c n = Some BgRunning).

(** It emits an event, or starts a task; nobody keeps the task to cancel it later. *)
Definition reader_emits (n : nat) (name : str) : M unit := λ c, if reader_runs c n then _emit (EvReceived name) c else (c, Ok tt).
Definition reader_starts (n : nat) (k : sync_task) : M unit := λ c,
  if reader_runs c n then set_tasks (λ l, l ++ [(k, true)]) c else (c, Ok tt).

(** [HistorySyncer.handle] ends with its event; [_emit_app_state_events] has one for each
    mutation it understands. *)
Definition sync_events (k : sync_task) : list str :=
  match k with
  | HistoryTask => [u "history_sync"]
  | ServerSyncTask => [u "mute"; u "pin"; u "archive"; u "contact"; u "pushname"]
  end.

Definition sync_ends (i : nat) : M unit := set_tasks (alter (λ t, (t.1, false)) i).

Definition sync_emits (i : nat) (name : str) : M unit := λ c,
  match c_tasks c !! i with
  | Some (k, true) =>
      if bool_decide (name ∈ sync_events k) then
        (_ ← _emit (EvSynced i name); match k with HistoryTask => sync_ends i | ServerSyncTask => mret tt end) c
      else (c, Ok tt)
  | _ => (c, Ok tt)
  end.

(** A close task that has not run yet is not started twice. *)
Definition _on_keepalive_fatal : M unit :=
  h ← se_asks c_handles;
  match h_sock h, h_fatal h with
  | Some n, None =>
      set_handles (λ h, mkHandles (h_sock h) (h_transport h) (h_receiver h) (h_activator h) (h_signal_store h) (h_bg_task h) (Some n) (h_wired h))
  | _, _ => mret tt
  end.

Definition fatal_runs : M unit :=
  h ← se_asks c_handles;
  match h_fatal h with
  | Some n =>
      _ ← close_sock n;
      set_handles (λ h, mkHandles (h_sock h) (h_transport h) (h_receiver h) (h_activator h) (h_signal_store h) (h_bg_task h) None (h_wired h))
  | None => mret tt
  end.

(** What stopping the activator, closing the socket and closing the store raise is logged. *)
Definition disconnect : M unit :=
  connected ← se_asks c_connected;
  h ← se_asks c_handles;
  let already := negb connected && bool_decide (h_bg_task h = None) && bool_decide (h_sock h = None) in
  _ ← set_connected false;
  _ ← set_handles (λ h, mkHandles (h_sock h) (h_transport h) (h_receiver h) (h_activator h) (h_signal_store h) None (h_fatal h) (h_wired h));
  _ ← match h_bg_task h with Some n => cancel_bg n | None => mret tt end;
  _ ← match h_sock h with Some n => close_sock n | None => mret tt end;
  _ ← set_handles (λ h, mkHandles None None None None None (h_bg_task h) (h_fatal h) (h_wired h));
  _ ← set_closed;
  if already then mret tt else _emit EvDisconnected.

(** [wait_closed] returns. *)
Definition wait_closed_returns (c : Client) : bool := c_closed c.
End Background.

(** ** The life of a client *)

Inductive step := Connect (e : PairCalls) | BgStarts (n : nat) | BgEnds (n : nat) | KeepaliveFatal | FatalRuns
  | Success (io : SaveCalls) (names : list str) (state : SuccessState) | Disconnect
  | ReaderEmits (n : nat) (name : str) | ReaderStarts (n : nat) (k : sync_task) | SyncEmits (i : nat) (name : str) | SyncEnds (i : nat).

Section Lifecycle.
Context {P : PairingProto} {X : X25519} {E : XEdDSA} {HM : Hmac} {M5 : Md5} {U : UnicodeDB} {Zl : Zlib} {F : FloatOps} {R : JsonRepr}.

Definition run_step (s : step) : SE Client unit :=
  match s with
  | Connect e => connect e
  | BgStarts n => bg_starts n
  | BgEnds n => bg_ends n
  | KeepaliveFatal => _on_keepalive_fatal
  | FatalRuns => fatal_runs
  | Success io names state => _persist_success_state io names state
  | Disconnect => disconnect
  | ReaderEmits n name => reader_emits n name
  | ReaderStarts n k => reader_starts n k
  | SyncEmits i name => sync_emits i name
  | SyncEnds i => sync_ends i
  end.

(** What a call raises goes to its caller. *)
Definition run_steps : Client → list step → Client := foldl (λ c s, (run_step s c).1).

(** A connected client has everything its calls use. *)
Record wired (c : Client) : Prop := {
  wd_sock : is_Some (h_sock (c_handles c));
  wd_transport : is_Some (h_transport (c_handles c));
  wd_wired : is_Some (h_wired (c_handles c));
  wd_device : ∃ d, c_device c = Some d ∧ is_Some (ds_jid d)
}.
Definition client_ok (c : Client) : Prop := c_connected c = true → wired c.

(** Not connected stays not connected. *)
Definition stays_off (c c' : Client) : Prop := c_connected c = false → c_connected c' = false.

#[local] Instance stays_off_preorder : PreOrder stays_off.
Proof. split; [intros c H; exact H|intros c1 c2 c3 H1 H2 H; auto]. Qed.

Lemma off_device d : keeps stays_off (set_device d).
Proof. by intros c H. Qed.
Lemma off_handles f : keeps stays_off (set_handles f).
Proof. by intros c H. Qed.
Lemma off_logins f : keeps stays_off (set_logins f).
Proof. by intros c H. Qed.
Lemma off_emit ev : keeps stays_off (_emit ev).
Proof. by intros c H. Qed.
Lemma off_disk {A} (m : SE Disk A) : keeps stays_off (on_disk m).
Proof. intros c H. unfold on_disk. by destruct (m (c_disk c)). Qed.
#[local] Hint Resolve off_device off_handles off_logins off_emit off_disk : keeps.

Lemma off_open r : keeps stays_off (open_sock r).
Proof. intros c H. by destruct r. Qed.
Lemma off_with {A} n (m : SE Client A) : keeps stays_off m → keeps stays_off (with_sock n m).
Proof. intros Hm c H. unfold with_sock. specialize (Hm c H). by destruct (m c) as [c1 r]. Qed.
Lemma off_save io names : keeps stays_off (_save_device io names).
Proof. unfold _save_device. keeps. Qed.
Lemma off_pairer e d : keeps stays_off (run_pairer e d).
Proof. unfold run_pairer. destruct (pairer_run _ _ _ _ _ _ _) as [s r]. keeps. Qed.
#[local] Hint Resolve off_open off_with off_save off_pairer : keeps.

(** A login that got through has set everything; one that did not has not connected. *)
Lemma login_body_ok e d n c : c_device c = Some d → client_ok c → client_ok (login_body e d n c).1.
Proof.
  intros Ed Hc. unfold login_body. destruct (build_login_payload d) as [b|x] eqn:Ep; [|done]. rewrite se_bind_lift.
  assert (is_Some (ds_jid d)) as Hj by (unfold build_login_payload in Ep; destruct (ds_jid d); [by eexists|done]).
  destruct (li_handshake e) as [[]|x]; [|done]. rewrite se_bind_lift. unfold _install_messaging, _open_signal_stores.
  assert (∀ c2 : Client, c_device c2 = Some d → is_Some (h_sock (c_handles c2)) → is_Some (h_transport (c_handles c2)) →
    is_Some (h_wired (c_handles c2)) → client_ok c2) as Hw by (intros c2 H1 H2 H3 H4 _; split; [done..|by exists d]).
  destruct (c_session_path c) as [p|] eqn:Epath; [destruct (truthy (sp_path p)) eqn:Et; [destruct (li_store e) as [[]|x] eqn:Es|]|];
    unfold mbind, se_bind, set_handles, se_asks, se_lift, mret, se_ret, set_connected, _emit, set_bg, set_logins; cbn;
    rewrite ?Epath; cbn; rewrite ?Et; cbn; rewrite ?Es; cbn; try (apply Hw; cbn; [done|by eexists..]).
  intros H. destruct (Hc H) as [H1 H2 H3 H4]. split; cbn; [by eexists|by eexists|done|done].
Qed.

Lemma run_login_ok e c : client_ok c → client_ok (_run_login e c).1.
Proof.
  intros Hc. unfold _run_login. rewrite se_bind_asks.
  destruct (c_device c) as [d|] eqn:Ed; [|done]. cbn [some_or]. rewrite se_bind_lift.
  unfold mbind, se_bind, open_sock. destruct (li_connect e) as [[]|x]; [|done].
  cbn [set_logins]. set (c1 := mkClient _ _ _ _ _ _ _ _ _). unfold se_try.
  assert (client_ok c1) as Hc1 by (intros H; destruct (Hc H); by split).
  pose proof (login_body_ok e d (length (c_logins c)) c1 Ed Hc1) as Hb.
  destruct (login_body e d (length (c_logins c)) c1) as [c2 [[]|x]]; [done|]. destruct (is_Exception x); [|done].
  intros H. destruct (Hb H). by split.
Qed.

Lemma off_ensure e : keeps stays_off (ensure_device e).
Proof. unfold ensure_device. keeps. Qed.
Lemma off_pair_body e : keeps stays_off (pair_body e).
Proof. unfold pair_body. keeps. Qed.
#[local] Hint Resolve off_ensure off_pair_body : keeps.

Lemma off_ok c : c_connected c = false → client_ok c.
Proof. intros Hc H. congruence. Qed.

Lemma connect_ok e c : client_ok c → client_ok (connect e c).1.
Proof.
  intros Hc. unfold connect. rewrite se_bind_asks. destruct (c_device c ≫= ds_jid) as [j|] eqn:Ej; [by apply run_login_ok|].
  assert (c_connected c = false) as Hoff.
  { destruct (c_connected c) eqn:E1; [|done]. destruct (Hc E1) as [_ _ _ (d & Hd & [j Hj])]. rewrite Hd in Ej. cbn in Ej. congruence. }
  unfold _run_pairing. assert (keeps stays_off (n ← open_sock (pa_connect e); with_sock n (pair_body e))) as Hb by keeps.
  destruct (ensure_device e c) as [c1 [[]|x]] eqn:E1; pose proof (keeps_run _ _ _ _ _ (off_ensure e) E1 Hoff) as H1.
  2:{ rewrite (se_bind_raise _ _ _ _ _ E1). by apply off_ok. }
  rewrite (se_bind_eq _ _ _ _ _ E1). destruct ((n ← open_sock (pa_connect e); with_sock n (pair_body e)) c1) as [c2 [[]|x]] eqn:E2;
    pose proof (keeps_run _ _ _ _ _ Hb E2 H1) as H2.
  2:{ rewrite (se_bind_raise _ _ _ _ _ E2). by apply off_ok. }
  rewrite (se_bind_eq _ _ _ _ _ E2), se_bind_asks. destruct (c_device c2 ≫= ds_jid); [apply run_login_ok|]; by apply off_ok.
Qed.

(** [disconnect] returns, with nothing left of the connection; a running reader has gone
    through its [finally]. *)
Definition torn_down (h : Handles) : Handles := mkHandles None None None None None None (h_fatal h) (h_wired h).

Lemma disconnect_inv c c' r : disconnect c = (c', r) → r = Ok tt ∧ c_connected c' = false ∧ c_closed c' = true ∧
  c_handles c' = torn_down (c_handles c) ∧ c_device c' = c_device c ∧ c_disk c' = c_disk c ∧ c_tasks c' = c_tasks c ∧
  c_events c' = c_events c ++
    (if bool_decide ((n ← h_bg_task (c_handles c); bg_of c n) = Some BgRunning) then [EvDisconnected] else []) ++
    (if negb (c_connected c) && bool_decide (h_bg_task (c_handles c) = None) && bool_decide (h_sock (c_handles c) = None) then []
     else [EvDisconnected]).
Proof.
  unfold disconnect. rewrite !se_bind_asks. set (already := negb _ && _ && _). clearbody already.
  destruct c as [path d con cl [hs ht hr ha hst hb hf hw] logins disk evs ts]. cbn.
  unfold cancel_bg, bg_of, session_over, close_sock, set_bg, torn_down, mbind, se_bind, option_bind. cbn.
  destruct hb as [n|]; [cbn; destruct (bg_at logins n) as [b|] eqn:Eb; [destruct b|..]|]; destruct hs; destruct already; cbn;
    rewrite ?Eb; cbn; intros [= <- <-]; cbn; rewrite ?app_nil_r, <- ?app_assoc; done.
Qed.

(** What the success handler changes: the device's LID, and the disk. *)
Lemma persist_frame io names state c c' r : _persist_success_state io names state c = (c', r) →
  c_connected c' = c_connected c ∧ c_closed c' = c_closed c ∧ c_handles c' = c_handles c ∧ c_logins c' = c_logins c ∧
  c_events c' = c_events c ∧ c_device c' = (d ← c_device c; Some (from_option (set_lid d) d (su_lid state))) ∧ c_tasks c' = c_tasks c.
Proof.
  unfold _persist_success_state, _save_device. rewrite se_bind_asks. unfold mbind, se_bind, se_asks, set_device, mret, se_ret, on_disk.
  destruct (su_lid state) as [lid|], (c_device c) as [d|] eqn:Ed; cbn; rewrite ?Ed; cbn;
    [|intros [= <- <-]; cbn; by rewrite ?Ed| |intros [= <- <-]; cbn; by rewrite ?Ed].
  all: destruct (c_session_path c) as [p|]; [|intros [= <- <-]; cbn; by rewrite ?Ed].
  all: destruct (save_device_store _ _ _ _ _ _) as [dk x]; intros [= <- <-]; cbn; by rewrite ?Ed.
Qed.

(** The four steps of the reader and of its tasks change the events and the tasks only. *)
Definition same_link (c c' : Client) : Prop :=
  c_device c' = c_device c ∧ c_connected c' = c_connected c ∧ c_closed c' = c_closed c ∧ c_handles c' = c_handles c ∧
  c_logins c' = c_logins c ∧ c_disk c' = c_disk c.

Lemma sync_link st c : match st with ReaderEmits _ _ | ReaderStarts _ _ | SyncEmits _ _ | SyncEnds _ => True | _ => False end →
  same_link c (run_step st c).1.
Proof.
  destruct st as [e|n|n| | |io names state| |n name|n k|i name|i]; try done; intros _; cbn [run_step].
  - unfold reader_emits. by destruct (reader_runs c n).
  - unfold reader_starts. by destruct (reader_runs c n).
  - unfold sync_emits. destruct (c_tasks c !! i) as [[k []]|]; [|done..]. case_bool_decide; [|done]. by destruct k.
Qed.

Lemma link_ok c c' : same_link c c' → client_ok c → client_ok c'.
Proof.
  intros (Hd & Hc & _ & Hh & _) H E1. rewrite Hc in E1. destruct (H E1) as [H1 H2 H3 H4]. by split; rewrite ?Hh, ?Hd.
Qed.

(** What changes the sockets and tasks only. *)
Lemma run_step_ok st c : client_ok c → client_ok (run_step st c).1.
Proof.
  intros Hc. destruct st as [e|n|n| | |io names state| |n name|n k|i name|i]; cbn [run_step].
  - by apply connect_ok.
  - unfold bg_starts. destruct (bg_of c n) as [[]|]; [|done..]. case_bool_decide; intros Hcon; destruct (Hc Hcon); by split.
  - unfold bg_ends. destruct (bg_of c n) as [[]|]; [done| |done..]. by apply off_ok.
  - unfold _on_keepalive_fatal. rewrite se_bind_asks. destruct (h_sock (c_handles c)) as [n|] eqn:E1; [|done].
    destruct (h_fatal (c_handles c)); [done|]. intros H. destruct (Hc H) as [H1 H2 H3 H4]. split; cbn; [by rewrite E1|done..].
  - unfold fatal_runs. rewrite se_bind_asks. destruct (h_fatal (c_handles c)); [|done]. intros H. destruct (Hc H) as [H1 H2 H3 H4]. by split.
  - destruct (_persist_success_state io names state c) as [c' r] eqn:E1. destruct (persist_frame _ _ _ _ _ _ E1) as (F1 & _ & F3 & _ & _ & F6 & _).
    intros H. cbn in H. rewrite F1 in H. destruct (Hc H) as [H1 H2 H3 (d & H4 & H5)]. split; cbn; rewrite ?F3, ?F6, ?H4; try done.
    eexists. split; [reflexivity|]. by destruct (su_lid state).
  - apply off_ok. destruct (disconnect c) as [c' r] eqn:E1. by destruct (disconnect_inv _ _ _ E1) as (_ & H & _).
  - exact (link_ok _ _ (sync_link (ReaderEmits n name) c I) Hc).
  - exact (link_ok _ _ (sync_link (ReaderStarts n k) c I) Hc).
  - exact (link_ok _ _ (sync_link (SyncEmits i name) c I) Hc).
  - exact (link_ok _ _ (sync_link (SyncEnds i) c I) Hc).
Qed.

Lemma run_steps_ok l : ∀ c, client_ok c → client_ok (run_steps c l).
Proof. induction l as [|st l IH]; intros c Hc; [exact Hc|]. apply IH. by apply run_step_ok. Qed.

(** ** Background tasks

    The client knows the task it started last. Only a [connect] while that one is alive can
    leave a second one behind. *)

Definition alive (b : option bg_task) : bool := bool_decide (b = Some BgCreated) || bool_decide (b = Some BgRunning).
(** Closing a socket leaves the tasks alone; a task that has ended is not alive. *)
Lemma close_list (l : list Login) n k : bg_at (alter (λ l, mkLogin false (lg_bg l)) n l) k = bg_at l k.
Proof.
  unfold bg_at. destruct (decide (k = n)) as [->|Hne]; [rewrite list_lookup_alter_eq|by rewrite list_lookup_alter_ne]. by destruct (l !! n).
Qed.

Lemma end_list (l : list Login) n k : alive (bg_at (alter (λ l, mkLogin (lg_sock_open l) (Some BgDone)) n l) k) = true →
  alive (bg_at l k) = true ∧ k ≠ n.
Proof.
  unfold bg_at. destruct (decide (k = n)) as [->|Hne]; [rewrite list_lookup_alter_eq|by rewrite list_lookup_alter_ne]. by destruct (l !! n).
Qed.

Definition none_alive (c : Client) : Prop := ∀ n, alive (bg_of c n) = false.
Definition bg_known (c : Client) : Prop := ∀ n, alive (bg_of c n) = true → h_bg_task (c_handles c) = Some n.

(** Whether a step starts no second connection beside a live one. *)
Definition orderly (c : Client) (s : step) : bool :=
  match s with Connect _ => negb (alive (h_bg_task (c_handles c) ≫= bg_of c)) | _ => true end.
Fixpoint orderly_steps (c : Client) (l : list step) : bool :=
  match l with [] => true | s :: l => orderly c s && orderly_steps (run_step s c).1 l end.

Definition stays_quiet (c c' : Client) : Prop := none_alive c → none_alive c'.

#[local] Instance stays_quiet_preorder : PreOrder stays_quiet.
Proof. split; [intros c H; exact H|intros c1 c2 c3 H1 H2 H; auto]. Qed.

Lemma none_alive_logins c c' : c_logins c' = c_logins c → none_alive c → none_alive c'.
Proof. intros E1 H n. unfold bg_of. rewrite E1. apply H. Qed.

Lemma quiet_local {A} (m : SE Client A) : (∀ c, c_logins (m c).1 = c_logins c) → keeps stays_quiet m.
Proof. intros H c Hc. by apply (none_alive_logins c). Qed.

Lemma quiet_device d : keeps stays_quiet (set_device d).
Proof. by apply quiet_local. Qed.
Lemma quiet_connected b : keeps stays_quiet (set_connected b).
Proof. by apply quiet_local. Qed.
Lemma quiet_handles f : keeps stays_quiet (set_handles f).
Proof. by apply quiet_local. Qed.
Lemma quiet_emit ev : keeps stays_quiet (_emit ev).
Proof. by apply quiet_local. Qed.
Lemma quiet_disk {A} (m : SE Disk A) : keeps stays_quiet (on_disk m).
Proof. apply quiet_local. intros c. unfold on_disk. by destruct (m (c_disk c)). Qed.
Lemma quiet_close n : keeps stays_quiet (close_sock n).
Proof. intros c H k. unfold bg_of. cbn. rewrite close_list. apply H. Qed.
#[local] Hint Resolve quiet_device quiet_connected quiet_handles quiet_emit quiet_disk quiet_close : keeps.

Lemma quiet_open r : keeps stays_quiet (open_sock r).
Proof.
  intros c H k. destruct r as [[]|x]; [|exact (H k)]. cbn. specialize (H k). revert H. unfold bg_of, bg_at. cbn.
  destruct (decide (k < length (c_logins c)))%nat as [Hk|Hk]; [by rewrite lookup_app_l|]. intros _.
  rewrite lookup_app_r by lia. by destruct (k - _)%nat.
Qed.
Lemma quiet_with {A} n (m : SE Client A) : keeps stays_quiet m → keeps stays_quiet (with_sock n m).
Proof.
  intros Hm c H. unfold with_sock. specialize (Hm c H). destruct (m c) as [c1 r].
  exact (quiet_close n c1 Hm).
Qed.
Lemma quiet_save io names : keeps stays_quiet (_save_device io names).
Proof. unfold _save_device. keeps. Qed.
Lemma quiet_pairer e d : keeps stays_quiet (run_pairer e d).
Proof. unfold run_pairer. destruct (pairer_run _ _ _ _ _ _ _) as [s r]. keeps. Qed.
#[local] Hint Resolve quiet_open quiet_with quiet_save quiet_pairer : keeps.
Lemma quiet_ensure e : keeps stays_quiet (ensure_device e).
Proof. unfold ensure_device. keeps. Qed.
Lemma quiet_pair_body e : keeps stays_quiet (pair_body e).
Proof. unfold pair_body. keeps. Qed.
Lemma quiet_install e n : keeps stays_quiet (_install_messaging e n).
Proof. unfold _install_messaging, _open_signal_stores. keeps. Qed.
#[local] Hint Resolve quiet_ensure quiet_pair_body quiet_install : keeps.

Lemma none_known c : none_alive c → bg_known c.
Proof. intros H n Hn. by rewrite H in Hn. Qed.

(** Whatever ends a login: its task is the only one. *)
Lemma login_starts n c : none_alive c → bg_known
  ((_ ← set_bg n BgCreated; set_handles (λ h, mkHandles (h_sock h) (h_transport h) (h_receiver h) (h_activator h) (h_signal_store h) (Some n) (h_fatal h) (h_wired h))) c).1.
Proof.
  intros H k. unfold mbind, se_bind. cbn. unfold bg_of, bg_at. cbn. destruct (decide (k = n)) as [->|Hne]; [done|].
  rewrite list_lookup_alter_ne by done. specialize (H k). unfold bg_of, bg_at in H. by rewrite H.
Qed.

(** A computation that keeps things quiet before one that starts the task. *)
Lemma known_bind {A B} (m : SE Client A) (f : A → SE Client B) c : keeps stays_quiet m → none_alive c →
  (∀ a c1, none_alive c1 → bg_known (f a c1).1) → bg_known ((m ≫= f) c).1.
Proof.
  intros Hm Hc Hf. specialize (Hm c Hc). unfold mbind, se_bind. destruct (m c) as [c1 [a|x]]; [by apply Hf|by apply none_known].
Qed.

Lemma login_known e c : none_alive c → bg_known (_run_login e c).1.
Proof.
  intros Hc. unfold _run_login. apply known_bind; [eauto with keeps typeclass_instances|done|]. intros device c1 Hc1.
  apply known_bind; [eauto with keeps typeclass_instances|done|]. intros d c2 Hc2.
  apply known_bind; [eauto with keeps|done|]. intros n c3 Hc3. unfold se_try.
  assert (bg_known (login_body e d n c3).1) as Hb.
  { unfold login_body. repeat (apply known_bind; [solve [eauto with keeps typeclass_instances]|done|]; intros ???). by apply login_starts. }
  destruct (login_body e d n c3) as [c4 [[]|x]]; [exact Hb|]. destruct (is_Exception x); [|exact Hb].
  intros k Hk. unfold mbind, se_bind in *. apply Hb. unfold bg_of in *. cbn in Hk. by rewrite close_list in Hk.
Qed.

Lemma connect_known e c : none_alive c → bg_known (connect e c).1.
Proof.
  intros Hc. unfold connect. rewrite se_bind_asks. destruct (c_device c ≫= ds_jid); [by apply login_known|].
  unfold _run_pairing. apply known_bind; [eauto with keeps|done|]. intros _ c1 Hc1.
  apply known_bind; [keeps|done|]. intros _ c2 Hc2. rewrite se_bind_asks.
  destruct (c_device c2 ≫= ds_jid); [by apply login_known|by apply none_known].
Qed.

Lemma known_current c : bg_known c → alive (h_bg_task (c_handles c) ≫= bg_of c) = false → none_alive c.
Proof.
  intros Hk Hc n. destruct (alive (bg_of c n)) eqn:En; [|done]. rewrite (Hk n En) in Hc. cbn in Hc. congruence.
Qed.

(** Steps that change one task at most, and end it if it was alive. *)
Lemma set_bg_known c c' n b : bg_known c → (alive (Some b) = true → alive (bg_of c n) = true) →
  c_logins c' = alter (λ l, mkLogin (lg_sock_open l) (Some b)) n (c_logins c) → c_handles c' = c_handles c → bg_known c'.
Proof.
  intros Hk Hb Hl Hh k. unfold bg_of in *. rewrite Hl, Hh. unfold bg_at in *. destruct (decide (k = n)) as [->|Hne]; [|rewrite list_lookup_alter_ne by done; exact (Hk k)].
  rewrite list_lookup_alter_eq. intros Ha. apply Hk. unfold bg_of, bg_at. destruct (c_logins c !! n) eqn:En; [|done]. by apply Hb.
Qed.

(** [disconnect] of a client that knows its task leaves none alive. *)
Lemma disconnect_bg c c' r k : disconnect c = (c', r) → alive (bg_of c' k) = true →
  alive (bg_of c k) = true ∧ (alive (bg_of c k) = true → h_bg_task (c_handles c) ≠ Some k).
Proof.
  unfold disconnect. rewrite !se_bind_asks. set (already := negb _ && _ && _). clearbody already.
  destruct c as [path d con cl [hs ht hr ha hst hb hf hw] logins disk evs ts]. cbn.
  unfold cancel_bg, bg_of, session_over, close_sock, set_bg, mbind, se_bind, option_bind. cbn.
  destruct hb as [n|]; [cbn; destruct (bg_at logins n) as [b|] eqn:Eb; [destruct b|..]|]; destruct hs; destruct already; cbn;
    rewrite ?Eb; cbn; intros [= <- <-]; cbn; rewrite ?close_list; intros Ha; try (apply end_list in Ha as [Ha Hne]);
    (split; [exact Ha|intros _ [= ->]]); try done; by rewrite Eb in Ha.
Qed.

Lemma disconnect_quiet c : bg_known c → none_alive (disconnect c).1.
Proof.
  intros Hc k. destruct (disconnect c) as [c' r] eqn:E1. cbn. destruct (alive (bg_of c' k)) eqn:Ek; [|done].
  destruct (disconnect_bg _ _ _ _ E1 Ek) as [H1 H2]. by destruct (H2 H1 (Hc k H1)).
Qed.

Lemma link_known c c' : same_link c c' → bg_known c → bg_known c'.
Proof. intros (_ & _ & _ & Hh & Hl & _) H k. unfold bg_of. rewrite Hl, Hh. apply H. Qed.

Lemma run_step_known st c : orderly c st = true → bg_known c → bg_known (run_step st c).1.
Proof.
  intros Ho Hc. destruct st as [e|n|n| | |io names state| |n name|n k|i name|i]; cbn [run_step].
  - apply connect_known, known_current; [done|]. cbn in Ho. by apply negb_true_iff in Ho.
  - unfold bg_starts. destruct (bg_of c n) as [[]|] eqn:Eb; [|done..].
    case_bool_decide; (eapply (set_bg_known c _ n); [done|intros _; by rewrite Eb|done..]).
  - unfold bg_ends. destruct (bg_of c n) as [[]|] eqn:Eb; [done| |done..]. eapply (set_bg_known c _ n); [done|intros _; by rewrite Eb|done..].
  - unfold _on_keepalive_fatal. rewrite se_bind_asks. destruct (h_sock (c_handles c)); [|done]. by destruct (h_fatal (c_handles c)).
  - unfold fatal_runs. rewrite se_bind_asks. destruct (h_fatal (c_handles c)) as [n|]; [|done].
    intros k Hk. apply Hc. unfold bg_of, mbind, se_bind in *. cbn in Hk. by rewrite close_list in Hk.
  - destruct (_persist_success_state io names state c) as [c' r] eqn:E1. destruct (persist_frame _ _ _ _ _ _ E1) as (_ & _ & F3 & F4 & _).
    intros k. cbn. unfold bg_of. rewrite F3, F4. apply Hc.
  - apply none_known. by apply disconnect_quiet.
  - exact (link_known _ _ (sync_link (ReaderEmits n name) c I) Hc).
  - exact (link_known _ _ (sync_link (ReaderStarts n k) c I) Hc).
  - exact (link_known _ _ (sync_link (SyncEmits i name) c I) Hc).
  - exact (link_known _ _ (sync_link (SyncEnds i) c I) Hc).
Qed.

Lemma run_steps_known l : ∀ c, orderly_steps c l = true → bg_known c → bg_known (run_steps c l).
Proof.
  induction l as [|st l IH]; intros c Ho Hc; [exact Hc|]. cbn in Ho. apply andb_true_iff in Ho as [H1 H2].
  apply (IH (run_step st c).1 H2). by apply run_step_known.
Qed.

(** A client without a connection: nothing but a [connect], and the tasks that the reader has
    started, changes what its user sees. *)
Record at_rest (c : Client) : Prop := {
  ar_off : c_connected c = false;
  ar_sock : h_sock (c_handles c) = None;
  ar_bg : h_bg_task (c_handles c) = None;
  ar_quiet : none_alive c
}.

Definition is_connect (s : step) : bool := match s with Connect _ => true | _ => false end.

(** An event of a task that still runs. *)
Definition of_running (ts : list (sync_task * bool)) (ev : ClientEvent) : Prop :=
  ∃ i k name, ev = EvSynced i name ∧ ts !! i = Some (k, true) ∧ name ∈ sync_events k.

(** No task more, and none that has ended comes back. *)
Definition only_end (ts ts' : list (sync_task * bool)) : Prop :=
  ∀ i k, ts' !! i = Some (k, true) → ts !! i = Some (k, true).

#[local] Instance only_end_preorder : PreOrder only_end.
Proof. split; [by intros ts i k|intros t1 t2 t3 H1 H2 i k H; by apply H1, H2]. Qed.

Lemma end_only ts i : only_end ts (alter (λ t : sync_task * bool, (t.1, false)) i ts).
Proof.
  intros j k. destruct (decide (j = i)) as [->|Hne]; [rewrite list_lookup_alter_eq|by rewrite list_lookup_alter_ne].
  by destruct (ts !! i).
Qed.

Lemma of_running_mono ts ts' ev : only_end ts ts' → of_running ts' ev → of_running ts ev.
Proof. intros H (i & k & name & -> & Hi & Hn). exists i, k, name. split_and!; [done|by apply H|done]. Qed.

(** What is seen of a client at rest from [c] to [c']. *)
Definition rests (c c' : Client) : Prop :=
  at_rest c' ∧ only_end (c_tasks c) (c_tasks c') ∧ ∃ evs, c_events c' = c_events c ++ evs ∧ Forall (of_running (c_tasks c)) evs.

Lemma rests_unseen c c' : at_rest c' → c_tasks c' = c_tasks c → c_events c' = c_events c → rests c c'.
Proof. intros H Ht He. split; [done|]. rewrite Ht. split; [done|]. exists []. by rewrite app_nil_r. Qed.

Lemma rests_trans c1 c2 c3 : rests c1 c2 → rests c2 c3 → rests c1 c3.
Proof.
  intros (_ & H1 & e1 & E1 & F1) (H2 & H3 & e2 & E2 & F2). split; [exact H2|]. split; [by etrans|].
  exists (e1 ++ e2). split; [by rewrite E2, E1, <-app_assoc|]. apply Forall_app. split; [exact F1|].
  eapply Forall_impl; [exact F2|]. intros ev. by apply of_running_mono.
Qed.

Lemma link_rest c c' : same_link c c' → at_rest c → at_rest c'.
Proof.
  intros (_ & Hc & _ & Hh & Hl & _) [H1 H2 H3 H4]. split; rewrite ?Hc, ?Hh; try done. by eapply none_alive_logins.
Qed.

Lemma sync_rest i name c : at_rest c → rests c (sync_emits i name c).1.
Proof.
  intros Hc. pose proof (link_rest _ _ (sync_link (SyncEmits i name) c I) Hc) as Hr. cbn [run_step] in Hr. revert Hr. unfold sync_emits.
  destruct (c_tasks c !! i) as [[k []]|] eqn:Ei; [|by intros; apply rests_unseen..].
  case_bool_decide as Hn; [|by intros; apply rests_unseen]. intros Hr. split; [exact Hr|].
  destruct k; cbn; (split; [first [apply end_only|done]|]); exists [EvSynced i name]; (split; [done|]);
    (apply Forall_singleton; eexists i, _, name; split_and!; [reflexivity|exact Ei|exact Hn]).
Qed.

Lemma rest_step st c : is_connect st = false → at_rest c → rests c (run_step st c).1.
Proof.
  intros Hst Hc. pose proof Hc as [H1 H2 H3 H4]. assert (∀ n, reader_runs c n = false) as Hnr.
  { intros n. apply bool_decide_eq_false_2. intros E1. specialize (H4 n). by rewrite E1 in H4. }
  destruct st as [e|n|n| | |io names state| |n name|n k|i name|i]; [done|cbn [run_step]..].
  - unfold bg_starts. specialize (H4 n). by destruct (bg_of c n) as [[]|]; try done; apply rests_unseen.
  - unfold bg_ends. specialize (H4 n). by destruct (bg_of c n) as [[]|]; try done; apply rests_unseen.
  - unfold _on_keepalive_fatal. rewrite se_bind_asks, H2. by apply rests_unseen.
  - unfold fatal_runs. rewrite se_bind_asks. destruct (h_fatal (c_handles c)) as [n|]; [|by apply rests_unseen].
    apply rests_unseen; [|done..]. split; try done; exact (quiet_close n c H4).
  - destruct (_persist_success_state io names state c) as [c' r] eqn:E1.
    destruct (persist_frame _ _ _ _ _ _ E1) as (F1 & _ & F3 & F4 & F5 & _ & F7).
    apply rests_unseen; [|done..]. split; cbn; rewrite ?F1, ?F3; try done; by eapply none_alive_logins.
  - assert (none_alive (disconnect c).1) as Hq by (by apply disconnect_quiet, none_known).
    destruct (disconnect c) as [c' r] eqn:E1. destruct (disconnect_inv _ _ _ E1) as (_ & Ha & _ & Hh & _ & _ & Ht & He).
    rewrite H1, H2, H3 in He. cbn in *. rewrite app_nil_r in He. apply rests_unseen; [|done..]. split; by rewrite ?Hh.
  - unfold reader_emits. rewrite Hnr. by apply rests_unseen.
  - unfold reader_starts. rewrite Hnr. by apply rests_unseen.
  - by apply sync_rest.
  - split; [by apply (link_rest c)|]. split; [apply end_only|]. exists []. by rewrite app_nil_r.
Qed.

Lemma rest_steps l : ∀ c, existsb is_connect l = false → at_rest c → rests c (run_steps c l).
Proof.
  induction l as [|st l IH]; intros c Hl Hc; [by apply rests_unseen|]. cbn in Hl. apply orb_false_iff in Hl as [H1 H2].
  pose proof (rest_step st c H1 Hc) as H3. apply (rests_trans _ (run_step st c).1); [exact H3|]. apply IH; [exact H2|apply H3].
Qed.

(** A second [disconnect] does nothing. *)
Lemma disconnect_again c : at_rest c → c_closed c = true → c_handles c = torn_down (c_handles c) → disconnect c = (c, Ok tt).
Proof.
  intros [H1 H2 H3 _] Hc Hh. unfold disconnect. rewrite !se_bind_asks. rewrite H1, H2, H3.
  destruct c as [path d con cl [hs ht hr ha hst hb hf hw] logins disk evs ts]. cbn in *. by injection Hh as -> -> -> -> -> ->; subst.
Qed.

End Lifecycle.

(** [disconnect] of a client whose reader runs emits the event twice, the first one from the
    reader's own [finally]; after the reader has ended by itself it emits it once more. *)
Lemma disconnected_twice c n : h_bg_task (c_handles c) = Some n → bg_of c n = Some BgRunning →
  c_events (disconnect c).1 = c_events c ++ [EvDisconnected; EvDisconnected] ∧
  c_events (disconnect (bg_ends n c).1).1 = c_events c ++ [EvDisconnected; EvDisconnected].
Proof.
  intros Hh Hb. split.
  - destruct (disconnect c) as [c' r] eqn:E1. destruct (disconnect_inv _ _ _ E1) as (_ & _ & _ & _ & _ & _ & _ & He).
    cbn [fst]. rewrite He, Hh. cbn [mbind option_bind]. rewrite Hb. rewrite (bool_decide_eq_false_2 (Some n = None)) by done. by rewrite andb_false_r.
  - unfold bg_ends. rewrite Hb. set (c1 := (session_over n c).1). destruct (disconnect c1) as [c' r] eqn:E1.
    destruct (disconnect_inv _ _ _ E1) as (_ & _ & _ & _ & _ & _ & _ & He).
    assert (bg_of c1 n = Some BgDone) as Hdone.
    { unfold bg_of, bg_at, c1, session_over, mbind, se_bind in *. cbn. rewrite list_lookup_alter_eq. by destruct (c_logins c !! n). }
    change (c_handles c1) with (c_handles c) in He. change (c_events c1) with (c_events c ++ [EvDisconnected]) in He. cbn [fst]. rewrite He, Hh. cbn [mbind option_bind]. rewrite Hdone.
    rewrite (bool_decide_eq_false_2 (Some n = None)) by done. rewrite andb_false_r. cbn. by rewrite <- app_assoc.
Qed.

(** The reader of an earlier connection takes the later one's [connected] with it. *)
Lemma stale_reader c n : bg_of c n = Some BgRunning →
  c_connected (bg_ends n c).1 = false ∧ c_handles (bg_ends n c).1 = c_handles c.
Proof. intros Hb. unfold bg_ends. by rewrite Hb. Qed.

(** [_closed] is never cleared: after the first disconnection [wait_closed] does not wait. *)
Definition stays_closed (c c' : Client) : Prop := c_closed c = true → c_closed c' = true.

Section Closed.
Context {P : PairingProto} {X : X25519} {E : XEdDSA} {HM : Hmac} {M5 : Md5} {U : UnicodeDB} {Zl : Zlib} {F : FloatOps} {R : JsonRepr}.

#[local] Instance stays_closed_preorder : PreOrder stays_closed.
Proof. split; [intros c H; exact H|intros c1 c2 c3 H1 H2 H; auto]. Qed.

Lemma closed_device d : keeps stays_closed (set_device d).
Proof. by intros c H. Qed.
Lemma closed_connected b : keeps stays_closed (set_connected b).
Proof. by intros c H. Qed.
Lemma closed_set : keeps stays_closed set_closed.
Proof. by intros c H. Qed.
Lemma closed_handles f : keeps stays_closed (set_handles f).
Proof. by intros c H. Qed.
Lemma closed_logins f : keeps stays_closed (set_logins f).
Proof. by intros c H. Qed.
Lemma closed_emit ev : keeps stays_closed (_emit ev).
Proof. by intros c H. Qed.
Lemma closed_disk {A} (m : SE Disk A) : keeps stays_closed (on_disk m).
Proof. intros c H. unfold on_disk. by destruct (m (c_disk c)). Qed.
Lemma closed_open r : keeps stays_closed (open_sock r).
Proof. intros c H. by destruct r. Qed.
Lemma closed_with {A} n (m : SE Client A) : keeps stays_closed m → keeps stays_closed (with_sock n m).
Proof. intros Hm c H. unfold with_sock. specialize (Hm c H). by destruct (m c). Qed.
Lemma closed_pairer e d : keeps stays_closed (run_pairer e d).
Proof.
  unfold run_pairer. destruct (pairer_run _ _ _ _ _ _ _) as [s r].
  repeat first [apply keeps_bind; [typeclasses eauto| |]; [|intros ?]|apply keeps_fold; [typeclasses eauto|]]; intros; by intros c H.
Qed.
#[local] Hint Resolve closed_device closed_connected closed_set closed_handles closed_logins closed_emit closed_disk closed_open closed_with closed_pairer : keeps.

Lemma closed_login e : keeps stays_closed (_run_login e).
Proof. unfold _run_login, login_body, _install_messaging, _open_signal_stores, close_sock, set_bg. keeps. Qed.
#[local] Hint Resolve closed_login : keeps.

Lemma closed_pair_body e : keeps stays_closed (pair_body e).
Proof. unfold pair_body, _save_device. keeps. Qed.
#[local] Hint Resolve closed_pair_body : keeps.

Lemma closed_connect e : keeps stays_closed (connect e).
Proof. unfold connect, _run_pairing, ensure_device. keeps. Qed.

Lemma closed_forever l : ∀ c, wait_closed_returns c = true → wait_closed_returns (run_steps c l) = true.
Proof.
  induction l as [|st l IH]; intros c Hc; [exact Hc|]. apply (IH (run_step st c).1). clear IH.
  destruct st as [e|n|n| | |io names state| |n name|n k|i name|i]; cbn [run_step]; [by apply closed_connect|..].
  - unfold bg_starts. destruct (bg_of c n) as [[]|]; [|done..]. by case_bool_decide.
  - unfold bg_ends. by destruct (bg_of c n) as [[]|].
  - unfold _on_keepalive_fatal. rewrite se_bind_asks. by destruct (h_sock (c_handles c)), (h_fatal (c_handles c)).
  - unfold fatal_runs. rewrite se_bind_asks. by destruct (h_fatal (c_handles c)).
  - destruct (_persist_success_state io names state c) as [c' r] eqn:E1. destruct (persist_frame _ _ _ _ _ _ E1) as (_ & F2 & _).
    unfold wait_closed_returns in *. cbn. by rewrite F2.
  - destruct (disconnect c) as [c' r] eqn:E1. by destruct (disconnect_inv _ _ _ E1) as (_ & _ & H & _).
  - pose proof (sync_link (ReaderEmits n name) c I) as (_ & _ & H & _). cbn [run_step] in H. unfold wait_closed_returns. by rewrite H.
  - pose proof (sync_link (ReaderStarts n k) c I) as (_ & _ & H & _). cbn [run_step] in H. unfold wait_closed_returns. by rewrite H.
  - pose proof (sync_link (SyncEmits i name) c I) as (_ & _ & H & _). cbn [run_step] in H. unfold wait_closed_returns. by rewrite H.
  - exact Hc.
Qed.
End Closed.

(** C23: Whatever has happened to a client in an order that starts no second connection beside
    a live one: while it calls itself connected, its socket, transport, sender and paired
    device are there. [disconnect] returns, with the socket, the transport, the receiver, the
    activator, the signal store and the background task given up and [wait_closed] released;
    the sender and the media and sync objects ([h_wired]) it keeps, of use to no call of a
    client that is not connected. Then a second [disconnect] changes nothing, and without
    another [connect] no background task, reader, keepalive, close task or success handler that is still pending
    makes the client call itself connected or emit anything again. Only the history and
    server-sync tasks that the reader had started and that still run may emit their events,
    since [disconnect] does not cancel them; without one nothing is emitted. *)
Theorem client_lifecycle {P : PairingProto} {X : X25519} {E : XEdDSA} {HM : Hmac} {M5 : Md5} {U : UnicodeDB} {Zl : Zlib}
    {F : FloatOps} {R : JsonRepr} (posix : bool) (io : LoadCalls) (now : str) (path : option SessionPath) (disk : Disk)
    (c0 : Client) (steps later : list step) :
  Client_init posix io now path disk = Ok c0 → orderly_steps c0 steps = true → existsb is_connect later = false →
  let c := run_steps c0 steps in
  (c_connected c = true → wired c) ∧
  ∃ c1, disconnect c = (c1, Ok tt) ∧ at_rest c1 ∧ c_handles c1 = torn_down (c_handles c) ∧ wait_closed_returns c1 = true ∧
    c_device c1 = c_device c ∧ disconnect c1 = (c1, Ok tt) ∧
    at_rest (run_steps c1 later) ∧
    ∃ evs, c_events (run_steps c1 later) = c_events c1 ++ evs ∧ Forall (of_running (c_tasks c)) evs ∧
      (Forall (λ t, t.2 = false) (c_tasks c) → evs = []).
Proof.
  intros Hi Ho Hl c. unfold Client_init in Hi. res_inv.
  assert (client_ok c) as Hc by (by apply run_steps_ok, off_ok).
  assert (bg_known c) as Hk by (apply run_steps_known; [done|apply none_known; by intros k]).
  split; [exact Hc|]. pose proof (disconnect_quiet c Hk) as Hq.
  destruct (disconnect c) as [c1 r] eqn:E1. exists c1. destruct (disconnect_inv _ _ _ E1) as (-> & Ha & Hcl & Hh & Hd & _ & Ht & _).
  assert (at_rest c1) as Hr by (split; by rewrite ?Hh).
  destruct (rest_steps later c1 Hl Hr) as (H1 & _ & evs & H2 & H3). rewrite Ht in H3. split_and!; try done.
  - apply disconnect_again; [done..|]. by rewrite Hh.
  - exists evs. split_and!; [done|done|]. intros Hend. destruct evs as [|ev evs]; [done|].
    apply Forall_cons in H3 as [(i & k & name & _ & Hi & _) _]. by apply (Forall_lookup_1 _ _ _ _ Hend) in Hi.
Qed.

Module ClientDemo.
#[local] Existing Instances toy_x25519 toy_xeddsa toy_hmac toy_pairing latin1_ucd stored_zlib no_floats no_repr.
#[local] Instance no_md5 : Md5 := λ b, b.

Definition session : SessionPath := mkPath (u "d/dev.json") (u "d/dev.json") (u "d").

(** The disk of a client that was paired before. *)
Definition paired_disk : Disk := (save_device_store all_well demo_device (u "d") (u "d/dev.json") [u "x1"] (mkDisk ∅ [])).1.
Definition good_login : LoginCalls := mkLoginCalls (Ok tt) (Ok tt) (Ok tt).
Definition logging_in (l : LoginCalls) : PairCalls :=
  mkPairCalls (Ok tt) (Ok tt) [] [] [] [] [] [] [] 0 (λ _, false) [] all_well [] l.

Definition resumed : Client := ok_or (mkClient None None false false no_handles [] (mkDisk ∅ []) [] []) (Client_init true readable (u "0.5") (Some session) paired_disk).

(** A login, its reader, a keepalive that gives up, and a [disconnect] while the reader runs. *)
Definition busy : list step :=
  [Connect (logging_in good_login); BgStarts 0; ReaderStarts 0 HistoryTask; ReaderEmits 0 (u "message"); KeepaliveFatal].
Definition pending : list step := [FatalRuns; Success all_well [u "x2"] (mkSuccess 0 (Some (u "77@lid")) None); BgEnds 0; BgStarts 0; KeepaliveFatal; Disconnect;
  ReaderEmits 0 (u "message"); ReaderStarts 0 ServerSyncTask; SyncEmits 0 (u "history_sync"); SyncEmits 0 (u "history_sync")].

(** The history task outlives the connection: its event comes after [disconnected]. *)
Lemma history_after_disconnect :
  c_events (run_steps resumed (busy ++ Disconnect :: pending)) =
    [EvConnected; EvReceived (u "message"); EvDisconnected; EvDisconnected; EvSynced 0 (u "history_sync")].
Proof. vm_compute. reflexivity. Qed.

Lemma client_lifecycle_witness : c_connected (run_steps resumed busy) = true ∧ wired (run_steps resumed busy) ∧
  ∃ c1 evs, disconnect (run_steps resumed busy) = (c1, Ok tt) ∧ c_connected c1 = false ∧
    c_events c1 = [EvConnected; EvReceived (u "message"); EvDisconnected; EvDisconnected] ∧
    c_events (run_steps c1 pending) = c_events c1 ++ evs ∧ Forall (of_running [(HistoryTask, true)]) evs.
Proof.
  assert (Client_init true readable (u "0.5") (Some session) paired_disk = Ok resumed) as Hi by (vm_compute; reflexivity).
  assert (orderly_steps resumed busy = true) as Ho by (vm_compute; reflexivity).
  assert (c_connected (run_steps resumed busy) = true) as Hc by (vm_compute; reflexivity).
  assert (c_tasks (run_steps resumed busy) = [(HistoryTask, true)]) as Ht by (vm_compute; reflexivity).
  destruct (client_lifecycle true readable (u "0.5") (Some session) paired_disk resumed busy pending Hi Ho eq_refl)
    as (Hw & c1 & Hd & Hr & _ & _ & _ & _ & _ & evs & He & Hf & _). rewrite Ht in Hf.
  split; [exact Hc|]. split; [exact (Hw Hc)|]. exists c1, evs. split; [exact Hd|]. split; [exact (ar_off _ Hr)|].
  split; [|split; [exact He|exact Hf]].
  transitivity (c_events (disconnect (run_steps resumed busy)).1); [by rewrite Hd|vm_compute; reflexivity].
Defined.
End ClientDemo.
