(* ===== verification/ClientResume.v ===== *)
(** * From pairing to the next start ([client.py] with [pairing.py] and [store.py])

    A client that has emitted [paired] has its credentials on disk: the next process loads
    them and logs in instead of pairing again. *)

From S2P Require Import Prelude Effects PyStr Jid Node Encoder Codec Json JsonText Crypto SignalKeys SignalTypes X3dh Media.
From S2P Require Import SessionStore DeviceStore Pairing PairingProofs Activator Client.
#[local] Open Scope Z_scope.

(** What a save that returned has left. *)
Lemma saved_file {U : UnicodeDB} {UL : UnicodeDBLaws U} {F : FloatOps} {R : JsonRepr} io s dir dest names d d' :
  os_errors io → save_device_store io s dir dest names d = (d', Ok tt) →
  ∃ data, payload s = Ok data ∧ files d' !! dest = Some (private_file data).
Proof.
  intros He H. unfold save_device_store in H. destruct (io_mkdir io) as [[]|]; [|done]. rewrite se_bind_lift in H.
  destruct (payload s) as [data|]; [|done]. rewrite se_bind_lift in H.
  apply se_bind_Ok_inv in H as (d1 & tmp & Ht & H). pose proof (mkstemp_runs _ _ _ _ _ _ Ht) as (_ & Hnone & _ & Hf).
  apply se_bind_Ok_inv in H as (d2 & [] & Hr & H). rewrite sync_directory_ok in H by done. injection H as <-.
  unfold se_try in Hr. destruct (replace_file io tmp dest data d1) as [d3 [[]|e]] eqn:Er.
  - injection Hr as <-. destruct (replace_file_runs _ _ _ _ _ _ _ _ Hf Hnone Er) as (_ & _ & _ & ->). exists data.
    by rewrite lookup_insert_eq.
  - destruct (replace_file_runs _ _ _ _ _ _ _ _ Hf Hnone Er) as (_ & _ & _ & Hst & _).
    destruct (is_Exception e); [|done]. destruct (discard_runs io tmp e (files d) d3 He Hnone Hst) as (? & ? & Hd & _). congruence.
Qed.

Section Resume.
Context {P : PairingProto} {X : X25519} {XL : X25519Laws X} {E : XEdDSA} {EL : XEdDSALaws X E} {HM : Hmac} {M5 : Md5}
  {U : UnicodeDB} {UL : UnicodeDBLaws U} {Zl : Zlib} {F : FloatOps} {R : JsonRepr}.

(** The parts of a client that a login leaves alone. *)
Definition paired_jids (c : Client) : list JID := omap (λ ev, match ev with EvPaired j => Some j | _ => None end) (c_events c).
Definition login_frame (c c' : Client) : Prop :=
  c_device c' = c_device c ∧ c_disk c' = c_disk c ∧ c_session_path c' = c_session_path c ∧ paired_jids c' = paired_jids c.

#[local] Instance login_frame_preorder : PreOrder login_frame.
Proof.
  split; [by intros c|]. intros c1 c2 c3 (H1 & H2 & H3 & H4) (K1 & K2 & K3 & K4).
  split_and!; etransitivity; eassumption.
Qed.

Lemma frame_connected b : keeps login_frame (set_connected b).
Proof. by intros c. Qed.
Lemma frame_handles f : keeps login_frame (set_handles f).
Proof. by intros c. Qed.
Lemma frame_logins f : keeps login_frame (set_logins f).
Proof. by intros c. Qed.
Lemma frame_open r : keeps login_frame (open_sock r).
Proof. intros c. by destruct r. Qed.
Lemma frame_emit ev : (∀ j, ev ≠ EvPaired j) → keeps login_frame (_emit ev).
Proof.
  intros Hev c. split_and!; try done. unfold paired_jids. cbn. rewrite omap_app. destruct ev; try (by rewrite app_nil_r). by destruct (Hev jid).
Qed.
Lemma frame_qr p : keeps login_frame (_emit (EvQr p)).
Proof. by apply frame_emit. Qed.
Lemma frame_up : keeps login_frame (_emit EvConnected).
Proof. by apply frame_emit. Qed.
#[local] Hint Resolve frame_connected frame_handles frame_logins frame_open frame_qr frame_up : keeps.

Lemma frame_login e : keeps login_frame (_run_login e).
Proof. unfold _run_login, login_body, _install_messaging, _open_signal_stores, close_sock, set_bg. keeps. Qed.

(** The conversation, with what it leaves in the client. *)
Lemma run_pairer_inv e d c c' r : run_pairer e d c = (c', r) → ∃ s,
  pairer_run (pa_adv_secret e) (pa_random_z e) (pa_start e) QR_TOTAL_TIMEOUT_SECONDS (pa_done e) (pa_rounds e) (pairer_start d) = (s, r) ∧
  c_device c' = Some (ps_device s) ∧ c_disk c' = c_disk c ∧ c_session_path c' = c_session_path c ∧ paired_jids c' = paired_jids c.
Proof.
  unfold run_pairer. destruct (pairer_run _ _ _ _ _ _ _) as [s r1]. intros H. exists s.
  assert (keeps login_frame (_ ← se_fold (λ _ payload, _emit (EvQr payload)) tt (ps_qrs s); se_lift r1)) as K by keeps.
  assert (∀ c, ((_ ← se_fold (λ _ payload, _emit (EvQr payload)) tt (ps_qrs s); se_lift r1) c).2 = r1) as Hr.
  { clear. induction (ps_qrs s) as [|q l IH]; intros c1; [done|]. cbn [se_fold]. rewrite se_bind_assoc. exact (IH (_emit (EvQr q) c1).1). }
  set (c1 := (set_device (Some (ps_device s)) c).1). change ((_ ← se_fold (λ _ payload, _emit (EvQr payload)) tt (ps_qrs s); se_lift r1) c1 = (c', r)) in H.
  specialize (K c1). specialize (Hr c1). rewrite H in K, Hr. cbn in K, Hr. destruct K as (K1 & K2 & K3 & K4). subst r1. by split_and!.
Qed.

(** The [try] block announces the pairing last, once the device is saved. *)
Lemma pair_body_inv e c c' r : pair_body e c = (c', r) →
  match r with
  | Raise _ => paired_jids c' = paired_jids c
  | Ok _ => ∃ d s res, c_device c = Some d ∧
      pairer_run (pa_adv_secret e) (pa_random_z e) (pa_start e) QR_TOTAL_TIMEOUT_SECONDS (pa_done e) (pa_rounds e) (pairer_start d) = (s, Ok res) ∧
      c_device c' = Some (ps_device s) ∧ paired_jids c' = paired_jids c ++ [res_jid res] ∧ c_session_path c' = c_session_path c ∧
      ∀ p, c_session_path c = Some p →
        save_device_store (pa_save e) (ps_device s) (sp_parent p) (sp_file p) (pa_names e) (c_disk c) = (c_disk c', Ok tt)
  end.
Proof.
  unfold pair_body. rewrite se_bind_asks. destruct (c_device c) as [d|] eqn:Ed; cbn [some_or]; [|by intros [= <- <-]].
  rewrite se_bind_lift. destruct (build_register_payload d _ None) as [b|x]; [|by intros [= <- <-]]. rewrite se_bind_lift.
  destruct (pa_handshake e) as [[]|x]; [|by intros [= <- <-]]. rewrite se_bind_lift.
  destruct (run_pairer e d c) as [c1 [res|x]] eqn:E1; destruct (run_pairer_inv _ _ _ _ _ E1) as (s & Hs & Hd & Hk & Hp & Hj).
  2:{ rewrite (se_bind_raise _ _ _ _ _ E1). by intros [= <- <-]. }
  rewrite (se_bind_eq _ _ _ _ _ E1), se_bind_asks, Hp. intros H.
  assert (omap (λ ev, match ev with EvPaired j => Some j | _ => None end) (c_events c1 ++ [EvPaired (res_jid res)]) =
    paired_jids c ++ [res_jid res]) as Hemit by (rewrite omap_app; unfold paired_jids in *; by rewrite Hj).
  destruct (c_session_path c) as [p|] eqn:Ep.
  - rewrite bool_decide_eq_false_2 in H by done. assert (_save_device (pa_save e) (pa_names e) c1 =
      on_disk (save_device_store (pa_save e) (ps_device s) (sp_parent p) (sp_file p) (pa_names e)) c1) as Hsave.
    { unfold _save_device. rewrite !se_bind_asks. by rewrite Hd, Hp. }
    unfold on_disk in Hsave. rewrite Hk in Hsave. destruct (save_device_store _ _ _ _ _ _) as [d2 [[]|x]] eqn:Es.
    2:{ rewrite (se_bind_raise _ _ _ _ _ Hsave) in H. by injection H as <- <-. }
    rewrite (se_bind_eq _ _ _ _ _ Hsave) in H. injection H as <- <-.
    exists d, s, res. split_and!; try done. intros p' [= <-]. exact Es.
  - rewrite bool_decide_eq_true_2 in H by done. injection H as <- <-. exists d, s, res. by split_and!.
Qed.

(** The session on socket [n], however it ends. *)
Lemma with_sock_inv {A} n (m : SE Client A) c c' r : with_sock n m c = (c', r) →
  ∃ c1, m c = (c1, r) ∧ login_frame c1 c'.
Proof.
  unfold with_sock. destruct (m c) as [c1 r1]. intros H. exists c1. cbn in H. injection H as <- <-. by split.
Qed.

(** A client without a device that says it has paired has made a fresh device, run [Pairer]
    about it and saved what came out. *)
Lemma connect_pairs e c c' r jid : c_device c = None → paired_jids c = [] → connect e c = (c', r) → jid ∈ paired_jids c' → ∃ d s res,
  make_fresh_device (pa_sk_identity e) (pa_sk_spk e) (pa_random_z e) (pa_sk_noise e) (pa_reg e) DEFAULT_PAIRING_NAME (pa_now e) = Ok d ∧
  pairer_run (pa_adv_secret e) (pa_random_z e) (pa_start e) QR_TOTAL_TIMEOUT_SECONDS (pa_done e) (pa_rounds e) (pairer_start d) = (s, Ok res) ∧
  res_jid res = jid ∧ c_device c' = Some (ps_device s) ∧
  ∀ p, c_session_path c = Some p →
    save_device_store (pa_save e) (ps_device s) (sp_parent p) (sp_file p) (pa_names e) (c_disk c) = (c_disk c', Ok tt).
Proof.
  intros Hd Hnone H Hj. unfold connect in H. rewrite se_bind_asks, Hd in H. cbn [mbind option_bind] in H.
  unfold _run_pairing, ensure_device in H. rewrite se_bind_assoc, se_bind_asks, Hd, se_bind_assoc in H.
  destruct (make_fresh_device _ _ _ _ _ _ _) as [d|x]; [|injection H as <- <-; rewrite Hnone in Hj; by apply elem_of_nil in Hj].
  rewrite se_bind_lift in H. rewrite (se_bind_eq (set_device (Some d)) _ c _ tt eq_refl) in H.
  set (c1 := mkClient _ (Some d) _ _ _ _ _ _ _) in H.
  destruct ((n ← open_sock (pa_connect e); with_sock n (pair_body e)) c1) as [c2 r2] eqn:E2.
  assert (match r2 with Raise _ => paired_jids c2 = [] | Ok _ => True end ∧
    (∀ u, r2 = Ok u → ∃ n cb c2', open_sock (pa_connect e) c1 = (cb, Ok n) ∧ pair_body e cb = (c2', Ok tt) ∧ login_frame c2' c2)) as [Hr2 Hok].
  { destruct (open_sock (pa_connect e) c1) as [cb [n|x]] eqn:Eo; pose proof (keeps_run _ _ _ _ _ (frame_open _) Eo) as (_ & _ & _ & Ho).
    - rewrite (se_bind_eq _ _ _ _ _ Eo) in E2. apply with_sock_inv in E2 as (c2' & Hb & Hf).
      split; [destruct r2; [done|]|intros [] ->; eauto 8]. apply pair_body_inv in Hb. destruct Hf as (_ & _ & _ & ->). by rewrite Hb, Ho.
    - rewrite (se_bind_raise _ _ _ _ _ Eo) in E2. injection E2 as <- <-. split; [by rewrite Ho|done]. }
  destruct r2 as [[]|x].
  2:{ rewrite (se_bind_raise _ _ _ _ _ E2) in H. injection H as <- <-. rewrite Hr2 in Hj. by apply elem_of_nil in Hj. }
  rewrite (se_bind_eq _ _ _ _ _ E2) in H. destruct (Hok tt eq_refl) as (n & cb & c2' & Ho & Hb & (F1 & F2 & F3 & F4)).
  pose proof (keeps_run _ _ _ _ _ (frame_open _) Ho) as (O1 & O2 & O3 & O4).
  apply pair_body_inv in Hb as (d' & s & res & B1 & B2 & B3 & B4 & B5 & B6). rewrite O1 in B1. injection B1 as <-.
  assert (login_frame c2 c') as (L1 & L2 & L3 & L4).
  { rewrite se_bind_asks in H. destruct (c_device c2 ≫= ds_jid); [exact (keeps_run _ _ _ _ _ (frame_login _) H)|]. by injection H as <- <-. }
  assert (paired_jids cb = []) as Hcb by (by rewrite O4). rewrite L4, F4, B4, Hcb in Hj. apply list_elem_of_singleton in Hj as ->.
  exists d, s, res. split_and!; [done..|congruence|]. intros p Hp. rewrite L2, F2, <- (B6 p); [by rewrite O2|by rewrite O3].
Qed.

(** A login whose calls succeed. *)
Lemma login_connects d n c : c_device c = Some d → is_ok (build_login_payload d) = true → c_logins c = n →
  ∃ c', _run_login (mkLoginCalls (Ok tt) (Ok tt) (Ok tt)) c = (c', Ok tt) ∧ c_connected c' = true ∧ c_events c' = c_events c ++ [EvConnected].
Proof.
  intros Hd Hp _. unfold _run_login. rewrite se_bind_asks, Hd. cbn [some_or]. rewrite se_bind_lift. unfold se_try, login_body, _install_messaging, _open_signal_stores.
  destruct (build_login_payload d) as [b|]; [|done]. destruct c as [[p|] dev con cl h lo disk evs].
  - unfold mbind, se_bind. cbn. destruct (truthy (sp_path p)); cbn; eexists; (split; [reflexivity|done]).
  - unfold mbind, se_bind. cbn. eexists. split; [reflexivity|done].
Qed.

(** The LID of a [<success>] stanza is there after a restart. *)
Lemma success_state_kept posix now' io names state d p c c' :
  os_errors io → c_device c = Some d → c_session_path c = Some p → storable (from_option (set_lid d) d (su_lid state)) →
  _persist_success_state io names state c = (c', Ok tt) → ∃ c2,
  Client_init posix readable now' (Some p) (c_disk c') = Ok c2 ∧ c_device c2 = Some (from_option (set_lid d) d (su_lid state)).
Proof.
  intros Hos Hd Hp Hst H. set (d' := from_option (set_lid d) d (su_lid state)) in *.
  assert (save_device_store io d' (sp_parent p) (sp_file p) names (c_disk c) = (c_disk c', Ok tt)) as Hsave.
  { unfold _persist_success_state, _save_device in H. rewrite se_bind_asks, Hd in H.
    unfold mbind, se_bind, se_asks, set_device, mret, se_ret, on_disk in H. subst d'.
    destruct (su_lid state); cbn in H; rewrite ?Hd, Hp in H; cbn; by destruct (save_device_store _ _ _ _ _ _) as [dk [[]|]]; simplify_eq/=. }
  destruct (saved_file _ _ _ _ _ _ _ Hos Hsave) as (data & Hpay & Hfile). eexists. split; [|shelve].
  unfold Client_init, _load_device. rewrite (load_private _ _ _ _ _ _ Hst Hpay Hfile). reflexivity.
  Unshelve. reflexivity.
Qed.
End Resume.

(** What a pairing draws has the sizes the code asks for. *)
Record drawn (e : PairCalls) : Prop := {
  dr_identity : length (pa_sk_identity e) = 32%nat;
  dr_random : length (pa_random_z e) = 64%nat;
  dr_reg : length (pa_reg e) = 4%nat;
  dr_now : is_float_literal (pa_now e) = true
}.

(** C22: a pairing survives the process: when a client without credentials has emitted
    [paired], a new client on the disk it leaves loads the device it has, with the JID that was
    announced, and its [connect] is a login and no second pairing; the login succeeds when
    its calls do. *)
Theorem paired_client_resumes {P : PairingProto} {X : X25519} {XL : X25519Laws X} {E : XEdDSA} {EL : XEdDSALaws X E} {HM : Hmac}
    {M5 : Md5} {U : UnicodeDB} {UL : UnicodeDBLaws U} {Zl : Zlib} {F : FloatOps} {R : JsonRepr}
    (posix : bool) (now now' : str) (p : SessionPath) (disk : Disk) (c0 c1 : Client) (e : PairCalls) (r : result unit) (jid : JID) :
  Client_init posix readable now (Some p) disk = Ok c0 → c_device c0 = None → drawn e → os_errors (pa_save e) →
  connect e c0 = (c1, r) → EvPaired jid ∈ c_events c1 →
  scalar_str (user jid) = true → scalar_str (server jid) = true → counter_ok (device jid) →
  ∃ d c2, c_device c1 = Some d ∧ ds_jid d = Some (mkJIDTuple (user jid) (server jid) (device jid)) ∧
    Client_init posix readable now' (Some p) (c_disk c1) = Ok c2 ∧ c_device c2 = Some d ∧
    (∀ e', connect e' c2 = _run_login (pa_login e') c2) ∧
    (∀ e' n, pa_login e' = mkLoginCalls (Ok tt) (Ok tt) (Ok tt) → py_int (user jid) = Ok n → uint64 n = true → uint32 (device jid) = true →
      ∃ c3, connect e' c2 = (c3, Ok tt) ∧ c_connected c3 = true ∧ c_events c3 = [EvConnected]).
Proof.
  intros Hi Hd [H1 H2 H3 H4] Hos Hc Hev Hu Hs Hdev. unfold Client_init in Hi. res_inv. cbn in Hd. subst.
  assert (jid ∈ paired_jids c1) as Hj by (apply list_elem_of_omap; by exists (EvPaired jid)).
  pose proof (λ a b, connect_pairs e _ c1 r jid a b Hc Hj) as Hpairs.
  destruct (Hpairs eq_refl eq_refl) as (d & s & res & Hf & Hrun & <- & Hc1 & Hsave).
  specialize (Hsave p eq_refl). destruct (saved_file _ _ _ _ _ _ _ Hos Hsave) as (data & Hp & Hfile).
  destruct (fresh_device (pa_sk_identity e) (pa_sk_spk e) (pa_random_z e) (pa_sk_noise e) (pa_reg e) DEFAULT_PAIRING_NAME (pa_now e) H1 H2 H3 H4 eq_refl)
    as (d' & Hf' & Hst & _). rewrite Hf in Hf'. injection Hf' as <-.
  apply run_outcome in Hrun as (s1 & Hrun & Eds & _). apply conversation_outcome in Hrun as (b & rd & a & s2 & f & n & _ & [Hw _] & _ & _ & _ & _ & Hok).
  apply pair_success_outcome in Hok as (adv & jid & sig & inner & frame & _ & _ & _ & _ & Hd1 & ->). cbn in *. rewrite Hw in Hd1. cbn in Hd1.
  rewrite Eds, Hd1 in *. pose proof (paired_storable d adv jid sig Hst Hu Hs Hdev) as Hst'.
  eexists _, (mkClient (Some p) (Some (paired_device d adv jid sig)) false false no_handles [] (c_disk c1) [] []).
  split; [exact Hc1|]. split; [done|]. split.
  { unfold Client_init, _load_device. by rewrite (load_private _ _ _ _ _ _ Hst' Hp Hfile). }
  split; [done|]. split; [done|]. intros e' m Hl Hm' H5 H6.
  destruct (login_connects (paired_device d adv jid sig) [] (mkClient (Some p) (Some (paired_device d adv jid sig)) false false no_handles [] (c_disk c1) [] [])
    eq_refl ltac:(by rewrite (paired_login _ _ _ _ _ Hm' H5 H6)) eq_refl) as (c3 & H7 & H8 & H9).
  exists c3. split; [|split; [exact H8|exact H9]]. unfold connect. rewrite se_bind_asks. cbn. by rewrite Hl.
Qed.

Module ResumeDemo.
Import PairingDemo ClientDemo.
#[local] Existing Instances toy_x25519 toy_xeddsa toy_hmac toy_pairing latin1_ucd stored_zlib no_floats no_repr no_md5.

Definition pairing : PairCalls :=
  mkPairCalls (Ok tt) (Ok tt) (key 1) (key 2) (key 3) [mkb 0; mkb 0; mkb 1; mkb 2] (u "1718000000.5") noise64
    secret 0 (λ _, false) rounds all_well [u "x1"] good_login.

Definition new_client : Client := mkClient (Some session) None false false no_handles [] (mkDisk ∅ []) [] [].

(** The client of a first start pairs and logs in; the one of the second start logs in. *)
Lemma paired_client_resumes_witness : ∃ c2 c3,
  Client_init true readable (u "9.5") (Some session) (c_disk (connect pairing new_client).1) = Ok c2 ∧
  connect (logging_in good_login) c2 = (c3, Ok tt) ∧ c_events c3 = [EvConnected].
Proof.
  destruct (paired_client_resumes true (u "0.5") (u "9.5") session (mkDisk ∅ []) new_client (connect pairing new_client).1 pairing
    (connect pairing new_client).2 assigned) as (d & c2 & _ & _ & Hi & _ & _ & Hl).
  - vm_compute. reflexivity.
  - reflexivity.
  - split; reflexivity.
  - repeat constructor; done.
  - apply surjective_pairing.
  - apply (bool_decide_unpack _). vm_compute. exact I.
  - reflexivity.
  - reflexivity.
  - vm_compute. split; [discriminate|reflexivity].
  - destruct (Hl (logging_in good_login) 15550001 eq_refl eq_refl eq_refl eq_refl) as (c3 & Hc & _ & He).
    exists c2, c3. split; [exact Hi|]. split; [exact Hc|exact He].
Defined.
End ResumeDemo.
