(* ===== verification/ClientCalls.v ===== *)
(** * The public calls of the client ([src/src/pywhats/client.py])

    Every call first looks at the connection, then builds what it sends and hands it to the
    components of the live connection, here the interface [Wires]; [live_wires] implements
    it with the sender, the uploader and the downloader of the other files. *)

From S2P Require Import Prelude Effects PyStr Jid Node Encoder Codec Json Crypto AppCrypto SignalKeys X3dh SignalTypes Ratchet.
From S2P Require Import SenderKey SessionStore LidMap PeerStores Outbox Media Stanzas PeerSessions Messages Attachments.
From S2P Require Import Sender SenderProofs Receiver ReceiverProofs Delivery AppPatches AppEvents DeviceStore Client.
#[local] Open Scope Z_scope.

(** ** What a live connection offers *)

(** The body of [send_text]. *)
Definition text_proto (text : str) (reply_to : option ReplyTo) : result MessageProto :=
  match reply_to with Some x => _build_reply_proto text x | None => conversation_proto text end.

Class Wires (W : Type) := {
  w_send_message : JID → MessageProto → str → option str → SE W Message;
  w_send_text : JID → str → option ReplyTo → SE W Message;
  w_send_group_text : JID → str → list JID → SE W Message;
  w_upload : bytes → str → SE W UploadResult;
  w_download : MediaInfo → SE W bytes;
  w_new_id : SE W str;
  w_send_iq : Node → SE W Node;
  w_send : bytes → SE W unit
}.

(** A text is a message like the others. *)
Class WiresLaws (W : Type) {WI : Wires W} : Prop := {
  w_send_text_eq chat text reply_to w :
    w_send_text (W := W) chat text reply_to w = (p ← se_lift (text_proto text reply_to); w_send_message chat p text None) w
}.

(** ** The calls *)

Definition _own_signal_jid (device : DeviceStore) : JID :=
  match ds_jid device with
  | None => mkJID [] (u "s.whatsapp.net") 0
  | Some j => mkJID (jt_user j) (jt_server j) (jt_device j)
  end.

Section Calls.
Context {W : Type} {WI : Wires W} {U : UnicodeDB} {Zl : Zlib}.
Context (c : Client).
#[local] Abbreviation M := (SE W).

(** [if not self._connected or x is None: raise NotConnected]. *)
Definition need (o : option nat) : M unit :=
  if negb (c_connected c) || bool_decide (o = None) then se_raise NotConnected else mret tt.
Definition need_wired : M unit := need (h_wired (c_handles c)).

Definition send_text (chat : JID) (text : str) (reply_to : option ReplyTo) : M Message :=
  _ ← need_wired; w_send_text chat text reply_to.

Definition send_group_text (group : JID) (text : str) (participants : list JID) : M Message :=
  _ ← need_wired; w_send_group_text group text participants.

Definition get_group_info (group : JID) : M Groups.GroupInfo :=
  _ ← need_wired;
  id ← w_new_id;
  resp ← w_send_iq (Groups.build_group_info_iq group id);
  se_lift (Groups.parse_group_info resp).

(** [send_image] and its siblings: the upload, then a message about it. *)
Definition send_upload (data : bytes) (media_type : str) (body : UploadResult → result MessageProto) (chat : JID) (text : str) : M Message :=
  _ ← need_wired;
  upload ← w_upload data media_type;
  proto ← se_lift (body upload);
  w_send_message chat proto text None.

Definition send_image (chat : JID) (image_bytes : bytes) (mimetype caption : str) (width height : Z) : M Message :=
  send_upload image_bytes MEDIA_IMAGE (λ up, image_proto up mimetype caption width height) chat caption.
Definition send_video (chat : JID) (video_bytes : bytes) (mimetype caption : str) : M Message :=
  send_upload video_bytes MEDIA_VIDEO (λ up, video_proto up mimetype caption) chat caption.
Definition send_sticker (chat : JID) (sticker_bytes : bytes) (mimetype : str) : M Message :=
  send_upload sticker_bytes MEDIA_IMAGE (λ up, sticker_proto up mimetype) chat [].
Definition send_audio (chat : JID) (audio_bytes : bytes) (mimetype : str) (ptt : bool) : M Message :=
  send_upload audio_bytes MEDIA_AUDIO (λ up, audio_proto up mimetype ptt) chat [].
Definition send_document (chat : JID) (document_bytes : bytes) (mimetype filename caption : str) : M Message :=
  send_upload document_bytes MEDIA_DOCUMENT (λ up, document_proto up mimetype filename caption) chat caption.

(** [now_ms] is [int(time.time() * 1000)]. *)
Definition send_reaction (now_ms : Z) (chat : JID) (message_id emoji : str) (from_me : bool) : M Message :=
  _ ← need_wired;
  proto ← se_lift (reaction_proto chat message_id emoji from_me now_ms);
  w_send_message chat proto [] None.

Definition _send_protocol_edit (now_ms : Z) (chat : JID) (message_id : str) (from_me : bool) (new_text : option str) (revoke : bool)
    (participant : option JID) : M Message :=
  _ ← need_wired;
  '(proto, edit_attr) ← se_lift (protocol_edit_proto chat message_id from_me new_text revoke participant now_ms);
  w_send_message chat proto [] (Some edit_attr).

Definition edit_message (now_ms : Z) (chat : JID) (message_id new_text : str) (from_me : bool) : M Message :=
  _send_protocol_edit now_ms chat message_id from_me (Some new_text) false None.
Definition revoke_message (now_ms : Z) (chat : JID) (message_id : str) (from_me : bool) (participant : option JID) : M Message :=
  _send_protocol_edit now_ms chat message_id from_me None true participant.

Definition download_media (info : MediaInfo) : M bytes := _ ← need_wired; w_download info.

Definition _send_stanza (node : Node) : M unit :=
  _ ← need (h_transport (c_handles c));
  frame ← se_lift (encode node false);
  w_send frame.

(** [now] is [int(time.time())]; the receipt is built before the connection is looked at. *)
Definition mark_read (now : Z) (chat : JID) (message_ids : list str) (sender : option JID) : M unit :=
  node ← se_lift (Presence.build_read_receipt chat message_ids sender now);
  _send_stanza node.

Definition send_presence (state : str) : M unit :=
  _send_stanza (Presence.build_presence state (c_device c ≫= ds_push_name)).

Definition subscribe_presence (jid : JID) : M unit := _send_stanza (Presence.build_subscribe_presence jid).

Definition send_chat_presence (jid : JID) (state : str) (media : option str) : M unit :=
  device ← se_lift (some_or (c_device c) NotConnected);
  _send_stanza (Presence.build_chat_presence (_own_signal_jid device) jid state media).
End Calls.

(** ** App-state events *)

Section AppStateEvents.
Context {U : UnicodeDB}.

Definition emit_app_event (e : AppEvent) : SE (list AppEvent) unit := λ l, (l ++ [e], Ok tt).

Definition app_state_event (m : Mutation) : SE (list AppEvent) unit :=
  mapped ← se_lift (app_state_mutation_to_event m);
  match mapped with Some e => emit_app_event e | None => mret tt end.

(** [_emit_app_state_events], over the events emitted so far. *)
Definition _emit_app_state_events (mutations : list Mutation) : SE (list AppEvent) unit :=
  se_fold (λ _ m, app_state_event m) tt mutations.

(** Each mutation with an event has it emitted, in order, until one raises; the events of the
    ones after it are lost. *)
Lemma app_state_events_emitted ms : ∀ evs, ∃ done rest,
  ms = done ++ rest ∧ Forall (λ m, is_ok (app_state_mutation_to_event m) = true) done ∧
  _emit_app_state_events ms evs =
    (evs ++ omap (λ m, ok_or None (app_state_mutation_to_event m)) done,
     match rest with [] => Ok tt | m :: _ => _ ← app_state_mutation_to_event m; Ok tt end) ∧
  match rest with [] => True | m :: _ => is_ok (app_state_mutation_to_event m) = false end.
Proof.
  induction ms as [|m ms IH]; intros evs.
  { exists [], []. split_and!; try done. by rewrite app_nil_r. }
  destruct (app_state_mutation_to_event m) as [o|x] eqn:Em.
  - set (evs1 := evs ++ from_option (λ e, [e]) [] o). destruct (IH evs1) as (d & r & -> & Hd & He & Hr). exists (m :: d), r.
    split; [done|]. split; [constructor; [by rewrite Em|exact Hd]|]. split; [|exact Hr]. unfold _emit_app_state_events in *. cbn [se_fold].
    assert (app_state_event m evs = (evs1, Ok tt)) as Hm.
    { unfold app_state_event, evs1. rewrite Em, se_bind_lift. destruct o; [done|]. cbn. by rewrite app_nil_r. }
    rewrite (se_bind_eq _ _ _ _ _ Hm), He. f_equal. unfold evs1. cbn [omap list_omap]. rewrite Em. cbn.
    destruct o; cbn; by rewrite <- app_assoc.
  - exists [], (m :: ms). split; [done|]. split; [constructor|]. split; [|by rewrite Em]. unfold _emit_app_state_events. cbn [se_fold].
    assert (app_state_event m evs = (evs, Raise x)) as Hm by (unfold app_state_event; by rewrite Em).
    rewrite (se_bind_raise _ _ _ _ _ Hm), Em. cbn. by rewrite app_nil_r.
Qed.
End AppStateEvents.

(** ** All of them *)

Inductive call :=
  | SendText (chat : JID) (text : str) (reply_to : option ReplyTo)
  | SendGroupText (group : JID) (text : str) (participants : list JID)
  | GetGroupInfo (group : JID)
  | SendImage (chat : JID) (data : bytes) (mimetype caption : str) (width height : Z)
  | SendVideo (chat : JID) (data : bytes) (mimetype caption : str)
  | SendSticker (chat : JID) (data : bytes) (mimetype : str)
  | SendAudio (chat : JID) (data : bytes) (mimetype : str) (ptt : bool)
  | SendDocument (chat : JID) (data : bytes) (mimetype filename caption : str)
  | SendReaction (chat : JID) (message_id emoji : str) (from_me : bool)
  | EditMessage (chat : JID) (message_id new_text : str) (from_me : bool)
  | RevokeMessage (chat : JID) (message_id : str) (from_me : bool) (participant : option JID)
  | DownloadMedia (info : MediaInfo)
  | MarkRead (chat : JID) (message_ids : list str) (sender : option JID)
  | SendPresence (state : str)
  | SubscribePresence (jid : JID)
  | SendChatPresence (jid : JID) (state : str) (media : option str).

Inductive CallResult := AMessage (m : Message) | ABytes (b : bytes) | AGroup (g : Groups.GroupInfo) | ADone.

Section Run.
Context {W : Type} {WI : Wires W} {U : UnicodeDB} {Zl : Zlib}.

(** [now] and [now_ms] are the clock, in seconds and in milliseconds. *)
Definition run_call (c : Client) (now now_ms : Z) (k : call) : SE W CallResult :=
  let sent (m : SE W Message) := x ← m; mret (AMessage x) in
  let told (m : SE W unit) := _ ← m; mret ADone in
  match k with
  | SendText chat text reply_to => sent (send_text c chat text reply_to)
  | SendGroupText group text participants => sent (send_group_text c group text participants)
  | GetGroupInfo group => g ← get_group_info c group; mret (AGroup g)
  | SendImage chat data mimetype caption width height => sent (send_image c chat data mimetype caption width height)
  | SendVideo chat data mimetype caption => sent (send_video c chat data mimetype caption)
  | SendSticker chat data mimetype => sent (send_sticker c chat data mimetype)
  | SendAudio chat data mimetype ptt => sent (send_audio c chat data mimetype ptt)
  | SendDocument chat data mimetype filename caption => sent (send_document c chat data mimetype filename caption)
  | SendReaction chat message_id emoji from_me => sent (send_reaction c now_ms chat message_id emoji from_me)
  | EditMessage chat message_id new_text from_me => sent (edit_message c now_ms chat message_id new_text from_me)
  | RevokeMessage chat message_id from_me participant => sent (revoke_message c now_ms chat message_id from_me participant)
  | DownloadMedia info => b ← download_media c info; mret (ABytes b)
  | MarkRead chat message_ids sender => told (mark_read c now chat message_ids sender)
  | SendPresence state => told (send_presence c state)
  | SubscribePresence jid => told (subscribe_presence c jid)
  | SendChatPresence jid state media => told (send_chat_presence c jid state media)
  end.

Lemma need_off c o w : c_connected c = false → need (W := W) c o w = (w, Raise NotConnected).
Proof. intros H. unfold need. by rewrite H. Qed.

Lemma need_on c n w : c_connected c = true → need (W := W) c (Some n) w = (w, Ok tt).
Proof. intros H. unfold need. by rewrite H. Qed.

(** Without a connection nothing reaches the wires. *)
Lemma calls_need_connection c now now_ms k w : c_connected c = false →
  run_call c now now_ms k w = (w, Raise NotConnected) ∨
  (∃ chat ids sender x, k = MarkRead chat ids sender ∧ Presence.build_read_receipt chat ids sender now = Raise x ∧
    run_call c now now_ms k w = (w, Raise x)).
Proof.
  intros H. destruct k; try (left; cbn [run_call];
    unfold send_text, send_group_text, get_group_info, send_image, send_video, send_sticker, send_audio, send_document, send_upload,
      send_reaction, edit_message, revoke_message, _send_protocol_edit, download_media, send_presence, subscribe_presence,
      _send_stanza, need_wired;
    rewrite !se_bind_assoc; unfold mbind, se_bind; by rewrite (need_off _ _ _ H)).
  - cbn [run_call]. unfold mark_read. destruct (Presence.build_read_receipt chat message_ids sender now) as [n|x] eqn:En.
    + left. unfold _send_stanza. rewrite se_bind_assoc, se_bind_lift, se_bind_assoc. unfold mbind, se_bind. by rewrite (need_off _ _ _ H).
    + right. exists chat, message_ids, sender, x. by split_and!.
  - left. cbn [run_call]. unfold send_chat_presence. rewrite se_bind_assoc. destruct (c_device c) as [d|]; [|done].
    cbn [some_or]. rewrite se_bind_lift. unfold _send_stanza. rewrite se_bind_assoc. unfold mbind, se_bind. by rewrite (need_off _ _ _ H).
Qed.
End Run.

(** ** What the recipient is told *)

Definition json_text (v : json) : str := match v with JStr s => s | _ => [] end.

(** The attachment of an upload. *)
Definition attachment (up : UploadResult) (kind media_type mimetype filename caption : str) (ptt : bool) : MediaAttachment :=
  mkAttachment kind (json_text (up_direct_path up)) (up_media_key up) (up_file_sha256 up) (up_file_enc_sha256 up) media_type
    (up_file_length up) mimetype filename caption ptt [].

(** What is quoted by a reply; a message without an id cannot be. *)
Definition quote_of (reply_to : option ReplyTo) : option QuotedMessage :=
  match reply_to with
  | Some (ReplyMessage m) =>
      if truthy (msg_id m) then Some (mkQuoted (msg_id m) (bare_jid (msg_sender m)) (msg_text m)) else None
  | Some (ReplyKey k) =>
      if truthy (str_of (mk_id k)) then Some (mkQuoted (str_of (mk_id k)) (str_of (mk_participant k)) []) else None
  | None => None
  end.

(** The message calls: the chat, what is uploaded first, the stanza's [edit] attribute. *)
Definition chat_of (k : call) : option JID :=
  match k with
  | SendText chat _ _ | SendImage chat _ _ _ _ _ | SendVideo chat _ _ _ | SendSticker chat _ _ | SendAudio chat _ _ _
  | SendDocument chat _ _ _ _ | SendReaction chat _ _ _ | EditMessage chat _ _ _ | RevokeMessage chat _ _ _ => Some chat
  | _ => None
  end.

Definition upload_of (k : call) : option (bytes * str) :=
  match k with
  | SendImage _ data _ _ _ _ | SendSticker _ data _ => Some (data, MEDIA_IMAGE)
  | SendVideo _ data _ _ => Some (data, MEDIA_VIDEO)
  | SendAudio _ data _ _ => Some (data, MEDIA_AUDIO)
  | SendDocument _ data _ _ _ => Some (data, MEDIA_DOCUMENT)
  | _ => None
  end.

Definition edit_of (k : call) : option str :=
  match k with
  | EditMessage _ _ _ _ => Some (u "1")
  | RevokeMessage _ _ from_me _ => Some (u (if from_me then "7" else "8"))
  | _ => None
  end.

(** The event that the caller means the recipient to have: [from] the caller, under the
    message's [id], at the stanza's time [t]. *)
Definition meant (k : call) (now_ms : Z) (up : UploadResult) (from : JID) (id : str) (t : Z) : option Event :=
  let said text media quoted := Some (EvMessage (mkMessage id from from text t false media quoted)) in
  let sent a := said [] (Some a) None in
  match k with
  | SendText _ text reply_to => said text None (quote_of reply_to)
  | SendImage _ _ mimetype caption _ _ => sent (attachment up (u "image") MEDIA_IMAGE mimetype [] caption false)
  | SendVideo _ _ mimetype caption => sent (attachment up (u "video") MEDIA_VIDEO mimetype [] caption false)
  | SendSticker _ _ mimetype => sent (attachment up (u "sticker") MEDIA_IMAGE mimetype [] [] false)
  | SendAudio _ _ mimetype ptt => sent (attachment up (u "audio") MEDIA_AUDIO mimetype [] [] ptt)
  | SendDocument _ _ mimetype filename caption => sent (attachment up (u "document") MEDIA_DOCUMENT mimetype filename caption false)
  | SendReaction _ message_id emoji from_me => Some (EvReaction (mkReaction from from message_id emoji from_me now_ms))
  | EditMessage _ message_id new_text _ => Some (EvEdit (mkEdit from from message_id new_text t))
  | RevokeMessage _ message_id _ _ => Some (EvRevoke (mkRevoke from from message_id t))
  | _ => None
  end.

Section Understood.
Context {W : Type} {WI : Wires W} {WL : WiresLaws W} {U : UnicodeDB} {Zl : Zlib}.

Lemma need_inv c o (w w' : W) x : need c o w = (w', Ok x) → w' = w ∧ c_connected c = true.
Proof. unfold need. destruct (c_connected c), (bool_decide (o = None)); cbn; intros [=]; by subst. Qed.

(** A call that returned got through its guard. *)
Lemma guarded_inv {A} c (m : SE W A) w w' x : (_ ← need_wired c; m) w = (w', Ok x) → c_connected c = true ∧ m w = (w', Ok x).
Proof. intros H. apply se_bind_Ok_inv in H as (w0 & [] & Hn & H). by apply need_inv in Hn as [-> Hc]. Qed.

(** The bodies say what is meant. *)
Lemma set_json_str_Some v o : set_json_str v = Ok o → o = Some (json_text v).
Proof. destruct v; cbn; try done. apply set_str_Some. Qed.

Lemma set_if_Some s o : set_if s = Ok o → str_of o = s.
Proof. unfold set_if. destruct s; cbn; [by intros [= <-]|by intros ->%set_str_Some]. Qed.

Lemma set_int64_Some z o : set_int64 z = Ok o → o = Some z.
Proof. unfold set_int64. case_match; [by intros [= <-]|done]. Qed.

Lemma text_said text reply_to p from id t now_ms up chat : text_proto text reply_to = Ok p →
  meant (SendText chat text reply_to) now_ms up from id t = Some (event_of from id t p).
Proof.
  unfold text_proto, _build_reply_proto, conversation_proto. intros H. destruct reply_to as [[m|k]|].
  - apply bind_Ok_inv in H as (o & ->%set_str_Some & H). apply bind_Ok_inv in H as (ci & Hci & H). injection H as <-.
    apply bind_Ok_inv in Hci as (o & ->%set_str_Some & Hci). apply bind_Ok_inv in Hci as (o & ->%set_str_Some & Hci).
    apply bind_Ok_inv in Hci as (q & Hq & Hci). injection Hci as <-. cbn. unfold event_of, _extract_quoted. cbn.
    destruct (msg_text m) as [|ch text'] eqn:Em; cbn in Hq.
    + injection Hq as <-. cbn. by destruct (msg_id m).
    + apply bind_Ok_inv in Hq as (qm & Hq & Hq'). apply bind_Ok_inv in Hq as (o & ->%set_str_Some & Hq). injection Hq as <-. injection Hq' as <-.
      cbn. by destruct (msg_id m).
  - apply bind_Ok_inv in H as (o & ->%set_str_Some & H). apply bind_Ok_inv in H as (ci & Hci & H). injection H as <-.
    apply bind_Ok_inv in Hci as (o & ->%set_str_Some & Hci). apply bind_Ok_inv in Hci as (o & Ho & Hci). injection Hci as <-.
    apply set_if_Some in Ho. cbn. unfold event_of, _extract_quoted. cbn. rewrite Ho. by destruct (str_of (mk_id k)).
  - apply bind_Ok_inv in H as (o & ->%set_str_Some & H). injection H as <-. cbn. unfold event_of. cbn. by destruct text.
Qed.

Lemma reaction_said p from id t now_ms up chat mid emoji from_me : reaction_proto chat mid emoji from_me now_ms = Ok p →
  meant (SendReaction chat mid emoji from_me) now_ms up from id t = Some (event_of from id t p).
Proof.
  unfold reaction_proto. intros H. apply bind_Ok_inv in H as (o & _ & H). apply bind_Ok_inv in H as (o1 & ->%set_str_Some & H).
  apply bind_Ok_inv in H as (o2 & ->%set_str_Some & H). apply bind_Ok_inv in H as (o3 & ->%set_int64_Some & H). by injection H as <-.
Qed.

Lemma edit_said p a from id t now_ms up chat mid text from_me : protocol_edit_proto chat mid from_me (Some text) false None now_ms = Ok (p, a) →
  a = u "1" ∧ meant (EditMessage chat mid text from_me) now_ms up from id t = Some (event_of from id t p).
Proof.
  unfold protocol_edit_proto, conversation_proto. intros H. cbn [str_of default] in H.
  apply bind_Ok_inv in H as ([[[ed ts] ty] at'] & He & H). apply bind_Ok_inv in He as (q & Hq & He). apply bind_Ok_inv in Hq as (o & ->%set_str_Some & Hq).
  injection Hq as <-. apply bind_Ok_inv in He as (o & ->%set_int64_Some & He). injection He as <- <- <- <-.
  apply bind_Ok_inv in H as (o & _ & H). apply bind_Ok_inv in H as (o2 & ->%set_str_Some & H). apply bind_Ok_inv in H as (o3 & _ & H).
  injection H as <- <-. split; [done|]. cbn. unfold event_of, amendment. cbn. by destruct text.
Qed.

Lemma revoke_said p a from id t now_ms up chat mid from_me part : protocol_edit_proto chat mid from_me None true part now_ms = Ok (p, a) →
  a = u (if from_me then "7" else "8") ∧ meant (RevokeMessage chat mid from_me part) now_ms up from id t = Some (event_of from id t p).
Proof.
  unfold protocol_edit_proto. intros H. apply bind_Ok_inv in H as ([[[ed ts] ty] at'] & He & H). injection He as <- <- <- <-.
  apply bind_Ok_inv in H as (o & _ & H). apply bind_Ok_inv in H as (o2 & ->%set_str_Some & H). apply bind_Ok_inv in H as (o3 & _ & H).
  injection H as <- <-. by split.
Qed.

Ltac upload_said H :=
  apply bind_Ok_inv in H as (? & _ & H); apply bind_Ok_inv in H as (? & ->%set_json_str_Some & H);
  apply bind_Ok_inv in H as (? & ->%set_uint_Some & H); apply bind_Ok_inv in H as (? & ->%set_str_Some & H).

Lemma image_said up mime cap width height p from id t now_ms chat data : image_proto up mime cap width height = Ok p →
  meant (SendImage chat data mime cap width height) now_ms up from id t = Some (event_of from id t p).
Proof.
  unfold image_proto. intros H. upload_said H. apply bind_Ok_inv in H as (o & <-%set_if_Some & H).
  apply bind_Ok_inv in H as (? & _ & H). apply bind_Ok_inv in H as (? & _ & H). by injection H as <-.
Qed.

Lemma video_said up mime cap p from id t now_ms chat data : video_proto up mime cap = Ok p →
  meant (SendVideo chat data mime cap) now_ms up from id t = Some (event_of from id t p).
Proof. unfold video_proto. intros H. upload_said H. apply bind_Ok_inv in H as (o & <-%set_if_Some & H). by injection H as <-. Qed.

Lemma sticker_said up mime p from id t now_ms chat data : sticker_proto up mime = Ok p →
  meant (SendSticker chat data mime) now_ms up from id t = Some (event_of from id t p).
Proof. unfold sticker_proto. intros H. upload_said H. by injection H as <-. Qed.

Lemma audio_said up mime ptt p from id t now_ms chat data : audio_proto up mime ptt = Ok p →
  meant (SendAudio chat data mime ptt) now_ms up from id t = Some (event_of from id t p).
Proof. unfold audio_proto. intros H. upload_said H. injection H as <-. by destruct ptt. Qed.

Lemma document_said up mime name cap p from id t now_ms chat data : document_proto up mime name cap = Ok p →
  meant (SendDocument chat data mime name cap) now_ms up from id t = Some (event_of from id t p).
Proof.
  unfold document_proto. intros H. upload_said H. apply bind_Ok_inv in H as (o & <-%set_if_Some & H).
  apply bind_Ok_inv in H as (o' & <-%set_if_Some & H). by injection H as <-.
Qed.

(** An upload call that returned: the guard, the upload, the body, the message. *)
Lemma send_upload_inv c data type body chat text (w w' : W) m : send_upload c data type body chat text w = (w', Ok m) →
  c_connected c = true ∧ ∃ w1 up p, w_upload data type w = (w1, Ok up) ∧ body up = Ok p ∧ w_send_message chat p text None w1 = (w', Ok m).
Proof.
  unfold send_upload. intros H. apply guarded_inv in H as [Hc H].
  apply se_bind_Ok_inv in H as (w1 & up & Hu & H). destruct (body up) as [p|x] eqn:Ep; [|done]. rewrite se_bind_lift in H. eauto 8.
Qed.

Lemma sent_inv (r : SE W Message) (w w' : W) a : (x ← r; mret (AMessage x)) w = (w', Ok a) → ∃ m, a = AMessage m ∧ r w = (w', Ok m).
Proof. intros H. apply se_bind_Ok_inv in H as (w1 & m & Hm & H). injection H as <- <-. by exists m. Qed.
End Understood.

(** C15: The recipient is told what the caller of the client meant: a message call that returns was
    made on a connected client and has sent, after its upload if it has one, one message to
    the given chat, with the [edit] attribute of its kind, whose body is, to the reader of
    whoever receives it (the event of [message_arrives]), the text with what it quotes, the
    attachment of the upload, the reaction, the edit or the revocation that was asked for. *)
Theorem calls_understood {W : Type} {WI : Wires W} {WL : WiresLaws W} {U : UnicodeDB} {Zl : Zlib} (c : Client) (now now_ms : Z)
    (k : call) (chat : JID) (w w' : W) (a : CallResult) (up0 : UploadResult) :
  chat_of k = Some chat → run_call c now now_ms k w = (w', Ok a) →
  c_connected c = true ∧ ∃ m up w1 p text, a = AMessage m ∧
    match upload_of k with Some (data, type) => w_upload data type w = (w1, Ok up) | None => w1 = w end ∧
    w_send_message chat p text (edit_of k) w1 = (w', Ok m) ∧
    ∀ from id t, meant k now_ms up from id t = Some (event_of from id t p).
Proof.
  intros Hk H. destruct k; cbn [chat_of] in Hk; try done; injection Hk as ->; cbn [run_call] in H; apply sent_inv in H as (m & -> & H).
  2-6: apply send_upload_inv in H as (Hc & w1 & up & p & Hu & Hp & H); split; [exact Hc|]; exists m, up, w1, p; eexists;
    (split; [reflexivity|]); (split; [exact Hu|]); (split; [exact H|]); intros;
    first [by apply image_said|by apply video_said|by apply sticker_said|by apply audio_said|by apply document_said].
  all: apply guarded_inv in H as [Hc H]; split; [exact Hc|].
  - rewrite w_send_text_eq in H. destruct (text_proto text reply_to) as [p|x] eqn:Ep; [|done]. rewrite se_bind_lift in H.
    exists m, up0, w, p, text. split_and!; try done. intros. by apply text_said.
  - destruct (reaction_proto _ _ _ _ _) as [p|x] eqn:Ep; [|done]. rewrite se_bind_lift in H.
    exists m, up0, w, p, []. split_and!; try done. intros. by apply reaction_said.
  - destruct (protocol_edit_proto _ _ _ _ _ _ _) as [[p e]|x] eqn:Ep; [|done]. rewrite se_bind_lift in H.
    destruct (edit_said _ _ chat [] 0 now_ms up0 _ _ _ _ Ep) as [-> _]. exists m, up0, w, p, []. split_and!; try done.
    intros from id t. by destruct (edit_said _ _ from id t now_ms up0 _ _ _ _ Ep).
  - destruct (protocol_edit_proto _ _ _ _ _ _ _) as [[p e]|x] eqn:Ep; [|done]. rewrite se_bind_lift in H.
    destruct (revoke_said _ _ chat [] 0 now_ms up0 _ _ _ _ Ep) as [-> _]. exists m, up0, w, p, []. split_and!; try done.
    intros from id t. by destruct (revoke_said _ _ from id t now_ms up0 _ _ _ _ Ep).
Qed.

(** ** The wires of a live connection

    The sender's state with the downloader's cached connection; [r] and [gd] are what a call
    draws, [e1] and [e2] the surroundings of its attempts, [send_iq], [http_post] and
    [http_get] the answers of the server and of the CDN during it. *)

Section Live.
Context {S I L K G : Type} {SS : SessionStore S} {IS : IdentityStore I} {LM : LidMap L} {KS : PreKeyStore K} {GS : SenderKeys G}.
Context {X : X25519} {E : XEdDSA} {HK : Hkdf} {HM : Hmac} {AES : AesCbc} {PK : Pkcs7} {WP : WhisperProto} {SP : SenderKeyProto}.
Context {U : UnicodeDB} {Zl : Zlib} {C : MessageCodec} {JS : JsonLoads}.
Context (sp : SenderParams) (e1 e2 : Surroundings (SenderState S I L K G)) (r : Draws) (gd : GroupDraws).
Context (send_iq : Node → result Node) (http_post : str → bytes → result bytes) (http_get : str → result bytes).
Context (media_key : bytes) (iq_id : str).

Definition Live : Type := SenderState S I L K G * option MediaConn.

Definition on_sender {A} (m : SE (SenderState S I L K G) A) : SE Live A := λ '(s, conn), let '(s', x) := m s in ((s', conn), x).
Definition on_conn {A} (m : SE (option MediaConn) A) : SE Live A := λ '(s, conn), let '(conn', x) := m conn in ((s, conn'), x).

Definition live_wires : Wires Live := {|
  w_send_message chat p text edit := on_sender (send_message sp e1 e2 r chat p text None edit);
  w_send_text chat text reply_to := on_sender (Sender.send_text sp e1 e2 r chat text reply_to);
  w_send_group_text group text participants := on_sender (Sender.send_group_text sp e1 r gd group text participants);
  w_upload data media_type := se_lift (upload send_iq http_post media_key iq_id data media_type);
  w_download info := on_conn (download send_iq http_get iq_id info);
  w_new_id := on_sender (new_message_id (dr_clock r) (dr_ids r));
  w_send_iq node := se_lift (send_iq node);
  w_send frame := on_sender (transport_send e1 frame)
|}.

Lemma live_wires_laws : WiresLaws Live (WI := live_wires).
Proof.
  split. intros chat text reply_to [s conn]. cbn. unfold Sender.send_text. change (match reply_to with Some x => _ | None => _ end) with (text_proto text reply_to).
  by destruct (text_proto text reply_to).
Qed.
End Live.

Module CallsDemo.
Import ReceiverDemo ClientDemo AttachmentDemo.
#[local] Existing Instances loads.

(** A client that has logged in, on Alice's device; the server asks for one retry. *)
Definition online : Client := Eval vm_compute in (run_steps resumed [Connect (logging_in good_login)]).
Definition fresh_draws : GroupDraws := mkGroupDraws [] [] [].
#[local] Instance wires : Wires (Live (S := InMemorySessionStore) (I := InMemoryIdentityStore) (L := InMemoryLidMap) (K := InMemoryPreKeyStore) (G := SenderKeyStore)) :=
  live_wires (params (alice_dev 1)) asks_retry acks draws fresh_draws (λ _, Ok conn_answer) post get (replicate 32 (mkb 7)) (u "1").
#[local] Instance wires_laws : WiresLaws _ (WI := wires) := live_wires_laws _ _ _ _ _ _ _ _ _ _.

Definition greet : call := SendText (jid "bob") (u "hello") None.
Definition show : call := SendImage (jid "bob") picture (u "image/jpeg") (u "hi") 640 0.
Definition calling (k : call) : Live * result CallResult := run_call online 0 0 k (start empty, None).

Lemma calls_understood_witness :
  (∃ p m t, w_send_message (jid "bob") p t None (start empty, None) = ((calling greet).1, Ok m) ∧
     event_of (jid "alice") id 5 p = EvMessage (mkMessage id (jid "alice") (jid "alice") (u "hello") 5 false None None)) ∧
  ∃ p m t a, w_send_message (jid "bob") p t None (start empty, None) = ((calling show).1, Ok m) ∧
     event_of (jid "alice") id 5 p = EvMessage (mkMessage id (jid "alice") (jid "alice") [] 5 false (Some a) None) ∧
     ma_direct_path a = u "/v/1" ∧ ma_caption a = u "hi".
Proof.
  assert (∀ k, is_ok (calling k).2 = true → calling k = ((calling k).1, Ok (ok_or ADone (calling k).2))) as Hok.
  { intros k Hk. destruct (calling k) as [w [a|x]]; [reflexivity|discriminate Hk]. }
  split.
  - destruct (calls_understood online 0 0 greet (jid "bob") (start empty, None) _ _ up eq_refl (Hok greet ltac:(vm_compute; reflexivity)))
      as (_ & m & up' & w1 & p & t & _ & Hw & Hs & He). cbn [upload_of greet] in Hw. subst w1. specialize (He (jid "alice") id 5).
    exists p, m, t. split; [exact Hs|]. by injection He as <-.
  - destruct (calls_understood online 0 0 show (jid "bob") (start empty, None) _ _ up eq_refl (Hok show ltac:(vm_compute; reflexivity)))
      as (_ & m & up' & w1 & p & t & _ & Hw & Hs & He). specialize (He (jid "alice") id 5).
    assert (w_upload picture MEDIA_IMAGE (start empty, None) = ((start empty, None), Ok up)) as Hup by (vm_compute; reflexivity).
    cbn [upload_of show] in Hw. rewrite Hup in Hw. injection Hw as <- <-.
    exists p, m, t. eexists. split; [exact Hs|]. injection He as He. rewrite <- He. split; [reflexivity|]. split; reflexivity.
Defined.
End CallsDemo.
